(** * Lapis: a shallow embedding of the interpreter core

    The development follows the Python sources of the Lapis interpreter:
    [source_map.py], [lexer.py], [environment.py] and [interpreter.py].
    Python objects with identity (lists, dictionaries, environments,
    functions, classes, instances) live in an explicit heap; immediate
    values (null, booleans, integers, floats, strings) are plain data.
    Python exceptions are an explicit result type.  Recursive interpreter
    functions take a fuel argument that bounds the depth of the recursion.

    Part I holds the definitions, Part II the lemmas and theorems. *)

From Stdlib Require Import ZArith Zpower String Ascii List Lia Bool Sorted.
From Corelib Require Import SpecFloat.
From stdpp Require Import base option list gmap strings pretty.

Local Open Scope Z_scope.

(* ===================================================================== *)
(** * Part I: definitions                                                *)
(* ===================================================================== *)

(** ** Host (Python) exceptions raised by library code *)

Inductive PyExc :=
| ValueError
| IndexError
| KeyError
| AttributeError
| PyTypeError
| ZeroDivisionError
| OverflowError
| FileNotFoundError
| RecursionError.

Inductive result (E A : Type) :=
| Ok (a : A)
| Err (e : E).
Arguments Ok {E A} a.
Arguments Err {E A} e.

(** Python's [len] on strings and lists, as an integer. *)
Definition slen (s : string) : Z := Z.of_nat (String.length s).
Definition llen {A} (l : list A) : Z := Z.of_nat (List.length l).

(** Python's subscript [l[k]] on a list: negative indices count from the
    end, anything out of range is an [IndexError]. *)
Definition py_index {A} (l : list A) (k : Z) : option A :=
  if k <? 0 then
    (if - k <=? llen l then l !! Z.to_nat (llen l + k) else None)
  else l !! Z.to_nat k.

(** ** source_map.py *)

Module SourceMap.

Record Span := mkSpan { file_id : Z; span_start : Z; span_end : Z }.

Record Position := mkPosition { line : Z; column : Z }.

Record SourceFile := mkSourceFile {
  sf_file_id : Z;
  sf_path : string;
  content : string;
  line_starts : list Z
}.

Definition newline : ascii := "010"%char.

(** The loop of [_compute_line_starts]: [i] is the index of the first
    character of [s] inside the whole content. *)
Fixpoint line_starts_from (i : Z) (s : string) : list Z :=
  match s with
  | EmptyString => []
  | String c rest =>
      if Ascii.eqb c newline
      then (i + 1) :: line_starts_from (i + 1) rest
      else line_starts_from (i + 1) rest
  end.

Definition _compute_line_starts (content : string) : list Z :=
  0 :: line_starts_from 0 content.

(** [SourceFile.__init__] *)
Definition new_SourceFile (fid : Z) (path content : string) : SourceFile :=
  mkSourceFile fid path content (_compute_line_starts content).

(** The [for ... else] scan of [offset_to_position]: the index of the first
    line start that is greater than [offset], if there is one. *)
Fixpoint first_greater (ls : list Z) (offset : Z) (i : Z) : option Z :=
  match ls with
  | [] => None
  | line_start :: rest =>
      if offset <? line_start then Some i
      else first_greater rest offset (i + 1)
  end.

Definition offset_to_position (sf : SourceFile) (offset : Z)
  : result PyExc Position :=
  if (offset <? 0) || (slen (content sf) <? offset) then Err ValueError
  else
    let line_num :=
      match first_greater (line_starts sf) offset 0 with
      | Some i => i
      | None => llen (line_starts sf)
      end in
    match py_index (line_starts sf) (line_num - 1) with
    | None => Err IndexError
    | Some line_start => Ok (mkPosition line_num (offset - line_start + 1))
    end.

Definition span_to_positions (sf : SourceFile) (sp : Span)
  : result PyExc (Position * Position) :=
  if negb (file_id sp =? sf_file_id sf) then Err ValueError
  else
    match offset_to_position sf (span_start sp) with
    | Err e => Err e
    | Ok start_pos =>
        match offset_to_position sf (Z.max (span_start sp) (span_end sp - 1)) with
        | Err e => Err e
        | Ok end_pos => Ok (start_pos, end_pos)
        end
    end.

(** [SourceMap]: the registry of files.  [os.path.abspath] is the
    [abspath] argument of [add_file]. *)
Record SourceMap := mkSourceMap {
  files : gmap Z SourceFile;
  path_to_id : gmap string Z;
  next_id : Z
}.

Definition empty_SourceMap : SourceMap := mkSourceMap ∅ ∅ 1.

Definition add_file (abspath : string -> string) (sm : SourceMap)
    (path content : string) : Z * SourceMap :=
  let abs_path := abspath path in
  match path_to_id sm !! abs_path with
  | Some fid => (fid, sm)
  | None =>
      let fid := next_id sm in
      (fid, mkSourceMap (<[fid := new_SourceFile fid abs_path content]> (files sm))
                        (<[abs_path := fid]> (path_to_id sm))
                        (next_id sm + 1))
  end.

Definition get_file (sm : SourceMap) (fid : Z) : option SourceFile :=
  files sm !! fid.

(** The source maps a run can reach: the empty one and what [add_file]
    makes of a reachable one. *)
Inductive reachable (abspath : string -> string) : SourceMap -> Prop :=
| reachable_empty : reachable abspath empty_SourceMap
| reachable_add sm path content :
    reachable abspath sm ->
    reachable abspath (snd (add_file abspath sm path content)).

End SourceMap.

(** ** Python numbers

    Python's [int] is an unbounded integer ([Z]); its [float] is an IEEE 754
    binary64 number, here [spec_float] with precision 53 and maximal
    exponent 1024, rounded to nearest even as the host does. *)

Module Py.

Definition float := spec_float.

Definition fprec : Z := 53.
Definition femax : Z := 1024.

Definition float_of_Z_exp (m e : Z) : float := binary_normalize fprec femax m e false.

Definition fadd : float -> float -> float := SFadd fprec femax.
Definition fsub : float -> float -> float := SFsub fprec femax.
Definition fmul : float -> float -> float := SFmul fprec femax.
Definition fdiv : float -> float -> float := SFdiv fprec femax.
Definition fopp : float -> float := SFopp.

Definition fzero : float := S754_zero false.
Definition fone : float := float_of_Z_exp 1 0.

Definition is_nan (f : float) : bool :=
  match f with S754_nan => true | _ => false end.
Definition is_inf (f : float) : bool :=
  match f with S754_infinity _ => true | _ => false end.
Definition is_finite (f : float) : bool :=
  match f with S754_zero _ | S754_finite _ _ _ => true | _ => false end.
Definition fsign (f : float) : bool :=
  match f with
  | S754_zero s | S754_infinity s | S754_finite s _ _ => s
  | S754_nan => false
  end.
Definition with_sign (s : bool) (f : float) : float :=
  match f with
  | S754_zero _ => S754_zero s
  | S754_infinity _ => S754_infinity s
  | S754_finite _ m e => S754_finite s m e
  | S754_nan => S754_nan
  end.

(** [float.is_integer()] and [int(f)] *)
Definition float_is_integer (f : float) : bool :=
  match f with
  | S754_zero _ => true
  | S754_finite _ m e => if 0 <=? e then true else Zpos m mod 2 ^ (- e) =? 0
  | _ => false
  end.

Definition float_trunc (f : float) : option Z :=
  match f with
  | S754_zero _ => Some 0
  | S754_finite s m e =>
      Some (cond_Zopp s (if 0 <=? e then Zpos m * 2 ^ e else Zpos m / 2 ^ (- e)))
  | _ => None
  end.

(** The float nearest to [n / d] for [d > 0] (ties to even): the quotient
    is computed with more than 60 significant bits and a sticky bit, then
    rounded once.  An exact zero gets the sign [zero_sign]. *)
Definition float_of_ratio (zero_sign : bool) (n d : Z) : float :=
  if n =? 0 then S754_zero zero_sign
  else
    let a := Z.abs n in
    let k := 64 + Z.log2 d - Z.log2 a in
    let num := if 0 <=? k then a * 2 ^ k else a in
    let den := if 0 <=? k then d else d * 2 ^ (- k) in
    let q := num / den in
    let sticky := if num mod den =? 0 then 0 else 1 in
    let m := 2 * q + sticky in
    binary_normalize fprec femax (if n <? 0 then - m else m) (- k - 1) false.

(** [float(z)] for an integer: [OverflowError] (here [None]) when the
    nearest float would be infinite. *)
Definition float_of_int (z : Z) : option float :=
  let f := binary_normalize fprec femax z 0 false in
  if is_inf f then None else Some f.

(** [a / b] on two integers with [b <> 0] (true division): the correctly
    rounded quotient; [None] is [OverflowError]. *)
Definition int_true_divide (a b : Z) : option float :=
  let f := float_of_ratio (b <? 0) (if b <? 0 then - a else a) (Z.abs b) in
  if is_inf f then None else Some f.

(** Exact comparison of an integer with a float, as [float.__eq__] and
    friends do it; [None] when the float is a NaN. *)
Definition compare_int_float (a : Z) (f : float) : option comparison :=
  match f with
  | S754_nan => None
  | S754_infinity s => Some (if s then Gt else Lt)
  | S754_zero _ => Some (a ?= 0)
  | S754_finite s m e =>
      let v := cond_Zopp s (Zpos m) in
      Some (if 0 <=? e then a ?= v * 2 ^ e else a * 2 ^ (- e) ?= v)
  end.

(** [x % y] on floats with [y <> 0]: C's [fmod] is exact; Python then
    moves the result to the sign of the divisor. *)
Definition float_fmod (x y : float) : float :=
  match x, y with
  | S754_nan, _ | _, S754_nan => S754_nan
  | S754_infinity _, _ => S754_nan
  | _, S754_zero _ => S754_nan
  | _, S754_infinity _ => x
  | S754_zero s, _ => S754_zero s
  | S754_finite sx mx ex, S754_finite _ my ey =>
      let e := Z.min ex ey in
      let X := Zpos mx * 2 ^ (ex - e) in
      let Y := Zpos my * 2 ^ (ey - e) in
      binary_normalize fprec femax (cond_Zopp sx (X mod Y)) e sx
  end.

Definition float_mod (x y : float) : float :=
  let m := float_fmod x y in
  match m with
  | S754_zero _ => S754_zero (fsign y)
  | S754_nan => S754_nan
  | _ => if negb (Bool.eqb (fsign y) (fsign m)) then fadd m y else m
  end.

(** The decimal digits of a literal [ddd] or [ddd.ddd]. *)
Definition digit_value (c : ascii) : Z := Z.of_nat (nat_of_ascii c) - 48.

Fixpoint digits_value (acc : Z) (s : string) : Z :=
  match s with
  | EmptyString => acc
  | String c rest => digits_value (10 * acc + digit_value c) rest
  end.

(** [float(int_part + "." + frac_part)]: the float nearest to the decimal. *)
Definition float_of_decimal (int_part frac_part : string) : float :=
  float_of_ratio false
    (digits_value 0 (String.append int_part frac_part))
    (10 ^ slen frac_part).

End Py.

(** ** ast_nodes.py and the runtime data of environment.py / interpreter.py *)

Module Lapis.
Import SourceMap.
Export Py.

Inductive AccessModifier := PUBLIC | PRIVATE.

(** Values of literal tokens: [None], [True]/[False], numbers, strings. *)
Inductive literal :=
| LNone
| LBool (b : bool)
| LInt (z : Z)
| LFloat (f : float)
| LStr (s : string).

(** A part of a template literal: the tuple [(text, None)] or
    [(None, expression_text)] the lexer builds. *)
Inductive template_part :=
| TEXT (s : string)
| EXPR (source_text : string).

(** Expressions.  A node carries a span exactly when its Python class
    passes one to [ASTNode.__init__]; the other classes define [__init__]
    without calling it, so their objects have no [span] attribute at all. *)
#[local] Unset Elimination Schemes.

Inductive expr :=
| LiteralExpression (value : literal) (span : option Span)
| IdentifierExpression (name : string) (span : option Span)
| BinaryExpression (left : expr) (operator : string) (right : expr) (span : option Span)
| UnaryExpression (operator : string) (operand : expr)
| CallExpression (callee : expr) (arguments : list expr) (span : option Span)
| GetExpression (object : expr) (name : string)
| SetExpression (object : expr) (name : string) (value : expr)
| IndexExpression (object : expr) (index : expr)
| IndexSetExpression (object : expr) (index : expr) (value : expr)
| ArrayExpression (elements : list expr)
| DictionaryExpression (pairs : list (expr * expr))
| AssignmentExpression (name : string) (value : expr)
| LogicalExpression (left : expr) (operator : string) (right : expr)
| ThisExpression
| PostfixExpression (operand : expr) (operator : string)
| TemplateLiteralExpression (parts : list template_part) (span : option Span).

Inductive stmt :=
| ExpressionStatement (expression : expr)
| VarStatement (name : string) (initializer : option expr) (access_modifier : AccessModifier)
| BlockStatement (statements : list stmt)
| IfStatement (condition : expr) (then_branch : stmt) (else_branch : option stmt)
    (elif_branches : list (expr * stmt))
| WhileStatement (condition : expr) (body : stmt)
| ForStatement (variable : string) (iterable : expr) (body : stmt)
| ReturnStatement (value : option expr)
| FunctionStatement (name : string) (params : list string) (body : list stmt)
    (access_modifier : AccessModifier) (variadic_param : option string)
| ClassStatement (name : string) (methods : list stmt) (constructor : option stmt)
    (access_modifier : AccessModifier)
| PackageStatement (path : string) (imports : option (list string))
| BreakStatement
| ContinueStatement
| TryStatement (try_body : list stmt) (catch_clauses : list (option string * list stmt))
    (finally_body : option (list stmt))
| SwitchStatement (expression : expr) (cases : list (list expr * list stmt * bool)).

#[local] Set Elimination Schemes.

(** The fields of a [FunctionStatement], as [LapisFunction.declaration]
    keeps them. *)
Record FunctionDecl := mkFunctionDecl {
  fd_name : string;
  fd_params : list string;
  fd_body : list stmt;
  fd_access : AccessModifier;
  fd_variadic : option string
}.

Definition decl_of_stmt (s : stmt) : option FunctionDecl :=
  match s with
  | FunctionStatement n ps b a v => Some (mkFunctionDecl n ps b a v)
  | _ => None
  end.

(** [getattr(node, 'span')]: [None] when the object has no such attribute,
    [Some sp] for the attribute's value (which may be Python's [None]). *)
Definition node_span (e : expr) : option (option Span) :=
  match e with
  | LiteralExpression _ sp | IdentifierExpression _ sp
  | BinaryExpression _ _ _ sp | CallExpression _ _ sp
  | TemplateLiteralExpression _ sp => Some sp
  | ThisExpression => Some None
  | _ => None
  end.

(** *** Runtime values *)

(** A location of the heap.  (An abbreviation, so that the list lemmas
    see [nat] keys.) *)
Abbreviation loc := nat.

Inductive value :=
| VNone
| VBool (b : bool)
| VInt (z : Z)
| VFloat (f : float)
| VComplex (re im : float)
| VStr (s : string)
| VRef (l : loc).

Definition value_of_literal (l : literal) : value :=
  match l with
  | LNone => VNone
  | LBool b => VBool b
  | LInt z => VInt z
  | LFloat f => VFloat f
  | LStr s => VStr s
  end.

(** *** errors.py: diagnostics and the exceptions of a run *)

Inductive LapisErrorClass :=
| LexError | ParseError | TypeError | RuntimeError | ImportError | AccessError.

Record Diagnostic := mkDiagnostic {
  code : string;
  message : string;
  labels : list (Span * string);
  help : option string
}.

(** Everything Python can raise during a run.  [ReturnException],
    [BreakException] and [ContinueException] carry the control flow;
    [LapisRuntimeException] is what [Console.error] raises; [LapisError]
    is a structured diagnostic; [PyException] is an exception of the host
    itself. *)
Inductive exn :=
| ReturnException (value : value)
| BreakException
| ContinueException
| LapisRuntimeException (message : string)
| LapisError (cls : LapisErrorClass) (d : Diagnostic)
| PyException (cls : PyExc) (message : string).

Definition TYPE_MISMATCH_BINARY : string := "LAP3001".
Definition WRONG_ARITY : string := "LAP3004".
Definition NO_PROPERTY : string := "LAP3005".
Definition DIVISION_BY_ZERO : string := "LAP3008".
Definition UNDEFINED_VARIABLE : string := "LAP4001".
Definition ACCESS_VIOLATION : string := "LAP4002".
Definition IMPORT_ERROR : string := "LAP4003".
Definition INTERNAL_ERROR : string := "LAP9001".

(** [LapisError.from_simple(code, message, span)] *)
Definition from_simple (cls : LapisErrorClass) (code message : string) (span : Span) : exn :=
  LapisError cls (mkDiagnostic code message [(span, message)] None).

(** [SomeLapisError("text")]: the constructor expects a [Diagnostic]; given
    a string, [_format_simple_message] fails on [self.diagnostic.primary_span]
    and the host raises [AttributeError] instead of the intended error. *)
Definition LapisError_of_str (cls : LapisErrorClass) (text : string) : exn :=
  PyException AttributeError "'str' object has no attribute 'primary_span'".

Definition dummy_span : Span := mkSpan 1 0 1.
Definition dummy_span0 : Span := mkSpan 0 0 1.

(** [TypeError.cannot_add_types] *)
Definition cannot_add_types (expr_span left_span right_span : Span)
    (left_type right_type : string) : exn :=
  let message := ("cannot add " +:+ left_type +:+ " and " +:+ right_type)%string in
  let labels :=
    [ (expr_span, message);
      (left_span, ("left operand has type " +:+ left_type)%string);
      (right_span, ("right operand has type " +:+ right_type)%string) ] in
  let help_text :=
    if String.eqb left_type "number" && String.eqb right_type "string" then
      "convert the number to a string with string(x) or use string concatenation"
    else if String.eqb left_type "string" && String.eqb right_type "number" then
      "convert the string to a number with number(x) or use string concatenation"
    else if (String.eqb left_type "number" || String.eqb left_type "string")
         && (String.eqb right_type "number" || String.eqb right_type "string") then
      "ensure both operands are the same type (both numbers or both strings)"
    else "the + operator is only defined for numbers and strings" in
  LapisError TypeError (mkDiagnostic TYPE_MISMATCH_BINARY message labels (Some help_text)).

Definition is_member (x : string) (l : list string) : bool :=
  existsb (String.eqb x) l.

(** [TypeError.invalid_binary_operation] *)
Definition invalid_binary_operation (expr_span left_span right_span : Span)
    (operator left_type right_type : string) : exn :=
  let message := ("cannot use operator '" +:+ operator +:+ "' with " +:+ left_type
                  +:+ " and " +:+ right_type)%string in
  let labels :=
    [ (expr_span, message);
      (left_span, ("left operand has type " +:+ left_type)%string);
      (right_span, ("right operand has type " +:+ right_type)%string) ] in
  let help_text :=
    if is_member operator ["=="; "!="] then "equality operators work with any types"
    else if is_member operator ["<"; ">"; "<="; ">="] then
      "comparison operators require numeric operands"
    else ("operator '" +:+ operator +:+ "' requires numeric operands")%string in
  LapisError TypeError (mkDiagnostic TYPE_MISMATCH_BINARY message labels (Some help_text)).

(** [RuntimeError.undefined_variable] and [RuntimeError.division_by_zero] *)
Definition undefined_variable (span : Span) (name : string) : exn :=
  LapisError RuntimeError
    (mkDiagnostic UNDEFINED_VARIABLE ("undefined variable '" +:+ name +:+ "'")%string
       [(span, ("'" +:+ name +:+ "' not found")%string)]
       (Some ("declare the variable with 'var " +:+ name +:+ " = value;' before using it")%string)).

Definition division_by_zero (span : Span) : exn :=
  LapisError RuntimeError
    (mkDiagnostic DIVISION_BY_ZERO "division by zero" [(span, "division by zero")]
       (Some "ensure the denominator is not zero before dividing")).

(** [str(e)] of an exception.  For a [LapisError] this is the text of
    [_format_simple_message] without the [ at file:line:column] suffix that
    is appended when the primary span resolves in the source map. *)
Definition exn_str (e : exn) : string :=
  match e with
  | LapisError _ d => ("Error [" +:+ code d +:+ "]: " +:+ message d)%string
  | LapisRuntimeException m => m
  | PyException _ m => m
  | _ => ""
  end.


(** *** The heap of Python objects *)

Record EnvVariable := mkEnvVariable {
  var_value : value;
  var_access : AccessModifier
}.

(** Host callables: objects of the small classes with [arity()] and
    [call()] that [define_built_ins] and the [get_*_method] functions
    create. *)
Inductive builtin :=
| ModuleFunction (module name : string)
| NativePyCallFunction
| StringMethod (name : string) (string_value : string)
| NumberMethod (name : string) (number_value : value)
| BooleanMethod (name : string) (bool_value : bool)
| ArrayMethod (name : string) (array_value : loc).

Inductive obj :=
| OList (items : list value)
| ODict (entries : list (value * value))
| OEnvironment (enclosing : option loc) (values : gmap string EnvVariable)
| OLapisFunction (declaration : FunctionDecl) (closure : loc)
    (access_modifier : AccessModifier) (is_initializer : bool)
| OBoundMethod (instance : loc) (method : loc)
| OLapisClass (name : string) (methods : gmap string loc) (access_modifier : AccessModifier)
| OLapisInstance (klass : loc) (fields : gmap string value)
| OModule (name : string) (functions : gmap string loc)
| OBuiltin (b : builtin)
| OLapisRuntimeException (message : string) (original_exception : exn).

Abbreviation heap := (list obj).

(** *** The interpreter object and the state of a run *)

Record Interpreter := mkInterpreter {
  globals : loc;
  environment : loc;
  imported_files : list string
}.

Record state := mkState {
  st_heap : heap;
  stdout : list string;
  interp : Interpreter
}.

(** *** What the run takes from outside: the C library, the file system
    and the front end.

    [libm_pow] is C's [pow]; [complex_pow] the complex power Python falls
    back to for a negative base with a fractional exponent; [float_repr]
    is [repr] of a float.  [abspath] is [os.path.abspath].  [load_program]
    stands for reading a file and running [Lexer.tokenize] and
    [Parser.parse] on its text; [parse_template_expression] for
    [Lexer(text, "<template>").tokenize()] followed by
    [Parser(tokens).expression()]. *)
Inductive load_result :=
| FileMissing
| LoadError (e : exn)
| Loaded (program : list stmt).

Record Host := mkHost {
  libm_pow : float -> float -> float;
  complex_pow : float -> float -> float * float;
  float_repr : float -> string;
  abspath : string -> string;
  load_program : string -> load_result;
  parse_template_expression : string -> result exn expr
}.

(** *** The monad of the interpreter: state, exceptions, fuel *)

Inductive outcome (A : Type) :=
| Done (a : A)
| Raise (e : exn)
| OutOfFuel
| Unmodelled (what : string).
Arguments Done {A} a.
Arguments Raise {A} e.
Arguments OutOfFuel {A}.
Arguments Unmodelled {A} what.

Definition M (A : Type) : Type := state -> outcome A * state.

Definition ret {A} (a : A) : M A := fun st => (Done a, st).

Definition bind {A B} (c : M A) (k : A -> M B) : M B :=
  fun st =>
    match c st with
    | (Done a, st') => k a st'
    | (Raise e, st') => (Raise e, st')
    | (OutOfFuel, st') => (OutOfFuel, st')
    | (Unmodelled w, st') => (Unmodelled w, st')
    end.

Definition raise {A} (e : exn) : M A := fun st => (Raise e, st).
Definition out_of_fuel {A} : M A := fun st => (OutOfFuel, st).
Definition unmodelled {A} (what : string) : M A := fun st => (Unmodelled what, st).

Declare Scope lapis_scope.
Delimit Scope lapis_scope with lapis.
Notation "x <- c ;; k" := (bind c (fun x => k))
  (at level 100, c at next level, right associativity) : lapis_scope.
Notation "c ;;; k" := (bind c (fun _ => k))
  (at level 100, right associativity) : lapis_scope.
Local Open Scope lapis_scope.

(** [try: c  except <those e with handles e>: handler e] *)
Definition try_except {A} (c : M A) (handles : exn -> bool) (handler : exn -> M A) : M A :=
  fun st =>
    match c st with
    | (Raise e, st') => if handles e then handler e st' else (Raise e, st')
    | r => r
    end.

(** [try: c  finally: cleanup] for a cleanup that cannot fail. *)
Definition try_finally {A} (c : M A) (cleanup : state -> state) : M A :=
  fun st => let '(r, st') := c st in (r, cleanup st').

Definition get_state : M state := fun st => (Done st, st).
Definition get_heap : M heap := fun st => (Done (st_heap st), st).
Definition get_interp : M Interpreter := fun st => (Done (interp st), st).

Definition set_interp (i : Interpreter) : M unit :=
  fun st => (Done tt, mkState (st_heap st) (stdout st) i).

Definition with_environment (env : loc) (st : state) : state :=
  mkState (st_heap st) (stdout st)
    (mkInterpreter (globals (interp st)) env (imported_files (interp st))).

Definition set_environment (env : loc) : M unit :=
  fun st => (Done tt, with_environment env st).

(** Allocation of a fresh object: its location is the next free index. *)
Definition alloc (o : obj) : M loc :=
  fun st => (Done (List.length (st_heap st)),
             mkState (st_heap st ++ [o]) (stdout st) (interp st)).

Definition store (l : loc) (o : obj) : M unit :=
  fun st => (Done tt, mkState (<[l := o]> (st_heap st)) (stdout st) (interp st)).

(** [print(line)] *)
Definition print_line (line : string) : M unit :=
  fun st => (Done tt, mkState (st_heap st) (stdout st ++ [line]) (interp st)).

Fixpoint mapM {A B} (f : A -> M B) (l : list A) : M (list B) :=
  match l with
  | [] => ret []
  | x :: rest => y <- f x ;; ys <- mapM f rest ;; ret (y :: ys)
  end.

Fixpoint forM_ {A} (f : A -> M unit) (l : list A) : M unit :=
  match l with
  | [] => ret tt
  | x :: rest => f x ;;; forM_ f rest
  end.

(** *** Type tests of the host *)

Definition is_list (h : heap) (v : value) : bool :=
  match v with
  | VRef l => match h !! l with Some (OList _) => true | _ => false end
  | _ => false
  end.
Definition is_dict (h : heap) (v : value) : bool :=
  match v with
  | VRef l => match h !! l with Some (ODict _) => true | _ => false end
  | _ => false
  end.
(** [isinstance(v, (int, float))]: Python's [bool] is a subclass of [int]. *)
Definition is_int_or_float (v : value) : bool :=
  match v with VBool _ | VInt _ | VFloat _ => true | _ => false end.
(** [isinstance(v, int)] *)
Definition is_int (v : value) : bool :=
  match v with VBool _ | VInt _ => true | _ => false end.
Definition is_bool (v : value) : bool :=
  match v with VBool _ => true | _ => false end.
Definition is_str (v : value) : bool :=
  match v with VStr _ => true | _ => false end.

(** The integer a [bool] or [int] stands for. *)
Definition int_of_bool (b : bool) : Z := if b then 1 else 0.

(** *** Python's operators on numbers *)

Inductive number :=
| NInt (z : Z)
| NFloat (f : float).

Definition as_number (v : value) : option number :=
  match v with
  | VBool b => Some (NInt (int_of_bool b))
  | VInt z => Some (NInt z)
  | VFloat f => Some (NFloat f)
  | _ => None
  end.

Definition int_too_large : exn :=
  PyException OverflowError "int too large to convert to float".

Definition to_float (n : number) : result exn float :=
  match n with
  | NFloat f => Ok f
  | NInt z => match float_of_int z with Some f => Ok f | None => Err int_too_large end
  end.

(** An operator that works on integers exactly and otherwise on the two
    operands converted to floats. *)
Definition arith (on_int : Z -> Z -> Z) (on_float : float -> float -> float)
    (a b : number) : result exn value :=
  match a, b with
  | NInt x, NInt y => Ok (VInt (on_int x y))
  | _, _ =>
      match to_float a with
      | Err e => Err e
      | Ok fa =>
          match to_float b with
          | Err e => Err e
          | Ok fb => Ok (VFloat (on_float fa fb))
          end
      end
  end.

Definition py_add : number -> number -> result exn value := arith Z.add fadd.
Definition py_sub : number -> number -> result exn value := arith Z.sub fsub.
Definition py_mul : number -> number -> result exn value := arith Z.mul fmul.

Definition float_is_zero (f : float) : bool :=
  match f with S754_zero _ => true | _ => false end.

(** [a / b]: true division. *)
Definition py_truediv (a b : number) : result exn value :=
  match a, b with
  | NInt x, NInt y =>
      if y =? 0 then Err (PyException ZeroDivisionError "division by zero")
      else match int_true_divide x y with
           | Some f => Ok (VFloat f)
           | None => Err (PyException OverflowError
                            "integer division result too large for a float")
           end
  | _, _ =>
      match to_float a with
      | Err e => Err e
      | Ok fa =>
          match to_float b with
          | Err e => Err e
          | Ok fb =>
              if float_is_zero fb
              then Err (PyException ZeroDivisionError "float division by zero")
              else Ok (VFloat (fdiv fa fb))
          end
      end
  end.

(** [a % b]: the result has the sign of the divisor. *)
Definition py_mod (a b : number) : result exn value :=
  match a, b with
  | NInt x, NInt y =>
      if y =? 0 then Err (PyException ZeroDivisionError "integer modulo by zero")
      else Ok (VInt (x mod y))
  | _, _ =>
      match to_float a with
      | Err e => Err e
      | Ok fa =>
          match to_float b with
          | Err e => Err e
          | Ok fb =>
              if float_is_zero fb
              then Err (PyException ZeroDivisionError "float modulo by zero")
              else Ok (VFloat (float_mod fa fb))
          end
      end
  end.

Definition float_eqb (x y : float) : bool := SFeqb x y.
Definition float_ltb (x y : float) : bool := SFltb x y.

(** [fmod(fabs(x), 2.0) == 1.0] *)
Definition double_is_odd_integer (x : float) : bool :=
  float_eqb (float_fmod (SFabs x) (float_of_Z_exp 2 0)) fone.

(** [float.__pow__], following the case analysis of CPython's [float_pow];
    the C library's [pow] is consulted only for a finite positive base other
    than 1 and a finite non-zero exponent. *)
Definition float_pow (H : Host) (iv iw : float) : result exn value :=
  if float_is_zero iw then Ok (VFloat fone)
  else if is_nan iv then Ok (VFloat iv)
  else if is_nan iw then Ok (VFloat (if float_eqb iv fone then fone else iw))
  else if is_inf iw then
    let av := SFabs iv in
    if float_eqb av fone then Ok (VFloat fone)
    else if Bool.eqb (float_ltb fzero iw) (float_ltb fone av)
         then Ok (VFloat (SFabs iw))
         else Ok (VFloat fzero)
  else if is_inf iv then
    let odd := double_is_odd_integer iw in
    if float_ltb fzero iw then Ok (VFloat (if odd then iv else SFabs iv))
    else Ok (VFloat (if odd then with_sign (fsign iv) fzero else fzero))
  else if float_is_zero iv then
    if float_ltb iw fzero
    then Err (PyException ZeroDivisionError "0.0 cannot be raised to a negative power")
    else Ok (VFloat (if double_is_odd_integer iw then iv else fzero))
  else if float_ltb iv fzero && negb (float_is_integer iw) then
    let '(re, im) := complex_pow H iv iw in Ok (VComplex re im)
  else
    let negate_result := float_ltb iv fzero && double_is_odd_integer iw in
    let av := SFabs iv in
    if float_eqb av fone then Ok (VFloat (if negate_result then fopp fone else fone))
    else
      let ix := libm_pow H av iw in
      if is_inf ix then Err (PyException OverflowError "(34, 'Numerical result out of range')")
      else Ok (VFloat (if negate_result then fopp ix else ix)).

(** [a ** b]: exact on integers with a non-negative exponent, [float_pow]
    otherwise. *)
Definition py_pow (H : Host) (a b : number) : result exn value :=
  match a, b with
  | NInt x, NInt y =>
      if 0 <=? y then Ok (VInt (x ^ y))
      else
        match to_float a with
        | Err e => Err e
        | Ok fa => match to_float b with
                   | Err e => Err e
                   | Ok fb => float_pow H fa fb
                   end
        end
  | _, _ =>
      match to_float a with
      | Err e => Err e
      | Ok fa => match to_float b with
                 | Err e => Err e
                 | Ok fb => float_pow H fa fb
                 end
      end
  end.

(** Comparison of two numbers, exact across [int] and [float]; [None] when
    a NaN is involved (every ordering test is then false). *)
Definition num_compare (a b : number) : option comparison :=
  match a, b with
  | NInt x, NInt y => Some (x ?= y)
  | NInt x, NFloat f => compare_int_float x f
  | NFloat f, NInt y => option_map CompOpp (compare_int_float y f)
  | NFloat f, NFloat g => SFcompare f g
  end.

Definition num_eqb (a b : number) : bool :=
  match num_compare a b with Some Eq => true | _ => false end.
Definition num_ltb (a b : number) : bool :=
  match num_compare a b with Some Lt => true | _ => false end.
Definition num_leb (a b : number) : bool :=
  match num_compare a b with Some Lt | Some Eq => true | _ => false end.

(** *** Truthiness, type names *)

(** [Interpreter.is_truthy] *)
Definition is_truthy (h : heap) (obj : value) : bool :=
  match obj with
  | VNone => false
  | VBool b => b
  | VInt z => negb (z =? 0)
  | VFloat f => negb (num_eqb (NFloat f) (NInt 0))
  | VStr s => 0 <? slen s
  | VRef l =>
      match h !! l with
      | Some (OList items) => 0 <? llen items
      | Some (ODict entries) => 0 <? llen entries
      | _ => true
      end
  | VComplex _ _ => true
  end.

Definition lower_ascii (c : ascii) : ascii :=
  let n := nat_of_ascii c in
  if (65 <=? n)%nat && (n <=? 90)%nat then ascii_of_nat (n + 32) else c.

Fixpoint lower (s : string) : string :=
  match s with
  | EmptyString => EmptyString
  | String c rest => String (lower_ascii c) (lower rest)
  end.

(** [type(b).__name__] of a host callable. *)
Definition builtin_class_name (b : builtin) : string :=
  match b with
  | ModuleFunction "Console" "number" => "ConsoleInputNumberFunction"
  | ModuleFunction m n => (m +:+ n +:+ "Function")%string
  | NativePyCallFunction => "NativePyCallFunction"
  | StringMethod n _ => ("String" +:+ n +:+ "Method")%string
  | NumberMethod n _ => ("Number" +:+ n +:+ "Method")%string
  | BooleanMethod n _ => ("Boolean" +:+ n +:+ "Method")%string
  | ArrayMethod n _ => ("Array" +:+ n +:+ "Method")%string
  end.

Definition class_name (o : obj) : string :=
  match o with
  | OList _ => "list"
  | ODict _ => "dict"
  | OEnvironment _ _ => "Environment"
  | OLapisFunction _ _ _ _ => "LapisFunction"
  | OBoundMethod _ _ => "BoundMethod"
  | OLapisClass _ _ _ => "LapisClass"
  | OLapisInstance _ _ => "LapisInstance"
  | OModule n _ => ("Lapis" +:+ n +:+ "Instance")%string
  | OBuiltin b => builtin_class_name b
  | OLapisRuntimeException _ _ => "LapisRuntimeException"
  end.

(** [Interpreter._get_type_name] *)
Definition _get_type_name (h : heap) (v : value) : string :=
  match v with
  | VNone => "null"
  | VBool _ => "boolean"
  | VInt _ => "number"
  | VFloat _ => "number"
  | VStr _ => "string"
  | VComplex _ _ => "complex"
  | VRef l =>
      match h !! l with
      | Some (OList _) => "array"
      | Some (ODict _) => "dictionary"
      | Some o => lower (class_name o)
      | None => "object"
      end
  end.

(** *** Equality

    [py_is] is Python's [is].  Identity is tracked for heap objects; [None],
    [True] and [False] are singletons; for the other immediate values the
    model answers "not known to be identical", which only matters for a
    NaN stored in a container (the one immediate value that differs from
    itself). *)

Definition py_is (a b : value) : bool :=
  match a, b with
  | VRef l1, VRef l2 => Nat.eqb l1 l2
  | VNone, VNone => true
  | VBool x, VBool y => Bool.eqb x y
  | _, _ => false
  end.

(** [a == b] for two values that are not both containers: numbers by
    value across [bool], [int] and [float]; strings by content; every other
    object by identity. *)
Definition flat_eq (a b : value) : bool :=
  match as_number a, as_number b with
  | Some x, Some y => num_eqb x y
  | _, _ =>
      match a, b with
      | VNone, VNone => true
      | VStr s, VStr t => String.eqb s t
      | VRef l1, VRef l2 => Nat.eqb l1 l2
      | VComplex r i, VComplex r' i' => float_eqb r r' && float_eqb i i'
      | VComplex r i, _ =>
          match as_number b with
          | Some y => float_is_zero i && num_eqb (NFloat r) y
          | None => false
          end
      | _, VComplex r i =>
          match as_number a with
          | Some x => float_is_zero i && num_eqb x (NFloat r)
          | None => false
          end
      | _, _ => false
      end
  end.

(** Lookup of a key in a dictionary: by identity or equality of the keys
    (keys are hashable, so never lists or dictionaries). *)
Fixpoint dict_get (entries : list (value * value)) (key : value) : option value :=
  match entries with
  | [] => None
  | (k, v) :: rest => if py_is k key || flat_eq k key then Some v else dict_get rest key
  end.

Fixpoint dict_set (entries : list (value * value)) (key v : value) : list (value * value) :=
  match entries with
  | [] => [(key, v)]
  | (k, old) :: rest =>
      if py_is k key || flat_eq k key then (k, v) :: rest
      else (k, old) :: dict_set rest key v
  end.

Definition dict_has (entries : list (value * value)) (key : value) : bool :=
  match dict_get entries key with Some _ => true | None => false end.

(** [all(f(a, b) for a, b in zip(xs, ys))] for a test that may run out of
    fuel: stops at the first [False]. *)
Fixpoint all2 (f : value -> value -> option bool) (xs ys : list value) : option bool :=
  match xs, ys with
  | x :: xs', y :: ys' =>
      match f x y with
      | Some true => all2 f xs' ys'
      | r => r
      end
  | _, _ => Some true
  end.

(** The loop over the entries of [d1] that both equality tests run:
    [f] compares the value of each key with the value [d2] has for it,
    stopping at the first [False]; [missing] is the answer when [d2] lacks
    a key. *)
Fixpoint all_entries (missing : option bool) (f : value -> value -> option bool)
    (d1 d2 : list (value * value)) : option bool :=
  match d1 with
  | [] => Some true
  | (k, v) :: rest =>
      match dict_get d2 k with
      | None => missing
      | Some v2 =>
          match f v v2 with
          | Some true => all_entries missing f rest d2
          | r => r
          end
      end
  end.

Definition keys_subset (d1 d2 : list (value * value)) : bool :=
  forallb (fun kv => dict_has d2 (fst kv)) d1.

(** [Interpreter.is_equal]: Python's [a == b].  Lists compare element by
    element and dictionaries entry by entry, each pair first by identity
    and then by [==]; [None] is a recursion deeper than the fuel. *)
Fixpoint is_equal (fuel : nat) (h : heap) (a b : value) : option bool :=
  match fuel with
  | O => None
  | S n =>
      let item_eq x y := if py_is x y then Some true else is_equal n h x y in
      match a, b with
      | VRef l1, VRef l2 =>
          match h !! l1, h !! l2 with
          | Some (OList xs), Some (OList ys) =>
              if negb (llen xs =? llen ys) then Some false
              else all2 item_eq xs ys
          | Some (ODict d1), Some (ODict d2) =>
              if negb (llen d1 =? llen d2) then Some false
              else all_entries (Some false) item_eq d1 d2
          | _, _ => Some (flat_eq a b)
          end
      | _, _ => Some (flat_eq a b)
      end
  end.

(** [Interpreter._values_equal], the comparison of [switch]. *)
Fixpoint _values_equal (fuel : nat) (h : heap) (left right : value) : option bool :=
  match fuel with
  | O => None
  | S n =>
      match left, right with
      | VNone, VNone => Some true
      | VNone, _ | _, VNone => Some false
      | _, _ =>
          if is_bool left && is_bool right then Some (flat_eq left right)
          else if is_int_or_float left && is_int_or_float right then Some (flat_eq left right)
          else if is_str left && is_str right then Some (flat_eq left right)
          else
            match left, right with
            | VRef l1, VRef l2 =>
                match h !! l1, h !! l2 with
                | Some (OList xs), Some (OList ys) =>
                    if negb (llen xs =? llen ys) then Some false
                    else all2 (_values_equal n h) xs ys
                | Some (ODict d1), Some (ODict d2) =>
                    if negb (keys_subset d1 d2 && keys_subset d2 d1) then Some false
                    else all_entries (Some false) (_values_equal n h) d1 d2
                | _, _ => is_equal n h left right
                end
            | _, _ => is_equal n h left right
            end
      end
  end.

(** *** Canonical strings *)

Fixpoint join (sep : string) (l : list string) : string :=
  match l with
  | [] => ""
  | [x] => x
  | x :: rest => (x +:+ sep +:+ join sep rest)%string
  end.

Fixpoint map_outcome {A B} (f : A -> outcome B) (l : list A) : outcome (list B) :=
  match l with
  | [] => Done []
  | x :: rest =>
      match f x with
      | Done y =>
          match map_outcome f rest with
          | Done ys => Done (y :: ys)
          | Raise e => Raise e
          | OutOfFuel => OutOfFuel
          | Unmodelled w => Unmodelled w
          end
      | Raise e => Raise e
      | OutOfFuel => OutOfFuel
      | Unmodelled w => Unmodelled w
      end
  end.

(** [Interpreter._to_lapis_string]; [ConsolePrintFunction.stringify] is
    the same function written a second time.  [str] of an object without
    a [__str__] of its own shows a memory address and is left out of the
    model. *)
Fixpoint _to_lapis_string (H : Host) (fuel : nat) (h : heap) (obj : value) : outcome string :=
  match fuel with
  | O => OutOfFuel
  | S n =>
      match obj with
      | VNone => Done "null"
      | VBool b => Done (if b then "true" else "false")
      | VStr s => Done s
      | VInt z => Done (pretty z)
      | VFloat f => Done (float_repr H f)
      | VComplex _ _ => Unmodelled "str of a complex number"
      | VRef l =>
          match h !! l with
          | Some (OList items) =>
              match map_outcome (_to_lapis_string H n h) items with
              | Done elements => Done ("[" +:+ join ", " elements +:+ "]")%string
              | Raise e => Raise e
              | OutOfFuel => OutOfFuel
              | Unmodelled w => Unmodelled w
              end
          | Some (ODict entries) =>
              match map_outcome
                      (fun kv =>
                         match _to_lapis_string H n h (fst kv) with
                         | Done k =>
                             match _to_lapis_string H n h (snd kv) with
                             | Done v => Done (k +:+ ": " +:+ v)%string
                             | r => r
                             end
                         | r => r
                         end) entries with
              | Done pairs => Done ("{" +:+ join ", " pairs +:+ "}")%string
              | Raise e => Raise e
              | OutOfFuel => OutOfFuel
              | Unmodelled w => Unmodelled w
              end
          | Some (OLapisRuntimeException message _) => Done message
          | _ => Unmodelled "str of an object"
          end
      end
  end.

Definition lift_outcome {A} (r : outcome A) : M A := fun st => (r, st).

Definition lift_result {A} (r : result exn A) : M A :=
  match r with
  | Ok a => ret a
  | Err e => raise e
  end.

Definition lift_fuel {A} (r : option A) : M A :=
  match r with
  | Some a => ret a
  | None => out_of_fuel
  end.

(** *** environment.py: [Variable] and [Environment] *)

(** [Variable.can_access] *)
Definition can_access (access_modifier : AccessModifier) (from_external_file : bool) : bool :=
  match access_modifier with
  | PUBLIC => true
  | PRIVATE => negb from_external_file
  end.

(** [Environment(enclosing)] *)
Definition new_Environment (enclosing : option loc) : M loc :=
  alloc (OEnvironment enclosing ∅).

(** [Environment.define] *)
Definition define (env : loc) (name : string) (v : value)
    (access_modifier : AccessModifier) : M unit :=
  h <- get_heap ;;
  match h !! env with
  | Some (OEnvironment enclosing values) =>
      store env (OEnvironment enclosing (<[name := mkEnvVariable v access_modifier]> values))
  | _ => unmodelled "define on an object that is not an environment"
  end.

(** [Environment.get]: the walk up the chain of enclosing environments.
    [k] bounds the length of the chain; a chain of distinct environments is
    never longer than the heap. *)
Fixpoint env_get (k : nat) (h : heap) (env : loc) (name : string)
    (from_external_file : bool) : outcome value :=
  match k with
  | O => OutOfFuel
  | S k' =>
      match h !! env with
      | Some (OEnvironment enclosing values) =>
          match values !! name with
          | Some var =>
              if can_access (var_access var) from_external_file
              then Done (var_value var)
              else Raise (from_simple AccessError ACCESS_VIOLATION
                            ("Cannot access private variable '" +:+ name
                             +:+ "' from external file")%string dummy_span)
          | None =>
              match enclosing with
              | Some e => env_get k' h e name from_external_file
              | None => Raise (from_simple RuntimeError UNDEFINED_VARIABLE
                                 ("Undefined variable '" +:+ name +:+ "'")%string dummy_span)
              end
          end
      | _ => Unmodelled "get on an object that is not an environment"
      end
  end.

Definition Environment_get (env : loc) (name : string) (from_external_file : bool) : M value :=
  fun st => (env_get (S (List.length (st_heap st))) (st_heap st) env name from_external_file, st).

(** [Environment.assign]: the heap after the assignment, or the error. *)
Fixpoint env_assign (k : nat) (h : heap) (env : loc) (name : string) (v : value)
    (from_external_file : bool) : outcome heap :=
  match k with
  | O => OutOfFuel
  | S k' =>
      match h !! env with
      | Some (OEnvironment enclosing values) =>
          match values !! name with
          | Some var =>
              if can_access (var_access var) from_external_file
              then Done (<[env := OEnvironment enclosing
                                    (<[name := mkEnvVariable v (var_access var)]> values)]> h)
              else Raise (from_simple AccessError ACCESS_VIOLATION
                            ("Cannot assign to private variable '" +:+ name
                             +:+ "' from external file")%string dummy_span)
          | None =>
              match enclosing with
              | Some e => env_assign k' h e name v from_external_file
              | None => Raise (from_simple RuntimeError UNDEFINED_VARIABLE
                                 ("Undefined variable '" +:+ name +:+ "'")%string dummy_span)
              end
          end
      | _ => Unmodelled "assign on an object that is not an environment"
      end
  end.

Definition Environment_assign (env : loc) (name : string) (v : value)
    (from_external_file : bool) : M unit :=
  fun st =>
    match env_assign (S (List.length (st_heap st))) (st_heap st) env name v from_external_file with
    | Done h' => (Done tt, mkState h' (stdout st) (interp st))
    | Raise e => (Raise e, st)
    | OutOfFuel => (OutOfFuel, st)
    | Unmodelled w => (Unmodelled w, st)
    end.

(** [Environment.get_all_public] *)
Definition get_all_public (h : heap) (env : loc) : list (string * value) :=
  match h !! env with
  | Some (OEnvironment _ values) =>
      omap (fun kv : string * EnvVariable =>
              match var_access (snd kv) with
              | PUBLIC => Some (fst kv, var_value (snd kv))
              | PRIVATE => None
              end) (map_to_list values)
  | _ => []
  end.

(** *** The host callables: [arity()] *)

Definition module_function_arity (module name : string) : option Z :=
  match module, name with
  | "Math", "sqrt" | "Math", "abs" | "Math", "floor" | "Math", "ceil" => Some 1
  | "Console", "input" | "Console", "number" | "Console", "print" => Some (-1)
  | "Console", "error" => Some 1
  | "File", "read" | "File", "exists" | "File", "delete" => Some 1
  | "File", "write" | "File", "append" => Some 2
  | "File", "list" => Some (-1)
  | _, _ => None
  end%string.

Definition string_method_arity (name : string) : option Z :=
  match name with
  | "length" | "toInt" | "toFloat" | "toBool" | "toString" => Some 0
  | "split" | "contains" => Some 1
  | "replace" => Some 2
  | "format" => Some (-1)
  | _ => None
  end%string.

Definition number_method_arity (name : string) : option Z :=
  match name with
  | "toString" | "toInt" | "toFloat" | "toBool" => Some 0
  | _ => None
  end%string.

Definition boolean_method_arity (name : string) : option Z :=
  match name with
  | "toString" | "toInt" | "toFloat" => Some 0
  | _ => None
  end%string.

Definition array_method_arity (name : string) : option Z :=
  match name with
  | "map" | "filter" => Some 1
  | "reduce" => Some 2
  | "length" | "pop" | "shift" | "reverse" => Some 0
  | "push" | "unshift" | "splice" | "slice" | "indexOf" | "includes"
  | "sort" | "join" | "concat" => Some (-1)
  | _ => None
  end%string.

Definition builtin_arity (b : builtin) : Z :=
  let known (o : option Z) := match o with Some n => n | None => -1 end in
  match b with
  | ModuleFunction m n => known (module_function_arity m n)
  | NativePyCallFunction => -1
  | StringMethod n _ => known (string_method_arity n)
  | NumberMethod n _ => known (number_method_arity n)
  | BooleanMethod n _ => known (boolean_method_arity n)
  | ArrayMethod n _ => known (array_method_arity n)
  end.

(** [getattr(declaration, 'variadic_param', None)] read as a condition: a
    name that is present and not the empty string. *)
Definition variadic_of (d : FunctionDecl) : option string :=
  match fd_variadic d with
  | Some name => if String.eqb name "" then None else Some name
  | None => None
  end.

(** [CallableFunction.arity] *)
Definition function_arity (d : FunctionDecl) : Z :=
  match variadic_of d with
  | Some _ => -1
  | None => llen (fd_params d)
  end.

(** [hasattr(callee, 'call')] *)
Definition has_call (h : heap) (callee : value) : bool :=
  match callee with
  | VRef l =>
      match h !! l with
      | Some (OLapisFunction _ _ _ _) | Some (OBoundMethod _ _)
      | Some (OLapisClass _ _ _) | Some (OBuiltin _) => true
      | _ => false
      end
  | _ => false
  end.

(** [callee.arity()] when [hasattr(callee, 'arity')]; [None] when the
    object has no such attribute. *)
Definition arity_of_method (h : heap) (method : loc) : option Z :=
  match h !! method with
  | Some (OLapisFunction d _ _ _) => Some (function_arity d)
  | _ => None
  end.

Definition arity (h : heap) (callee : value) : option Z :=
  match callee with
  | VRef l =>
      match h !! l with
      | Some (OLapisFunction d _ _ _) => Some (function_arity d)
      | Some (OBoundMethod _ method) => arity_of_method h method
      | Some (OLapisClass _ methods _) =>
          match methods !! "init"%string with
          | None => Some 0
          | Some initializer => arity_of_method h initializer
          end
      | Some (OBuiltin b) => Some (builtin_arity b)
      | _ => None
      end
  | _ => None
  end.

(** *** Strings of the host *)

(** The characters [str.strip()] removes from both ends. *)
Definition is_space (c : ascii) : bool :=
  let n := nat_of_ascii c in
  ((9 <=? n)%nat && (n <=? 13)%nat) || ((28 <=? n)%nat && (n <=? 32)%nat).

Fixpoint lstrip (s : string) : string :=
  match s with
  | String c rest => if is_space c then lstrip rest else s
  | EmptyString => EmptyString
  end.

Fixpoint rstrip (s : string) : string :=
  match s with
  | EmptyString => EmptyString
  | String c rest =>
      match rstrip rest with
      | EmptyString => if is_space c then EmptyString else String c EmptyString
      | r => String c r
      end
  end.

Definition strip (s : string) : string := rstrip (lstrip s).

(** [s.startswith(p)] *)
Definition startswith (p s : string) : bool := String.prefix p s.

(** The position of the first occurrence of [needle] in [s], if any. *)
Fixpoint find_sub (needle s : string) : option nat :=
  if String.prefix needle s then Some O
  else match s with
       | EmptyString => None
       | String _ rest => option_map S (find_sub needle rest)
       end.

Definition contains_sub (needle s : string) : bool :=
  match find_sub needle s with Some _ => true | None => false end.

(** [str(v)] of the host for the values whose text does not depend on a
    memory address. *)
Definition python_str (H : Host) (h : heap) (v : value) : outcome string :=
  match v with
  | VNone => Done "None"
  | VBool b => Done (if b then "True" else "False")
  | VInt z => Done (pretty z)
  | VFloat f => Done (float_repr H f)
  | VStr s => Done s
  | VRef l =>
      match h !! l with
      | Some (OLapisRuntimeException message _) => Done message
      | _ => Unmodelled "str of an object"
      end
  | VComplex _ _ => Unmodelled "str of a complex number"
  end.

(** *** interpreter.py: the methods of [Interpreter]

    Every method is written against the three recursive entry points it
    calls back into: [evaluate] (an expression), [execute] (a statement)
    and [call] (the [call] method of a callable object).  [fuel] bounds the
    loops and recursions a method runs on its own. *)

Section Methods.

Variable H : Host.
Variable fuel : nat.
Variable evaluate : expr -> M value.
Variable execute : stmt -> M unit.
Variable call : value -> list value -> M value.

Definition is_control_flow (e : exn) : bool :=
  match e with
  | ReturnException _ | BreakException | ContinueException => true
  | _ => false
  end.

Definition is_break_or_continue (e : exn) : bool :=
  match e with
  | BreakException | ContinueException => true
  | _ => false
  end.

Definition is_break (e : exn) : bool :=
  match e with BreakException => true | _ => false end.

Definition is_return (e : exn) : bool :=
  match e with ReturnException _ => true | _ => false end.

Definition any_exception (e : exn) : bool := true.

(** [Interpreter.execute_block] *)
Definition execute_block (statements : list stmt) (env : loc) : M unit :=
  i <- get_interp ;;
  let previous := environment i in
  try_finally (set_environment env ;;; forM_ execute statements)
              (with_environment previous).

(** [Interpreter.execute_var_statement] *)
Definition execute_var_statement (name : string) (initializer : option expr)
    (access_modifier : AccessModifier) : M unit :=
  v <- match initializer with
       | Some e => evaluate e
       | None => ret VNone
       end ;;
  i <- get_interp ;;
  define (environment i) name v access_modifier.

(** [Interpreter.execute_block_statement] *)
Definition execute_block_statement (statements : list stmt) : M unit :=
  i <- get_interp ;;
  env <- new_Environment (Some (environment i)) ;;
  execute_block statements env.

(** [LapisFunction(declaration, closure, is_initializer)] *)
Definition new_LapisFunction (d : FunctionDecl) (closure : loc) (is_initializer : bool) : M loc :=
  alloc (OLapisFunction d closure (fd_access d) is_initializer).

(** [Interpreter.execute_function_statement] *)
Definition execute_function_statement (d : FunctionDecl) : M unit :=
  i <- get_interp ;;
  function <- new_LapisFunction d (environment i) false ;;
  define (environment i) (fd_name d) (VRef function) (fd_access d).

Fixpoint build_methods (env : loc) (methods : list stmt) (acc : gmap string loc)
  : M (gmap string loc) :=
  match methods with
  | [] => ret acc
  | m :: rest =>
      match decl_of_stmt m with
      | Some d =>
          function <- new_LapisFunction d env false ;;
          build_methods env rest (<[fd_name d := function]> acc)
      | None => unmodelled "a class member that is not a function declaration"
      end
  end.

(** [Interpreter.execute_class_statement] *)
Definition execute_class_statement (name : string) (methods : list stmt)
    (constructor : option stmt) (access_modifier : AccessModifier) : M unit :=
  i <- get_interp ;;
  ms <- build_methods (environment i) methods ∅ ;;
  ms' <- match constructor with
         | None => ret ms
         | Some c =>
             match decl_of_stmt c with
             | Some d =>
                 f <- new_LapisFunction d (environment i) true ;;
                 ret (<["init"%string := f]> ms)
             | None => unmodelled "a constructor that is not a function declaration"
             end
         end ;;
  klass <- alloc (OLapisClass name ms' access_modifier) ;;
  define (environment i) name (VRef klass) access_modifier.

Fixpoint run_elif_branches (branches : list (expr * stmt)) (else_branch : option stmt) : M unit :=
  match branches with
  | [] =>
      match else_branch with
      | Some s => execute s
      | None => ret tt
      end
  | (condition, body) :: rest =>
      c <- evaluate condition ;;
      h <- get_heap ;;
      if is_truthy h c then execute body else run_elif_branches rest else_branch
  end.

(** [Interpreter.execute_if_statement] *)
Definition execute_if_statement (condition : expr) (then_branch : stmt)
    (else_branch : option stmt) (elif_branches : list (expr * stmt)) : M unit :=
  c <- evaluate condition ;;
  h <- get_heap ;;
  if is_truthy h c then execute then_branch
  else run_elif_branches elif_branches else_branch.

(** One round of a loop body: [true] when the body ended in [break]. *)
Definition loop_body (body : M unit) : M bool :=
  try_except (body ;;; ret false) is_break_or_continue (fun e => ret (is_break e)).

(** [Interpreter.execute_while_statement]: the next round of the loop is
    the statement itself again. *)
Definition execute_while_statement (condition : expr) (body : stmt) : M unit :=
  c <- evaluate condition ;;
  h <- get_heap ;;
  if is_truthy h c then
    broke <- loop_body (execute body) ;;
    if broke then ret tt else execute (WhileStatement condition body)
  else ret tt.

(** The [for item in iterable] loop of [execute_for_statement]: Python's
    list iterator reads the list by index on every round, so it sees what
    the body appends. *)
Fixpoint for_loop (k : nat) (variable : string) (iterable : loc) (i : nat) (body : stmt)
  : M unit :=
  match k with
  | O => out_of_fuel
  | S k' =>
      h <- get_heap ;;
      match h !! iterable with
      | Some (OList items) =>
          match items !! i with
          | None => ret tt
          | Some item =>
              it <- get_interp ;;
              loop_env <- new_Environment (Some (environment it)) ;;
              define loop_env variable item PRIVATE ;;;
              broke <- try_finally
                         (loop_body (set_environment loop_env ;;; execute body))
                         (with_environment (environment it)) ;;
              if broke then ret tt else for_loop k' variable iterable (S i) body
          end
      | _ => unmodelled "the iterated list is gone"
      end
  end.

(** [Interpreter.execute_for_statement] *)
Definition execute_for_statement (variable : string) (iterable : expr) (body : stmt) : M unit :=
  it <- evaluate iterable ;;
  h <- get_heap ;;
  match it with
  | VRef l =>
      if is_list h it then for_loop fuel variable l 0 body
      else raise (LapisError_of_str RuntimeError "Object is not iterable")
  | _ => raise (LapisError_of_str RuntimeError "Object is not iterable")
  end.

(** [Interpreter.execute_return_statement] *)
Definition execute_return_statement (value : option expr) : M unit :=
  v <- match value with
       | Some e => evaluate e
       | None => ret VNone
       end ;;
  raise (ReturnException v).

(** The body of one [catch] clause, run for the exception [e]. *)
Definition run_catch_clause (clause : option string * list stmt) (e : exn) : M unit :=
  let '(variable, body) := clause in
  match variable with
  | Some name =>
      if String.eqb name "" then forM_ execute body
      else
        it <- get_interp ;;
        catch_env <- new_Environment (Some (environment it)) ;;
        exception_obj <- alloc (OLapisRuntimeException (exn_str e) e) ;;
        define catch_env name (VRef exception_obj) PRIVATE ;;;
        try_finally (set_environment catch_env ;;; forM_ execute body)
                    (with_environment (environment it))
  | None => forM_ execute body
  end.

(** [if stmt.finally_body: for statement in stmt.finally_body: ...] *)
Definition run_finally (finally_body : option (list stmt)) : M unit :=
  match finally_body with
  | Some body => forM_ execute body
  | None => ret tt
  end.

(** [Interpreter.execute_try_statement].  The loop over the catch clauses
    leaves after its first round on every path, so only the first clause
    is ever run. *)
Definition execute_try_statement (try_body : list stmt)
    (catch_clauses : list (option string * list stmt))
    (finally_body : option (list stmt)) : M unit :=
  fun st =>
    match forM_ execute try_body st with
    | (Done _, st1) => run_finally finally_body st1
    | (Raise e, st1) =>
        if is_control_flow e then (Raise e, st1)
        else
          (exception_handled <-
             match catch_clauses with
             | [] => ret false
             | clause :: _ => run_catch_clause clause e ;;; ret true
             end ;;
           run_finally finally_body ;;;
           if exception_handled then ret tt else raise e) st1
    | r => r
    end.

Fixpoint match_case_values (values : list expr) (switch_value : value) : M bool :=
  match values with
  | [] => ret false
  | case_value_expr :: rest =>
      case_value <- evaluate case_value_expr ;;
      h <- get_heap ;;
      b <- lift_fuel (_values_equal fuel h switch_value case_value) ;;
      if b then ret true else match_case_values rest switch_value
  end.

(** The search for [matched_case or default_case]. *)
Fixpoint find_case (cases : list (list expr * list stmt * bool)) (switch_value : value)
    (default_case : option (list stmt)) : M (option (list stmt)) :=
  match cases with
  | [] => ret default_case
  | (values, body, is_default) :: rest =>
      if is_default then find_case rest switch_value (Some body)
      else
        matched <- match_case_values values switch_value ;;
        if matched then ret (Some body) else find_case rest switch_value default_case
  end.

(** [Interpreter.execute_switch_statement] *)
Definition execute_switch_statement (expression : expr)
    (cases : list (list expr * list stmt * bool)) : M unit :=
  switch_value <- evaluate expression ;;
  case_to_execute <- find_case cases switch_value None ;;
  match case_to_execute with
  | Some body => try_except (forM_ execute body) is_break (fun _ => ret tt)
  | None => ret tt
  end.

(** **** Expressions *)

Definition numeric_pair (left right : value) : option (number * number) :=
  match as_number left, as_number right with
  | Some a, Some b => Some (a, b)
  | _, _ => None
  end.

Definition no_span_attribute (e : expr) : exn :=
  PyException AttributeError "object has no attribute 'span'".

(** [expr.span and expr.left.span and expr.right.span]: the three spans
    when all are there; reading [span] off a node without that attribute
    is an [AttributeError]. *)
Definition strict_spans (span : option Span) (left right : expr)
  : result exn (option (Span * Span * Span)) :=
  match span with
  | None => Ok None
  | Some sp =>
      match node_span left with
      | None => Err (no_span_attribute left)
      | Some None => Ok None
      | Some (Some l) =>
          match node_span right with
          | None => Err (no_span_attribute right)
          | Some None => Ok None
          | Some (Some r) => Ok (Some (sp, l, r))
          end
      end
  end.

(** [Interpreter._get_safe_spans], read as the condition
    [expr_span and left_span and right_span]. *)
Definition _get_safe_spans (span : option Span) (left right : expr)
  : option (Span * Span * Span) :=
  match span, node_span left, node_span right with
  | Some sp, Some (Some l), Some (Some r) => Some (sp, l, r)
  | _, _, _ => None
  end.

(** The shape shared by [-], [*], [/], [**], [%] and the comparisons: with
    two numbers, the operator; otherwise the type error when the spans are
    there.  Without them the code falls through to the operator of the
    host on operands that are not numbers, which the model leaves out. *)
Definition on_numbers (operator : string) (safe : bool) (span : option Span)
    (left_expr right_expr : expr) (left right : value)
    (k : number -> number -> M value) : M value :=
  match numeric_pair left right with
  | Some (a, b) => k a b
  | None =>
      h <- get_heap ;;
      let left_type := _get_type_name h left in
      let right_type := _get_type_name h right in
      spans <- (if safe then ret (_get_safe_spans span left_expr right_expr)
                else lift_result (strict_spans span left_expr right_expr)) ;;
      match spans with
      | Some (sp, l, r) =>
          raise (invalid_binary_operation sp l r operator left_type right_type)
      | None => unmodelled "an operator of the host on operands that are not numbers"
      end
  end.

(** [Interpreter.evaluate_binary_expression] *)
Definition evaluate_binary_expression (left_expr : expr) (operator : string)
    (right_expr : expr) (span : option Span) : M value :=
  left <- evaluate left_expr ;;
  right <- evaluate right_expr ;;
  let numbers := on_numbers operator false span left_expr right_expr left right in
  if String.eqb operator "+" then
    match numeric_pair left right with
    | Some (a, b) => lift_result (py_add a b)
    | None =>
        h <- get_heap ;;
        if is_str left || is_str right then
          l <- lift_outcome (_to_lapis_string H fuel h left) ;;
          r <- lift_outcome (_to_lapis_string H fuel h right) ;;
          ret (VStr (l +:+ r))
        else
          let left_type := _get_type_name h left in
          let right_type := _get_type_name h right in
          match _get_safe_spans span left_expr right_expr with
          | Some (sp, l, r) => raise (cannot_add_types sp l r left_type right_type)
          | None => raise (cannot_add_types dummy_span0 dummy_span0 dummy_span0
                             left_type right_type)
          end
    end
  else if String.eqb operator "-" then
    on_numbers operator true span left_expr right_expr left right
      (fun a b => lift_result (py_sub a b))
  else if String.eqb operator "*" then
    numbers (fun a b => lift_result (py_mul a b))
  else if String.eqb operator "/" then
    numbers (fun a b =>
      if num_eqb b (NInt 0) then
        raise (division_by_zero (match span with Some sp => sp | None => dummy_span end))
      else lift_result (py_truediv a b))
  else if String.eqb operator "**" then
    numbers (fun a b => lift_result (py_pow H a b))
  else if String.eqb operator "%" then
    numbers (fun a b => lift_result (py_mod a b))
  else if String.eqb operator ">" then
    numbers (fun a b => ret (VBool (num_ltb b a)))
  else if String.eqb operator ">=" then
    numbers (fun a b => ret (VBool (num_leb b a)))
  else if String.eqb operator "<" then
    numbers (fun a b => ret (VBool (num_ltb a b)))
  else if String.eqb operator "<=" then
    numbers (fun a b => ret (VBool (num_leb a b)))
  else if String.eqb operator "!=" then
    h <- get_heap ;;
    b <- lift_fuel (is_equal fuel h left right) ;;
    ret (VBool (negb b))
  else if String.eqb operator "==" then
    h <- get_heap ;;
    b <- lift_fuel (is_equal fuel h left right) ;;
    ret (VBool b)
  else
    raise (from_simple RuntimeError "LAP4999"
             ("Unknown binary operator: " +:+ operator)%string
             (match span with Some sp => sp | None => dummy_span0 end)).

(** [Interpreter.evaluate_unary_expression] *)
Definition evaluate_unary_expression (operator : string) (operand_expr : expr) : M value :=
  operand <- evaluate operand_expr ;;
  if String.eqb operator "-" then
    match operand with
    | VBool b => ret (VInt (- int_of_bool b))
    | VInt z => ret (VInt (- z))
    | VFloat f => ret (VFloat (fopp f))
    | _ => raise (LapisError_of_str RuntimeError "Operand must be a number")
    end
  else if String.eqb operator "!" then
    h <- get_heap ;;
    ret (VBool (negb (is_truthy h operand)))
  else raise (LapisError_of_str RuntimeError "Unknown unary operator").

(** [Interpreter.evaluate_call_expression] *)
Definition evaluate_call_expression (callee_expr : expr) (argument_exprs : list expr) : M value :=
  callee <- evaluate callee_expr ;;
  arguments <- mapM evaluate argument_exprs ;;
  h <- get_heap ;;
  if negb (has_call h callee) then
    raise (LapisError_of_str RuntimeError "Can only call functions and classes")
  else
    match arity h callee with
    | Some n =>
        if negb (n =? -1) && negb (llen arguments =? n) then
          raise (LapisError_of_str RuntimeError "Expected a different number of arguments")
        else call callee arguments
    | None => call callee arguments
    end.

(** [LapisInstance.get] *)
Definition LapisInstance_get (instance : loc) (klass : loc) (fields : gmap string value)
    (name : string) : M value :=
  match fields !! name with
  | Some v => ret v
  | None =>
      h <- get_heap ;;
      match h !! klass with
      | Some (OLapisClass _ methods _) =>
          match methods !! name with
          | Some method =>
              bound <- alloc (OBoundMethod instance method) ;;
              ret (VRef bound)
          | None =>
              raise (from_simple RuntimeError NO_PROPERTY
                       ("Undefined property '" +:+ name +:+ "'")%string dummy_span)
          end
      | _ => unmodelled "an instance whose class is gone"
      end
  end.

Definition builtin_method (b : builtin) (known : option Z) (owner name : string) : M value :=
  match known with
  | Some _ => l <- alloc (OBuiltin b) ;; ret (VRef l)
  | None => raise (LapisError_of_str RuntimeError (owner +:+ " has no method " +:+ name)%string)
  end.

(** [Interpreter.evaluate_get_expression] *)
Definition evaluate_get_expression (object : expr) (name : string) : M value :=
  obj <- evaluate object ;;
  h <- get_heap ;;
  match obj with
  | VRef l =>
      match h !! l with
      | Some (OLapisInstance klass fields) => LapisInstance_get l klass fields name
      | Some (ODict entries) =>
          ret (match dict_get entries (VStr name) with Some v => v | None => VNone end)
      | Some (OModule module functions) =>
          match functions !! name with
          | Some f => ret (VRef f)
          | None => raise (LapisError_of_str RuntimeError
                             (module +:+ " has no method " +:+ name)%string)
          end
      | Some (OList _) =>
          match array_method_arity name with
          | Some _ => m <- alloc (OBuiltin (ArrayMethod name l)) ;; ret (VRef m)
          | None =>
              raise (LapisError RuntimeError
                       (mkDiagnostic "LAP4005"
                          ("Array has no method '" +:+ name +:+ "'")%string [] None))
          end
      | _ => raise (LapisError_of_str RuntimeError "object has no property")
      end
  | VStr s => builtin_method (StringMethod name s) (string_method_arity name) "String" name
  | VBool b => builtin_method (BooleanMethod name b) (boolean_method_arity name) "Boolean" name
  | VInt _ | VFloat _ =>
      builtin_method (NumberMethod name obj) (number_method_arity name) "Number" name
  | _ => raise (LapisError_of_str RuntimeError "object has no property")
  end.

Definition unhashable : exn := PyException PyTypeError "unhashable type".

(** [d[key] = v] on a dictionary object. *)
Definition dict_store (l : loc) (entries : list (value * value)) (key v : value) : M unit :=
  h <- get_heap ;;
  if is_list h key || is_dict h key then raise unhashable
  else store l (ODict (dict_set entries key v)).

(** [Interpreter.evaluate_set_expression] *)
Definition evaluate_set_expression (object : expr) (name : string) (value_expr : expr) : M value :=
  obj <- evaluate object ;;
  h <- get_heap ;;
  let other := raise (LapisError_of_str RuntimeError
                        "Only instances and dictionaries have assignable fields") in
  match obj with
  | VRef l =>
      match h !! l with
      | Some (OLapisInstance _ _) =>
          v <- evaluate value_expr ;;
          h' <- get_heap ;;
          match h' !! l with
          | Some (OLapisInstance klass fields) =>
              store l (OLapisInstance klass (<[name := v]> fields)) ;;; ret v
          | _ => unmodelled "the instance is gone"
          end
      | Some (ODict _) =>
          v <- evaluate value_expr ;;
          h' <- get_heap ;;
          match h' !! l with
          | Some (ODict entries) => dict_store l entries (VStr name) v ;;; ret v
          | _ => unmodelled "the dictionary is gone"
          end
      | _ => other
      end
  | _ => other
  end.

(** The integer an index of type [int] stands for ([True] is 1). *)
Definition index_int (index : value) : option Z :=
  match index with
  | VBool b => Some (int_of_bool b)
  | VInt z => Some z
  | _ => None
  end.

(** [Interpreter.evaluate_index_expression] *)
Definition evaluate_index_expression (object index_expr : expr) : M value :=
  obj <- evaluate object ;;
  index <- evaluate index_expr ;;
  h <- get_heap ;;
  let other := raise (LapisError_of_str RuntimeError
                        "Can only index arrays and dictionaries") in
  match obj with
  | VRef l =>
      match h !! l with
      | Some (OList items) =>
          match index_int index with
          | None => raise (LapisError_of_str RuntimeError "Array index must be an integer")
          | Some i =>
              if (i <? 0) || (llen items <=? i) then
                raise (LapisError_of_str RuntimeError "Array index out of bounds")
              else match items !! Z.to_nat i with
                   | Some v => ret v
                   | None => raise (PyException IndexError "list index out of range")
                   end
          end
      | Some (ODict entries) =>
          if is_list h index || is_dict h index then raise unhashable
          else ret (match dict_get entries index with Some v => v | None => VNone end)
      | _ => other
      end
  | _ => other
  end.

(** [Interpreter.evaluate_index_set_expression] *)
Definition evaluate_index_set_expression (object index_expr value_expr : expr) : M value :=
  obj <- evaluate object ;;
  index <- evaluate index_expr ;;
  v <- evaluate value_expr ;;
  h <- get_heap ;;
  let other := raise (LapisError_of_str RuntimeError
                        "Can only index arrays and dictionaries") in
  match obj with
  | VRef l =>
      match h !! l with
      | Some (OList items) =>
          match index_int index with
          | None => raise (LapisError_of_str RuntimeError "Array index must be an integer")
          | Some i =>
              if (i <? 0) || (llen items <=? i) then
                raise (LapisError_of_str RuntimeError "Array index out of bounds")
              else store l (OList (<[Z.to_nat i := v]> items)) ;;; ret v
          end
      | Some (ODict entries) => dict_store l entries index v ;;; ret v
      | _ => other
      end
  | _ => other
  end.

(** [list.append] on a list object. *)
Definition list_append (l : loc) (v : value) : M unit :=
  h <- get_heap ;;
  match h !! l with
  | Some (OList items) => store l (OList (items ++ [v]))
  | _ => unmodelled "append on an object that is not a list"
  end.

(** [Interpreter.evaluate_array_expression] *)
Definition evaluate_array_expression (element_exprs : list expr) : M value :=
  elements <- alloc (OList []) ;;
  forM_ (fun element_expr => v <- evaluate element_expr ;; list_append elements v)
        element_exprs ;;;
  ret (VRef elements).

(** [Interpreter.evaluate_dictionary_expression] *)
Definition evaluate_dictionary_expression (pairs : list (expr * expr)) : M value :=
  result <- alloc (ODict []) ;;
  forM_ (fun kv : expr * expr =>
           key <- evaluate (fst kv) ;;
           v <- evaluate (snd kv) ;;
           h <- get_heap ;;
           match h !! result with
           | Some (ODict entries) => dict_store result entries key v
           | _ => unmodelled "the dictionary is gone"
           end) pairs ;;;
  ret (VRef result).

(** [Interpreter.evaluate_assignment_expression] *)
Definition evaluate_assignment_expression (name : string) (value_expr : expr) : M value :=
  v <- evaluate value_expr ;;
  i <- get_interp ;;
  Environment_assign (environment i) name v false ;;;
  ret v.

(** [Interpreter.evaluate_logical_expression] *)
Definition evaluate_logical_expression (left_expr : expr) (operator : string)
    (right_expr : expr) : M value :=
  left <- evaluate left_expr ;;
  h <- get_heap ;;
  if String.eqb operator "||" then
    if is_truthy h left then ret left else evaluate right_expr
  else if String.eqb operator "&&" then
    if negb (is_truthy h left) then ret left else evaluate right_expr
  else raise (LapisError_of_str RuntimeError "Unknown logical operator").

(** [Interpreter.evaluate_postfix_expression] *)
Definition evaluate_postfix_expression (operand : expr) (operator : string) : M value :=
  match operand with
  | IdentifierExpression name _ =>
      i <- get_interp ;;
      current_value <- Environment_get (environment i) name false ;;
      match as_number current_value with
      | None => raise (LapisError_of_str RuntimeError
                         "Postfix operators can only be applied to numbers")
      | Some n =>
          (if String.eqb operator "++" then
             v <- lift_result (py_add n (NInt 1)) ;;
             Environment_assign (environment i) name v false
           else if String.eqb operator "--" then
             v <- lift_result (py_sub n (NInt 1)) ;;
             Environment_assign (environment i) name v false
           else raise (LapisError_of_str RuntimeError "Unknown postfix operator")) ;;;
          ret current_value
      end
  | _ => raise (LapisError_of_str RuntimeError
                  "Postfix operators can only be applied to variables")
  end.

(** [Interpreter._evaluate_template_expression] *)
Definition _evaluate_template_expression (expression_text : string) : M value :=
  try_except
    (e <- lift_result (parse_template_expression H expression_text) ;; evaluate e)
    any_exception
    (fun err =>
       i <- get_interp ;;
       try_except (Environment_get (environment i) (strip expression_text) false)
                  any_exception
                  (fun _ => raise err)).

(** [Interpreter.evaluate_template_literal_expression] *)
Fixpoint template_parts (parts : list template_part) (span : option Span) (result : string)
  : M string :=
  match parts with
  | [] => ret result
  | TEXT text_part :: rest => template_parts rest span (result +:+ text_part)
  | EXPR var_name :: rest =>
      piece <- try_except
                 (v <- _evaluate_template_expression var_name ;;
                  h <- get_heap ;;
                  lift_outcome (_to_lapis_string H fuel h v))
                 any_exception
                 (fun e =>
                    raise (from_simple RuntimeError UNDEFINED_VARIABLE
                             ("Error evaluating expression '" +:+ var_name
                              +:+ "' in template literal: " +:+ exn_str e)%string
                             (match span with Some sp => sp | None => dummy_span end))) ;;
      template_parts rest span (result +:+ piece)
  end.

Definition evaluate_template_literal_expression (parts : list template_part)
    (span : option Span) : M value :=
  s <- template_parts parts span "" ;;
  ret (VStr s).

(** **** environment.py: the [call] methods *)

(** [for i, param in enumerate(params):
       environment.define(param, arguments[i] if i < len(arguments) else None)] *)
Fixpoint bind_params (env : loc) (params : list string) (arguments : list value) (i : nat)
  : M unit :=
  match params with
  | [] => ret tt
  | param :: rest =>
      define env param (match arguments !! i with Some v => v | None => VNone end) PRIVATE ;;;
      bind_params env rest arguments (S i)
  end.

(** The first half of [LapisFunction.call]: the new environment with the
    parameters and the variadic parameter bound. *)
Definition bind_arguments (d : FunctionDecl) (closure : loc) (arguments : list value)
  : M loc :=
  env <- new_Environment (Some closure) ;;
  let fixed_count := List.length (fd_params d) in
  bind_params env (fd_params d) arguments 0 ;;;
  match variadic_of d with
  | Some variadic =>
      rest <- alloc (OList (if (fixed_count <? List.length arguments)%nat
                            then drop fixed_count arguments else [])) ;;
      define env variadic (VRef rest) PRIVATE
  | None => ret tt
  end ;;;
  ret env.

(** [LapisFunction.call] *)
Definition LapisFunction_call (d : FunctionDecl) (closure : loc) (is_initializer : bool)
    (arguments : list value) : M value :=
  env <- bind_arguments d closure arguments ;;
  returned <- try_except (execute_block (fd_body d) env ;;; ret None) is_return
                (fun e => match e with
                          | ReturnException v => ret (Some v)
                          | _ => raise e
                          end) ;;
  if is_initializer then Environment_get closure "this" false
  else ret (match returned with Some v => v | None => VNone end).

(** [BoundMethod.call]: the body is run, whatever it raises is dropped, and
    the body is run again. *)
Definition BoundMethod_call (instance method : loc) (arguments : list value) : M value :=
  h <- get_heap ;;
  match h !! method with
  | Some (OLapisFunction d closure _ is_initializer) =>
      env <- new_Environment (Some closure) ;;
      define env "this" (VRef instance) PRIVATE ;;;
      bind_params env (fd_params d) arguments 0 ;;;
      try_except (execute_block (fd_body d) env) any_exception (fun _ => ret tt) ;;;
      returned <- try_except (execute_block (fd_body d) env ;;; ret None) any_exception
                    (fun e => match e with
                              | ReturnException v => ret (Some v)
                              | _ => raise e
                              end) ;;
      if is_initializer then ret (VRef instance)
      else ret (match returned with Some v => v | None => VNone end)
  | _ => unmodelled "a bound method whose function is gone"
  end.

(** [LapisClass.call] *)
Definition LapisClass_call (klass : loc) (methods : gmap string loc)
    (arguments : list value) : M value :=
  instance <- alloc (OLapisInstance klass ∅) ;;
  match methods !! "init"%string with
  | Some initializer =>
      _bound <- alloc (OBoundMethod instance initializer) ;;
      BoundMethod_call instance initializer arguments ;;;
      ret (VRef instance)
  | None => ret (VRef instance)
  end.

(** The [call] methods of the host callables the model covers:
    [Console.print], [Console.error] and the array methods [push],
    [length] and [pop]. *)
Definition builtin_call (b : builtin) (arguments : list value) : M value :=
  match b with
  | ModuleFunction "Console" "print" =>
      match arguments with
      | [] => print_line "" ;;; ret VNone
      | _ =>
          outputs <- mapM (fun arg => h <- get_heap ;;
                                      lift_outcome (_to_lapis_string H fuel h arg))
                          arguments ;;
          print_line (join " " outputs) ;;; ret VNone
      end
  | ModuleFunction "Console" "error" =>
      match arguments with
      | [] => raise (LapisRuntimeException "User error")
      | arg :: _ =>
          h <- get_heap ;;
          message <- lift_outcome (python_str H h arg) ;;
          raise (LapisRuntimeException message)
      end
  | ArrayMethod "push" l =>
      forM_ (list_append l) arguments ;;;
      h <- get_heap ;;
      match h !! l with
      | Some (OList items) => ret (VInt (llen items))
      | _ => unmodelled "the array is gone"
      end
  | ArrayMethod "length" l =>
      h <- get_heap ;;
      match h !! l with
      | Some (OList items) => ret (VInt (llen items))
      | _ => unmodelled "the array is gone"
      end
  | ArrayMethod "pop" l =>
      h <- get_heap ;;
      match h !! l with
      | Some (OList items) =>
          match last items with
          | None => ret VNone
          | Some v => store l (OList (removelast items)) ;;; ret v
          end
      | _ => unmodelled "the array is gone"
      end
  | _ => unmodelled "a host callable outside the model"
  end%string.

(** [callee.call(interpreter, arguments)] *)
Definition call_method (callee : value) (arguments : list value) : M value :=
  h <- get_heap ;;
  match callee with
  | VRef l =>
      match h !! l with
      | Some (OLapisFunction d closure _ is_initializer) =>
          LapisFunction_call d closure is_initializer arguments
      | Some (OBoundMethod instance method) => BoundMethod_call instance method arguments
      | Some (OLapisClass _ methods _) => LapisClass_call l methods arguments
      | Some (OBuiltin b) => builtin_call b arguments
      | _ => unmodelled "a call of an object without a call method"
      end
  | _ => unmodelled "a call of an object without a call method"
  end.

(** **** The interpreter object, imports *)

Fixpoint alloc_functions (module : string) (names : list string) (acc : gmap string loc)
  : M (gmap string loc) :=
  match names with
  | [] => ret acc
  | name :: rest =>
      f <- alloc (OBuiltin (ModuleFunction module name)) ;;
      alloc_functions module rest (<[name := f]> acc)
  end.

Definition new_module (module : string) (names : list string) : M value :=
  functions <- alloc_functions module names ∅ ;;
  m <- alloc (OModule module functions) ;;
  ret (VRef m).

(** [Interpreter.define_built_ins] *)
Definition define_built_ins (globals : loc) : M unit :=
  console <- new_module "Console" ["input"; "number"; "print"; "error"]%string ;;
  define globals "Console" console PUBLIC ;;;
  math <- new_module "Math" ["sqrt"; "abs"; "floor"; "ceil"]%string ;;
  define globals "Math" math PUBLIC ;;;
  file <- new_module "File" ["read"; "write"; "append"; "exists"; "delete"; "list"]%string ;;
  define globals "File" file PUBLIC ;;;
  native <- alloc (OBuiltin NativePyCallFunction) ;;
  define globals "__lapis_native_py_call" (VRef native) PRIVATE.

(** [Interpreter.__init__] *)
Definition new_Interpreter : M Interpreter :=
  globals <- new_Environment None ;;
  define_built_ins globals ;;;
  ret (mkInterpreter globals globals []).

(** [Interpreter.interpret] *)
Definition interpret (program : list stmt) : M unit :=
  try_except (forM_ execute program) any_exception
    (fun e =>
       match e with
       | BreakException | ContinueException =>
           raise (from_simple RuntimeError "LAP9002" "break or continue outside of loop"
                    dummy_span)
       | LapisError _ _ => raise e
       | ReturnException v =>
           h <- get_heap ;;
           s <- lift_outcome (python_str H h v) ;;
           raise (from_simple RuntimeError INTERNAL_ERROR ("Runtime error: " +:+ s)%string
                    dummy_span)
       | _ =>
           raise (from_simple RuntimeError INTERNAL_ERROR
                    ("Runtime error: " +:+ exn_str e)%string dummy_span)
       end).

(** [Interpreter.resolve_import_path] *)
Definition resolve_import_path (path : string) : string :=
  if startswith "./" path then abspath H path
  else if startswith "/" path then path
  else abspath H path.

(** [Interpreter.get_imported_symbols] returns the empty dictionary. *)
Definition get_imported_symbols (file_path : string) (imports : option (list string))
  : list (string * value) := [].

(** [parts = error_msg.split(": ", 2); error_msg = parts[1]] *)
Definition second_part (s : string) : string :=
  match find_sub ": " s with
  | None => s
  | Some i =>
      let rest := String.substring (i + 2) (String.length s - (i + 2)) s in
      match find_sub ": " rest with
      | None => rest
      | Some j => String.substring 0 j rest
      end
  end.

Definition import_error (message : string) : exn :=
  from_simple ImportError IMPORT_ERROR message dummy_span.

Definition is_access_or_runtime_error (e : exn) : bool :=
  match e with
  | LapisError AccessError _ | LapisError RuntimeError _ => true
  | _ => false
  end.

(** The [try] block of [execute_package_statement]. *)
Definition import_file (path file_path : string) (imports : option (list string)) : M unit :=
  match load_program H file_path with
  | FileMissing => raise (PyException FileNotFoundError file_path)
  | LoadError e => raise e
  | Loaded ast =>
      self <- get_interp ;;
      imported_interpreter <- new_Interpreter ;;
      try_finally (set_interp imported_interpreter ;;; interpret ast)
                  (fun st => mkState (st_heap st) (stdout st) self) ;;;
      match imports with
      | None =>
          h <- get_heap ;;
          forM_ (fun kv : string * value =>
                   define (environment self) (fst kv) (snd kv) PRIVATE)
                (get_all_public h (globals imported_interpreter))
      | Some names =>
          forM_ (fun import_name =>
                   try_except
                     (v <- Environment_get (globals imported_interpreter) import_name true ;;
                      define (environment self) import_name v PRIVATE)
                     is_access_or_runtime_error
                     (fun e =>
                        match e with
                        | LapisError AccessError _ =>
                            raise (import_error ("Cannot import private symbol '"
                                     +:+ import_name +:+ "' from '" +:+ path +:+ "'")%string)
                        | _ =>
                            raise (import_error ("Symbol '" +:+ import_name
                                     +:+ "' not found in '" +:+ path +:+ "'")%string)
                        end))
                names
      end
  end.

(** [Interpreter.execute_package_statement] *)
Definition execute_package_statement (path : string) (imports : option (list string))
  : M unit :=
  let file_path := resolve_import_path path in
  i <- get_interp ;;
  if is_member file_path (imported_files i) then
    let _symbols := get_imported_symbols file_path imports in ret tt
  else
    set_interp (mkInterpreter (globals i) (environment i) (file_path :: imported_files i)) ;;;
    try_except (import_file path file_path imports) any_exception
      (fun e =>
         match e with
         | PyException FileNotFoundError _ =>
             raise (import_error ("Could not find file: " +:+ path)%string)
         | _ =>
             let error_msg := exn_str e in
             let error_msg := if contains_sub "Error [LAP" error_msg
                              then second_part error_msg else error_msg in
             raise (import_error ("Error importing " +:+ path +:+ ": " +:+ error_msg)%string)
         end).

(** **** The two dispatchers *)

(** [Interpreter.visit_expression] *)
Definition visit_expression (e : expr) : M value :=
  match e with
  | LiteralExpression v _ => ret (value_of_literal v)
  | IdentifierExpression name span =>
      i <- get_interp ;;
      try_except (Environment_get (environment i) name false) any_exception
        (fun _ => raise (undefined_variable
                           (match span with Some sp => sp | None => dummy_span0 end) name))
  | BinaryExpression left_expr operator right_expr span =>
      evaluate_binary_expression left_expr operator right_expr span
  | UnaryExpression operator operand => evaluate_unary_expression operator operand
  | CallExpression callee arguments _ => evaluate_call_expression callee arguments
  | GetExpression object name => evaluate_get_expression object name
  | SetExpression object name v => evaluate_set_expression object name v
  | IndexExpression object index => evaluate_index_expression object index
  | IndexSetExpression object index v => evaluate_index_set_expression object index v
  | ArrayExpression elements => evaluate_array_expression elements
  | DictionaryExpression pairs => evaluate_dictionary_expression pairs
  | AssignmentExpression name v => evaluate_assignment_expression name v
  | LogicalExpression left_expr operator right_expr =>
      evaluate_logical_expression left_expr operator right_expr
  | ThisExpression => i <- get_interp ;; Environment_get (environment i) "this" false
  | PostfixExpression operand operator => evaluate_postfix_expression operand operator
  | TemplateLiteralExpression parts span => evaluate_template_literal_expression parts span
  end.

(** [Interpreter.visit_statement] *)
Definition visit_statement (s : stmt) : M unit :=
  match s with
  | ExpressionStatement e => evaluate e ;;; ret tt
  | VarStatement name initializer access_modifier =>
      execute_var_statement name initializer access_modifier
  | BlockStatement statements => execute_block_statement statements
  | FunctionStatement name params body access_modifier variadic_param =>
      execute_function_statement (mkFunctionDecl name params body access_modifier variadic_param)
  | ClassStatement name methods constructor access_modifier =>
      execute_class_statement name methods constructor access_modifier
  | IfStatement condition then_branch else_branch elif_branches =>
      execute_if_statement condition then_branch else_branch elif_branches
  | WhileStatement condition body => execute_while_statement condition body
  | ForStatement variable iterable body => execute_for_statement variable iterable body
  | ReturnStatement v => execute_return_statement v
  | PackageStatement path imports => execute_package_statement path imports
  | BreakStatement => raise BreakException
  | ContinueStatement => raise ContinueException
  | TryStatement try_body catch_clauses finally_body =>
      execute_try_statement try_body catch_clauses finally_body
  | SwitchStatement expression cases => execute_switch_statement expression cases
  end.

End Methods.

(** **** The recursion of the tree walk

    [evaluate], [execute] and [call_value] are [Interpreter.evaluate],
    [Interpreter.execute] and the [call] method of a callable; each nested
    call takes one unit of fuel. *)
Fixpoint evaluate (H : Host) (fuel : nat) (e : expr) {struct fuel} : M value :=
  match fuel with
  | O => out_of_fuel
  | S n => visit_expression H n (evaluate H n) (call_value H n) e
  end
with execute (H : Host) (fuel : nat) (s : stmt) {struct fuel} : M unit :=
  match fuel with
  | O => out_of_fuel
  | S n => visit_statement H n (evaluate H n) (execute H n) s
  end
with call_value (H : Host) (fuel : nat) (callee : value) (arguments : list value)
    {struct fuel} : M value :=
  match fuel with
  | O => out_of_fuel
  | S n => call_method H n (execute H n) callee arguments
  end.

(** The state a run starts from: no objects, no output. *)
Definition initial_state : state := mkState [] [] (mkInterpreter O O []).

(** [main.py]: a fresh interpreter interprets the program. *)
Definition run (H : Host) (fuel : nat) (program : list stmt) : outcome unit * state :=
  (i <- new_Interpreter ;;
   set_interp i ;;;
   interpret H (execute H fuel) program) initial_state.

(** *** The bindings of a call, for the statements about calls *)

(** The bindings [bind_params] adds to the map of an environment. *)
Fixpoint bound_values (params : list string) (arguments : list value) (i : nat)
    (vals : gmap string EnvVariable) : gmap string EnvVariable :=
  match params with
  | [] => vals
  | p :: rest =>
      bound_values rest arguments (S i)
        (<[p := mkEnvVariable (default VNone (arguments !! i)) PRIVATE]> vals)
  end.

(** *** Kinds of results, for the statements about arithmetic *)





(** *** The rendering of a template literal, for the statements about it

    [renders H fuel parts st s st']: going through [parts] from the state
    [st], every text part contributes its text and every expression part
    the string of the value its text parses and evaluates to; [s] is the
    whole string and [st'] the state at the end. *)
Inductive renders (H : Host) (fuel : nat)
  : list template_part -> state -> string -> state -> Prop :=
| renders_nil st : renders H fuel [] st "" st
| renders_text text rest st s st' :
    renders H fuel rest st s st' ->
    renders H fuel (TEXT text :: rest) st (text ++ s) st'
| renders_expr source_text e v piece rest st st1 s st' :
    parse_template_expression H source_text = Ok e ->
    evaluate H fuel e st = (Done v, st1) ->
    _to_lapis_string H fuel (st_heap st1) v = Done piece ->
    renders H fuel rest st1 s st' ->
    renders H fuel (EXPR source_text :: rest) st (piece ++ s) st'.

(** *** Values of finite depth, for the statements about equality *)

(** The test a dictionary uses to find a key: identity, then [==]. *)
Definition key_eq (k1 k2 : value) : bool := py_is k1 k2 || flat_eq k1 k2.

(** Not a NaN (the one value that differs from itself). *)
Definition no_nan (v : value) : bool :=
  match v with
  | VFloat f => negb (is_nan f)
  | VComplex r i => negb (is_nan r) && negb (is_nan i)
  | _ => true
  end.

(** A float that is a double of the host, and not a NaN. *)
Definition float_ok (f : float) : bool := negb (is_nan f) && valid_binary fprec femax f.

(** A key whose floats, if any, are such doubles. *)
Definition key_ok (k : value) : bool :=
  match k with
  | VFloat f => float_ok f
  | VComplex r i => float_ok r && float_ok i
  | _ => true
  end.

Definition keys_ok (d : list (value * value)) : Prop :=
  Forall (fun kv => key_ok (fst kv) = true) d.

(** No two entries of a dictionary have equal keys. *)
Definition unique_keys (d : list (value * value)) : Prop :=
  forall i j e1 e2, d !! i = Some e1 -> d !! j = Some e2 ->
    key_eq (fst e1) (fst e2) = true -> i = j.

(** [regular h n v]: in the heap [h], the value [v] holds no NaN, and the
    arrays and dictionaries in it are nested at most [n] deep (so none
    contains itself); the keys of its dictionaries are unique, and the
    floats among them are doubles. *)
Fixpoint regular (h : heap) (n : nat) (v : value) {struct n} : Prop :=
  no_nan v = true /\
  match v with
  | VRef l =>
      match h !! l with
      | Some (OList xs) =>
          match n with
          | O => False
          | S m => Forall (regular h m) xs
          end
      | Some (ODict d) =>
          match n with
          | O => False
          | S m =>
              Forall (fun kv => key_ok (fst kv) = true /\ regular h m (snd kv)) d
              /\ unique_keys d
          end
      | _ => True
      end
  | _ => True
  end.

(** The comparison of [switch] returns for no amount of fuel. *)
Definition never_returns (h : heap) (a b : value) : Prop :=
  forall fuel, _values_equal fuel h a b = None.

(** For the proofs: one representative of each class of equal keys (a
    whole number is represented by the integer, whatever its type), and
    the pairs of values that are neither two arrays nor two dictionaries. *)
Definition zero_sign_free (f : float) : float :=
  match f with
  | S754_zero _ => S754_zero false
  | _ => f
  end.

Definition canonical_float (f : float) : value :=
  if float_is_integer f then
    match float_trunc f with
    | Some z => VInt z
    | None => VFloat f
    end
  else VFloat f.

Definition canonical_number (n : number) : value :=
  match n with
  | NInt z => VInt z
  | NFloat f => canonical_float f
  end.

Definition number_ok (n : number) : bool :=
  match n with
  | NInt _ => true
  | NFloat f => float_ok f
  end.

Definition canonical_key (k : value) : value :=
  match k with
  | VBool b => VInt (int_of_bool b)
  | VFloat f => canonical_float f
  | VComplex r i =>
      if float_is_zero i then canonical_float r
      else VComplex (zero_sign_free r) (zero_sign_free i)
  | _ => k
  end.

Definition canonical_keys (d : list (value * value)) : list value :=
  (fun kv => canonical_key (fst kv)) <$> d.

Definition flat_pair (h : heap) (a b : value) : Prop :=
  match a, b with
  | VRef l1, VRef l2 =>
      match h !! l1, h !! l2 with
      | Some (OList _), Some (OList _) | Some (ODict _), Some (ODict _) => False
      | _, _ => True
      end
  | _, _ => True
  end.

End Lapis.

(** ** tokens.py and lexer.py

    A character of the source is an [ascii]; the character classes
    ([isdigit], [isalpha], [isalnum]) are those of ASCII text. *)

Module Lexer.
Import SourceMap.
Import Lapis.

Inductive TokenType :=
| NUMBER | STRING | TEMPLATE_LITERAL | IDENTIFIER | BOOLEAN
| PACKAGE | USE | VAR | FUNC | CLASS | IF | ELSE | ELIF | WHILE | FOR | IN
| RETURN | END | THIS | INIT | PUBLIC_KW | PRIVATE_KW | TRUE | FALSE | NULL
| BREAK | CONTINUE | TRY | CATCH | FINALLY | SWITCH | CASE | DEFAULT
| PLUS | MINUS | MULTIPLY | DIVIDE | POWER | MODULO
| ASSIGN | PLUS_PLUS | MINUS_MINUS
| EQUAL | NOT_EQUAL | LESS | LESS_EQUAL | GREATER | GREATER_EQUAL
| AND | OR | NOT
| LEFT_PAREN | RIGHT_PAREN | LEFT_BRACE | RIGHT_BRACE | LEFT_BRACKET | RIGHT_BRACKET
| COMMA | SEMICOLON | DOT | COLON
| NEWLINE | TAB | EOF | COMMENT.

(** The [literal] field of a token: nothing, a value, or the parts of a
    template literal. *)
Inductive token_literal :=
| NoLiteral
| Value (v : literal)
| Parts (parts : list template_part).

Record Token := mkToken {
  type : TokenType;
  lexeme : string;
  tok_literal : token_literal;
  tok_line : Z;
  tok_column : Z;
  span : option Span
}.

(** [KEYWORDS.get(text, TokenType.IDENTIFIER)] *)
Definition keyword (text : string) : TokenType :=
  match text with
  | "package" => PACKAGE | "use" => USE | "var" => VAR | "func" => FUNC
  | "class" => CLASS | "if" => IF | "else" => ELSE | "elif" => ELIF
  | "while" => WHILE | "for" => FOR | "in" => IN | "return" => RETURN
  | "end" => END | "this" => THIS | "init" => INIT
  | "public" => PUBLIC_KW | "private" => PRIVATE_KW
  | "true" => TRUE | "false" => FALSE | "null" => NULL
  | "break" => BREAK | "continue" => CONTINUE | "try" => TRY | "catch" => CATCH
  | "finally" => FINALLY | "switch" => SWITCH | "case" => CASE | "default" => DEFAULT
  | _ => IDENTIFIER
  end%string.

Record Lexer := mkLexer {
  source : string;
  lx_file_id : Z;
  tokens : list Token;
  current : nat;
  lx_line : Z;
  lx_column : Z;
  start : nat
}.

(** [Lexer.__init__]; [fid] is the id the source map gives the file. *)
Definition new_Lexer (source : string) (fid : Z) : Lexer :=
  mkLexer source fid [] 0 1 1 0.

Definition NUL : ascii := "000"%char.

Definition is_at_end (lx : Lexer) : bool :=
  (String.length (source lx) <=? current lx)%nat.

Definition peek (lx : Lexer) : ascii :=
  match String.get (current lx) (source lx) with
  | Some c => c
  | None => NUL
  end.

Definition peek_next (lx : Lexer) : ascii :=
  match String.get (S (current lx)) (source lx) with
  | Some c => c
  | None => NUL
  end.

Definition step (lx : Lexer) : Lexer :=
  mkLexer (source lx) (lx_file_id lx) (tokens lx) (S (current lx))
          (lx_line lx) (lx_column lx + 1) (start lx).

(** [Lexer.advance] *)
Definition advance (lx : Lexer) : ascii * Lexer :=
  match String.get (current lx) (source lx) with
  | Some c => (c, step lx)
  | None => (NUL, lx)
  end.

(** [Lexer.match] *)
Definition match_ (expected : ascii) (lx : Lexer) : bool * Lexer :=
  match String.get (current lx) (source lx) with
  | Some c => if Ascii.eqb c expected then (true, step lx) else (false, lx)
  | None => (false, lx)
  end.

(** [self.line += 1; self.column = 1] *)
Definition next_line (lx : Lexer) : Lexer :=
  mkLexer (source lx) (lx_file_id lx) (tokens lx) (current lx)
          (lx_line lx + 1) 1 (start lx).

(** [if self.peek() == '\n': self.line += 1; self.column = 1] *)
Definition count_newline (lx : Lexer) : Lexer :=
  if Ascii.eqb (peek lx) newline then next_line lx else lx.

(** [self.source[self.start:self.current]] *)
Definition lexeme_text (lx : Lexer) : string :=
  String.substring (start lx) (current lx - start lx) (source lx).

(** [Lexer.create_span] *)
Definition create_span (lx : Lexer) : Span :=
  mkSpan (lx_file_id lx) (Z.of_nat (start lx)) (Z.of_nat (current lx)).

(** [Lexer.add_token] *)
Definition add_token (token_type : TokenType) (lit : token_literal) (lx : Lexer) : Lexer :=
  let text := lexeme_text lx in
  let token := mkToken token_type text lit (lx_line lx) (lx_column lx - slen text)
                       (Some (create_span lx)) in
  mkLexer (source lx) (lx_file_id lx) (tokens lx ++ [token]) (current lx)
          (lx_line lx) (lx_column lx) (start lx).

Definition isdigit (c : ascii) : bool :=
  let n := nat_of_ascii c in (48 <=? n)%nat && (n <=? 57)%nat.

Definition isalpha (c : ascii) : bool :=
  let n := nat_of_ascii c in
  ((65 <=? n)%nat && (n <=? 90)%nat) || ((97 <=? n)%nat && (n <=? 122)%nat).

Definition isalnum (c : ascii) : bool := isalpha c || isdigit c.

(** A string all of whose characters satisfy [p]. *)
Fixpoint all_chars (p : ascii -> bool) (s : string) : bool :=
  match s with
  | EmptyString => true
  | String c rest => p c && all_chars p rest
  end.

Definition underscore : ascii := "_"%char.
Definition backslash : ascii := "\"%char.
Definition backtick : ascii := "`"%char.
Definition open_brace : ascii := "{"%char.
Definition close_brace : ascii := "}"%char.
Definition double_quote : ascii := "034"%char.
Definition single_quote : ascii := "'"%char.

(** [while p(self.peek()): self.advance()]; [k] bounds the rounds. *)
Fixpoint advance_while (p : ascii -> bool) (k : nat) (lx : Lexer) : Lexer :=
  match k with
  | O => lx
  | S k' => if p (peek lx) then advance_while p k' (snd (advance lx)) else lx
  end.

Definition unterminated_string (span : Span) : exn :=
  LapisError LexError
    (mkDiagnostic "LAP1002" "unterminated string literal" [(span, "string starts here")]
       (Some "add closing quote to terminate the string")).

Definition unexpected_character (span : Span) (c : ascii) : exn :=
  let text := ("unexpected character '" +:+ String c "'")%string in
  LapisError LexError
    (mkDiagnostic "LAP1001" text [(span, text)]
       (Some "check for typos or unsupported characters")).

(** The text of a literal split at its decimal point. *)
Fixpoint split_at_dot (s : string) : string * string :=
  match s with
  | EmptyString => (EmptyString, EmptyString)
  | String c rest =>
      if Ascii.eqb c "."%char then (EmptyString, rest)
      else let '(a, b) := split_at_dot rest in (String c a, b)
  end.

(** [value = float(value_str); if value.is_integer(): value = int(value)] *)
Definition number_value (value_str : string) : literal :=
  let '(int_part, frac_part) := split_at_dot value_str in
  let value := float_of_decimal int_part frac_part in
  if float_is_integer value then
    match float_trunc value with
    | Some z => LInt z
    | None => LFloat value
    end
  else LFloat value.

(** [Lexer.number] *)
Definition number (lx : Lexer) : Lexer :=
  let n := String.length (source lx) in
  let lx1 := advance_while isdigit n lx in
  let lx2 :=
    if Ascii.eqb (peek lx1) "."%char && isdigit (peek_next lx1)
    then advance_while isdigit n (snd (advance lx1))
    else lx1 in
  add_token NUMBER (Value (number_value (lexeme_text lx2))) lx2.

(** [Lexer.identifier] *)
Definition identifier (lx : Lexer) : Lexer :=
  let lx1 := advance_while (fun c => isalnum c || Ascii.eqb c underscore)
                           (String.length (source lx)) lx in
  let text := lexeme_text lx1 in
  match keyword text with
  | TRUE => add_token TRUE (Value (LBool true)) lx1
  | FALSE => add_token FALSE (Value (LBool false)) lx1
  | NULL => add_token NULL NoLiteral lx1
  | IDENTIFIER => add_token IDENTIFIER (Value (LStr text)) lx1
  | token_type => add_token token_type NoLiteral lx1
  end.

(** The character an escape sequence of a template literal stands for. *)
Definition template_escape (escaped : ascii) : string :=
  if Ascii.eqb escaped "n"%char then String newline ""
  else if Ascii.eqb escaped "t"%char then String "009"%char ""
  else if Ascii.eqb escaped backslash then String backslash ""
  else if Ascii.eqb escaped backtick then String backtick ""
  else if Ascii.eqb escaped open_brace then String open_brace ""
  else if Ascii.eqb escaped close_brace then String close_brace ""
  else String backslash (String escaped "").

(** The inner loop of [template_literal]:
    [while self.peek() != '}' and not self.is_at_end(): ... var_name += self.advance()] *)
Fixpoint placeholder_loop (k : nat) (lx : Lexer) (var_name : string) : Lexer * string :=
  match k with
  | O => (lx, var_name)
  | S k' =>
      if negb (Ascii.eqb (peek lx) close_brace) && negb (is_at_end lx) then
        let '(c, lx') := advance (count_newline lx) in
        placeholder_loop k' lx' (var_name +:+ String c "")
      else (lx, var_name)
  end.

Definition text_part (current_text : string) : list template_part :=
  if String.eqb current_text "" then [] else [TEXT current_text].

(** The outer loop of [template_literal]: the parts so far and the text
    collected since the last part. *)
Fixpoint template_loop (k : nat) (lx : Lexer) (parts : list template_part)
    (current_text : string) : result exn (Lexer * list template_part * string) :=
  match k with
  | O => Ok (lx, parts, current_text)
  | S k' =>
      if negb (Ascii.eqb (peek lx) backtick) && negb (is_at_end lx) then
        if Ascii.eqb (peek lx) backslash then
          let lx1 := snd (advance lx) in
          if is_at_end lx1 then
            Err (unterminated_string
                   (mkSpan (lx_file_id lx1) (Z.of_nat (start lx1)) (Z.of_nat (current lx1))))
          else
            let '(escaped, lx2) := advance lx1 in
            template_loop k' lx2 parts (current_text +:+ template_escape escaped)
        else if Ascii.eqb (peek lx) open_brace then
          let lx1 := snd (advance lx) in
          let parts1 := parts ++ text_part current_text in
          let '(lx2, var_name) := placeholder_loop (String.length (source lx)) lx1 "" in
          if is_at_end lx2 then
            Err (from_simple LexError "LAP2006" "Unterminated template literal variable"
                   (create_span lx2))
          else
            let lx3 := snd (advance lx2) in
            template_loop k' lx3 (parts1 ++ [EXPR (strip var_name)]) ""
        else
          let '(c, lx1) := advance (count_newline lx) in
          template_loop k' lx1 parts (current_text +:+ String c "")
      else Ok (lx, parts, current_text)
  end.

(** [Lexer.template_literal], entered after the opening backtick. *)
Definition template_literal (lx : Lexer) : result exn Lexer :=
  match template_loop (String.length (source lx)) lx [] "" with
  | Err e => Err e
  | Ok (lx1, parts, current_text) =>
      if is_at_end lx1 then
        Err (from_simple LexError "LAP2006" "Unterminated template literal" (create_span lx1))
      else
        let parts' := parts ++ text_part current_text in
        let lx2 := snd (advance lx1) in
        Ok (add_token TEMPLATE_LITERAL (Parts parts') lx2)
  end.

(** *** The end of a numeric literal, for the statements about [number] *)




(** *** The shape of a template literal, for the statements about it

    The text between the backticks, cut into plain text and regions
    [{ interior }]; a region ends at the first closing brace. *)

Inductive segment :=
| Plain (text : string)
| Region (interior : string).

Definition segment_text (g : segment) : string :=
  match g with
  | Plain text => text
  | Region interior => String open_brace (interior ++ String close_brace "")
  end.

Fixpoint segments_text (segments : list segment) : string :=
  match segments with
  | [] => ""
  | g :: rest => (segment_text g ++ segments_text rest)%string
  end.

(** The parts the segments stand for, given the parts and the pending text
    so far: plain text is appended to the pending text; a region closes the
    pending text and contributes its interior without the white space
    around it. *)
Fixpoint segments_parts (segments : list segment) (parts : list template_part)
    (current_text : string) : list template_part * string :=
  match segments with
  | [] => (parts, current_text)
  | Plain text :: rest => segments_parts rest parts (current_text ++ text)
  | Region interior :: rest =>
      segments_parts rest (parts ++ text_part current_text ++ [EXPR (strip interior)]) ""
  end.

Definition template_parts_of (segments : list segment) : list template_part :=
  let '(parts, current_text) := segments_parts segments [] "" in
  parts ++ text_part current_text.

(** Plain text holds no backtick, backslash or opening brace; the interior
    of a region holds no closing brace. *)
Definition plain_char (c : ascii) : bool :=
  negb (Ascii.eqb c backtick) && negb (Ascii.eqb c backslash)
  && negb (Ascii.eqb c open_brace).

Definition not_close_brace (c : ascii) : bool := negb (Ascii.eqb c close_brace).

Definition segment_ok (g : segment) : bool :=
  match g with
  | Plain text => all_chars plain_char text
  | Region interior => all_chars not_close_brace interior
  end.

(** The lexer stands in front of [rest], with [pre] behind it. *)
Definition stands_at (lx : Lexer) (pre rest : string) : Prop :=
  source lx = (pre ++ rest)%string /\ current lx = String.length pre.

End Lexer.

(** ** Worked examples: a host and small programs

    The host of the examples: [abspath] is the identity; the only file is
    [m.lapis], whose program declares the public variable [x = 1] and the
    private variable [y = 2]; the only text the front end is asked to parse
    as a template expression is [n+1].  The examples never take a power of
    floats nor print a float. *)

Module Examples.
Import Lapis.

Definition ident (name : string) : expr := IdentifierExpression name None.
Definition int_lit (z : Z) : expr := LiteralExpression (LInt z) None.
Definition bool_lit (b : bool) : expr := LiteralExpression (LBool b) None.
Definition str_lit (s : string) : expr := LiteralExpression (LStr s) None.

(** [Console.print(e);] *)
Definition print (e : expr) : stmt :=
  ExpressionStatement (CallExpression (GetExpression (ident "Console") "print") [e] None).

Definition module_m : list stmt :=
  [ VarStatement "x" (Some (int_lit 1)) PUBLIC;
    VarStatement "y" (Some (int_lit 2)) PRIVATE ].

Definition example_host : Host :=
  mkHost (fun _ _ => S754_nan)
         (fun _ _ => (S754_nan, S754_nan))
         (fun _ => "float"%string)
         (fun path => path)
         (fun path => if String.eqb path "m.lapis" then Loaded module_m else FileMissing)
         (fun text =>
            if String.eqb text "n+1"
            then Ok (BinaryExpression (ident "n") "+" (int_lit 1) None)
            else Err (LapisError ParseError
                        (mkDiagnostic "LAP2003" "expected expression" [] None))).

(** The variadic function [f]: one fixed parameter [a], then the variadic
    parameter [rest]; it prints [rest] and returns [a]. *)
Definition declare_f : stmt :=
  FunctionStatement "f" ["a"%string]
    [ print (ident "rest"); ReturnStatement (Some (ident "a")) ] PRIVATE (Some "rest"%string).

(** The declaration of [f] followed by [Console.print(f());]. *)
Definition variadic_short_call : list stmt :=
  [ declare_f; print (CallExpression (ident "f") [] None) ].

(** The state after [declare_f] alone. *)
Definition state_with_f : state := snd (run example_host 20 [declare_f]).



(** [true + true] and [[1] + [2]] *)
Definition true_plus_true : expr :=
  BinaryExpression (bool_lit true) "+" (bool_lit true) None.
Definition array_plus_array : expr :=
  BinaryExpression (ArrayExpression [int_lit 1]) "+" (ArrayExpression [int_lit 2]) None.

(** [try return 1; finally Console.print("done"); end] *)
Definition try_return_finally : stmt :=
  TryStatement [ReturnStatement (Some (int_lit 1))] [] (Some [print (str_lit "done")]).

(** [func f() try return 1; finally Console.print("done"); end end
     Console.print(f());] *)
Definition return_in_try : list stmt :=
  [ FunctionStatement "f" [] [try_return_finally] PRIVATE None;
    print (CallExpression (ident "f") [] None) ].

(** [try Console.print("body"); finally Console.print("done"); end] *)
Definition plain_try : list stmt :=
  [ TryStatement [print (str_lit "body")] [] (Some [print (str_lit "done")]) ].

(** [class P func g() Console.print("in g"); end end
     var p = P();
     p.g();] *)
Definition method_call : list stmt :=
  [ ClassStatement "P" [FunctionStatement "g" [] [print (str_lit "in g")] PUBLIC None]
      None PRIVATE;
    VarStatement "p" (Some (CallExpression (ident "P") [] None)) PRIVATE;
    ExpressionStatement (CallExpression (GetExpression (ident "p") "g") [] None) ].

(** [package "m.lapis"; Console.print(x);] *)
Definition import_once : list stmt :=
  [ PackageStatement "m.lapis" None; print (ident "x") ].

(** [if (true) package "m.lapis"; Console.print(x); end
     package "m.lapis";
     Console.print(x);] *)
Definition import_twice : list stmt :=
  [ IfStatement (bool_lit true)
      (BlockStatement [PackageStatement "m.lapis" None; print (ident "x")]) None [];
    PackageStatement "m.lapis" None;
    print (ident "x") ].

(** The lexer inside the template literal [`n is {n+1}`], and inside
    [`a{ {x: 1}.x }b`], after the opening backtick. *)
Definition template_lexer : Lexer.Lexer :=
  Lexer.step (Lexer.new_Lexer "`n is {n+1}`" 1).
Definition nested_template_lexer : Lexer.Lexer :=
  Lexer.step (Lexer.new_Lexer "`a{ {x: 1}.x }b`" 1).

(** The state after [var n = 41;]. *)
Definition state_with_n : state :=
  snd (run example_host 10 [VarStatement "n" (Some (int_lit 41)) PRIVATE]).

(** [var a = [0];  a[0] = a;] and the state it leaves: the array [a]
    holds itself. *)
Definition cyclic_array : list stmt :=
  [ VarStatement "a" (Some (ArrayExpression [int_lit 0])) PRIVATE;
    ExpressionStatement (IndexSetExpression (ident "a") (int_lit 0) (ident "a")) ].
Definition cyclic_state : state := snd (run example_host 10 cyclic_array).

(** A heap with the array [[1, "a"]] and two dictionaries [{"x": that array}]. *)
Definition small_heap : heap :=
  [ OList [VInt 1; VStr "a"];
    ODict [(VStr "x", VRef 0)];
    ODict [(VStr "x", VRef 0)] ].


End Examples.

(** ** source_map.py: spans, lines and the creation of spans *)

Module Spans.
Import SourceMap.

(** [Span.__post_init__]: the constructor refuses a span that ends before
    it starts. *)
Definition new_Span (fid start end_ : Z) : result PyExc Span :=
  if end_ <? start then Err ValueError else Ok (mkSpan fid start end_).

(** [Span.length], [Span.contains], [Span.overlaps] *)
Definition Span_length (sp : Span) : Z := span_end sp - span_start sp.

Definition contains (sp : Span) (offset : Z) : bool :=
  (span_start sp <=? offset) && (offset <? span_end sp).

Definition overlaps (sp other : Span) : bool :=
  (file_id sp =? file_id other)
  && (span_start sp <? span_end other) && (span_start other <? span_end sp).

(** Python's slice [s[start:end]] of a string: a negative bound counts from
    the end, and both bounds are clamped to the string. *)
Definition slice_bound (len k : Z) : Z :=
  if k <? 0 then Z.max 0 (len + k) else Z.min k len.

Definition str_slice (s : string) (start end_ : Z) : string :=
  let a := slice_bound (slen s) start in
  let b := slice_bound (slen s) end_ in
  String.substring (Z.to_nat a) (Z.to_nat (b - a)) s.

(** [SourceFile.get_line] *)
Definition get_line (sf : SourceFile) (line_num : Z) : result PyExc string :=
  if (line_num <? 1) || (llen (line_starts sf) <? line_num) then Err ValueError
  else
    match py_index (line_starts sf) (line_num - 1) with
    | None => Err IndexError
    | Some start =>
        if line_num <? llen (line_starts sf) then
          match py_index (line_starts sf) line_num with
          | None => Err IndexError
          | Some next => Ok (str_slice (content sf) start (next - 1))
          end
        else Ok (str_slice (content sf) start (slen (content sf)))
    end.

(** [SourceFile.get_span_text] *)
Definition get_span_text (sf : SourceFile) (sp : Span) : result PyExc string :=
  if negb (file_id sp =? sf_file_id sf) then Err ValueError
  else Ok (str_slice (content sf) (span_start sp) (span_end sp)).

(** [SourceMap.resolve_span] *)
Definition resolve_span (sm : SourceMap) (sp : Span)
  : result PyExc (SourceFile * Position * Position) :=
  match get_file sm (file_id sp) with
  | None => Err ValueError
  | Some source_file =>
      match span_to_positions source_file sp with
      | Err e => Err e
      | Ok (start_pos, end_pos) => Ok (source_file, start_pos, end_pos)
      end
  end.

(** [SourceMap.get_span_text] *)
Definition SourceMap_get_span_text (sm : SourceMap) (sp : Span) : result PyExc string :=
  match get_file sm (file_id sp) with
  | None => Err ValueError
  | Some source_file => get_span_text source_file sp
  end.

(** [SourceMap.create_span] *)
Definition create_span (sm : SourceMap) (fid start end_ : Z) : result PyExc Span :=
  match files sm !! fid with
  | None => Err ValueError
  | Some source_file =>
      if (start <? 0) || (slen (content source_file) <? end_) then Err ValueError
      else new_Span fid start end_
  end.

(** The order of positions: by line, then by column. *)
Definition position_le (p q : Position) : Prop :=
  line p < line q \/ (line p = line q /\ column p <= column q).

(** The pieces of a text between its newline characters. *)
Fixpoint split_lines (s : string) : list string :=
  match s with
  | EmptyString => [EmptyString]
  | String c rest =>
      if Ascii.eqb c newline then EmptyString :: split_lines rest
      else match split_lines rest with
           | l :: ls => String c l :: ls
           | [] => [String c EmptyString]
           end
  end.

Definition no_newline (s : string) : Prop :=
  forall k, String.get k s <> Some newline.

End Spans.

(** ** environment.py and interpreter.py: lookups and scopes *)

Module Scopes.
Import Lapis.

(** The error of a lookup that finds no binding. *)
Definition undefined_name (name : string) : exn :=
  from_simple RuntimeError UNDEFINED_VARIABLE
    ("Undefined variable '" +:+ name +:+ "'")%string dummy_span.

(** An outcome that is a result or an exception: the computation ran to
    its end within the model. *)
Definition settled {A} (r : outcome A) : Prop :=
  match r with Done _ | Raise _ => True | _ => False end.

(** The scope an interpreter stands in: its current environment and its
    global environment. *)
Definition scope (i : Interpreter) : loc * loc := (environment i, globals i).

(** A computation that leaves a component of the interpreter object as it
    found it, whatever its outcome. *)
Definition keeps {B A : Type} (f : Interpreter -> B) (c : M A) : Prop :=
  forall st, f (interp (snd (c st))) = f (interp st).

(** The same for the scope, when the computation starts in the scope of
    the interpreter object [i]. *)
Definition keeps_in {A : Type} (i : Interpreter) (c : M A) : Prop :=
  forall st, scope (interp st) = scope i -> scope (interp (snd (c st))) = scope (interp st).

End Scopes.

(** ** interpreter.py: the array methods of [get_array_method]

    [map], [filter], [reduce], [sort], [join] and [reverse] are left out. *)

Module Arrays.
Import SourceMap.
Import Spans.
Import Lapis.
Local Open Scope lapis_scope.

(** Python's [lst.insert(i, x)]: a negative index counts from the end, and
    the index is clamped to the list. *)
Definition list_insert_at (items : list value) (i : Z) (x : value) : list value :=
  let k := Z.to_nat (slice_bound (llen items) i) in
  take k items ++ x :: drop k items.

(** Python's [lst.pop(i)]: the element and the rest of the list; a negative
    index counts from the end, an index out of range is an [IndexError]. *)
Definition list_pop_at (items : list value) (i : Z) : option (value * list value) :=
  let k := if i <? 0 then llen items + i else i in
  if (k <? 0) || (llen items <=? k) then None
  else match items !! Z.to_nat k with
       | Some x => Some (x, delete (Z.to_nat k) items)
       | None => None
       end.

(** Python's [lst[start:end]] *)
Definition list_slice (items : list value) (start end_ : Z) : list value :=
  let a := slice_bound (llen items) start in
  let b := slice_bound (llen items) end_ in
  take (Z.to_nat (b - a)) (drop (Z.to_nat a) items).

(** The state in which the array at [l] has the elements [items] and all
    else is as in [st]. *)
Definition with_array (l : loc) (items : list value) (st : state) : state :=
  mkState (<[l := OList items]> (st_heap st)) (stdout st) (interp st).

(** [self.array_value.insert(i, x)] on the array object at [l]. *)
Definition array_insert (l : loc) (i : Z) (x : value) : M unit :=
  h <- get_heap ;;
  match h !! l with
  | Some (OList items) => store l (OList (list_insert_at items i x))
  | _ => unmodelled "the array is gone"
  end.

(** [ArrayShiftMethod.call] *)
Definition ArrayShiftMethod_call (l : loc) (arguments : list value) : M value :=
  h <- get_heap ;;
  match h !! l with
  | Some (OList items) =>
      match items with
      | [] => ret VNone
      | first :: rest => store l (OList rest) ;;; ret first
      end
  | _ => unmodelled "the array is gone"
  end.

(** [for i, arg in enumerate(arguments): self.array_value.insert(i, arg)] *)
Fixpoint unshift_loop (l : loc) (arguments : list value) (i : Z) : M unit :=
  match arguments with
  | [] => ret tt
  | arg :: rest => array_insert l i arg ;;; unshift_loop l rest (i + 1)
  end.

(** [return len(self.array_value)] *)
Definition array_length (l : loc) : M value :=
  h <- get_heap ;;
  match h !! l with
  | Some (OList items) => ret (VInt (llen items))
  | _ => unmodelled "the array is gone"
  end.

(** [ArrayUnshiftMethod.call] *)
Definition ArrayUnshiftMethod_call (l : loc) (arguments : list value) : M value :=
  unshift_loop l arguments 0 ;;; array_length l.

(** The index a negative [start] or [fromIndex] stands for:
    [max(0, len + i)]. *)
Definition from_end (n i : Z) : Z := Z.max 0 (n + i).

(** [for _ in range(delete_count):
       if start < len(self.array_value):
           deleted.append(self.array_value.pop(start))] *)
Fixpoint splice_delete_loop (l : loc) (start : Z) (count : nat) (deleted : list value)
  : M (list value) :=
  match count with
  | O => ret deleted
  | S count' =>
      h <- get_heap ;;
      match h !! l with
      | Some (OList items) =>
          if start <? llen items then
            match list_pop_at items start with
            | Some (x, items') =>
                store l (OList items') ;;;
                splice_delete_loop l start count' (deleted ++ [x])
            | None => raise (PyException IndexError "pop index out of range")
            end
          else splice_delete_loop l start count' deleted
      | _ => unmodelled "the array is gone"
      end
  end.

(** [for i, item in enumerate(items_to_insert):
       self.array_value.insert(start + i, item)] *)
Fixpoint splice_insert_loop (l : loc) (start : Z) (items_to_insert : list value) (i : Z)
  : M unit :=
  match items_to_insert with
  | [] => ret tt
  | item :: rest =>
      array_insert l (start + i) item ;;; splice_insert_loop l start rest (i + 1)
  end.

(** [ArraySpliceMethod.call] *)
Definition ArraySpliceMethod_call (l : loc) (arguments : list value) : M value :=
  match arguments with
  | [] => raise (LapisError_of_str RuntimeError
                   "splice() requires at least 1 argument (start index)")
  | start_arg :: more =>
      match index_int start_arg with
      | None => raise (LapisError_of_str RuntimeError
                         "splice() start index must be an integer")
      | Some s =>
          h <- get_heap ;;
          match h !! l with
          | Some (OList items) =>
              let n := llen items in
              let start := if s <? 0 then from_end n s else Z.min s n in
              delete_count <-
                match more with
                | [] => ret (n - start)
                | count_arg :: _ =>
                    match index_int count_arg with
                    | None => raise (LapisError_of_str RuntimeError
                                       "splice() delete count must be an integer")
                    | Some c => ret (Z.max 0 (Z.min c (n - start)))
                    end
                end ;;
              let items_to_insert := drop 2 arguments in
              deleted <- splice_delete_loop l start (Z.to_nat delete_count) [] ;;
              splice_insert_loop l start items_to_insert 0 ;;;
              d <- alloc (OList deleted) ;;
              ret (VRef d)
          | _ => unmodelled "the array is gone"
          end
      end
  end.

(** [ArraySliceMethod.call] *)
Definition ArraySliceMethod_call (l : loc) (arguments : list value) : M value :=
  h <- get_heap ;;
  match h !! l with
  | Some (OList items) =>
      let n := llen items in
      start <- match arguments with
               | [] => ret 0
               | start_arg :: _ =>
                   match index_int start_arg with
                   | None => raise (LapisError_of_str RuntimeError
                                      "slice() start index must be an integer")
                   | Some s => ret (if s <? 0 then from_end n s else s)
                   end
               end ;;
      end_ <- match arguments with
              | _ :: end_arg :: _ =>
                  match index_int end_arg with
                  | None => raise (LapisError_of_str RuntimeError
                                     "slice() end index must be an integer")
                  | Some e => ret (Z.min (if e <? 0 then from_end n e else e) n)
                  end
              | _ => ret n
              end ;;
      r <- alloc (OList (list_slice items start end_)) ;;
      ret (VRef r)
  | _ => unmodelled "the array is gone"
  end.

(** [for i in range(from_index, len(self.array_value)):
       if interpreter.is_equal(self.array_value[i], search_element): return i
     return -1]; [items] are the elements from [i] on. *)
Fixpoint index_of_loop (fuel : nat) (h : heap) (items : list value) (i : Z)
    (search_element : value) : option Z :=
  match items with
  | [] => Some (-1)
  | x :: rest =>
      match is_equal fuel h x search_element with
      | None => None
      | Some true => Some i
      | Some false => index_of_loop fuel h rest (i + 1) search_element
      end
  end.

(** The same loop in [ArrayIncludesMethod.call], which returns [True] or
    [False]. *)
Fixpoint includes_loop (fuel : nat) (h : heap) (items : list value)
    (search_element : value) : option bool :=
  match items with
  | [] => Some false
  | x :: rest =>
      match is_equal fuel h x search_element with
      | None => None
      | Some true => Some true
      | Some false => includes_loop fuel h rest search_element
      end
  end.

(** The [fromIndex] argument of [indexOf] and [includes]. *)
Definition from_index_of (what : string) (n : Z) (more : list value) : M Z :=
  match more with
  | [] => ret 0
  | from_arg :: _ =>
      match index_int from_arg with
      | None => raise (LapisError_of_str RuntimeError
                         (what +:+ "() fromIndex must be an integer")%string)
      | Some f => ret (if f <? 0 then from_end n f else f)
      end
  end.

(** [ArrayIndexOfMethod.call] *)
Definition ArrayIndexOfMethod_call (fuel : nat) (l : loc) (arguments : list value) : M value :=
  match arguments with
  | [] => raise (LapisError_of_str RuntimeError "indexOf() requires at least 1 argument")
  | search_element :: more =>
      h <- get_heap ;;
      match h !! l with
      | Some (OList items) =>
          from_index <- from_index_of "indexOf" (llen items) more ;;
          i <- lift_fuel (index_of_loop fuel h (drop (Z.to_nat from_index) items)
                            from_index search_element) ;;
          ret (VInt i)
      | _ => unmodelled "the array is gone"
      end
  end.

(** [ArrayIncludesMethod.call] *)
Definition ArrayIncludesMethod_call (fuel : nat) (l : loc) (arguments : list value) : M value :=
  match arguments with
  | [] => raise (LapisError_of_str RuntimeError "includes() requires at least 1 argument")
  | search_element :: more =>
      h <- get_heap ;;
      match h !! l with
      | Some (OList items) =>
          from_index <- from_index_of "includes" (llen items) more ;;
          b <- lift_fuel (includes_loop fuel h (drop (Z.to_nat from_index) items)
                            search_element) ;;
          ret (VBool b)
      | _ => unmodelled "the array is gone"
      end
  end.

(** [for arg in arguments:
       if isinstance(arg, list): result.extend(arg) else: result.append(arg)] *)
Fixpoint concat_loop (h : heap) (result : list value) (arguments : list value) : list value :=
  match arguments with
  | [] => result
  | arg :: rest =>
      match arg with
      | VRef a =>
          match h !! a with
          | Some (OList xs) => concat_loop h (result ++ xs) rest
          | _ => concat_loop h (result ++ [arg]) rest
          end
      | _ => concat_loop h (result ++ [arg]) rest
      end
  end.

(** [ArrayConcatMethod.call] *)
Definition ArrayConcatMethod_call (l : loc) (arguments : list value) : M value :=
  h <- get_heap ;;
  match h !! l with
  | Some (OList items) =>
      r <- alloc (OList (concat_loop h items arguments)) ;;
      ret (VRef r)
  | _ => unmodelled "the array is gone"
  end.


(** The delete count of a call of [splice]. *)
Definition splice_count (n start : Z) (more : list value) : option Z :=
  match more with
  | [] => Some (n - start)
  | count_arg :: _ =>
      match index_int count_arg with
      | Some c => Some (Z.max 0 (Z.min c (n - start)))
      | None => None
      end
  end.

(** What one argument of [concat] contributes: its elements when it is an
    array, itself otherwise. *)
Definition concat_items (h : heap) (arg : value) : list value :=
  match arg with
  | VRef a => match h !! a with Some (OList xs) => xs | _ => [arg] end
  | _ => [arg]
  end.

End Arrays.

(** ** More worked examples: small states *)

Module Samples.
Import Lapis.
Import Examples.

(** A state whose only object is an empty global environment. *)
Definition one_scope : state :=
  mkState [OEnvironment None ∅] [] (mkInterpreter O O []).

(** A state whose only object is the array [[1, 2, 3]]. *)
Definition one_array : state :=
  mkState [OList [VInt 1; VInt 2; VInt 3]] [] (mkInterpreter O O []).

(** A state with the arrays [[1, 2]] and [[3]]. *)
Definition two_arrays : state :=
  mkState [OList [VInt 1; VInt 2]; OList [VInt 3]] [] (mkInterpreter O O []).

(** The state after [var a = [1, 2, 3];] *)
Definition state_with_a : state :=
  snd (run example_host 10
         [VarStatement "a" (Some (ArrayExpression [int_lit 1; int_lit 2; int_lit 3]))
            PRIVATE]).

(** The state after [class P end  var p = P();] *)
Definition state_with_p : state :=
  snd (run example_host 20
         [ClassStatement "P" [] None PRIVATE;
          VarStatement "p" (Some (CallExpression (ident "P") [] None)) PRIVATE]).

(** The state after [var d = {};] *)
Definition state_with_d : state :=
  snd (run example_host 10 [VarStatement "d" (Some (DictionaryExpression [])) PRIVATE]).

(** The state after [func id(a) return a; end] *)
Definition state_with_id : state :=
  snd (run example_host 10
         [FunctionStatement "id" ["a"%string] [ReturnStatement (Some (ident "a"))]
            PRIVATE None]).

End Samples.

(** ** lexer.py: [scan_token], [string], the comments and [tokenize] *)

Module Scanner.
Import SourceMap.
Import Lapis.
Import Lexer.

(** The character an escape sequence of a string literal stands for. *)
Definition string_escape (quote_char escaped : ascii) : string :=
  if Ascii.eqb escaped "n"%char then String newline ""
  else if Ascii.eqb escaped "t"%char then String "009"%char ""
  else if Ascii.eqb escaped backslash then String backslash ""
  else if Ascii.eqb escaped double_quote then String double_quote ""
  else if Ascii.eqb escaped single_quote then String single_quote ""
  else if Ascii.eqb escaped quote_char then String quote_char ""
  else String backslash (String escaped "").

(** The loop of [Lexer.string]:
    [while self.peek() != quote_char and not self.is_at_end(): ...];
    [text] is the text collected so far ([result] in the source), and [k]
    bounds the rounds. *)
Fixpoint string_loop (k : nat) (quote_char : ascii) (lx : Lexer) (text : string)
  : result exn (Lexer * string) :=
  match k with
  | O => Ok (lx, text)
  | S k' =>
      if negb (Ascii.eqb (peek lx) quote_char) && negb (is_at_end lx) then
        if Ascii.eqb (peek lx) backslash then
          let lx1 := snd (advance lx) in
          if is_at_end lx1 then
            Err (unterminated_string
                   (mkSpan (lx_file_id lx1) (Z.of_nat (start lx1)) (Z.of_nat (current lx1))))
          else
            let '(escaped, lx2) := advance lx1 in
            string_loop k' quote_char lx2 (text +:+ string_escape quote_char escaped)
        else
          let '(c, lx1) := advance (count_newline lx) in
          string_loop k' quote_char lx1 (text +:+ String c "")
      else Ok (lx, text)
  end.

(** [Lexer.string], entered after the opening quote. *)
Definition string_ (quote_char : ascii) (lx : Lexer) : result exn Lexer :=
  match string_loop (String.length (source lx)) quote_char lx "" with
  | Err e => Err e
  | Ok (lx1, text) =>
      if is_at_end lx1 then
        Err (unterminated_string
               (mkSpan (lx_file_id lx1) (Z.of_nat (start lx1)) (Z.of_nat (current lx1))))
      else
        let lx2 := snd (advance lx1) in
        Ok (add_token STRING (Value (LStr text)) lx2)
  end.

(** The loop of [Lexer.multi_line_comment]:
    [while nesting_level > 0 and not self.is_at_end(): ...] *)
Fixpoint comment_loop (k : nat) (nesting_level : Z) (lx : Lexer) : Lexer * Z :=
  match k with
  | O => (lx, nesting_level)
  | S k' =>
      if (0 <? nesting_level) && negb (is_at_end lx) then
        if Ascii.eqb (peek lx) "/"%char && Ascii.eqb (peek_next lx) "*"%char then
          comment_loop k' (nesting_level + 1) (snd (advance (snd (advance lx))))
        else if Ascii.eqb (peek lx) "*"%char && Ascii.eqb (peek_next lx) "/"%char then
          comment_loop k' (nesting_level - 1) (snd (advance (snd (advance lx))))
        else if Ascii.eqb (peek lx) newline then
          comment_loop k' nesting_level (snd (advance (next_line lx)))
        else
          comment_loop k' nesting_level (snd (advance lx))
      else (lx, nesting_level)
  end.

(** [Lexer.multi_line_comment], entered after the opening [/*]. *)
Definition multi_line_comment (lx : Lexer) : result exn Lexer :=
  let '(lx1, nesting_level) := comment_loop (String.length (source lx)) 1 lx in
  if 0 <? nesting_level then
    Err (from_simple LexError "LAP2005" "Unterminated multi-line comment" (create_span lx1))
  else Ok lx1.

(** The single-line comment of [scan_token]:
    [while self.peek() != '\n' and not self.is_at_end(): self.advance()] *)
Fixpoint line_comment_loop (k : nat) (lx : Lexer) : Lexer :=
  match k with
  | O => lx
  | S k' =>
      if negb (Ascii.eqb (peek lx) newline) && negb (is_at_end lx)
      then line_comment_loop k' (snd (advance lx))
      else lx
  end.

(** [if self.match(expected): self.add_token(two) else: self.add_token(one)] *)
Definition one_or_two (expected : ascii) (two one : TokenType) (lx : Lexer) : Lexer :=
  let '(matched, lx1) := match_ expected lx in
  add_token (if matched then two else one) NoLiteral lx1.

(** [Lexer.scan_token] *)
Definition scan_token (lx0 : Lexer) : result exn Lexer :=
  let '(c, lx) := advance lx0 in
  if Ascii.eqb c "("%char then Ok (add_token LEFT_PAREN NoLiteral lx)
  else if Ascii.eqb c ")"%char then Ok (add_token RIGHT_PAREN NoLiteral lx)
  else if Ascii.eqb c "{"%char then Ok (add_token LEFT_BRACE NoLiteral lx)
  else if Ascii.eqb c "}"%char then Ok (add_token RIGHT_BRACE NoLiteral lx)
  else if Ascii.eqb c "["%char then Ok (add_token LEFT_BRACKET NoLiteral lx)
  else if Ascii.eqb c "]"%char then Ok (add_token RIGHT_BRACKET NoLiteral lx)
  else if Ascii.eqb c ","%char then Ok (add_token COMMA NoLiteral lx)
  else if Ascii.eqb c "."%char then Ok (add_token DOT NoLiteral lx)
  else if Ascii.eqb c ";"%char then Ok (add_token SEMICOLON NoLiteral lx)
  else if Ascii.eqb c ":"%char then Ok (add_token COLON NoLiteral lx)
  else if Ascii.eqb c "%"%char then Ok (add_token MODULO NoLiteral lx)
  else if Ascii.eqb c "+"%char then Ok (one_or_two "+" PLUS_PLUS PLUS lx)
  else if Ascii.eqb c "-"%char then Ok (one_or_two "-" MINUS_MINUS MINUS lx)
  else if Ascii.eqb c "*"%char then Ok (one_or_two "*" POWER MULTIPLY lx)
  else if Ascii.eqb c "/"%char then
    let '(comment, lx1) := match_ "/" lx in
    if comment then Ok (line_comment_loop (String.length (source lx1)) lx1)
    else
      let '(comment, lx2) := match_ "*" lx1 in
      if comment then multi_line_comment lx2
      else Ok (add_token DIVIDE NoLiteral lx2)
  else if Ascii.eqb c "="%char then Ok (one_or_two "=" EQUAL ASSIGN lx)
  else if Ascii.eqb c "!"%char then Ok (one_or_two "=" NOT_EQUAL NOT lx)
  else if Ascii.eqb c "<"%char then Ok (one_or_two "=" LESS_EQUAL LESS lx)
  else if Ascii.eqb c ">"%char then Ok (one_or_two "=" GREATER_EQUAL GREATER lx)
  else if Ascii.eqb c "&"%char then
    let '(matched, lx1) := match_ "&" lx in
    if matched then Ok (add_token AND NoLiteral lx1)
    else Err (unexpected_character (create_span lx1) c)
  else if Ascii.eqb c "|"%char then
    let '(matched, lx1) := match_ "|" lx in
    if matched then Ok (add_token OR NoLiteral lx1)
    else Err (unexpected_character (create_span lx1) c)
  else if Ascii.eqb c " "%char || Ascii.eqb c "013"%char then Ok lx
  else if Ascii.eqb c "009"%char then Ok (add_token TAB NoLiteral lx)
  else if Ascii.eqb c newline then Ok (next_line (add_token NEWLINE NoLiteral lx))
  else if Ascii.eqb c double_quote then string_ double_quote lx
  else if Ascii.eqb c single_quote then string_ single_quote lx
  else if Ascii.eqb c backtick then template_literal lx
  else if isdigit c then Ok (number lx)
  else if isalpha c || Ascii.eqb c underscore then Ok (identifier lx)
  else Err (unexpected_character (create_span lx) c).

(** [self.start = self.current] *)
Definition mark_start (lx : Lexer) : Lexer :=
  mkLexer (source lx) (lx_file_id lx) (tokens lx) (current lx)
          (lx_line lx) (lx_column lx) (current lx).

(** The loop of [Lexer.tokenize]:
    [while not self.is_at_end(): self.start = self.current; self.scan_token()];
    [k] bounds the rounds. *)
Fixpoint tokenize_loop (k : nat) (lx : Lexer) : result exn Lexer :=
  match k with
  | O => Ok lx
  | S k' =>
      if is_at_end lx then Ok lx
      else match scan_token (mark_start lx) with
           | Err e => Err e
           | Ok lx' => tokenize_loop k' lx'
           end
  end.

(** [Lexer.tokenize] *)
Definition tokenize (lx : Lexer) : result exn (list Token) :=
  match tokenize_loop (String.length (source lx)) lx with
  | Err e => Err e
  | Ok lx' =>
      Ok (tokens lx' ++ [mkToken EOF "" NoLiteral (lx_line lx') (lx_column lx') None])
  end.

(** *** Vocabulary of the statements about the scanner *)

(** An error of the lexer. *)
Definition is_LexError (e : exn) : bool :=
  match e with LapisError LexError _ => true | _ => false end.

(** The lexer [lx'] is [lx] moved on: the same source, file, token start
    and tokens, and a position that is not before that of [lx] nor, if
    that one was inside the source, past its end. *)
Definition moved (lx lx' : Lexer) : Prop :=
  source lx' = source lx /\ lx_file_id lx' = lx_file_id lx /\ start lx' = start lx /\
  tokens lx' = tokens lx /\ (current lx <= current lx')%nat /\
  ((current lx <= String.length (source lx))%nat ->
   (current lx' <= String.length (source lx))%nat).

(** The tokens [toks] tile the text of [source] between the offsets [from]
    and [to]: each spans a piece [a, b) that is not empty, its lexeme is
    that piece of the source, and the pieces come in order without
    overlap. *)
Fixpoint tiles (source : string) (fid : Z) (from : nat) (toks : list Token) (to : nat)
  : Prop :=
  match toks with
  | [] => (from <= to)%nat
  | t :: rest =>
      exists a b : nat,
        span t = Some (mkSpan fid (Z.of_nat a) (Z.of_nat b)) /\
        (from <= a)%nat /\ (a < b)%nat /\
        lexeme t = String.substring a (b - a) source /\
        tiles source fid b rest to
  end.

(** One round of [tokenize] from [lx] to [lx']: the position has moved on
    inside the source, and at most one token was added, which spans
    exactly the text passed. *)
Definition scanned (lx lx' : Lexer) : Prop :=
  source lx' = source lx /\ lx_file_id lx' = lx_file_id lx /\
  (current lx < current lx')%nat /\ (current lx' <= String.length (source lx))%nat /\
  (tokens lx' = tokens lx \/
   exists tok,
     tokens lx' = tokens lx ++ [tok] /\
     span tok = Some (mkSpan (lx_file_id lx) (Z.of_nat (current lx))
                        (Z.of_nat (current lx'))) /\
     lexeme tok = String.substring (current lx) (current lx' - current lx) (source lx)).

(** A character of a string literal delimited by [quote_char] that stands
    for itself: not the quote and not a backslash. *)
Definition string_char (quote_char c : ascii) : bool :=
  negb (Ascii.eqb c quote_char) && negb (Ascii.eqb c backslash).

(** A character of a word: a letter, a digit or an underscore. *)
Definition word_char (c : ascii) : bool := isalnum c || Ascii.eqb c underscore.

(** What may follow a word: nothing, or a character that is not of a
    word. *)
Definition ends_word (tail : string) : bool :=
  match tail with
  | EmptyString => true
  | String c _ => negb (word_char c)
  end.

(** The literal of the token of a word. *)
Definition word_literal (text : string) : token_literal :=
  match keyword text with
  | TRUE => Value (LBool true)
  | FALSE => Value (LBool false)
  | IDENTIFIER => Value (LStr text)
  | _ => NoLiteral
  end.

(** A character of a comment that is neither a star nor a slash. *)
Definition comment_char (c : ascii) : bool :=
  negb (Ascii.eqb c "*"%char) && negb (Ascii.eqb c "/"%char).

(** The text of a multi-line comment in which every [/*] has its [*/]:
    characters other than star and slash, and comments nested in it. *)
Inductive comment_text : string -> Prop :=
| comment_empty : comment_text ""
| comment_cons (c : ascii) (text : string) :
    comment_char c = true -> comment_text text -> comment_text (String c text)
| comment_nested (inner text : string) :
    comment_text inner -> comment_text text ->
    comment_text ("/*" ++ inner ++ "*/" ++ text).

End Scanner.

(** ** errors.py: the labels of a diagnostic *)

Module Diagnostics.
Import SourceMap.

(** [LabeledSpan]; the labels of a diagnostic are objects that
    [Diagnostic.__post_init__] changes in place, so a diagnostic holds
    references into a store of labels. *)
Record LabeledSpan := mkLabeledSpan {
  ls_span : Span;
  ls_label : option string;
  is_primary : bool;
  style : string
}.

(** [LabeledSpan(span, label, is_primary)] with [__post_init__]. *)
Definition new_LabeledSpan (span : Span) (label : option string) (primary : bool)
  : LabeledSpan :=
  mkLabeledSpan span label primary (if primary then "primary" else "secondary").

Abbreviation label_store := (list LabeledSpan).

(** [label.is_primary] of the label at [l]. *)
Definition primary_at (store : label_store) (l : nat) : bool :=
  match store !! l with
  | Some label => is_primary label
  | None => false
  end.

(** [sum(1 for label in self.labels if label.is_primary)] *)
Definition primary_count (store : label_store) (labels : list nat) : nat :=
  length (List.filter (primary_at store) labels).

(** [label.is_primary = primary; label.style = text] *)
Definition mark (primary : bool) (text : string) (label : LabeledSpan) : LabeledSpan :=
  mkLabeledSpan (ls_span label) (ls_label label) primary text.

(** [for label in self.labels:
       if label.is_primary and found_primary:
           label.is_primary = False; label.style = "secondary"
       elif label.is_primary: found_primary = True] *)
Fixpoint keep_first_primary (store : label_store) (labels : list nat) (found_primary : bool)
  : label_store :=
  match labels with
  | [] => store
  | l :: rest =>
      match store !! l with
      | Some label =>
          if is_primary label && found_primary then
            keep_first_primary (<[l := mark false "secondary" label]> store) rest found_primary
          else if is_primary label then keep_first_primary store rest true
          else keep_first_primary store rest found_primary
      | None => store
      end
  end.

(** The part of [Diagnostic.__post_init__] on the labels. *)
Definition Diagnostic_post_init (store : label_store) (labels : list nat) : label_store :=
  let count := primary_count store labels in
  if (count =? 0)%nat && negb (length labels =? 0)%nat then
    match labels with
    | l :: _ =>
        match store !! l with
        | Some label => <[l := mark true "primary" label]> store
        | None => store
        end
    | [] => store
    end
  else if (1 <? count)%nat then keep_first_primary store labels false
  else store.

(** [Diagnostic.primary_span] *)
Fixpoint primary_span (store : label_store) (labels : list nat) : option Span :=
  match labels with
  | [] => None
  | l :: rest =>
      match store !! l with
      | Some label => if is_primary label then Some (ls_span label)
                      else primary_span store rest
      | None => None
      end
  end.

(** The span of the label at [l]. *)
Definition span_at (store : label_store) (l : nat) : option Span :=
  ls_span <$> store !! l.

(** A store with one label, which is not primary, and the labels of a
    diagnostic that lists it twice. *)
Definition shared_label_store : label_store :=
  [new_LabeledSpan (mkSpan 1 0 1) None false].
Definition shared_labels : list nat := [0%nat; 0%nat].

End Diagnostics.

(* ===================================================================== *)
(** * Part II: lemmas and theorems                                       *)
(* ===================================================================== *)

Section SourceMapFacts.
Import SourceMap.

Lemma line_starts_from_bounds s : forall i x,
  In x (line_starts_from i s) -> i < x <= i + slen s.
Proof.
  induction s as [|c rest IH]; intros i x Hin; simpl in Hin.
  - contradiction.
  - unfold slen in *. simpl String.length. rewrite Nat2Z.inj_succ.
    destruct (Ascii.eqb c newline).
    + destruct Hin as [<-|Hin]; [lia|]. apply IH in Hin. lia.
    + apply IH in Hin. lia.
Qed.

Lemma line_starts_from_sorted s : forall i,
  StronglySorted Z.lt (line_starts_from i s).
Proof.
  induction s as [|c rest IH]; intros i; simpl.
  - constructor.
  - destruct (Ascii.eqb c newline); [|apply IH].
    constructor; [apply IH|].
    apply Forall_forall. intros x Hx.
    apply list_elem_of_In, line_starts_from_bounds in Hx. lia.
Qed.

Lemma compute_line_starts_sorted content :
  StronglySorted Z.lt (_compute_line_starts content).
Proof.
  unfold _compute_line_starts. constructor.
  - apply line_starts_from_sorted.
  - apply Forall_forall. intros x Hx.
    apply list_elem_of_In, line_starts_from_bounds in Hx. lia.
Qed.

Lemma sorted_lookup_lt (l : list Z) : StronglySorted Z.lt l ->
  forall (i j : nat) x y, (i < j)%nat ->
  l !! i = Some x -> l !! j = Some y -> x < y.
Proof.
  induction 1 as [|a l Hs IH Hall]; intros i j x y Hij Hi Hj.
  - discriminate.
  - destruct i as [|i], j as [|j]; try lia; simpl in *.
    + injection Hi as <-. rewrite Forall_forall in Hall.
      apply Hall. eapply list_elem_of_lookup_2; eauto.
    + eapply (IH i j); eauto. lia.
Qed.

(** What the scan returns: the first index whose line start exceeds the
    offset; every earlier line start is at most the offset. *)
Lemma first_greater_Some ls o : forall i k,
  first_greater ls o i = Some k ->
  exists n : nat, k = i + Z.of_nat n /\
    (exists x, ls !! n = Some x /\ o < x) /\
    (forall (j : nat) y, (j < n)%nat -> ls !! j = Some y -> y <= o).
Proof.
  induction ls as [|a ls IH]; intros i k H; simpl in H; [discriminate|].
  destruct (o <? a) eqn:Hoa.
  - injection H as <-. exists 0%nat. repeat split; [lia| |intros; lia].
    exists a. split; [reflexivity|lia].
  - apply IH in H as (n & -> & (x & Hx & Hox) & Hbefore).
    exists (S n). repeat split; [lia|exists x; auto|].
    intros [|j] y Hj Hy; simpl in Hy.
    + injection Hy as <-. lia.
    + apply (Hbefore j); [lia|done].
Qed.

Lemma first_greater_None ls o : forall i,
  first_greater ls o i = None ->
  forall (j : nat) y, ls !! j = Some y -> y <= o.
Proof.
  induction ls as [|a ls IH]; intros i H j y Hy; simpl in H; [discriminate|].
  destruct (o <? a) eqn:Hoa; [discriminate|].
  destruct j as [|j]; simpl in Hy.
  - injection Hy as <-. lia.
  - eapply IH; eauto.
Qed.

Lemma offset_to_position_computed (sf : SourceFile) (o : Z) :
  line_starts sf = _compute_line_starts (content sf) ->
  match offset_to_position sf o with
  | Ok p =>
      0 <= o <= slen (content sf) /\
      1 <= line p /\
      exists s, line_starts sf !! Z.to_nat (line p - 1) = Some s /\
                s + column p - 1 = o /\
                s <= o /\
                forall (j : nat) s',
                  line_starts sf !! j = Some s' -> s' <= o -> s' <= s
  | Err e => e = ValueError /\ (o < 0 \/ slen (content sf) < o)
  end.
Proof.
  intros Hls. unfold offset_to_position.
  destruct ((o <? 0) || (slen (content sf) <? o)) eqn:Hrange.
  { split; [reflexivity|].
    apply orb_true_iff in Hrange as [H%Z.ltb_lt|H%Z.ltb_lt]; lia. }
  apply orb_false_iff in Hrange as [H0%Z.ltb_ge Hlen%Z.ltb_ge].
  pose proof (compute_line_starts_sorted (content sf)) as Hsorted.
  rewrite <- Hls in Hsorted.
  assert (Hhead : line_starts sf !! 0%nat = Some 0) by (rewrite Hls; reflexivity).
  destruct (first_greater (line_starts sf) o 0) as [k|] eqn:Hscan.
  - apply first_greater_Some in Hscan as (n & -> & (x & Hx & Hox) & Hbefore).
    destruct n as [|n].
    { rewrite Hhead in Hx. injection Hx as <-. lia. }
    unfold py_index.
    replace (0 + Z.of_nat (S n) - 1) with (Z.of_nat n) by lia.
    destruct (Z.ltb_spec (Z.of_nat n) 0) as [Hneg|_]; [lia|].
    rewrite Nat2Z.id.
    destruct (line_starts sf !! n) as [s|] eqn:Hs.
    + simpl. replace (Z.to_nat (0 + Z.of_nat (S n) - 1)) with n by lia.
      assert (s <= o) by (apply (Hbefore n); [lia|done]).
      split; [lia|]. split; [lia|]. exists s.
      repeat split; [done|lia|done|].
      intros j s' Hj Hle.
      destruct (decide (j <= n)%nat) as [Hjn|Hjn].
      * destruct (decide (j = n)) as [->|Hne];
          [assert (s' = s) by congruence; lia|].
        assert (s' < s) by (apply (sorted_lookup_lt _ Hsorted j n); [lia|done|done]).
        lia.
      * destruct (decide (j = S n)) as [->|Hne]; [rewrite Hx in Hj; injection Hj as <-; lia|].
        assert (x < s') by (apply (sorted_lookup_lt _ Hsorted (S n) j); [lia|done|done]).
        lia.
    + apply lookup_ge_None in Hs. apply lookup_lt_Some in Hx. lia.
  - pose proof (first_greater_None _ _ _ Hscan) as Hall.
    assert (Hpos : (0 < List.length (line_starts sf))%nat)
      by (apply lookup_lt_Some in Hhead; lia).
    unfold py_index, llen.
    destruct (Z.ltb_spec (Z.of_nat (List.length (line_starts sf)) - 1) 0)
      as [Hneg|_]; [lia|].
    destruct (line_starts sf !! Z.to_nat (Z.of_nat (List.length (line_starts sf)) - 1))
      as [s|] eqn:Hs.
    + simpl. split; [lia|]. split; [lia|]. exists s.
      assert (s <= o) by (eapply Hall; eauto).
      repeat split; [done|lia|done|].
      intros j s' Hj Hle.
      pose proof (lookup_lt_Some _ _ _ Hj) as Hjlt.
      destruct (decide (j = Z.to_nat (Z.of_nat (List.length (line_starts sf)) - 1)))
        as [->|Hne]; [assert (s' = s) by congruence; lia|].
      assert (s' < s); [|lia].
      apply (sorted_lookup_lt _ Hsorted j
               (Z.to_nat (Z.of_nat (List.length (line_starts sf)) - 1)));
        [lia|done|done].
    + apply lookup_ge_None in Hs. lia.
Qed.

(** Every file of a reachable source map was built by [SourceFile.__init__]. *)
Lemma reachable_line_starts abspath sm :
  reachable abspath sm ->
  forall fid sf, get_file sm fid = Some sf ->
  line_starts sf = _compute_line_starts (content sf).
Proof.
  induction 1 as [|sm path content Hr IH]; intros fid sf Hget.
  - unfold get_file in Hget. simpl in Hget. rewrite lookup_empty in Hget. discriminate.
  - unfold add_file, get_file in *.
    destruct (path_to_id sm !! abspath path); simpl in Hget; [eauto|].
    rewrite lookup_insert in Hget. case_decide.
    + injection Hget as <-. reflexivity.
    + eauto.
Qed.

(** C7.  For every registered source file and every offset [o]:
    [offset_to_position] returns a position [(L, C)] exactly when
    [0 <= o <= len(content)]; then [line_starts[L-1] + C - 1 = o] and
    [line_starts[L-1]] is the largest line start that is at most [o].
    For an offset outside that range it fails (with [ValueError]). *)
Theorem offset_to_position_registered abspath sm fid sf (o : Z) :
  reachable abspath sm ->
  get_file sm fid = Some sf ->
  match offset_to_position sf o with
  | Ok p =>
      0 <= o <= slen (content sf) /\
      1 <= line p /\
      exists s, line_starts sf !! Z.to_nat (line p - 1) = Some s /\
                s + column p - 1 = o /\
                s <= o /\
                forall (j : nat) s',
                  line_starts sf !! j = Some s' -> s' <= o -> s' <= s
  | Err e => e = ValueError /\ (o < 0 \/ slen (content sf) < o)
  end.
Proof.
  intros Hr Hget. apply offset_to_position_computed.
  eapply reachable_line_starts; eauto.
Qed.

(** C7 at a concrete input: the file [a.lapis] holds the two lines [ab]
    and [cd]; offset 4 (the [d]) is line 2, column 2. *)
Lemma offset_to_position_registered_witness :
  let text := String "a" (String "b" (String newline "cd")) in
  let sm := snd (add_file (fun p => p) empty_SourceMap "a.lapis" text) in
  let sf := new_SourceFile 1 "a.lapis" text in
  get_file sm 1 = Some sf /\
  offset_to_position sf 4 = Ok (mkPosition 2 2) /\
  match offset_to_position sf 4 with
  | Ok p =>
      0 <= 4 <= slen (content sf) /\
      1 <= line p /\
      exists s, line_starts sf !! Z.to_nat (line p - 1) = Some s /\
                s + column p - 1 = 4 /\
                s <= 4 /\
                forall (j : nat) s',
                  line_starts sf !! j = Some s' -> s' <= 4 -> s' <= s
  | Err e => e = ValueError /\ (4 < 0 \/ slen (content sf) < 4)
  end.
Proof.
  intros text sm sf.
  split; [vm_compute; reflexivity|].
  split; [vm_compute; reflexivity|].
  apply (offset_to_position_registered (fun p => p) sm 1 sf 4).
  - apply reachable_add, reachable_empty.
  - vm_compute; reflexivity.
Defined.

End SourceMapFacts.

(* --------------------------------------------------------------------- *)
(** ** Logical operators (C10)                                           *)
(* --------------------------------------------------------------------- *)

Section LogicalFacts.
Import Lapis.
Local Open Scope lapis_scope.




End LogicalFacts.

(* --------------------------------------------------------------------- *)
(** ** Calls: the arity check and the binding of arguments (C3)          *)
(* --------------------------------------------------------------------- *)

Section CallFacts.
Import Lapis.
Local Open Scope lapis_scope.

Lemma define_in_environment (env : loc) (name : string) (v : value) (a : AccessModifier)
    (st : state) enclosing vals :
  st_heap st !! env = Some (OEnvironment enclosing vals) ->
  define env name v a st =
    (Done tt,
     mkState (<[env := OEnvironment enclosing (<[name := mkEnvVariable v a]> vals)]> (st_heap st))
             (stdout st) (interp st)).
Proof.
  intros Henv. unfold define, bind, get_heap, store. rewrite Henv. reflexivity.
Qed.

Lemma bind_params_spec (params : list string) : forall env arguments i st enclosing vals,
  st_heap st !! env = Some (OEnvironment enclosing vals) ->
  bind_params env params arguments i st =
    (Done tt,
     mkState (<[env := OEnvironment enclosing (bound_values params arguments i vals)]> (st_heap st))
             (stdout st) (interp st)).
Proof.
  induction params as [|p rest IH]; intros env arguments i st enclosing vals Henv;
    cbn [bind_params bound_values].
  - unfold ret. rewrite list_insert_id by exact Henv. destruct st; reflexivity.
  - unfold bind. erewrite define_in_environment by exact Henv.
    assert (Hlt : (env < length (st_heap st))%nat) by (eapply lookup_lt_Some; eauto).
    erewrite IH; [|cbn [st_heap]; apply list_lookup_insert_eq; exact Hlt].
    cbn [st_heap stdout interp]. rewrite list_insert_insert_eq. reflexivity.
Qed.

Lemma bound_values_other (params : list string) : forall arguments i vals name,
  name ∉ params -> bound_values params arguments i vals !! name = vals !! name.
Proof.
  induction params as [|p rest IH]; intros arguments i vals name Hnot; simpl; [done|].
  apply not_elem_of_cons in Hnot as [Hne Hrest].
  rewrite IH by exact Hrest. apply lookup_insert_ne. congruence.
Qed.

Lemma bound_values_lookup (params : list string) : forall arguments i vals j p,
  params !! j = Some p ->
  p ∉ drop (S j) params ->
  bound_values params arguments i vals !! p
  = Some (mkEnvVariable (default VNone (arguments !! (i + j)%nat)) PRIVATE).
Proof.
  induction params as [|q rest IH]; intros arguments i vals j p Hj Hlast; [discriminate|].
  destruct j as [|j]; simpl in *.
  - injection Hj as ->. rewrite drop_0 in Hlast.
    rewrite bound_values_other by exact Hlast.
    rewrite lookup_insert_eq. by rewrite Nat.add_0_r.
  - rewrite (IH _ _ _ j p Hj Hlast). by rewrite Nat.add_succ_r.
Qed.

(** The arity check of a call expression, for any evaluator of the
    operands and any [call] method. *)
Lemma evaluate_call_expression_check (ev : expr -> M value)
    (call : value -> list value -> M value) (callee_expr : expr) (argument_exprs : list expr)
    (st st1 st2 : state) (callee : value) (arguments : list value) (n : Z) :
  ev callee_expr st = (Done callee, st1) ->
  mapM ev argument_exprs st1 = (Done arguments, st2) ->
  has_call (st_heap st2) callee = true ->
  arity (st_heap st2) callee = Some n ->
  (((n =? -1) || (llen arguments =? n) = true ->
    evaluate_call_expression ev call callee_expr argument_exprs st = call callee arguments st2)
   /\
   ((n =? -1) || (llen arguments =? n) = false ->
    exists e, evaluate_call_expression ev call callee_expr argument_exprs st = (Raise e, st2))).
Proof.
  intros Hcallee Hargs Hcall Harity.
  unfold evaluate_call_expression, bind, get_heap.
  rewrite Hcallee, Hargs, Hcall, Harity. simpl.
  split; intros Hcheck.
  - apply orb_true_iff in Hcheck as [-> | ->]; simpl; [reflexivity|].
    rewrite andb_false_r. reflexivity.
  - apply orb_false_iff in Hcheck as [-> ->]. simpl. eexists. reflexivity.
Qed.

(** What [LapisFunction.call] binds before it runs the body: a fresh
    environment under the closure in which every parameter holds its
    argument ([null] when the argument is missing) and the variadic
    parameter holds a new array of the arguments past the fixed ones. *)
Lemma bind_arguments_spec (d : FunctionDecl) (closure : loc) (arguments : list value)
    (st : state) :
  exists st' vals,
    bind_arguments d closure arguments st = (Done (length (st_heap st)), st') /\
    st_heap st' !! length (st_heap st) = Some (OEnvironment (Some closure) vals) /\
    (forall l o, st_heap st !! l = Some o -> st_heap st' !! l = Some o) /\
    (forall i p, fd_params d !! i = Some p ->
       p ∉ drop (S i) (fd_params d) -> variadic_of d <> Some p ->
       vals !! p = Some (mkEnvVariable (default VNone (arguments !! i)) PRIVATE)) /\
    (forall v, variadic_of d = Some v ->
       exists rest,
         vals !! v = Some (mkEnvVariable (VRef rest) PRIVATE) /\
         st_heap st' !! rest = Some (OList (drop (length (fd_params d)) arguments))).
Proof.
  set (h := st_heap st). set (env := length h).
  set (bound := bound_values (fd_params d) arguments 0 ∅).
  assert (Henv0 : (h ++ [OEnvironment (Some closure) ∅]) !! env
                  = Some (OEnvironment (Some closure) ∅)).
  { unfold env. rewrite lookup_app_r by lia. by rewrite Nat.sub_diag. }
  assert (Hdrop : (if (length (fd_params d) <? length arguments)%nat
                   then drop (length (fd_params d)) arguments else [])
                  = drop (length (fd_params d)) arguments).
  { destruct (Nat.ltb_spec (length (fd_params d)) (length arguments)); [done|].
    symmetry. by apply drop_ge. }
  unfold bind_arguments, new_Environment, alloc, bind. fold h env.
  rewrite (bind_params_spec _ _ _ _ _ (Some closure) ∅) by exact Henv0.
  cbn [st_heap stdout interp]. fold bound.
  set (h1 := <[env := OEnvironment (Some closure) bound]> (h ++ [OEnvironment (Some closure) ∅])).
  assert (Hlen1 : length h1 = S env)
    by (unfold h1; rewrite length_insert, length_app; simpl; unfold env; lia).
  assert (Hold1 : forall l o, h !! l = Some o -> h1 !! l = Some o).
  { intros l o Hl. pose proof (lookup_lt_Some _ _ _ Hl) as Hlt. unfold h1.
    rewrite list_lookup_insert_ne by (unfold env; lia).
    by rewrite lookup_app_l. }
  assert (Hparams : forall i p, fd_params d !! i = Some p ->
            p ∉ drop (S i) (fd_params d) ->
            bound !! p = Some (mkEnvVariable (default VNone (arguments !! i)) PRIVATE)).
  { intros i p Hi Hlast. unfold bound.
    by rewrite (bound_values_lookup _ _ 0 _ i p Hi Hlast). }
  destruct (variadic_of d) as [variadic|] eqn:Hvar.
  - rewrite Hdrop.
    set (h2 := h1 ++ [OList (drop (length (fd_params d)) arguments)]).
    assert (Henv2 : h2 !! env = Some (OEnvironment (Some closure) bound)).
    { unfold h2. rewrite lookup_app_l by lia. unfold h1.
      apply list_lookup_insert_eq. rewrite length_app. simpl. unfold env. lia. }
    erewrite define_in_environment by exact Henv2.
    cbn [st_heap stdout interp ret].
    eexists _, _. split; [reflexivity|]. cbn [st_heap].
    split; [apply list_lookup_insert_eq; unfold h2; rewrite length_app; simpl; lia|].
    split.
    { intros l o Hl. pose proof (lookup_lt_Some _ _ _ Hl) as Hlt.
      rewrite list_lookup_insert_ne by (unfold env; lia).
      unfold h2. rewrite lookup_app_l by lia. by apply Hold1. }
    split.
    { intros i p Hi Hlast Hne. rewrite lookup_insert_ne by congruence.
      by apply Hparams. }
    intros v Hv. injection Hv as <-. exists (length h1).
    split; [by rewrite lookup_insert_eq|].
    rewrite list_lookup_insert_ne by lia.
    unfold h2. rewrite lookup_app_r by lia. by rewrite Nat.sub_diag.
  - cbn [ret]. eexists _, _. split; [reflexivity|]. cbn [st_heap].
    split; [unfold h1; apply list_lookup_insert_eq; rewrite length_app; simpl; unfold env; lia|].
    split; [exact Hold1|].
    split; [intros i p Hi Hlast _; by apply Hparams|].
    intros v Hv. discriminate.
Qed.

(** C3, as the code has it.  For every call expression whose callee and
    arguments evaluate: a callable with a fixed arity [n] is called when
    it gets exactly [n] arguments, and with any other count the call fails
    before the callable is invoked; a variadic callable (arity [-1]) is
    never rejected by the check, also with fewer arguments than fixed
    parameters.  A user function has the arity [-1] when it declares a
    variadic parameter and its number of parameters otherwise; when it is
    called, each fixed parameter is bound to its argument ([null] when the
    argument is missing) and the variadic parameter to a new array of the
    arguments past the fixed ones (the empty array when there are none). *)
Theorem call_arity_and_binding (H : Host) (fuel : nat) :
  (forall callee_expr argument_exprs span st st1 st2 callee arguments n,
     evaluate H fuel callee_expr st = (Done callee, st1) ->
     mapM (evaluate H fuel) argument_exprs st1 = (Done arguments, st2) ->
     has_call (st_heap st2) callee = true ->
     arity (st_heap st2) callee = Some n ->
     ((n =? -1) || (llen arguments =? n) = true ->
      evaluate H (S fuel) (CallExpression callee_expr argument_exprs span) st
      = call_value H fuel callee arguments st2)
     /\
     ((n =? -1) || (llen arguments =? n) = false ->
      exists e, evaluate H (S fuel) (CallExpression callee_expr argument_exprs span) st
                = (Raise e, st2)))
  /\
  (forall (h : heap) l d closure access is_initializer,
     h !! l = Some (OLapisFunction d closure access is_initializer) ->
     has_call h (VRef l) = true /\
     arity h (VRef l) = Some (match variadic_of d with
                              | Some _ => -1
                              | None => llen (fd_params d)
                              end))
  /\
  (forall d closure arguments st,
     exists st' vals,
       bind_arguments d closure arguments st = (Done (length (st_heap st)), st') /\
       st_heap st' !! length (st_heap st) = Some (OEnvironment (Some closure) vals) /\
       (forall l o, st_heap st !! l = Some o -> st_heap st' !! l = Some o) /\
       (forall i p, fd_params d !! i = Some p ->
          p ∉ drop (S i) (fd_params d) -> variadic_of d <> Some p ->
          vals !! p = Some (mkEnvVariable (default VNone (arguments !! i)) PRIVATE)) /\
       (forall v, variadic_of d = Some v ->
          exists rest,
            vals !! v = Some (mkEnvVariable (VRef rest) PRIVATE) /\
            st_heap st' !! rest = Some (OList (drop (length (fd_params d)) arguments)))).
Proof.
  split; [|split].
  - intros callee_expr argument_exprs span st st1 st2 callee arguments n Hc Ha Hcall Har.
    exact (evaluate_call_expression_check (evaluate H fuel) (call_value H fuel)
             callee_expr argument_exprs st st1 st2 callee arguments n Hc Ha Hcall Har).
  - intros h l d closure access is_initializer Hl.
    unfold has_call, arity, function_arity. rewrite Hl. split; reflexivity.
  - intros d closure arguments st. apply bind_arguments_spec.
Qed.

(** C3 at a concrete input: in the state that holds the variadic function
    [f] (one fixed parameter), the call [f(1, 2, 3)] passes the arity check
    and reaches the [call] method of [f] with the three arguments. *)
Lemma call_arity_and_binding_witness :
  evaluate Examples.example_host 10
    (CallExpression (Examples.ident "f")
       [Examples.int_lit 1; Examples.int_lit 2; Examples.int_lit 3] None)
    Examples.state_with_f
  = call_value Examples.example_host 9 (VRef 19) [VInt 1; VInt 2; VInt 3]
      Examples.state_with_f.
Proof.
  refine (proj1 (proj1 (call_arity_and_binding Examples.example_host 9)
                   (Examples.ident "f")
                   [Examples.int_lit 1; Examples.int_lit 2; Examples.int_lit 3] None
                   Examples.state_with_f Examples.state_with_f Examples.state_with_f
                   (VRef 19) [VInt 1; VInt 2; VInt 3] (-1) _ _ _ _) _);
    vm_compute; reflexivity.
Defined.

(** C3, as stated, fails: the variadic function [f] has one fixed
    parameter, yet the call [f()] is no arity failure.  It runs the body
    with [a] bound to [null] and [rest] to the empty array: the program
    prints [[]] and then [null] and ends normally. *)
Lemma variadic_call_with_too_few_arguments :
  fst (run Examples.example_host 20 Examples.variadic_short_call) = Done tt /\
  stdout (snd (run Examples.example_host 20 Examples.variadic_short_call))
  = ["[]"; "null"]%string.
Proof. split; vm_compute; reflexivity. Qed.

End CallFacts.

(** ** Python numbers: rounding of whole values

    Facts about the rounding functions of [SpecFloat] that the results on
    arithmetic and on numeric literals need: a float with a non-negative
    exponent is whole, the float of an integer is whole, and the quotient
    [float_of_ratio] of a multiple of its denominator is whole, and exact
    below [2 ^ 53]. *)

Section FloatFacts.
Import Py.







Lemma digits2_pos_iter_xO d : forall p,
  Zpos (digits2_pos (Pos.iter xO p d)) = Zpos (digits2_pos p) + Zpos d.
Proof.
  intros p. induction d as [|d IH] using Pos.peano_ind.
  - simpl. lia.
  - rewrite Pos.iter_succ. simpl digits2_pos. rewrite Pos2Z.inj_succ, IH. lia.
Qed.

Lemma iter_xO_value d p : Zpos (Pos.iter xO p d) = Zpos p * 2 ^ Zpos d.
Proof.
  pose proof (shift_pos_correct d p) as Hs. unfold shift_pos in Hs.
  rewrite Hs, Z.pow_pos_fold. lia.
Qed.










Lemma digits2_pos_shift p q t :
  0 <= t -> Zpos q = Zpos p * 2 ^ t ->
  Zpos (digits2_pos q) = Zpos (digits2_pos p) + t.
Proof.
  intros Ht Hq. destruct t as [|t|t]; [| |lia].
  - rewrite Z.pow_0_r, Z.mul_1_r in Hq. injection Hq as ->. lia.
  - rewrite <- iter_xO_value in Hq. injection Hq as ->. apply digits2_pos_iter_xO.
Qed.







End FloatFacts.

(* --------------------------------------------------------------------- *)
(** ** The lexer at a position of its source                             *)
(* --------------------------------------------------------------------- *)

Section LexerFacts.
Import SourceMap.
Import Lapis.
Import Lexer.

Lemma string_app_assoc (a b c : string) : ((a ++ b) ++ c = a ++ (b ++ c))%string.
Proof.
  induction a as [|x a IH]; [reflexivity|].
  change (String x ((a ++ b) ++ c) = String x (a ++ (b ++ c)))%string. by rewrite IH.
Qed.

Lemma string_app_nil_r (a : string) : (a ++ "")%string = a.
Proof.
  induction a as [|x a IH]; [reflexivity|].
  change (String x (a ++ "") = String x a)%string. by rewrite IH.
Qed.

Lemma string_length_app (a b : string) :
  String.length (a ++ b) = (String.length a + String.length b)%nat.
Proof.
  induction a as [|x a IH]; [reflexivity|].
  change (S (String.length (a ++ b)) = S (String.length a + String.length b)). by rewrite IH.
Qed.

Lemma string_get_app (pre : string) (c : ascii) (rest : string) :
  String.get (String.length pre) (pre ++ String c rest) = Some c.
Proof. induction pre as [|x pre IH]; [reflexivity|exact IH]. Qed.

Lemma stands_at_peek lx pre c rest :
  stands_at lx pre (String c rest) ->
  peek lx = c /\ is_at_end lx = false /\ advance lx = (c, step lx) /\
  stands_at (step lx) (pre ++ String c "") rest.
Proof.
  intros [Hs Hc]. unfold peek, is_at_end, advance, stands_at.
  rewrite Hs, Hc, string_get_app. repeat split.
  - apply Nat.leb_gt. rewrite string_length_app. simpl. lia.
  - simpl. rewrite Hs, string_app_assoc. reflexivity.
  - simpl. rewrite Hc, string_length_app. simpl. lia.
Qed.

Lemma stands_at_count_newline lx pre rest :
  stands_at lx pre rest -> stands_at (count_newline lx) pre rest.
Proof. unfold count_newline, stands_at. destruct (Ascii.eqb _ _); simpl; tauto. Qed.

Lemma string_get_end (s : string) (k : nat) : String.get (String.length s + k) s = None.
Proof. induction s as [|c s IH]; [reflexivity|exact IH]. Qed.

Lemma string_get_app_next (pre : string) (c : ascii) (rest : string) :
  String.get (S (String.length pre)) (pre ++ String c rest) = String.get 0 rest.
Proof. induction pre as [|x pre IH]; [reflexivity|exact IH]. Qed.

Lemma stands_at_end lx pre :
  stands_at lx pre "" -> peek lx = NUL.
Proof.
  intros [Hs Hc]. unfold peek. rewrite Hs, Hc, string_app_nil_r.
  by rewrite <- (Nat.add_0_r (String.length pre)), string_get_end.
Qed.

Lemma stands_at_peek_next lx pre c rest :
  stands_at lx pre (String c rest) ->
  peek_next lx = match rest with String d _ => d | EmptyString => NUL end.
Proof.
  intros [Hs Hc]. unfold peek_next. rewrite Hs, Hc, string_get_app_next.
  by destruct rest.
Qed.


Lemma substring_prefix (text tail : string) :
  String.substring 0 (String.length text) (text ++ tail) = text.
Proof.
  induction text as [|c text IH]; [by destruct tail|].
  change (String c (String.substring 0 (String.length text) (text ++ tail)) = String c text).
  by rewrite IH.
Qed.

Lemma substring_app (pre text tail : string) :
  String.substring (String.length pre) (String.length text) (pre ++ text ++ tail) = text.
Proof. induction pre as [|x pre IH]; [exact (substring_prefix text tail)|exact IH]. Qed.


Lemma lexeme_text_at (lx : Lexer) (pre text tail : string) :
  stands_at lx (pre ++ text) tail -> start lx = String.length pre ->
  lexeme_text lx = text.
Proof.
  intros [Hs Hc] Hstart. unfold lexeme_text. rewrite Hs, Hc, Hstart, string_length_app.
  replace (String.length pre + String.length text - String.length pre)%nat
    with (String.length text) by lia.
  rewrite string_app_assoc. apply substring_app.
Qed.




End LexerFacts.

(* --------------------------------------------------------------------- *)
(** ** Arithmetic on integers and floats, numeric literals (C4)          *)
(* --------------------------------------------------------------------- *)

Section ArithmeticFacts.
Import SourceMap.
Import Lapis.
Local Open Scope lapis_scope.




Lemma num_eqb_float_zero (g : float) : num_eqb (NFloat g) (NInt 0) = float_is_zero g.
Proof.
  unfold num_eqb, num_compare, compare_int_float.
  destruct g as [s|s| |s m e]; try reflexivity.
  - destruct s; reflexivity.
  - cbn [option_map float_is_zero].
    assert (Hv : cond_Zopp s (Zpos m) <> 0) by (destruct s; simpl; lia).
    destruct (0 <=? e) eqn:He.
    + apply Z.leb_le in He.
      assert (0 < 2 ^ e) by (apply Z.pow_pos_nonneg; lia).
      destruct (Z.compare_spec 0 (cond_Zopp s (Zpos m) * 2 ^ e)); try reflexivity. nia.
    + destruct (Z.compare_spec (0 * 2 ^ (- e)) (cond_Zopp s (Zpos m))); try reflexivity. lia.
Qed.

Lemma num_eqb_int_zero (y : Z) : num_eqb (NInt y) (NInt 0) = (y =? 0).
Proof.
  unfold num_eqb, num_compare. destruct (Z.eqb_spec y 0) as [->|Hy]; [reflexivity|].
  destruct (Z.compare_spec y 0); try reflexivity. contradiction.
Qed.






















End ArithmeticFacts.

(* --------------------------------------------------------------------- *)
(** ** The operator [+] on values that are not numbers (C5)              *)
(* --------------------------------------------------------------------- *)

Section AdditionFacts.
Import SourceMap.
Import Lapis.
Local Open Scope lapis_scope.

(** The test [isinstance(v, (int, float))] of [+] lets the booleans
    through: two booleans are added as the integers they stand for. *)
Lemma addition_of_booleans (H : Host) (fuel : nat) (ev : expr -> M value)
    (l r : expr) (span : option Span) (st st1 st2 : state) (a b : bool) :
  ev l st = (Done (VBool a), st1) ->
  ev r st1 = (Done (VBool b), st2) ->
  evaluate_binary_expression H fuel ev l "+" r span st
  = (Done (VInt (int_of_bool a + int_of_bool b)), st2).
Proof.
  intros Hl Hr. unfold evaluate_binary_expression, bind. rewrite Hl, Hr. reflexivity.
Qed.

(** Operands that pass neither that test nor the test for strings are
    refused with the code [TYPE_MISMATCH_BINARY]. *)
Lemma addition_of_other_values (H : Host) (fuel : nat) (ev : expr -> M value)
    (l r : expr) (span : option Span) (st st1 st2 : state) (lv rv : value) :
  ev l st = (Done lv, st1) ->
  ev r st1 = (Done rv, st2) ->
  is_int_or_float lv && is_int_or_float rv = false ->
  is_str lv || is_str rv = false ->
  exists d, evaluate_binary_expression H fuel ev l "+" r span st
            = (Raise (LapisError TypeError d), st2)
            /\ code d = TYPE_MISMATCH_BINARY.
Proof.
  intros Hl Hr Hnum Hstr. unfold evaluate_binary_expression, bind. rewrite Hl, Hr.
  cbn [String.eqb Ascii.eqb Bool.eqb].
  assert (Hpair : numeric_pair lv rv = None).
  { unfold numeric_pair. destruct lv, rv; simpl in Hnum; try discriminate; reflexivity. }
  rewrite Hpair. unfold get_heap. rewrite Hstr.
  destruct (_get_safe_spans span l r) as [[[sp lsp] rsp]|];
    eexists; (split; [reflexivity|reflexivity]).
Qed.

(** C5 at the failing input: [true + true] evaluates to the integer [2],
    where the claim has [TYPE_MISMATCH_BINARY]; [Console.print(true + true);]
    prints [2].  Two arrays are refused, with that code. *)
Theorem addition_accepts_booleans :
  evaluate Examples.example_host 2 Examples.true_plus_true initial_state
    = (Done (VInt 2), initial_state)
  /\ stdout (snd (run Examples.example_host 10 [Examples.print Examples.true_plus_true]))
     = ["2"%string]
  /\ fst (evaluate Examples.example_host 3 Examples.array_plus_array initial_state)
     = Raise (cannot_add_types dummy_span0 dummy_span0 dummy_span0 "array" "array").
Proof. repeat split; vm_compute; reflexivity. Qed.

End AdditionFacts.

(* --------------------------------------------------------------------- *)
(** ** [try] with [finally] (C1)                                         *)
(* --------------------------------------------------------------------- *)

Section TryFacts.
Import Lapis.
Local Open Scope lapis_scope.

(** When the [try] body completes, the [finally] body is what runs next. *)
Lemma execute_try_statement_completes (execute : stmt -> M unit) try_body catch_clauses
    finally_body (st st1 : state) :
  forM_ execute try_body st = (Done tt, st1) ->
  execute_try_statement execute try_body catch_clauses finally_body st
  = run_finally execute finally_body st1.
Proof. intros Hbody. unfold execute_try_statement. rewrite Hbody. reflexivity. Qed.

(** When the [try] body leaves with [return], [break] or [continue], the
    statement leaves at once, in the state the body left: neither a catch
    clause nor the [finally] body is run. *)
Lemma execute_try_statement_control_flow (execute : stmt -> M unit) try_body catch_clauses
    finally_body (st st1 : state) (e : exn) :
  forM_ execute try_body st = (Raise e, st1) ->
  is_control_flow e = true ->
  execute_try_statement execute try_body catch_clauses finally_body st = (Raise e, st1).
Proof.
  intros Hbody He. unfold execute_try_statement. rewrite Hbody, He. reflexivity.
Qed.

(** When the [try] body fails with an error and there is no catch clause,
    the [finally] body runs and then the error is raised again. *)
Lemma execute_try_statement_uncaught (execute : stmt -> M unit) try_body
    finally_body (st st1 : state) (e : exn) :
  forM_ execute try_body st = (Raise e, st1) ->
  is_control_flow e = false ->
  execute_try_statement execute try_body [] finally_body st
  = (run_finally execute finally_body ;;; raise e) st1.
Proof.
  intros Hbody He. unfold execute_try_statement. rewrite Hbody, He. reflexivity.
Qed.

(** When the first catch clause handles the error, the [finally] body runs
    after it. *)
Lemma execute_try_statement_caught (execute : stmt -> M unit) try_body clause clauses
    finally_body (st st1 st2 : state) (e : exn) :
  forM_ execute try_body st = (Raise e, st1) ->
  is_control_flow e = false ->
  run_catch_clause execute clause e st1 = (Done tt, st2) ->
  execute_try_statement execute try_body (clause :: clauses) finally_body st
  = (run_finally execute finally_body ;;; ret tt) st2.
Proof.
  intros Hbody He Hcatch. unfold execute_try_statement. rewrite Hbody, He.
  unfold bind at 1. unfold bind at 1. rewrite Hcatch. reflexivity.
Qed.

(** When the first catch clause itself raises, the statement leaves with
    that exception, again without running the [finally] body. *)
Lemma execute_try_statement_catch_raises (execute : stmt -> M unit) try_body clause clauses
    finally_body (st st1 st2 : state) (e e' : exn) :
  forM_ execute try_body st = (Raise e, st1) ->
  is_control_flow e = false ->
  run_catch_clause execute clause e st1 = (Raise e', st2) ->
  execute_try_statement execute try_body (clause :: clauses) finally_body st
  = (Raise e', st2).
Proof.
  intros Hbody He Hcatch. unfold execute_try_statement. rewrite Hbody, He.
  unfold bind. rewrite Hcatch. reflexivity.
Qed.

(** C1 at the failing input: in
    [func f() try return 1; finally Console.print("done"); end end
     Console.print(f());]
    the [finally] body never runs: the program prints [1] alone.  A [try]
    body that completes is followed by its [finally] body. *)
Theorem finally_skipped_on_return :
  fst (run Examples.example_host 12 Examples.return_in_try) = Done tt
  /\ stdout (snd (run Examples.example_host 12 Examples.return_in_try)) = ["1"%string]
  /\ stdout (snd (run Examples.example_host 12 Examples.plain_try))
     = ["body"%string; "done"%string].
Proof. repeat split; vm_compute; reflexivity. Qed.

End TryFacts.

(* --------------------------------------------------------------------- *)
(** ** Calls of bound methods (C2)                                       *)
(* --------------------------------------------------------------------- *)

Section BoundMethodFacts.
Import Lapis.

(** C2 at the failing input: in
    [class P func g() Console.print("in g"); end end  var p = P();  p.g();]
    the one call [p.g()] runs the body of [g] twice. *)
Theorem bound_method_body_runs_twice :
  fst (run Examples.example_host 12 Examples.method_call) = Done tt
  /\ stdout (snd (run Examples.example_host 12 Examples.method_call))
     = ["in g"%string; "in g"%string].
Proof. split; vm_compute; reflexivity. Qed.

End BoundMethodFacts.

(* --------------------------------------------------------------------- *)
(** ** Package imports (C8)                                              *)
(* --------------------------------------------------------------------- *)

Section ImportFacts.
Import Lapis.
Local Open Scope lapis_scope.

(** Importing a path that is already in [imported_files] changes nothing:
    no binding is made. *)
Lemma execute_package_statement_again (H : Host) (execute : stmt -> M unit)
    (path : string) (imports : option (list string)) (st : state) :
  is_member (resolve_import_path H path) (imported_files (interp st)) = true ->
  execute_package_statement H execute path imports st = (Done tt, st).
Proof.
  intros Hin. unfold execute_package_statement, bind, get_interp. rewrite Hin. reflexivity.
Qed.

(** C8 at the failing input: the module [m.lapis] has the public binding
    [x = 1].  After a first import inside an [if] body, the second import
    at the top level binds nothing, and [x] is undefined there; a single
    import at the top level binds [x]. *)
Theorem second_import_binds_nothing :
  fst (run Examples.example_host 12 Examples.import_twice)
    = Raise (undefined_variable dummy_span0 "x")
  /\ stdout (snd (run Examples.example_host 12 Examples.import_twice)) = ["1"%string]
  /\ fst (run Examples.example_host 12 Examples.import_once) = Done tt
  /\ stdout (snd (run Examples.example_host 12 Examples.import_once)) = ["1"%string].
Proof. repeat split; vm_compute; reflexivity. Qed.

End ImportFacts.

(* --------------------------------------------------------------------- *)
(** ** Template literals (C6)                                            *)
(* --------------------------------------------------------------------- *)

Section TemplateFacts.
Import SourceMap.
Import Lapis.
Import Lexer.
Local Open Scope lapis_scope.

Lemma placeholder_loop_scan (interior : string) : forall pre post lx acc k,
  stands_at lx pre (interior ++ String close_brace post) ->
  all_chars not_close_brace interior = true ->
  (String.length interior <= k)%nat ->
  exists lx2, placeholder_loop k lx acc = (lx2, (acc ++ interior)%string) /\
              stands_at lx2 (pre ++ interior) (String close_brace post) /\
              tokens lx2 = tokens lx /\ start lx2 = start lx /\
              lx_file_id lx2 = lx_file_id lx.
Proof.
  induction interior as [|c interior IH]; intros pre post lx acc k Hat Hin Hk.
  - exists lx. rewrite !string_app_nil_r. repeat split; try apply Hat.
    destruct k as [|k]; [reflexivity|]. cbn [placeholder_loop].
    destruct (stands_at_peek lx pre close_brace post Hat) as (-> & _).
    rewrite Ascii.eqb_refl. reflexivity.
  - cbn [all_chars] in Hin. apply andb_true_iff in Hin as [Hc Hin].
    destruct k as [|k]; [simpl in Hk; lia|]. cbn [placeholder_loop].
    change (String c interior ++ String close_brace post)%string
      with (String c (interior ++ String close_brace post)) in Hat.
    destruct (stands_at_peek lx pre c _ Hat) as (Hpeek & Hend & _ & _).
    rewrite Hpeek, Hend. unfold not_close_brace in Hc. rewrite Hc. cbn [andb negb].
    pose proof (stands_at_count_newline lx pre _ Hat) as Hat'.
    destruct (stands_at_peek _ pre c _ Hat') as (_ & _ & -> & Hnext).
    destruct (IH (pre ++ String c "")%string post (step (count_newline lx))
                 (acc ++ String c "")%string k Hnext Hin ltac:(simpl in Hk; lia))
      as (lx2 & Hloop & Hat2 & Htok & Hstart & Hfid).
    exists lx2. rewrite Hloop, !string_app_assoc in *.
    repeat split; try apply Hat2; unfold count_newline in *;
      destruct (Ascii.eqb (peek lx) newline); simpl in *; congruence.
Qed.

(** One round of the outer loop at an opening brace. *)
Lemma template_loop_placeholder (lx : Lexer) (pre interior post : string)
    (parts : list template_part) (current_text : string) (k : nat) :
  stands_at lx pre (String open_brace (interior ++ String close_brace post)) ->
  all_chars not_close_brace interior = true ->
  exists lx',
    template_loop (S k) lx parts current_text
    = template_loop k lx' (parts ++ text_part current_text ++ [EXPR (strip interior)]) "" /\
    stands_at lx' (pre ++ String open_brace (interior ++ String close_brace "")) post /\
    tokens lx' = tokens lx /\ start lx' = start lx /\ lx_file_id lx' = lx_file_id lx.
Proof.
  intros Hat Hin. cbn [template_loop].
  destruct (stands_at_peek lx pre _ _ Hat) as (Hpeek & Hend & Hadv & Hnext).
  rewrite Hpeek, Hend, Hadv. cbn [Ascii.eqb Bool.eqb open_brace backtick backslash negb andb snd].
  assert (Hk : (String.length interior <= String.length (source lx))%nat).
  { destruct Hat as [-> _]. rewrite string_length_app. cbn [String.length].
    rewrite string_length_app. lia. }
  destruct (placeholder_loop_scan interior _ post (step lx) "" _ Hnext Hin Hk)
    as (lx2 & Hloop & Hat2 & Htok & Hstart & Hfid).
  change (source (step lx)) with (source lx) in Hloop.
  rewrite Hloop.
  destruct (stands_at_peek lx2 _ _ _ Hat2) as (_ & Hend2 & Hadv2 & Hnext2).
  rewrite Hend2, Hadv2. cbn [snd]. exists (step lx2). split; [|split].
  - rewrite <- app_assoc. reflexivity.
  - rewrite !string_app_assoc in Hnext2. exact Hnext2.
  - simpl in *. repeat split; congruence.
Qed.

Lemma template_loop_plain (text : string) : forall lx pre rest parts current_text k,
  stands_at lx pre (text ++ rest) ->
  all_chars plain_char text = true ->
  exists lx',
    template_loop (String.length text + k) lx parts current_text
    = template_loop k lx' parts (current_text ++ text) /\
    stands_at lx' (pre ++ text) rest /\
    tokens lx' = tokens lx /\ start lx' = start lx /\ lx_file_id lx' = lx_file_id lx.
Proof.
  induction text as [|c text IH]; intros lx pre rest parts current_text k Hat Hok.
  - exists lx. rewrite !string_app_nil_r. repeat split; apply Hat.
  - cbn [all_chars] in Hok. apply andb_true_iff in Hok as [Hc Hok].
    unfold plain_char in Hc.
    apply andb_true_iff in Hc as [[Hc1 Hc2]%andb_true_iff Hc3].
    apply negb_true_iff in Hc1, Hc2, Hc3.
    change (String c text ++ rest)%string with (String c (text ++ rest)) in Hat.
    cbn [String.length Nat.add template_loop].
    destruct (stands_at_peek lx pre c _ Hat) as (Hpeek & Hend & _ & _).
    rewrite Hpeek, Hend, Hc1, Hc2, Hc3. cbn [negb andb].
    pose proof (stands_at_count_newline lx pre _ Hat) as Hat'.
    destruct (stands_at_peek _ pre c _ Hat') as (_ & _ & -> & Hnext).
    destruct (IH (step (count_newline lx)) (pre ++ String c "")%string rest parts
                 (current_text ++ String c "")%string k Hnext Hok)
      as (lx' & Hloop & Hat2 & Htok & Hstart & Hfid).
    exists lx'. rewrite Hloop, !string_app_assoc in *.
    repeat split; try apply Hat2; unfold count_newline in *;
      destruct (Ascii.eqb (peek lx) newline); simpl in *; congruence.
Qed.

Lemma template_loop_segments (segments : list segment) :
  forall lx pre rest parts current_text k,
  stands_at lx pre (segments_text segments ++ rest) ->
  forallb segment_ok segments = true ->
  (String.length (segments_text segments) <= k)%nat ->
  exists lx' k',
    template_loop k lx parts current_text
    = template_loop k' lx' (fst (segments_parts segments parts current_text))
        (snd (segments_parts segments parts current_text)) /\
    stands_at lx' (pre ++ segments_text segments) rest /\
    tokens lx' = tokens lx /\ start lx' = start lx /\ lx_file_id lx' = lx_file_id lx.
Proof.
  induction segments as [|g segments IH]; intros lx pre rest parts current_text k Hat Hok Hk.
  - exists lx, k. rewrite string_app_nil_r. repeat split; apply Hat.
  - cbn [forallb] in Hok. apply andb_true_iff in Hok as [Hg Hok].
    cbn [segments_text] in *. rewrite string_app_assoc in Hat.
    rewrite string_length_app in Hk.
    destruct g as [text|interior]; cbn [segment_text segment_ok segments_parts] in *.
    + replace k with (String.length text + (k - String.length text))%nat by lia.
      destruct (template_loop_plain text lx pre _ parts current_text
                  (k - String.length text) Hat Hg)
        as (lx1 & -> & Hat1 & Htok1 & Hstart1 & Hfid1).
      destruct (IH lx1 _ rest parts (current_text ++ text)%string
                  (k - String.length text)%nat Hat1 Hok ltac:(lia))
        as (lx' & k' & -> & Hat' & Htok' & Hstart' & Hfid').
      exists lx', k'. rewrite string_app_assoc in Hat'.
      repeat split; try apply Hat'; congruence.
    + cbn [String.length] in Hk. destruct k as [|k]; [lia|].
      change (String open_brace (interior ++ String close_brace "") ++ segments_text segments ++ rest)%string
        with (String open_brace ((interior ++ String close_brace "") ++ segments_text segments ++ rest)) in Hat.
      rewrite string_app_assoc in Hat.
      change (String close_brace "" ++ segments_text segments ++ rest)%string
        with (String close_brace (segments_text segments ++ rest)) in Hat.
      destruct (template_loop_placeholder lx pre interior _ parts current_text k Hat Hg)
        as (lx1 & -> & Hat1 & Htok1 & Hstart1 & Hfid1).
      destruct (IH lx1 _ rest (parts ++ text_part current_text ++ [EXPR (strip interior)])
                  ""%string k Hat1 Hok ltac:(lia))
        as (lx' & k' & -> & Hat' & Htok' & Hstart' & Hfid').
      exists lx', k'. rewrite string_app_assoc in Hat'.
      repeat split; try apply Hat'; congruence.
Qed.

Lemma template_loop_backtick lx pre post parts current_text k :
  stands_at lx pre (String backtick post) ->
  template_loop k lx parts current_text = Ok (lx, parts, current_text).
Proof.
  intros Hat. destruct k as [|k]; [reflexivity|]. cbn [template_loop].
  destruct (stands_at_peek lx pre _ _ Hat) as (-> & _).
  rewrite Ascii.eqb_refl. reflexivity.
Qed.

Lemma template_literal_segments (lx : Lexer) (pre post : string) (segments : list segment) :
  stands_at lx pre (segments_text segments ++ String backtick post) ->
  forallb segment_ok segments = true ->
  exists lx' tok,
    template_literal lx = Ok lx' /\
    tokens lx' = tokens lx ++ [tok] /\
    type tok = TEMPLATE_LITERAL /\
    tok_literal tok = Parts (template_parts_of segments) /\
    stands_at lx' (pre ++ segments_text segments ++ String backtick "") post.
Proof.
  intros Hat Hok. unfold template_literal.
  assert (Hk : (String.length (segments_text segments) <= String.length (source lx))%nat).
  { destruct Hat as [-> _]. rewrite !string_length_app. lia. }
  destruct (template_loop_segments segments lx pre _ [] "" _ Hat Hok Hk)
    as (lx1 & k' & -> & Hat1 & Htok & _).
  rewrite (template_loop_backtick lx1 _ post _ _ _ Hat1).
  destruct (stands_at_peek lx1 _ _ _ Hat1) as (_ & -> & -> & Hnext).
  cbn [snd]. unfold template_parts_of.
  destruct (segments_parts segments [] "") as [parts current_text]. cbn [fst snd].
  eexists _, _. split; [reflexivity|].
  unfold add_token. cbn [tokens step]. rewrite Htok.
  split; [reflexivity|]. split; [reflexivity|]. split; [reflexivity|].
  rewrite !string_app_assoc in Hnext. exact Hnext.
Qed.

Lemma template_parts_renders (H : Host) (fuel : nat) (span : option Span)
    parts st s st' :
  renders H fuel parts st s st' ->
  forall result,
    template_parts H fuel (evaluate H fuel) parts span result st
    = (Done (result ++ s)%string, st').
Proof.
  induction 1 as [st|text rest st s st' _ IH
                  |source_text e v piece rest st st1 s st' Hparse Heval Hstr _ IH];
    intros result.
  - rewrite string_app_nil_r. reflexivity.
  - cbn [template_parts]. rewrite IH, string_app_assoc. reflexivity.
  - cbn [template_parts]. unfold bind, try_except, _evaluate_template_expression.
    rewrite Hparse. cbn [lift_result]. unfold try_except, bind, ret.
    rewrite Heval. unfold get_heap, lift_outcome. rewrite Hstr.
    rewrite IH, string_app_assoc. reflexivity.
Qed.

(** C6 (amended).  In a template literal whose text is made of plain text
    (no backtick, backslash or opening brace) and regions, where a region
    runs from an opening brace to the first closing brace after it (braces
    inside it are not matched), the lexer produces one token whose parts
    are, in order, the plain text between the regions, verbatim, and for
    every region one expression part holding the interior without the
    white space around it.  When a literal is evaluated, every text part
    contributes its text; for an expression part, when its text parses as
    an expression, that expression evaluates in the current state and the
    value has a string, the part contributes that string; the result is
    the concatenation. *)
Theorem template_literal_parts_and_rendering :
  (forall (lx : Lexer) (pre post : string) (segments : list segment),
     stands_at lx pre (segments_text segments ++ String backtick post) ->
     forallb segment_ok segments = true ->
     exists lx' tok,
       template_literal lx = Ok lx' /\
       tokens lx' = tokens lx ++ [tok] /\
       type tok = TEMPLATE_LITERAL /\
       tok_literal tok = Parts (template_parts_of segments) /\
       stands_at lx' (pre ++ segments_text segments ++ String backtick "") post)
  /\
  (forall (H : Host) (fuel : nat) (span : option Span) (parts : list template_part)
          (st st' : state) (s : string),
     renders H fuel parts st s st' ->
     evaluate H (S fuel) (TemplateLiteralExpression parts span) st = (Done (VStr s), st')).
Proof.
  split.
  - apply template_literal_segments.
  - intros H fuel span parts st st' s Hr.
    cbn [evaluate visit_expression]. unfold evaluate_template_literal_expression, bind.
    rewrite (template_parts_renders H fuel span parts st s st' Hr ""). reflexivity.
Qed.

(** The literal [`n is {n+1}`]: one text part and one expression part; with
    [n = 41] it evaluates to [n is 42]. *)
Lemma template_literal_parts_and_rendering_witness :
  (exists lx' tok,
     template_literal Examples.template_lexer = Ok lx' /\
     tokens lx' = [tok] /\
     type tok = TEMPLATE_LITERAL /\
     tok_literal tok = Parts [TEXT "n is "; EXPR "n+1"] /\
     stands_at lx' "`n is {n+1}`" "")
  /\
  evaluate Examples.example_host 4%nat
    (TemplateLiteralExpression [TEXT "n is "; EXPR "n+1"] None) Examples.state_with_n
  = (Done (VStr "n is 42"), Examples.state_with_n).
Proof.
  split.
  - refine (proj1 template_literal_parts_and_rendering Examples.template_lexer
              "`" "" [Plain "n is "; Region "n+1"] _ _).
    + split; reflexivity.
    + reflexivity.
  - refine (proj2 template_literal_parts_and_rendering Examples.example_host 3%nat None
              [TEXT "n is "; EXPR "n+1"] Examples.state_with_n Examples.state_with_n
              "n is 42" _).
    refine (renders_text _ _ "n is " _ _ "42" _ _).
    refine (renders_expr _ _ "n+1" _ (VInt 42) "42" [] _ Examples.state_with_n "" _ _ _ _ _).
    + reflexivity.
    + vm_compute. reflexivity.
    + vm_compute. reflexivity.
    + apply renders_nil.
Defined.

(** C6, as stated, fails: in [`a{ {x: 1}.x }b`] the region that opens at
    the first brace ends at the first closing brace, not at the matching
    one, and its interior is kept without the leading blank. *)
Lemma nested_braces_not_matched :
  match template_literal Examples.nested_template_lexer with
  | Ok lx' => map tok_literal (tokens lx')
  | Err _ => []
  end = [Parts [TEXT "a"; EXPR "{x: 1"; TEXT ".x }b"]].
Proof. vm_compute. reflexivity. Qed.

End TemplateFacts.

(* --------------------------------------------------------------------- *)
(** ** The equality of [switch] and the equality of [==] (C9)            *)
(* --------------------------------------------------------------------- *)

Section EqualityFacts.
Import SourceMap.
Import Lapis.

Lemma num_eqb_int (x y : Z) : num_eqb (NInt x) (NInt y) = (x =? y).
Proof.
  unfold num_eqb, num_compare. destruct (Z.compare_spec x y) as [->| |].
  - by rewrite Z.eqb_refl.
  - symmetry. apply Z.eqb_neq. lia.
  - symmetry. apply Z.eqb_neq. lia.
Qed.

Lemma py_is_eq (a b : value) : py_is a b = true -> a = b.
Proof.
  destruct a, b; cbn [py_is]; try discriminate; try reflexivity.
  - intros Hb. apply Bool.eqb_prop in Hb. by subst.
  - intros Hl. apply Nat.eqb_eq in Hl. by subst.
Qed.

Lemma SFcompare_Eq (f g : float) :
  SFcompare f g = Some Eq <-> is_nan f = false /\ is_nan g = false /\
                              zero_sign_free f = zero_sign_free g.
Proof.
  destruct f as [s1|s1| |s1 m1 e1], g as [s2|s2| |s2 m2 e2];
    cbn [SFcompare is_nan zero_sign_free];
    try (destruct s1); try (destruct s2);
    try (split; [intros Hc; try discriminate Hc; repeat split; reflexivity
                |intros (H1 & H2 & H3); try discriminate H1; try discriminate H2;
                 try discriminate H3; reflexivity]).
  all: fold (Pos.compare m1 m2);
    destruct (Z.compare_spec e1 e2) as [->| |];
    try (split; [discriminate|intros (_ & _ & [=]); lia]);
    destruct (Pos.compare_spec m1 m2) as [->| |];
    try (split; [discriminate|intros (_ & _ & [=]); lia]);
    (split; [intros _; repeat split; reflexivity|reflexivity]).
Qed.

Lemma compare_int_float_Eq (x : Z) (f : float) :
  compare_int_float x f = Some Eq <-> canonical_float f = VInt x.
Proof.
  unfold compare_int_float, canonical_float, float_is_integer, float_trunc.
  destruct f as [s|s| |s m e].
  - destruct (Z.compare_spec x 0) as [->| |]; split; try done; intros [=]; lia.
  - destruct s; split; done.
  - split; done.
  - destruct (Z.leb_spec 0 e) as [He|He].
    + assert (Hv : cond_Zopp s (Zpos m * 2 ^ e) = cond_Zopp s (Zpos m) * 2 ^ e)
        by (destruct s; cbn [cond_Zopp]; lia).
      rewrite Hv.
      destruct (Z.compare_spec x (cond_Zopp s (Zpos m) * 2 ^ e)) as [Hx| |];
        (split; [try done|try done; intros [= Hx']; lia]).
      intros _. by rewrite Hx.
    + assert (HP : 0 < 2 ^ (- e)) by (apply Z.pow_pos_nonneg; lia).
      set (P := 2 ^ (- e)) in *.
      destruct (Z.compare_spec (x * P) (cond_Zopp s (Zpos m))) as [Hx| |].
      * split; [intros _|done].
        assert (Hm : Zpos m = (if s then - x else x) * P)
          by (destruct s; cbn [cond_Zopp] in Hx; lia).
        rewrite Hm, Z.mod_mul, Z.div_mul by lia. cbn [Z.eqb]. f_equal.
        destruct s; cbn [cond_Zopp]; lia.
      * split; [done|]. destruct (Z.eqb_spec (Zpos m mod P) 0) as [Hmod|]; [|done].
        intros [= Hx']. exfalso.
        apply Z.div_exact in Hmod; [|lia].
        destruct s; cbn [cond_Zopp] in *; nia.
      * split; [done|]. destruct (Z.eqb_spec (Zpos m mod P) 0) as [Hmod|]; [|done].
        intros [= Hx']. exfalso.
        apply Z.div_exact in Hmod; [|lia].
        destruct s; cbn [cond_Zopp] in *; nia.
Qed.

(** The whole value of a finite float that has one. *)
Lemma whole_value (m : positive) (e : Z) :
  float_is_integer (S754_finite false m e) = true ->
  exists T : positive,
    (if 0 <=? e then Zpos m * 2 ^ e else Zpos m / 2 ^ (- e)) = Zpos T /\
    Zpos (digits2_pos m) + e = Zpos (digits2_pos T) /\
    (0 <= e -> Zpos T = Zpos m * 2 ^ e) /\
    (e < 0 -> Zpos m = Zpos T * 2 ^ (- e)).
Proof.
  cbn [float_is_integer]. destruct (Z.leb_spec 0 e) as [He|He]; intros Hint.
  - assert (HP : 0 < 2 ^ e) by (apply Z.pow_pos_nonneg; lia).
    assert (HT : 0 < Zpos m * 2 ^ e) by lia.
    exists (Z.to_pos (Zpos m * 2 ^ e)). rewrite Z2Pos.id by exact HT.
    split; [reflexivity|]. split; [|split; [reflexivity|lia]].
    symmetry. apply digits2_pos_shift; [exact He|]. rewrite Z2Pos.id by exact HT. reflexivity.
  - assert (HP : 0 < 2 ^ (- e)) by (apply Z.pow_pos_nonneg; lia).
    apply Z.eqb_eq in Hint. apply Z.div_exact in Hint; [|lia].
    assert (HT : 0 < Zpos m / 2 ^ (- e)) by nia.
    exists (Z.to_pos (Zpos m / 2 ^ (- e))). rewrite Z2Pos.id by exact HT.
    split; [reflexivity|].
    assert (Hm : Zpos m = Zpos m / 2 ^ (- e) * 2 ^ (- e)) by lia.
    split; [|split; [lia|intros _; exact Hm]].
    rewrite (digits2_pos_shift (Z.to_pos (Zpos m / 2 ^ (- e))) m (- e)); [lia|lia|].
    rewrite Z2Pos.id by exact HT. exact Hm.
Qed.

Lemma valid_whole_unique (s1 s2 : bool) (m1 m2 : positive) (e1 e2 : Z) :
  bounded fprec femax m1 e1 = true -> bounded fprec femax m2 e2 = true ->
  float_is_integer (S754_finite s1 m1 e1) = true ->
  float_is_integer (S754_finite s2 m2 e2) = true ->
  float_trunc (S754_finite s1 m1 e1) = float_trunc (S754_finite s2 m2 e2) ->
  S754_finite s1 m1 e1 = S754_finite s2 m2 e2.
Proof.
  intros [Hc1 _]%andb_true_iff [Hc2 _]%andb_true_iff Hi1 Hi2. cbn [float_trunc].
  destruct (whole_value m1 e1 Hi1) as (T1 & -> & Hd1 & Hpos1 & Hneg1).
  destruct (whole_value m2 e2 Hi2) as (T2 & -> & Hd2 & Hpos2 & Hneg2).
  intros [= HT].
  assert (s1 = s2 /\ T1 = T2) as [<- <-].
  { destruct s1, s2; cbn [cond_Zopp] in HT; try lia; split; try reflexivity; lia. }
  unfold canonical_mantissa in Hc1, Hc2. apply Z.eqb_eq in Hc1, Hc2.
  rewrite Hd1 in Hc1. rewrite Hd2 in Hc2.
  assert (e1 = e2) as <- by congruence.
  assert (m1 = m2) as <-; [|reflexivity].
  destruct (Z.le_gt_cases 0 e1) as [He|He].
  - assert (HP : 0 < 2 ^ e1) by (apply Z.pow_pos_nonneg; lia).
    specialize (Hpos1 He). specialize (Hpos2 He). nia.
  - specialize (Hneg1 He). specialize (Hneg2 He). lia.
Qed.

Lemma finite_whole_not_zero (s : bool) (m : positive) (e : Z) :
  float_is_integer (S754_finite s m e) = true ->
  float_trunc (S754_finite s m e) <> Some 0.
Proof.
  intros Hi. cbn [float_trunc].
  destruct (whole_value m e Hi) as (T & -> & _). intros [=]. destruct s; cbn in *; lia.
Qed.

Lemma canonical_float_Eq (f g : float) :
  float_ok f = true -> float_ok g = true ->
  SFcompare f g = Some Eq <-> canonical_float f = canonical_float g.
Proof.
  intros [Hnf Hvf]%andb_true_iff [Hng Hvg]%andb_true_iff.
  apply negb_true_iff in Hnf, Hng. rewrite SFcompare_Eq. split.
  - intros (_ & _ & Heq).
    destruct f as [s1|s1| |s1 m1 e1], g as [s2|s2| |s2 m2 e2];
      cbn [zero_sign_free] in Heq; try discriminate Heq; try reflexivity;
      congruence.
  - intros Heq. split; [exact Hnf|]. split; [exact Hng|].
    unfold canonical_float in Heq.
    destruct f as [s1|s1| |s1 m1 e1], g as [s2|s2| |s2 m2 e2];
      try discriminate Hnf; try discriminate Hng; try reflexivity;
      cbn [float_is_integer float_trunc zero_sign_free] in Heq |- *;
      try discriminate Heq; try (by injection Heq as ->).
    + (* zero and finite *)
      fold (float_is_integer (S754_finite s2 m2 e2)) in Heq.
      destruct (float_is_integer (S754_finite s2 m2 e2)) eqn:Hi; [|discriminate Heq].
      exfalso. apply (finite_whole_not_zero s2 m2 e2 Hi). cbn [float_trunc].
      by injection Heq as <-.
    + fold (float_is_integer (S754_finite s2 m2 e2)) in Heq.
      destruct (float_is_integer (S754_finite s2 m2 e2)) eqn:Hi; discriminate Heq.
    + fold (float_is_integer (S754_finite s1 m1 e1)) in Heq.
      destruct (float_is_integer (S754_finite s1 m1 e1)) eqn:Hi; [|discriminate Heq].
      exfalso. apply (finite_whole_not_zero s1 m1 e1 Hi). cbn [float_trunc].
      by injection Heq as ->.
    + fold (float_is_integer (S754_finite s1 m1 e1)) in Heq.
      destruct (float_is_integer (S754_finite s1 m1 e1)) eqn:Hi; discriminate Heq.
    + fold (float_is_integer (S754_finite s1 m1 e1)) in Heq.
      fold (float_is_integer (S754_finite s2 m2 e2)) in Heq.
      destruct (float_is_integer (S754_finite s1 m1 e1)) eqn:Hi1,
               (float_is_integer (S754_finite s2 m2 e2)) eqn:Hi2;
        try discriminate Heq.
      * apply (valid_whole_unique s1 s2 m1 m2 e1 e2 Hvf Hvg Hi1 Hi2).
        cbn [float_trunc]. by injection Heq as ->.
      * by injection Heq as -> -> ->.
Qed.

Lemma canonical_float_kind (f : float) :
  (exists z, canonical_float f = VInt z) \/ canonical_float f = VFloat f.
Proof.
  unfold canonical_float. destruct (float_is_integer f); [|by right].
  destruct (float_trunc f) as [z|]; [left; by exists z|by right].
Qed.

Lemma num_eqb_canonical (x y : number) :
  number_ok x = true -> number_ok y = true ->
  num_eqb x y = true <-> canonical_number x = canonical_number y.
Proof.
  intros Hx Hy. unfold num_eqb, num_compare.
  destruct x as [x|f], y as [y|g]; cbn [canonical_number number_ok] in *.
  - destruct (Z.compare_spec x y) as [->| |]; split; try done; intros [=]; lia.
  - pose proof (compare_int_float_Eq x g) as Hc.
    destruct (compare_int_float x g) as [[]|]; split; intros Heq; try done;
      try (symmetry; by apply Hc);
      symmetry in Heq; apply Hc in Heq; discriminate Heq.
  - pose proof (compare_int_float_Eq y f) as Hc.
    destruct (compare_int_float y f) as [[]|]; cbn [option_map CompOpp];
      split; intros Heq; try done;
      try (by apply Hc);
      apply Hc in Heq; discriminate Heq.
  - pose proof (canonical_float_Eq f g Hx Hy) as Hc.
    destruct (SFcompare f g) as [[]|]; split; intros Heq; try done;
      try (by apply Hc);
      apply Hc in Heq; discriminate Heq.
Qed.

Lemma float_eqb_zero_sign_free (f g : float) :
  float_eqb f g = true <->
  is_nan f = false /\ is_nan g = false /\ zero_sign_free f = zero_sign_free g.
Proof.
  unfold float_eqb, SFeqb. rewrite <- SFcompare_Eq.
  destruct (SFcompare f g) as [[]|]; split; done.
Qed.

Lemma float_eqb_zero (i j : float) :
  float_is_zero i = true -> float_eqb i j = float_is_zero j.
Proof. destruct i as [s| | |]; try discriminate. intros _. by destruct j as [t|[]| |[]]. Qed.

Lemma float_eqb_zero_r (i j : float) :
  float_is_zero j = true -> float_eqb i j = float_is_zero i.
Proof. destruct j as [s| | |]; try discriminate. intros _. by destruct i as [t|[]| |[]]. Qed.

Lemma float_ok_no_nan (f : float) : float_ok f = true -> is_nan f = false.
Proof. intros [Hn _]%andb_true_iff. by apply negb_true_iff. Qed.

Lemma zero_sign_free_not_zero (f : float) :
  float_is_zero f = false -> float_is_zero (zero_sign_free f) = false.
Proof. by destruct f. Qed.

Lemma key_eq_canonical (k1 k2 : value) :
  key_ok k1 = true -> key_ok k2 = true ->
  key_eq k1 k2 = true <-> canonical_key k1 = canonical_key k2.
Proof.
  intros H1 H2. unfold key_eq.
  assert (Hnum : forall x y, as_number k1 = Some x -> as_number k2 = Some y ->
            py_is k1 k2 || flat_eq k1 k2 = true
            <-> canonical_number x = canonical_number y).
  { intros x y Hx Hy.
    assert (Hflat : flat_eq k1 k2 = num_eqb x y) by (unfold flat_eq; by rewrite Hx, Hy).
    assert (Hok : number_ok x = true /\ number_ok y = true).
    { destruct k1, k2; try discriminate Hx; try discriminate Hy;
        injection Hx as <-; injection Hy as <-; by split. }
    rewrite Hflat, <- (num_eqb_canonical x y) by apply Hok.
    destruct (py_is k1 k2) eqn:Hid; [|done].
    apply py_is_eq in Hid as <-. rewrite Hy in Hx. injection Hx as <-.
    split; [intros _|done]. apply num_eqb_canonical; try apply Hok. reflexivity. }
  assert (Hcomplex : forall r i y,
            float_ok r = true ->  number_ok y = true ->
            (float_is_zero i && num_eqb (NFloat r) y = true
             <-> (if float_is_zero i then canonical_float r
                  else VComplex (zero_sign_free r) (zero_sign_free i)) = canonical_number y)
            /\ (float_is_zero i && num_eqb y (NFloat r) = true
                <-> canonical_number y
                    = (if float_is_zero i then canonical_float r
                       else VComplex (zero_sign_free r) (zero_sign_free i)))).
  { intros r i y Hr Hy. destruct (float_is_zero i); cbn [andb].
    - split.
      + exact (num_eqb_canonical (NFloat r) y Hr Hy).
      + exact (num_eqb_canonical y (NFloat r) Hy Hr).
    - split; (split; [discriminate|]); intros Heq; exfalso;
        destruct y as [y|g]; cbn [canonical_number] in Heq; try discriminate Heq;
        destruct (canonical_float_kind g) as [[z Hz]|Hz]; rewrite Hz in Heq;
        discriminate Heq. }
  destruct k1 as [|b1|x1|f1|r1 i1|s1|l1], k2 as [|b2|x2|f2|r2 i2|s2|l2];
    try exact (Hnum _ _ eq_refl eq_refl);
    cbn [py_is flat_eq as_number canonical_key orb key_ok] in *;
    try (split; [discriminate|intros [=]]; fail);
    try (split; reflexivity);
    try match type of H1 with
        | float_ok _ && float_ok _ = true => apply andb_true_iff in H1 as [Hr1 Hi1]
        end;
    try match type of H2 with
        | float_ok _ && float_ok _ = true => apply andb_true_iff in H2 as [Hr2 Hi2]
        end;
    try (split; [discriminate|]; intros Heq; exfalso;
         repeat match type of Heq with
         | context [if float_is_zero ?i then _ else _] => destruct (float_is_zero i)
         end;
         try discriminate Heq;
         match type of Heq with
         | context [canonical_float ?f] =>
             destruct (canonical_float_kind f) as [[z Hz]|Hz]; rewrite Hz in Heq;
             discriminate Heq
         end).
  - exact (proj2 (Hcomplex r2 i2 (NInt (int_of_bool b1)) Hr2 eq_refl)).
  - exact (proj2 (Hcomplex r2 i2 (NInt x1) Hr2 eq_refl)).
  - exact (proj2 (Hcomplex r2 i2 (NFloat f1) Hr2 H1)).
  - exact (proj1 (Hcomplex r1 i1 (NInt (int_of_bool b2)) Hr1 eq_refl)).
  - exact (proj1 (Hcomplex r1 i1 (NInt x2) Hr1 eq_refl)).
  - exact (proj1 (Hcomplex r1 i1 (NFloat f2) Hr1 H2)).
  - (* two complex numbers *)
    pose proof (float_ok_no_nan _ Hr1) as Hn1. pose proof (float_ok_no_nan _ Hr2) as Hn2.
    pose proof (float_ok_no_nan _ Hi1) as Hm1. pose proof (float_ok_no_nan _ Hi2) as Hm2.
    destruct (float_is_zero i1) eqn:Hz1, (float_is_zero i2) eqn:Hz2.
    + rewrite (float_eqb_zero i1 i2 Hz1), Hz2, andb_true_r.
      unfold float_eqb, SFeqb.
      pose proof (canonical_float_Eq r1 r2 Hr1 Hr2) as Hc.
      destruct (SFcompare r1 r2) as [[]|]; split; intros Heq; try done;
        try (by apply Hc); apply Hc in Heq; discriminate Heq.
    + rewrite (float_eqb_zero i1 i2 Hz1), Hz2, andb_false_r.
      split; [discriminate|]. intros Heq.
      destruct (canonical_float_kind r1) as [[z Hz]|Hz]; rewrite Hz in Heq; discriminate Heq.
    + rewrite (float_eqb_zero_r i1 i2 Hz2), Hz1, andb_false_r.
      split; [discriminate|]. intros Heq.
      destruct (canonical_float_kind r2) as [[z Hz]|Hz]; rewrite Hz in Heq; discriminate Heq.
    + rewrite andb_true_iff, !float_eqb_zero_sign_free. split.
      * intros [(_ & _ & ->) (_ & _ & ->)]. reflexivity.
      * intros [= -> ->]. by repeat split.
  - rewrite String.eqb_eq. split; congruence.
  - rewrite orb_diag, Nat.eqb_eq. split; congruence.
Qed.

Lemma key_eq_refl (k : value) : key_ok k = true -> key_eq k k = true.
Proof. intros Hk. by apply key_eq_canonical. Qed.

(** *** Lookup in a dictionary *)

Lemma dict_get_Some (d : list (value * value)) (k v : value) :
  dict_get d k = Some v ->
  exists i k', d !! i = Some (k', v) /\ key_eq k' k = true.
Proof.
  induction d as [|[k' v'] d IH]; cbn [dict_get]; [discriminate|].
  fold (key_eq k' k). destruct (key_eq k' k) eqn:Hk.
  - intros [= <-]. exists O, k'. split; [reflexivity|exact Hk].
  - intros Hd. destruct (IH Hd) as (i & k'' & Hi & Hk'').
    exists (S i), k''. split; [exact Hi|exact Hk''].
Qed.

Lemma dict_get_None (d : list (value * value)) (k : value) :
  dict_get d k = None <-> forall i e, d !! i = Some e -> key_eq (fst e) k = false.
Proof.
  induction d as [|[k' v'] d IH]; cbn [dict_get].
  - split; [intros _ i e Hi; destruct i; discriminate Hi|reflexivity].
  - fold (key_eq k' k). destruct (key_eq k' k) eqn:Hk.
    + split; [discriminate|]. intros Hall. specialize (Hall O (k', v') eq_refl).
      simpl in Hall. congruence.
    + rewrite IH. split.
      * intros Hall [|i] e Hi; [injection Hi as <-; exact Hk|exact (Hall i e Hi)].
      * intros Hall i e Hi. exact (Hall (S i) e Hi).
Qed.

(** An entry of a dictionary with unique keys is found under its key. *)
Lemma dict_get_own_key (d : list (value * value)) (i : nat) (k v : value) :
  unique_keys d -> keys_ok d ->
  d !! i = Some (k, v) -> dict_get d k = Some v.
Proof.
  intros Huniq Hkeys Hi.
  destruct (dict_get d k) as [v'|] eqn:Hget.
  - destruct (dict_get_Some d k v' Hget) as (j & k' & Hj & Hk).
    pose proof (Huniq j i (k', v') (k, v) Hj Hi Hk) as ->.
    rewrite Hi in Hj. by injection Hj as _ ->.
  - rewrite dict_get_None in Hget. specialize (Hget i (k, v) Hi). simpl in Hget.
    rewrite key_eq_refl in Hget; [discriminate|].
    unfold keys_ok in Hkeys. rewrite Forall_lookup in Hkeys. exact (Hkeys i (k, v) Hi).
Qed.

Lemma dict_has_canonical (d : list (value * value)) (k : value) :
  keys_ok d -> key_ok k = true ->
  dict_has d k = true <-> canonical_key k ∈ canonical_keys d.
Proof.
  intros Hd Hk. unfold dict_has, canonical_keys. rewrite list_elem_of_fmap. split.
  - destruct (dict_get d k) as [v|] eqn:Hget; [intros _|discriminate].
    destruct (dict_get_Some d k v Hget) as (i & k' & Hi & Hkk).
    exists (k', v). split; [|by eapply list_elem_of_lookup_2].
    symmetry. apply key_eq_canonical; [|exact Hk|exact Hkk].
    unfold keys_ok in Hd. rewrite Forall_lookup in Hd. exact (Hd i _ Hi).
  - intros ([k' v] & Heq & Hin). apply list_elem_of_lookup in Hin as [i Hi].
    destruct (dict_get d k) as [v'|] eqn:Hget; [reflexivity|].
    rewrite dict_get_None in Hget. specialize (Hget i _ Hi). simpl in Hget, Heq.
    assert (key_eq k' k = true); [|congruence].
    apply key_eq_canonical; [|exact Hk|by symmetry].
    unfold keys_ok in Hd. rewrite Forall_lookup in Hd. exact (Hd i _ Hi).
Qed.

Lemma keys_subset_canonical (d1 d2 : list (value * value)) :
  keys_ok d1 -> keys_ok d2 ->
  keys_subset d1 d2 = true <-> (forall x, x ∈ canonical_keys d1 -> x ∈ canonical_keys d2).
Proof.
  intros H1 H2. unfold keys_subset. rewrite forallb_forall. split.
  - intros Hall x Hx. unfold canonical_keys in Hx. apply list_elem_of_fmap in Hx as (kv & -> & Hin).
    apply dict_has_canonical; [exact H2| |].
    + unfold keys_ok in H1. rewrite Forall_forall in H1. apply H1, Hin.
    + apply Hall. by apply list_elem_of_In.
  - intros Hall kv Hin. apply list_elem_of_In in Hin. apply dict_has_canonical; [exact H2| |].
    + unfold keys_ok in H1. rewrite Forall_forall in H1. apply H1, Hin.
    + apply Hall. unfold canonical_keys. apply list_elem_of_fmap. by exists kv.
Qed.

Lemma unique_keys_NoDup (d : list (value * value)) :
  keys_ok d -> unique_keys d -> NoDup (canonical_keys d).
Proof.
  intros Hkeys Huniq. apply NoDup_alt. intros i j x Hi Hj.
  unfold canonical_keys in Hi, Hj. rewrite list_lookup_fmap in Hi, Hj.
  destruct (d !! i) as [e1|] eqn:H1; [|discriminate].
  destruct (d !! j) as [e2|] eqn:H2; [|discriminate].
  simpl in Hi, Hj. injection Hi as <-. injection Hj as Hj.
  unfold keys_ok in Hkeys. rewrite Forall_lookup in Hkeys.
  apply (Huniq i j e1 e2 H1 H2).
  apply key_eq_canonical; [exact (Hkeys i _ H1)|exact (Hkeys j _ H2)|by symmetry].
Qed.

(** With unique keys, two dictionaries have the same keys exactly when they
    have the same number of entries and the keys of one are keys of the
    other. *)
Lemma same_keys_same_length (d1 d2 : list (value * value)) :
  keys_ok d1 -> keys_ok d2 -> unique_keys d1 -> unique_keys d2 ->
  keys_subset d1 d2 && keys_subset d2 d1
  = (llen d1 =? llen d2) && keys_subset d1 d2.
Proof.
  intros Hp1 Hp2 Hu1 Hu2.
  pose proof (unique_keys_NoDup d1 Hp1 Hu1) as Hn1.
  pose proof (unique_keys_NoDup d2 Hp2 Hu2) as Hn2.
  pose proof (keys_subset_canonical d1 d2 Hp1 Hp2) as H12.
  pose proof (keys_subset_canonical d2 d1 Hp2 Hp1) as H21.
  assert (Hlen : forall d : list (value * value), length (canonical_keys d) = length d).
  { intros d. unfold canonical_keys. apply length_fmap. }
  unfold llen.
  destruct (keys_subset d1 d2) eqn:Hs12; [|by rewrite andb_false_r].
  rewrite andb_true_r. cbn [andb].
  pose proof (NoDup_submseteq _ _ Hn1 (proj1 H12 eq_refl)) as Hsub12.
  pose proof (submseteq_length _ _ Hsub12) as Hle12. rewrite !Hlen in Hle12.
  destruct (keys_subset d2 d1) eqn:Hs21.
  - pose proof (NoDup_submseteq _ _ Hn2 (proj1 H21 eq_refl)) as Hsub21.
    pose proof (submseteq_length _ _ Hsub21) as Hle21. rewrite !Hlen in Hle21.
    symmetry. apply Z.eqb_eq. lia.
  - symmetry. apply Z.eqb_neq. intros Heq.
    assert (Hperm : canonical_keys d1 ≡ₚ canonical_keys d2).
    { apply submseteq_length_Permutation; [exact Hsub12|]. rewrite !Hlen. lia. }
    assert (false = true) as Habs; [|discriminate Habs].
    apply H21. intros x Hx. by rewrite Hperm.
Qed.

(** *** The loops over items and entries *)

Lemma all2_agree (f g : value -> value -> option bool) (xs : list value) : forall ys,
  (forall x y, x ∈ xs -> y ∈ ys -> f x y = g x y /\ g x y <> None) ->
  all2 f xs ys = all2 g xs ys /\ all2 g xs ys <> None.
Proof.
  induction xs as [|x xs IH]; intros ys Hfg; [by split|].
  destruct ys as [|y ys]; [by split|]. cbn [all2].
  destruct (Hfg x y ltac:(left) ltac:(left)) as [-> Hg].
  destruct (g x y) as [[]|]; [|by split|contradiction].
  apply IH. intros x' y' Hx Hy. apply Hfg; by right.
Qed.

Lemma all2_refl (f : value -> value -> option bool) (xs : list value) :
  (forall x, x ∈ xs -> f x x = Some true) -> all2 f xs xs = Some true.
Proof.
  induction xs as [|x xs IH]; intros Hf; [reflexivity|]. cbn [all2].
  rewrite (Hf x ltac:(left)). apply IH. intros x' Hx. apply Hf. by right.
Qed.

Lemma all_entries_agree (f g : value -> value -> option bool)
    (d2 : list (value * value)) (d1 : list (value * value)) :
  (forall k v v2, (k, v) ∈ d1 -> dict_get d2 k = Some v2 ->
     f v v2 = g v v2 /\ g v v2 <> None) ->
  all_entries (Some false) f d1 d2 = all_entries (Some false) g d1 d2
  /\ all_entries (Some false) g d1 d2 <> None.
Proof.
  induction d1 as [|[k v] d1 IH]; intros Hfg; [by split|]. cbn [all_entries].
  destruct (dict_get d2 k) as [v2|] eqn:Hget; [|by split].
  destruct (Hfg k v v2 ltac:(left) Hget) as [-> Hg].
  destruct (g v v2) as [[]|]; [|by split|contradiction].
  apply IH. intros k' v' v2' Hin. apply Hfg. by right.
Qed.

Lemma all_entries_missing (f : value -> value -> option bool)
    (d2 : list (value * value)) (d1 : list (value * value)) :
  keys_subset d1 d2 = false ->
  all_entries (Some false) f d1 d2 <> None ->
  all_entries (Some false) f d1 d2 = Some false.
Proof.
  induction d1 as [|[k v] d1 IH]; cbn [keys_subset forallb all_entries fst];
    [discriminate|].
  unfold dict_has. destruct (dict_get d2 k) as [v2|]; [|reflexivity].
  cbn [andb]. intros Hsub. destruct (f v v2) as [[]|]; [|reflexivity|contradiction].
  apply IH, Hsub.
Qed.

Lemma all_entries_refl (f : value -> value -> option bool) (d d1 : list (value * value)) :
  (forall k v, (k, v) ∈ d1 -> dict_get d k = Some v /\ f v v = Some true) ->
  all_entries (Some false) f d1 d = Some true.
Proof.
  induction d1 as [|[k v] d1 IH]; intros Hf; [reflexivity|]. cbn [all_entries].
  destruct (Hf k v ltac:(left)) as [-> ->]. apply IH. intros k' v' Hin. apply Hf. by right.
Qed.

(** *** Equality of a value with itself *)

Lemma SFcompare_refl (f : float) : is_nan f = false -> SFcompare f f = Some Eq.
Proof.
  destruct f as [s|s| |s m e]; [by destruct s|by destruct s|discriminate|].
  intros _. cbn [SFcompare]. rewrite Z.compare_refl, Pos.compare_cont_refl.
  by destruct s.
Qed.

Lemma flat_eq_refl (v : value) : no_nan v = true -> flat_eq v v = true.
Proof.
  destruct v as [|b|x|f|r i|s|l]; cbn [no_nan flat_eq as_number]; intros Hv.
  - reflexivity.
  - rewrite num_eqb_int. apply Z.eqb_refl.
  - rewrite num_eqb_int. apply Z.eqb_refl.
  - apply negb_true_iff in Hv. unfold num_eqb, num_compare.
    by rewrite (SFcompare_refl f Hv).
  - apply andb_true_iff in Hv as [Hr Hi]. apply negb_true_iff in Hr, Hi.
    unfold float_eqb, SFeqb. by rewrite (SFcompare_refl r Hr), (SFcompare_refl i Hi).
  - apply String.eqb_refl.
  - apply Nat.eqb_refl.
Qed.

Lemma regular_no_nan (h : heap) (n : nat) (v : value) : regular h n v -> no_nan v = true.
Proof. destruct n; intros [Hv _]; exact Hv. Qed.

Lemma is_equal_flat (h : heap) (k : nat) (a b : value) :
  (0 < k)%nat -> flat_pair h a b -> is_equal k h a b = Some (flat_eq a b).
Proof.
  intros Hk Hshape. destruct k as [|k]; [lia|]. cbn [is_equal]. unfold flat_pair in Hshape.
  destruct a as [| | | | | |l1], b as [| | | | | |l2]; try reflexivity.
  destruct (h !! l1) as [[]|], (h !! l2) as [[]|]; try reflexivity; contradiction.
Qed.

Lemma values_equal_flat (h : heap) (k : nat) (a b : value) :
  (1 < k)%nat -> flat_pair h a b -> _values_equal k h a b = Some (flat_eq a b).
Proof.
  intros Hk Hshape. destruct k as [|k]; [lia|].
  pose proof (is_equal_flat h k a b ltac:(lia) Hshape) as Heq.
  unfold flat_pair in Hshape.
  destruct a as [| | | | | |l1], b as [| | | | | |l2];
    cbn [_values_equal is_bool is_int_or_float is_str andb];
    try reflexivity; try exact Heq.
  destruct (h !! l1) as [[]|], (h !! l2) as [[]|]; try exact Heq; contradiction.
Qed.

Lemma pair_cases (h : heap) (a b : value) :
  flat_pair h a b
  \/ (exists l1 l2 xs ys, a = VRef l1 /\ b = VRef l2 /\
        h !! l1 = Some (OList xs) /\ h !! l2 = Some (OList ys))
  \/ (exists l1 l2 d1 d2, a = VRef l1 /\ b = VRef l2 /\
        h !! l1 = Some (ODict d1) /\ h !! l2 = Some (ODict d2)).
Proof.
  unfold flat_pair.
  destruct a as [| | | | | |l1], b as [| | | | | |l2]; try (left; exact I).
  destruct (h !! l1) as [[xs|d1| | | | | | | |]|] eqn:H1,
           (h !! l2) as [[ys|d2| | | | | | | |]|] eqn:H2; try (left; exact I).
  - right. left. by exists l1, l2, xs, ys.
  - right. right. by exists l1, l2, d1, d2.
Qed.

Lemma values_equal_refl (h : heap) (n : nat) : forall (v : value) (fuel : nat),
  regular h n v -> (n + 1 < fuel)%nat -> _values_equal fuel h v v = Some true.
Proof.
  induction n as [|m IH]; intros v fuel Hreg Hfuel;
    pose proof (regular_no_nan _ _ _ Hreg) as Hnan;
    pose proof (flat_eq_refl v Hnan) as Hflat;
    (destruct (pair_cases h v v)
       as [Hshape|[(l & l2 & xs & ys & -> & [= <-] & Hl & Hl2)
                  |(l & l2 & d & d2 & -> & [= <-] & Hl & Hl2)]];
     [rewrite values_equal_flat, Hflat by (lia || exact Hshape); reflexivity| |]);
    rewrite Hl in Hl2; injection Hl2 as <-;
    destruct Hreg as [_ Hreg]; rewrite Hl in Hreg; try contradiction;
    (destruct fuel as [|k]; [lia|]);
    cbn [_values_equal is_bool is_int_or_float is_str andb]; rewrite Hl.
  - rewrite Z.eqb_refl. cbn [negb]. apply all2_refl. intros x Hx.
    apply IH; [|lia]. rewrite Forall_forall in Hreg. apply Hreg, Hx.
  - destruct Hreg as [Hentries Huniq].
    assert (Hkeys : keys_ok d).
    { unfold keys_ok. eapply Forall_impl; [exact Hentries|]. by intros kv [Hk _]. }
    assert (Hsub : keys_subset d d = true) by (by apply keys_subset_canonical).
    rewrite Hsub. cbn [andb negb].
    apply all_entries_refl. intros k' v Hin.
    apply list_elem_of_lookup in Hin as [i Hi]. split.
    + exact (dict_get_own_key d i k' v Huniq Hkeys Hi).
    + apply IH; [|lia]. rewrite Forall_lookup in Hentries.
      exact (proj2 (Hentries i _ Hi)).
Qed.

(** *** The two tests agree *)

Lemma regular_entries (h : heap) (m : nat) (d : list (value * value)) :
  Forall (fun kv => key_ok (fst kv) = true /\ regular h m (snd kv)) d ->
  keys_ok d /\ forall k v, dict_get d k = Some v -> regular h m v.
Proof.
  intros Hentries. split.
  - unfold keys_ok. eapply Forall_impl; [exact Hentries|]. by intros kv [Hk _].
  - intros k v Hget. destruct (dict_get_Some d k v Hget) as (i & k' & Hi & _).
    rewrite Forall_lookup in Hentries. exact (proj2 (Hentries i _ Hi)).
Qed.

Lemma values_equal_is_equal (h : heap) (n : nat) : forall (a b : value) (fuel fuel' : nat),
  regular h n a -> regular h n b ->
  (n + 1 < fuel)%nat -> (n < fuel')%nat ->
  _values_equal fuel h a b = is_equal fuel' h a b /\ is_equal fuel' h a b <> None.
Proof.
  induction n as [|m IH]; intros a b fuel fuel' Ha Hb Hfuel Hfuel';
    (destruct (pair_cases h a b)
       as [Hshape|[(l1 & l2 & xs & ys & -> & -> & H1 & H2)
                  |(l1 & l2 & d1 & d2 & -> & -> & H1 & H2)]];
     [rewrite values_equal_flat, is_equal_flat by (lia || exact Hshape);
      split; [reflexivity|discriminate]| |]);
    destruct Ha as [_ Ha], Hb as [_ Hb]; rewrite H1 in Ha; rewrite H2 in Hb;
    try contradiction;
    (destruct fuel as [|k]; [lia|]); (destruct fuel' as [|k']; [lia|]);
    cbn [_values_equal is_equal is_bool is_int_or_float is_str andb]; rewrite H1, H2.
  - (* two arrays *)
    destruct (negb (llen xs =? llen ys)); [split; [reflexivity|discriminate]|].
    apply all2_agree. intros x y Hx Hy.
    rewrite Forall_forall in Ha. rewrite Forall_forall in Hb.
    destruct (py_is x y) eqn:Hid.
    + apply py_is_eq in Hid as <-. split; [|discriminate].
      apply (values_equal_refl h m); [exact (Ha x Hx)|lia].
    + apply IH; [exact (Ha x Hx)|exact (Hb y Hy)|lia|lia].
  - (* two dictionaries *)
    destruct Ha as [Hentries1 Huniq1], Hb as [Hentries2 Huniq2].
    destruct (regular_entries h m d1 Hentries1) as [Hkeys1 _].
    destruct (regular_entries h m d2 Hentries2) as [Hkeys2 Hvalues2].
    rewrite (same_keys_same_length d1 d2 Hkeys1 Hkeys2 Huniq1 Huniq2).
    assert (Hagree : all_entries (Some false) (_values_equal k h) d1 d2
                     = all_entries (Some false)
                         (fun x y => if py_is x y then Some true else is_equal k' h x y) d1 d2
                     /\ all_entries (Some false)
                          (fun x y => if py_is x y then Some true else is_equal k' h x y) d1 d2
                        <> None).
    { apply all_entries_agree. intros key v v2 Hin Hget.
      rewrite Forall_forall in Hentries1.
      pose proof (proj2 (Hentries1 _ Hin)) as Hv. pose proof (Hvalues2 key v2 Hget) as Hv2.
      simpl in Hv. destruct (py_is v v2) eqn:Hid.
      - apply py_is_eq in Hid as <-. split; [|discriminate].
        apply (values_equal_refl h m); [exact Hv|lia].
      - apply IH; [exact Hv|exact Hv2|lia|lia]. }
    destruct Hagree as [Hagree Hsome].
    destruct (llen d1 =? llen d2); cbn [andb negb]; [|split; [reflexivity|discriminate]].
    destruct (keys_subset d1 d2) eqn:Hsub; cbn [negb].
    + split; [exact Hagree|exact Hsome].
    + split; [|exact Hsome]. symmetry. apply all_entries_missing; [exact Hsub|exact Hsome].
Qed.

(** An array that holds itself: the comparison of [switch] descends into
    it for ever. *)
Lemma values_equal_on_cycle (h : heap) (l : loc) :
  h !! l = Some (OList [VRef l]) -> never_returns h (VRef l) (VRef l).
Proof.
  intros Hl fuel. induction fuel as [|k IH]; [reflexivity|].
  cbn [_values_equal is_bool is_int_or_float is_str andb]. rewrite Hl.
  cbn [llen length]. rewrite Z.eqb_refl. cbn [negb all2]. rewrite IH. reflexivity.
Qed.

(** C9 (amended).  For two values that hold no NaN and whose arrays and
    dictionaries are nested to a finite depth [n] (none contains itself),
    the keys of a dictionary being unique and their floats doubles, the
    comparison of [switch] and the equality of [==] both return, with the
    same answer, as soon as the fuel is above the depth. *)
Theorem values_equal_agrees_with_is_equal (h : heap) (n : nat) (a b : value)
    (fuel fuel' : nat) :
  regular h n a -> regular h n b ->
  (n + 1 < fuel)%nat -> (n < fuel')%nat ->
  exists r : bool, _values_equal fuel h a b = Some r /\ is_equal fuel' h a b = Some r.
Proof.
  intros Ha Hb Hfuel Hfuel'.
  destruct (values_equal_is_equal h n a b fuel fuel' Ha Hb Hfuel Hfuel') as [Heq Hsome].
  destruct (is_equal fuel' h a b) as [r|]; [|contradiction].
  exists r. split; [exact Heq|reflexivity].
Qed.

(** Two dictionaries [{"x": [1, "a"]}] that share their array. *)
Lemma values_equal_agrees_with_is_equal_witness :
  exists r : bool,
    _values_equal 4 Examples.small_heap (VRef 1) (VRef 2) = Some r /\
    is_equal 3 Examples.small_heap (VRef 1) (VRef 2) = Some r.
Proof.
  assert (Hdict : forall l, l = 1%nat \/ l = 2%nat ->
            regular Examples.small_heap 2 (VRef l)).
  { intros l [-> | ->]; (split; [reflexivity|]); cbn; (split; [|]).
    all: try (repeat constructor; fail).
    all: intros [|i] [|j] e1 e2 Hi Hj _; try reflexivity; destruct i || destruct j;
      discriminate. }
  apply (values_equal_agrees_with_is_equal Examples.small_heap 2 (VRef 1) (VRef 2) 4 3).
  - apply Hdict. by left.
  - apply Hdict. by right.
  - repeat constructor.
  - repeat constructor.
Defined.

(** C9, as stated, fails: after [var a = [0];  a[0] = a;] the array [a]
    holds itself; [a == a] is [true], and the comparison of [switch] on
    [a] and [a] never returns. *)
Lemma cyclic_array_distinguishes_equalities :
  st_heap Examples.cyclic_state !! 19%nat = Some (OList [VRef 19])
  /\ is_equal 1 (st_heap Examples.cyclic_state) (VRef 19) (VRef 19) = Some true
  /\ never_returns (st_heap Examples.cyclic_state) (VRef 19) (VRef 19).
Proof.
  assert (Hl : st_heap Examples.cyclic_state !! 19%nat = Some (OList [VRef 19]))
    by (vm_compute; reflexivity).
  split; [exact Hl|]. split.
  - cbn [is_equal]. rewrite Hl. reflexivity.
  - apply values_equal_on_cycle, Hl.
Qed.

End EqualityFacts.

(** ** source_map.py: the registry, positions, spans and lines *)

Section SpanFacts.
Import SourceMap.
Import Spans.

(** X1.  [SourceMap.add_file] registers a path once: adding a path a second
    time, with whatever content, returns the id of the first registration
    and leaves the source map as it was; the second content is dropped. *)
Theorem add_file_same_path abspath (sm : SourceMap) (path content1 content2 : string) :
  let r := add_file abspath sm path content1 in
  add_file abspath (snd r) path content2 = r.
Proof.
  unfold add_file. destruct (path_to_id sm !! abspath path) as [fid|] eqn:Hp; simpl.
  - by rewrite Hp.
  - by rewrite lookup_insert_eq.
Qed.


Lemma reachable_registry_invariant abspath sm :
  reachable abspath sm ->
  1 <= next_id sm /\
  (forall p fid, path_to_id sm !! p = Some fid ->
     1 <= fid < next_id sm /\
     exists sf, get_file sm fid = Some sf /\ sf_path sf = p /\ sf_file_id sf = fid) /\
  (forall fid sf, get_file sm fid = Some sf ->
     1 <= fid < next_id sm /\ sf_file_id sf = fid /\ path_to_id sm !! sf_path sf = Some fid).
Proof.
  induction 1 as [|sm path content Hr (Hnext & Hpaths & Hfiles)].
  - split; [simpl; lia|]. split; intros ? ? Hl; simpl in Hl; unfold get_file in *;
      simpl in Hl; rewrite lookup_empty in Hl; discriminate.
  - unfold add_file. destruct (path_to_id sm !! abspath path) as [fid0|] eqn:Hp; simpl;
      [by split; [|split]|].
    split; [lia|]. split.
    + intros p fid Hl. rewrite lookup_insert in Hl. case_decide as Hpe.
      * injection Hl as <-. subst p. split; [lia|].
        exists (new_SourceFile (next_id sm) (abspath path) content).
        unfold get_file. simpl. rewrite lookup_insert_eq. by repeat split.
      * destruct (Hpaths p fid Hl) as (Hrange & sf & Hget & Hpath & Hid).
        split; [lia|]. exists sf. unfold get_file in *. simpl.
        rewrite lookup_insert_ne by lia. by repeat split.
    + intros fid sf Hget. unfold get_file in *. simpl in Hget.
      rewrite lookup_insert in Hget. case_decide as Hfe.
      * injection Hget as <-. subst fid. simpl. split; [lia|]. split; [reflexivity|].
        by rewrite lookup_insert_eq.
      * destruct (Hfiles fid sf Hget) as (Hrange & Hid & Hpath).
        split; [lia|]. split; [done|].
        rewrite lookup_insert_ne; [done|]. intros Heq. rewrite <- Heq in Hpath. congruence.
Qed.

(** X2.  The registry of a source map built by [add_file] from the empty one:
    every registered path has an id from 1 to [next_id - 1] whose file
    carries that path and that id, and every file is registered under its
    own path and id.  Paths and ids correspond one to one. *)
Theorem source_map_registry abspath sm :
  reachable abspath sm ->
  (forall p fid, path_to_id sm !! p = Some fid ->
     1 <= fid < next_id sm /\
     exists sf, get_file sm fid = Some sf /\ sf_path sf = p /\ sf_file_id sf = fid) /\
  (forall fid sf, get_file sm fid = Some sf ->
     1 <= fid < next_id sm /\ sf_file_id sf = fid /\ path_to_id sm !! sf_path sf = Some fid).
Proof. intros Hr. by destruct (reachable_registry_invariant abspath sm Hr) as (_ & ? & ?). Qed.

Lemma source_map_registry_witness :
  let sm := snd (add_file (fun p => p) (snd (add_file (fun p => p) empty_SourceMap "a.lapis" "x"))
                   "b.lapis" "y") in
  reachable (fun p => p) sm /\
  path_to_id sm !! "b.lapis"%string = Some 2 /\
  ((forall p fid, path_to_id sm !! p = Some fid ->
     1 <= fid < next_id sm /\
     exists sf, get_file sm fid = Some sf /\ sf_path sf = p /\ sf_file_id sf = fid) /\
  (forall fid sf, get_file sm fid = Some sf ->
     1 <= fid < next_id sm /\ sf_file_id sf = fid /\ path_to_id sm !! sf_path sf = Some fid)).
Proof.
  intros sm.
  assert (Hr : reachable (fun p => p) sm) by (do 2 apply reachable_add; apply reachable_empty).
  split; [exact Hr|]. split; [vm_compute; reflexivity|].
  exact (source_map_registry (fun p => p) sm Hr).
Defined.

Lemma offset_to_position_monotone (sf : SourceFile) (o1 o2 : Z) (p1 p2 : Position) :
  line_starts sf = _compute_line_starts (content sf) ->
  offset_to_position sf o1 = Ok p1 ->
  offset_to_position sf o2 = Ok p2 ->
  o1 <= o2 ->
  position_le p1 p2 /\ (p1 = p2 -> o1 = o2).
Proof.
  intros Hls H1 H2 Hle.
  pose proof (offset_to_position_computed sf o1 Hls) as C1. rewrite H1 in C1.
  pose proof (offset_to_position_computed sf o2 Hls) as C2. rewrite H2 in C2.
  destruct C1 as (Hb1 & Hl1 & s1 & Hs1 & Hc1 & Hs1o & Hmax1).
  destruct C2 as (Hb2 & Hl2 & s2 & Hs2 & Hc2 & Hs2o & Hmax2).
  pose proof (compute_line_starts_sorted (content sf)) as Hsorted. rewrite <- Hls in Hsorted.
  assert (Hs12 : s1 <= s2) by (apply (Hmax2 _ _ Hs1); lia).
  split.
  - unfold position_le.
    destruct (Z.lt_trichotomy (line p1) (line p2)) as [Hlt|[Heq|Hgt]].
    + by left.
    + right. split; [done|]. rewrite Heq in Hs1. assert (s1 = s2) by congruence. lia.
    + exfalso.
      assert (s2 < s1); [|lia].
      apply (sorted_lookup_lt _ Hsorted (Z.to_nat (line p2 - 1)) (Z.to_nat (line p1 - 1)));
        [lia|done|done].
  - intros ->. assert (s1 = s2) by congruence. lia.
Qed.

Lemma offset_to_position_in_bounds (sf : SourceFile) (o : Z) :
  line_starts sf = _compute_line_starts (content sf) ->
  0 <= o <= slen (content sf) ->
  exists p, offset_to_position sf o = Ok p.
Proof.
  intros Hls Hb. pose proof (offset_to_position_computed sf o Hls) as C.
  destruct (offset_to_position sf o) as [p|e]; [by exists p|]. destruct C as [_ C]. lia.
Qed.

(** X3.  In a file of such a source map [offset_to_position] succeeds on every
    offset from 0 to the length of the content, that length included, and
    it is strictly monotone: of two offsets the later one has the later
    position (by line, then by column), and two offsets with one position
    are equal. *)
Theorem offset_to_position_order abspath sm fid sf (o1 o2 : Z) :
  reachable abspath sm ->
  get_file sm fid = Some sf ->
  0 <= o1 -> o1 <= o2 -> o2 <= slen (content sf) ->
  exists p1 p2,
    offset_to_position sf o1 = Ok p1 /\ offset_to_position sf o2 = Ok p2 /\
    position_le p1 p2 /\ (p1 = p2 -> o1 = o2).
Proof.
  intros Hr Hget H0 H12 H2.
  pose proof (reachable_line_starts abspath sm Hr fid sf Hget) as Hls.
  destruct (offset_to_position_in_bounds sf o1 Hls ltac:(lia)) as [p1 Hp1].
  destruct (offset_to_position_in_bounds sf o2 Hls ltac:(lia)) as [p2 Hp2].
  exists p1, p2. split; [done|]. split; [done|].
  by apply (offset_to_position_monotone sf o1 o2).
Qed.

Lemma offset_to_position_order_witness :
  let sm := snd (add_file (fun p => p) empty_SourceMap "a.lapis" "var x;") in
  let sf := new_SourceFile 1 "a.lapis" "var x;" in
  get_file sm 1 = Some sf /\
  exists p1 p2,
    offset_to_position sf 1 = Ok p1 /\ offset_to_position sf 4 = Ok p2 /\
    position_le p1 p2 /\ (p1 = p2 -> 1 = 4).
Proof.
  intros sm sf. split; [vm_compute; reflexivity|].
  apply (offset_to_position_order (fun p => p) sm 1 sf 1 4).
  - apply reachable_add, reachable_empty.
  - vm_compute; reflexivity.
  - lia.
  - lia.
  - vm_compute; discriminate.
Defined.


Lemma substring_length (s : string) : forall (a n : nat),
  (a + n <= String.length s)%nat -> String.length (String.substring a n s) = n.
Proof.
  induction s as [|c s IH]; intros a n Hle; simpl in Hle.
  - assert (a = 0 /\ n = 0)%nat as [-> ->] by lia. reflexivity.
  - destruct a as [|a]; simpl.
    + destruct n as [|n]; [reflexivity|]. simpl. rewrite IH; [reflexivity|lia].
    + apply IH. lia.
Qed.

Lemma str_slice_length (s : string) (a b : Z) :
  0 <= a -> a <= b -> b <= slen s -> slen (str_slice s a b) = b - a.
Proof.
  intros Ha Hab Hb. unfold str_slice, slice_bound, slen in *.
  destruct (Z.ltb_spec a 0); [lia|]. destruct (Z.ltb_spec b 0); [lia|].
  rewrite substring_length; lia.
Qed.

(** X4.  [SourceMap.create_span] returns the span it is asked for exactly when
    the file is known and [0 <= start <= end <= len(content)], and raises
    ValueError otherwise.  The span it returns resolves ([resolve_span]) to
    two positions in order, and its text ([get_span_text]) has the length
    of the span. *)
Theorem create_span_resolves abspath sm (fid start end_ : Z) :
  reachable abspath sm ->
  match create_span sm fid start end_ with
  | Ok sp =>
      sp = mkSpan fid start end_ /\
      exists sf p1 p2 text,
        get_file sm fid = Some sf /\
        0 <= start /\ start <= end_ /\ end_ <= slen (content sf) /\
        resolve_span sm sp = Ok (sf, p1, p2) /\ position_le p1 p2 /\
        SourceMap_get_span_text sm sp = Ok text /\ slen text = Span_length sp
  | Err e =>
      e = ValueError /\
      match get_file sm fid with
      | None => True
      | Some sf => start < 0 \/ slen (content sf) < end_ \/ end_ < start
      end
  end.
Proof.
  intros Hr. unfold create_span, get_file.
  destruct (files sm !! fid) as [sf|] eqn:Hget; [|done].
  destruct (Z.ltb_spec start 0) as [Hneg|Hstart]; simpl; [split; [done|lia]|].
  destruct (Z.ltb_spec (slen (content sf)) end_) as [Hbig|Hend]; simpl; [split; [done|lia]|].
  unfold new_Span. destruct (Z.ltb_spec end_ start) as [Hinv|Hord]; [split; [done|lia]|].
  split; [reflexivity|].
  pose proof (reachable_line_starts abspath sm Hr fid sf Hget) as Hls.
  destruct (reachable_registry_invariant abspath sm Hr) as (_ & _ & Hfiles).
  destruct (Hfiles fid sf Hget) as (_ & Hid & _).
  destruct (offset_to_position_in_bounds sf start Hls ltac:(lia)) as [p1 Hp1].
  destruct (offset_to_position_in_bounds sf (Z.max start (end_ - 1)) Hls ltac:(lia))
    as [p2 Hp2].
  exists sf, p1, p2, (str_slice (content sf) start end_).
  split; [done|]. split; [done|]. split; [done|]. split; [done|].
  unfold resolve_span, SourceMap_get_span_text, get_span_text, span_to_positions, get_file.
  simpl. rewrite Hget, Hid, Z.eqb_refl. simpl. rewrite Hp1, Hp2.
  split; [reflexivity|]. split.
  - by apply (offset_to_position_monotone sf start (Z.max start (end_ - 1))); [| | |lia].
  - split; [reflexivity|]. unfold Span_length. simpl. by apply str_slice_length.
Qed.

Lemma create_span_resolves_witness :
  let sm := snd (add_file (fun p => p) empty_SourceMap "a.lapis" "var x;") in
  reachable (fun p => p) sm /\
  create_span sm 1 4 5 = Ok (mkSpan 1 4 5) /\
  match create_span sm 1 4 5 with
  | Ok sp =>
      sp = mkSpan 1 4 5 /\
      exists sf p1 p2 text,
        get_file sm 1 = Some sf /\
        0 <= 4 /\ 4 <= 5 /\ 5 <= slen (content sf) /\
        resolve_span sm sp = Ok (sf, p1, p2) /\ position_le p1 p2 /\
        SourceMap_get_span_text sm sp = Ok text /\ slen text = Span_length sp
  | Err e =>
      e = ValueError /\
      match get_file sm 1 with
      | None => True
      | Some sf => 4 < 0 \/ slen (content sf) < 5 \/ 5 < 4
      end
  end.
Proof.
  intros sm.
  assert (Hr : reachable (fun p => p) sm) by (apply reachable_add, reachable_empty).
  split; [exact Hr|]. split; [vm_compute; reflexivity|].
  exact (create_span_resolves (fun p => p) sm 1 4 5 Hr).
Defined.

(** X5.  Two spans that are not empty overlap ([Span.overlaps]) exactly when
    they are of one file and some offset is contained ([Span.contains]) in
    both. *)
Theorem overlaps_shared_offset (a b : Span) :
  span_start a < span_end a ->
  span_start b < span_end b ->
  (overlaps a b = true <->
   file_id a = file_id b /\ exists o, contains a o = true /\ contains b o = true).
Proof.
  intros Ha Hb. unfold overlaps, contains. split.
  - intros H. apply andb_true_iff in H as [H H3]. apply andb_true_iff in H as [H1 H2].
    apply Z.eqb_eq in H1. apply Z.ltb_lt in H2, H3. split; [done|].
    exists (Z.max (span_start a) (span_start b)).
    rewrite !andb_true_iff, !Z.leb_le, !Z.ltb_lt. lia.
  - intros (Hf & o & Hao & Hbo).
    apply andb_true_iff in Hao as [Ha1 Ha2]. apply andb_true_iff in Hbo as [Hb1 Hb2].
    apply Z.leb_le in Ha1, Hb1. apply Z.ltb_lt in Ha2, Hb2.
    rewrite !andb_true_iff, Z.eqb_eq, !Z.ltb_lt. lia.
Qed.

Lemma overlaps_shared_offset_witness :
  let a := mkSpan 1 0 5 in
  let b := mkSpan 1 4 9 in
  overlaps a b = true /\
  (overlaps a b = true <->
   file_id a = file_id b /\ exists o, contains a o = true /\ contains b o = true).
Proof.
  intros a b. split; [reflexivity|].
  apply (overlaps_shared_offset a b); reflexivity.
Defined.


Lemma split_lines_cons (s : string) : exists l ls, split_lines s = l :: ls.
Proof.
  induction s as [|c s (l & ls & IH)]; simpl; [by eexists _, _|].
  destruct (Ascii.eqb c newline); [by eexists _, _|]. rewrite IH. by eexists _, _.
Qed.

Lemma join_split_lines (s : string) :
  Lapis.join (String newline "") (split_lines s) = s.
Proof.
  induction s as [|c s IH]; [reflexivity|]. simpl.
  destruct (split_lines_cons s) as (l & ls & Hs). rewrite Hs in IH |- *.
  destruct (Ascii.eqb_spec c newline) as [->|Hc].
  - change (String newline (Lapis.join (String newline "") (l :: ls)) = String newline s).
    by rewrite IH.
  - destruct ls as [|l2 ls].
    + simpl in IH |- *. by rewrite IH.
    + change (String c (Lapis.join (String newline "") (l :: l2 :: ls)) = String c s).
      by rewrite IH.
Qed.

Lemma split_lines_no_newline (s : string) : Forall no_newline (split_lines s).
Proof.
  induction s as [|c s IH]; simpl.
  - constructor; [|constructor]. intros k. by destruct k.
  - destruct (Ascii.eqb_spec c newline) as [->|Hc].
    + constructor; [|exact IH]. intros k. by destruct k.
    + destruct (split_lines s) as [|l ls]; [constructor; [|constructor]|].
      * intros [|[|k]]; simpl; congruence.
      * inversion IH as [|? ? Hl Hls]; subst. constructor; [|exact Hls].
        intros [|k]; simpl; [congruence|apply Hl].
Qed.

Lemma split_lines_starts (s : string) : forall (i : Z) (j : nat) (l : string),
  split_lines s !! j = Some l ->
  exists a q t,
    (i :: line_starts_from i s) !! j = Some a /\
    s = (q ++ l ++ t)%string /\
    a = i + slen q /\
    match (i :: line_starts_from i s) !! S j with
    | Some n => n - 1
    | None => i + slen s
    end = a + slen l.
Proof.
  induction s as [|c s IH]; intros i j l Hj.
  - destruct j as [|j]; [|done]. injection Hj as <-.
    exists i, ""%string, ""%string. repeat split; unfold slen; simpl; lia.
  - cbn [split_lines line_starts_from] in *.
    destruct (Ascii.eqb_spec c newline) as [->|Hc].
    + destruct j as [|j].
      * injection Hj as <-. exists i, ""%string, (String newline s).
        repeat split; unfold slen; simpl; lia.
      * destruct (IH (i + 1) j l Hj) as (a & q & t & Ha & Hs & Haq & He).
        exists a, (String newline q), t. split; [exact Ha|]. split; [by rewrite Hs|].
        split; [unfold slen in *; simpl; lia|].
        change ((i :: i + 1 :: line_starts_from (i + 1) s) !! S (S j))
          with (((i + 1) :: line_starts_from (i + 1) s) !! S j).
        destruct (((i + 1) :: line_starts_from (i + 1) s) !! S j);
          unfold slen in *; simpl in *; lia.
    + destruct (split_lines_cons s) as (l0 & ls & Hsplit). rewrite Hsplit in Hj.
      destruct j as [|j].
      * injection Hj as <-.
        destruct (IH (i + 1) 0%nat l0) as (a & q & t & Ha & Hs & Haq & He);
          [by rewrite Hsplit|].
        injection Ha as <-.
        assert (q = ""%string) as -> by (destruct q; [done|unfold slen in Haq; simpl in Haq; lia]).
        exists i, ""%string, t. split; [reflexivity|]. split; [by rewrite Hs|].
        split; [unfold slen; simpl; lia|].
        change ((i :: line_starts_from (i + 1) s) !! 1%nat)
          with (((i + 1) :: line_starts_from (i + 1) s) !! 1%nat).
        destruct (((i + 1) :: line_starts_from (i + 1) s) !! 1%nat);
          unfold slen in *; simpl in *; lia.
      * destruct (IH (i + 1) (S j) l) as (a & q & t & Ha & Hs & Haq & He);
          [by rewrite Hsplit|].
        exists a, (String c q), t. split; [exact Ha|]. split; [by rewrite Hs|].
        split; [unfold slen in *; simpl; lia|].
        change ((i :: line_starts_from (i + 1) s) !! S (S j))
          with (((i + 1) :: line_starts_from (i + 1) s) !! S (S j)).
        destruct (((i + 1) :: line_starts_from (i + 1) s) !! S (S j));
          unfold slen in *; simpl in *; lia.
Qed.

Lemma split_lines_count (s : string) : forall i,
  List.length (split_lines s) = List.length (i :: line_starts_from i s).
Proof.
  induction s as [|c s IH]; intros i; [reflexivity|].
  cbn [split_lines line_starts_from].
  destruct (Ascii.eqb c newline); simpl; [by rewrite (IH (i + 1))|].
  destruct (split_lines_cons s) as (l0 & ls & Hsplit).
  specialize (IH (i + 1)). rewrite Hsplit in IH |- *. exact IH.
Qed.

Lemma get_line_of_split (sf : SourceFile) (k : nat) (l : string) :
  line_starts sf = _compute_line_starts (content sf) ->
  split_lines (content sf) !! k = Some l ->
  get_line sf (Z.of_nat k + 1) = Ok l.
Proof.
  intros Hls Hk. unfold get_line, _compute_line_starts in *.
  pose proof (split_lines_count (content sf) 0) as Hcount.
  pose proof (lookup_lt_Some _ _ _ Hk) as Hlt.
  destruct (split_lines_starts (content sf) 0 k l Hk) as (a & q & t & Ha & Hs & Haq & He).
  rewrite <- Hls in *. unfold llen.
  destruct (Z.ltb_spec (Z.of_nat k + 1) 1) as [?|_]; [lia|].
  destruct (Z.ltb_spec (Z.of_nat (List.length (line_starts sf))) (Z.of_nat k + 1)) as [?|_];
    [lia|]. simpl.
  unfold py_index.
  destruct (Z.ltb_spec (Z.of_nat k + 1 - 1) 0) as [?|_]; [lia|].
  replace (Z.to_nat (Z.of_nat k + 1 - 1)) with k by lia. rewrite Ha.
  assert (Hslice : forall e, e = a + slen l -> str_slice (content sf) a e = l).
  { intros e ->. unfold str_slice, slice_bound.
    assert (Hlen : slen (content sf) = slen q + slen l + slen t).
    { rewrite Hs. unfold slen. rewrite !string_length_app. lia. }
    assert (0 <= slen q /\ 0 <= slen l /\ 0 <= slen t) as (? & ? & ?) by (unfold slen; lia).
    destruct (Z.ltb_spec a 0); [lia|]. destruct (Z.ltb_spec (a + slen l) 0); [lia|].
    replace (Z.to_nat (Z.min a (slen (content sf)))) with (String.length q)
      by (unfold slen in *; lia).
    replace (Z.to_nat (Z.min (a + slen l) (slen (content sf)) - Z.min a (slen (content sf))))
      with (String.length l) by (unfold slen in *; lia).
    rewrite Hs at 1. apply substring_app. }
  destruct (Z.ltb_spec (Z.of_nat k + 1) (Z.of_nat (List.length (line_starts sf)))) as [Hin|Hlast].
  - destruct (Z.ltb_spec (Z.of_nat k + 1) 0) as [?|_]; [lia|].
    replace (Z.to_nat (Z.of_nat k + 1)) with (S k) by lia.
    destruct (line_starts sf !! S k) as [n|] eqn:Hn.
    + f_equal. apply Hslice. lia.
    + apply lookup_ge_None in Hn. lia.
  - destruct (line_starts sf !! S k) as [n|] eqn:Hn.
    + apply lookup_lt_Some in Hn. lia.
    + f_equal. apply Hslice. lia.
Qed.

(** X6.  [SourceFile.get_line] cuts the content at its newlines.  For a file of
    a source map there is a list of lines, as many as the file has line
    starts, such that [get_line k] returns the k-th of them for
    [1 <= k <= count] and raises ValueError for any other [k]; no line
    holds a newline, and the lines joined by newlines are the content. *)
Theorem get_line_lines abspath sm fid sf :
  reachable abspath sm ->
  get_file sm fid = Some sf ->
  exists lines : list string,
    llen lines = llen (line_starts sf) /\
    (forall (k : nat) l, lines !! k = Some l -> get_line sf (Z.of_nat k + 1) = Ok l) /\
    (forall n, n < 1 \/ llen lines < n -> get_line sf n = Err ValueError) /\
    Lapis.join (String newline "") lines = content sf /\
    Forall no_newline lines.
Proof.
  intros Hr Hget.
  pose proof (reachable_line_starts abspath sm Hr fid sf Hget) as Hls.
  exists (split_lines (content sf)).
  assert (Hcount : llen (split_lines (content sf)) = llen (line_starts sf)).
  { unfold llen. rewrite Hls. unfold _compute_line_starts.
    by rewrite (split_lines_count (content sf) 0). }
  split; [exact Hcount|]. split; [|split; [|split]].
  - intros k l Hk. by apply get_line_of_split.
  - intros n Hn. unfold get_line. rewrite <- Hcount.
    destruct (Z.ltb_spec n 1); [reflexivity|].
    destruct (Z.ltb_spec (llen (split_lines (content sf))) n); [reflexivity|lia].
  - apply join_split_lines.
  - apply split_lines_no_newline.
Qed.

Lemma get_line_lines_witness :
  let text := String "a" (String "b" (String newline "cd")) in
  let sm := snd (add_file (fun p => p) empty_SourceMap "a.lapis" text) in
  let sf := new_SourceFile 1 "a.lapis" text in
  get_line sf 2 = Ok "cd"%string /\
  exists lines : list string,
    llen lines = llen (line_starts sf) /\
    (forall (k : nat) l, lines !! k = Some l -> get_line sf (Z.of_nat k + 1) = Ok l) /\
    (forall n, n < 1 \/ llen lines < n -> get_line sf n = Err ValueError) /\
    Lapis.join (String newline "") lines = content sf /\
    Forall no_newline lines.
Proof.
  intros text sm sf. split; [vm_compute; reflexivity|].
  apply (get_line_lines (fun p => p) sm 1 sf).
  - apply reachable_add, reachable_empty.
  - vm_compute; reflexivity.
Defined.

End SpanFacts.

(** ** environment.py: definition, lookup and assignment *)

Section EnvironmentFacts.
Import Lapis.
Import Scopes.
Local Open Scope lapis_scope.

(** A definition in one environment changes no lookup of another name, in
    any environment. *)
Lemma env_get_define_other (h : heap) (env : loc) enclosing vals name x
    (k : nat) : forall (e : loc) (n' : string) (ext : bool),
  h !! env = Some (OEnvironment enclosing vals) ->
  n' <> name ->
  env_get k (<[env := OEnvironment enclosing (<[name := x]> vals)]> h) e n' ext
  = env_get k h e n' ext.
Proof.
  induction k as [|k IH]; intros e n' ext Henv Hne; [reflexivity|].
  cbn [env_get].
  destruct (decide (e = env)) as [->|Hee].
  - rewrite list_lookup_insert_eq by (eapply lookup_lt_Some; eauto).
    rewrite Henv, lookup_insert_ne by congruence.
    destruct (vals !! n'); [reflexivity|].
    destruct enclosing as [e'|]; [|reflexivity]. by apply IH.
  - rewrite list_lookup_insert_ne by congruence.
    destruct (h !! e) as [[]|]; try reflexivity.
    destruct (values !! n'); [reflexivity|].
    destruct enclosing0 as [e'|]; [|reflexivity]. by apply IH.
Qed.

(** X7.  After [Environment.define] of a name, [get] of that name in that
    environment returns the value defined, unless the variable is private
    and the access comes from an external file, which is an access
    violation; a lookup of any other name, in any environment, is what it
    was before. *)
Theorem define_then_get (env : loc) (name : string) (v : value) (a : AccessModifier)
    (st : state) enclosing vals :
  st_heap st !! env = Some (OEnvironment enclosing vals) ->
  exists st',
    define env name v a st = (Done tt, st') /\
    (forall ext,
       Environment_get env name ext st' =
       (if can_access a ext then Done v
        else Raise (from_simple AccessError ACCESS_VIOLATION
                      ("Cannot access private variable '" +:+ name
                       +:+ "' from external file")%string dummy_span), st')) /\
    (forall e n' ext, n' <> name ->
       fst (Environment_get e n' ext st') = fst (Environment_get e n' ext st)).
Proof.
  intros Henv. eexists. split; [by apply define_in_environment|].
  pose proof (lookup_lt_Some _ _ _ Henv) as Hlt.
  split.
  - intros ext. unfold Environment_get. cbn [st_heap env_get].
    rewrite list_lookup_insert_eq by exact Hlt. rewrite lookup_insert_eq. reflexivity.
  - intros e n' ext Hne. unfold Environment_get. cbn [st_heap fst].
    rewrite length_insert. by apply env_get_define_other.
Qed.

Lemma define_then_get_witness :
  exists st',
    define 0%nat "x" (VInt 1) PRIVATE Samples.one_scope = (Done tt, st') /\
    Environment_get 0%nat "x" false st' = (Done (VInt 1), st').
Proof.
  destruct (define_then_get 0%nat "x" (VInt 1) PRIVATE Samples.one_scope None ∅ eq_refl)
    as (st' & Hdefine & Hget & _).
  exists st'. split; [exact Hdefine|exact (Hget false)].
Defined.


Lemma env_assign_found (k : nat) : forall (h : heap) (env : loc) (name : string)
    (v : value) (ext : bool) (old : value),
  env_get k h env name ext = Done old ->
  exists m enc vals var,
    h !! m = Some (OEnvironment enc vals) /\
    vals !! name = Some var /\
    env_assign k h env name v ext
    = Done (<[m := OEnvironment enc (<[name := mkEnvVariable v (var_access var)]> vals)]> h) /\
    env_get k (<[m := OEnvironment enc (<[name := mkEnvVariable v (var_access var)]> vals)]> h)
            env name ext = Done v.
Proof.
  induction k as [|k IH]; intros h env name v ext old Hget; [discriminate|].
  cbn [env_get env_assign] in *.
  destruct (h !! env) as [[| |enclosing values| | | | | | |]|] eqn:Henv; try discriminate.
  destruct (values !! name) as [var|] eqn:Hvar.
  - destruct (can_access (var_access var) ext) eqn:Hacc; [|discriminate].
    exists env, enclosing, values, var. split; [done|]. split; [done|]. split; [done|].
    rewrite list_lookup_insert_eq by (eapply lookup_lt_Some; eauto).
    rewrite lookup_insert_eq. cbn [var_access var_value]. by rewrite Hacc.
  - destruct enclosing as [e|]; [|discriminate].
    destruct (IH h e name v ext old Hget) as (m & enc & vals & var & Hm & Hname & Hassign & Hafter).
    exists m, enc, vals, var. split; [done|]. split; [done|]. split; [done|].
    assert (Hne : env <> m) by (intros ->; rewrite Henv in Hm; congruence).
    rewrite list_lookup_insert_ne by congruence. rewrite Henv, Hvar. exact Hafter.
Qed.

Lemma assign_get_frame (env : loc) (name : string) (v old : value) (ext : bool)
    (st : state) :
  fst (Environment_get env name ext st) = Done old ->
  exists st',
    Environment_assign env name v ext st = (Done tt, st') /\
    Environment_get env name ext st' = (Done v, st') /\
    (forall e n' ext', n' <> name ->
       fst (Environment_get e n' ext' st') = fst (Environment_get e n' ext' st)) /\
    stdout st' = stdout st /\ interp st' = interp st.
Proof.
  unfold Environment_get, Environment_assign. cbn [fst]. intros Hget.
  destruct (env_assign_found _ _ _ _ v _ _ Hget)
    as (m & enc & vals & var & Hm & Hname & Hassign & Hafter).
  rewrite Hassign. eexists. split; [reflexivity|]. cbn [st_heap stdout interp].
  rewrite length_insert, Hafter. split; [reflexivity|].
  split; [|by split]. intros e n' ext' Hne. by apply env_get_define_other.
Qed.

(** X8.  Where [Environment.get] finds a name, [assign] succeeds and [get]
    then returns the value assigned; the lookups of all other names, the
    output and the interpreter object are as before. *)
Theorem assign_then_get (env : loc) (name : string) (v old : value) (ext : bool)
    (st : state) :
  fst (Environment_get env name ext st) = Done old ->
  exists st',
    Environment_assign env name v ext st = (Done tt, st') /\
    Environment_get env name ext st' = (Done v, st') /\
    (forall e n' ext', n' <> name ->
       fst (Environment_get e n' ext' st') = fst (Environment_get e n' ext' st)) /\
    stdout st' = stdout st /\ interp st' = interp st.
Proof. apply assign_get_frame. Qed.

Lemma env_assign_undefined (k : nat) : forall (h : heap) (env : loc) (name : string)
    (v : value) (ext : bool),
  env_get k h env name ext = Raise (undefined_name name) ->
  env_assign k h env name v ext = Raise (undefined_name name).
Proof.
  induction k as [|k IH]; intros h env name v ext Hget; [discriminate|].
  cbn [env_get env_assign] in *.
  destruct (h !! env) as [[| |enclosing values| | | | | | |]|] eqn:Henv; try discriminate.
  destruct (values !! name) as [var|] eqn:Hvar.
  - destruct (can_access (var_access var) ext); discriminate.
  - destruct enclosing as [e|]; [by apply IH|reflexivity].
Qed.

Lemma assign_then_get_witness :
  let st := Examples.state_with_n in
  let env := environment (interp st) in
  fst (Environment_get env "n" false st) = Done (VInt 41) /\
  exists st',
    Environment_assign env "n" (VInt 7) false st = (Done tt, st') /\
    Environment_get env "n" false st' = (Done (VInt 7), st').
Proof.
  intros st env.
  assert (Hget : fst (Environment_get env "n" false st) = Done (VInt 41))
    by (vm_compute; reflexivity).
  split; [exact Hget|].
  destruct (assign_then_get env "n" (VInt 7) (VInt 41) false st Hget)
    as (st' & Hassign & Hafter & _).
  exists st'. split; [exact Hassign|exact Hafter].
Defined.

(** X9.  [Environment.assign] never creates a variable: where [get] raises
    "Undefined variable", [assign] raises the same error and changes
    nothing. *)
Theorem assign_undefined_name (env : loc) (name : string) (v : value) (ext : bool)
    (st : state) :
  fst (Environment_get env name ext st) = Raise (undefined_name name) ->
  Environment_assign env name v ext st = (Raise (undefined_name name), st).
Proof.
  unfold Environment_get, Environment_assign. cbn [fst]. intros Hget.
  by rewrite (env_assign_undefined _ _ _ _ v _ Hget).
Qed.

Lemma assign_undefined_name_witness :
  fst (Environment_get 0%nat "x" false Samples.one_scope) = Raise (undefined_name "x") /\
  Environment_assign 0%nat "x" (VInt 1) false Samples.one_scope
  = (Raise (undefined_name "x"), Samples.one_scope).
Proof.
  split; [reflexivity|].
  apply (assign_undefined_name 0%nat "x" (VInt 1) false Samples.one_scope). reflexivity.
Defined.

Lemma env_get_extend (k : nat) : forall (k' : nat) (h h' : heap) (e : loc)
    (name : string) (ext : bool),
  (k <= k')%nat ->
  (forall l ob, h !! l = Some ob -> h' !! l = Some ob) ->
  settled (env_get k h e name ext) ->
  env_get k' h' e name ext = env_get k h e name ext.
Proof.
  induction k as [|k IH]; intros k' h h' e name ext Hk Hext Hs; [done|].
  destruct k' as [|k']; [lia|]. cbn [env_get] in *.
  destruct (h !! e) as [ob|] eqn:He; [|done].
  rewrite (Hext _ _ He).
  destruct ob; try done.
  destruct (values !! name); [done|].
  destruct enclosing as [e'|]; [|done]. apply IH; [lia|done|done].
Qed.

Lemma env_get_enclosing (k : nat) (h : heap) (e outer : loc) vals (name : string)
    (ext : bool) :
  h !! e = Some (OEnvironment (Some outer) vals) ->
  vals !! name = None ->
  env_get (S k) h e name ext = env_get k h outer name ext.
Proof. intros He Hn. cbn [env_get]. by rewrite He, Hn. Qed.

(** X10.  A definition in a fresh environment shadows and does not overwrite:
    after [Environment(outer)] and [define] there, the name has the new
    value in the inner environment, every lookup from the outer
    environment is what it was, and every other name looked up from the
    inner environment is found as from the outer one. *)
Theorem new_scope_shadows (outer : loc) (name : string) (v : value) (a : AccessModifier)
    (st : state) :
  exists inner st1 st2,
    new_Environment (Some outer) st = (Done inner, st1) /\
    define inner name v a st1 = (Done tt, st2) /\
    fst (Environment_get inner name false st2) = Done v /\
    (forall n' ext, settled (fst (Environment_get outer n' ext st)) ->
       fst (Environment_get outer n' ext st2) = fst (Environment_get outer n' ext st) /\
       (n' <> name ->
        fst (Environment_get inner n' ext st2) = fst (Environment_get outer n' ext st))).
Proof.
  unfold new_Environment, alloc.
  set (h := st_heap st). set (inner := length h).
  set (h1 := h ++ [OEnvironment (Some outer) ∅]).
  assert (Hinner : h1 !! inner = Some (OEnvironment (Some outer) ∅)).
  { unfold h1, inner. rewrite lookup_app_r by lia. by rewrite Nat.sub_diag. }
  exists inner. eexists _, _. split; [reflexivity|].
  split; [by apply define_in_environment|].
  cbn [st_heap stdout interp]. fold h1.
  assert (Hlen1 : length h1 = S inner) by (unfold h1; rewrite length_app; simpl; lia).
  unfold Environment_get. cbn [st_heap fst]. rewrite length_insert, Hlen1.
  split.
  - cbn [env_get]. rewrite list_lookup_insert_eq by lia. rewrite lookup_insert_eq.
    by destruct a.
  - intros n' ext Hs. fold h inner in Hs |- *.
    assert (Hext : forall l ob, h !! l = Some ob ->
              <[inner := OEnvironment (Some outer)
                           (<[name := mkEnvVariable v a]> ∅)]> h1 !! l = Some ob).
    { intros l ob Hl. pose proof (lookup_lt_Some _ _ _ Hl) as Hlt.
      rewrite list_lookup_insert_ne by (unfold inner; lia).
      unfold h1. by rewrite lookup_app_l. }
    split.
    + apply env_get_extend; [lia|exact Hext|exact Hs].
    + intros Hne.
      rewrite (env_get_enclosing _ _ inner outer (<[name := mkEnvVariable v a]> ∅));
        [|by apply list_lookup_insert_eq; lia|by rewrite lookup_insert_ne].
      apply env_get_extend; [lia|exact Hext|exact Hs].
Qed.

End EnvironmentFacts.

(** ** interpreter.py: the scope of the interpreter is restored *)

Section ScopeFacts.
Import Lapis.
Import Scopes.
Local Open Scope lapis_scope.

Create HintDb keeps discriminated.

Section Generic.
Context {B : Type} (f : Interpreter -> B).

Lemma keeps_ret {A} (a : A) : keeps f (ret a).
Proof. by intros st. Qed.
Lemma keeps_raise {A} (e : exn) : keeps f (@raise A e).
Proof. by intros st. Qed.
Lemma keeps_out_of_fuel {A} : keeps f (@out_of_fuel A).
Proof. by intros st. Qed.
Lemma keeps_unmodelled {A} (w : string) : keeps f (@unmodelled A w).
Proof. by intros st. Qed.
Lemma keeps_get_state : keeps f get_state.
Proof. by intros st. Qed.
Lemma keeps_get_heap : keeps f get_heap.
Proof. by intros st. Qed.
Lemma keeps_get_interp : keeps f get_interp.
Proof. by intros st. Qed.
Lemma keeps_alloc (o : obj) : keeps f (alloc o).
Proof. by intros st. Qed.
Lemma keeps_store (l : loc) (o : obj) : keeps f (store l o).
Proof. by intros st. Qed.
Lemma keeps_print_line (s : string) : keeps f (print_line s).
Proof. by intros st. Qed.
Lemma keeps_lift_outcome {A} (r : outcome A) : keeps f (lift_outcome r).
Proof. by intros st. Qed.
Lemma keeps_lift_result {A} (r : result exn A) : keeps f (lift_result r).
Proof. by destruct r; intros st. Qed.
Lemma keeps_lift_fuel {A} (r : option A) : keeps f (lift_fuel r).
Proof. by destruct r; intros st. Qed.

Lemma keeps_bind {A C} (c : M A) (k : A -> M C) :
  keeps f c -> (forall a, keeps f (k a)) -> keeps f (bind c k).
Proof.
  intros Hc Hk st. specialize (Hc st). unfold bind.
  destruct (c st) as [[a| | |] st1]; simpl in *; try exact Hc.
  rewrite <- Hc. apply Hk.
Qed.

Lemma keeps_try_except {A} (c : M A) (handles : exn -> bool) (handler : exn -> M A) :
  keeps f c -> (forall e, keeps f (handler e)) -> keeps f (try_except c handles handler).
Proof.
  intros Hc Hk st. specialize (Hc st). unfold try_except.
  destruct (c st) as [[a|e| |] st1]; simpl in *; try exact Hc.
  destruct (handles e); [|exact Hc]. rewrite <- Hc. apply Hk.
Qed.

Lemma keeps_mapM {A C} (g : A -> M C) (l : list A) :
  (forall a, keeps f (g a)) -> keeps f (mapM g l).
Proof.
  intros Hg. induction l as [|x l IH]; simpl; [apply keeps_ret|].
  apply keeps_bind; [apply Hg|]. intros y.
  apply keeps_bind; [exact IH|]. intros ys. apply keeps_ret.
Qed.

Lemma keeps_forM_ {A} (g : A -> M unit) (l : list A) :
  (forall a, keeps f (g a)) -> keeps f (forM_ g l).
Proof.
  intros Hg. induction l as [|x l IH]; simpl; [apply keeps_ret|].
  apply keeps_bind; [apply Hg|]. intros _. exact IH.
Qed.

Lemma keeps_define (env : loc) (name : string) (v : value) (a : AccessModifier) :
  keeps f (define env name v a).
Proof.
  unfold define. apply keeps_bind; [apply keeps_get_heap|]. intros h.
  destruct (h !! env) as [[]|]; try apply keeps_unmodelled. apply keeps_store.
Qed.

Lemma keeps_Environment_get (env : loc) (name : string) (ext : bool) :
  keeps f (Environment_get env name ext).
Proof. by intros st. Qed.

Lemma keeps_Environment_assign (env : loc) (name : string) (v : value) (ext : bool) :
  keeps f (Environment_assign env name v ext).
Proof. intros st. unfold Environment_assign. by destruct (env_assign _ _ _ _ _ _). Qed.

Lemma keeps_new_Environment (enclosing : option loc) : keeps f (new_Environment enclosing).
Proof. apply keeps_alloc. Qed.

End Generic.


#[local] Hint Resolve keeps_ret keeps_raise keeps_out_of_fuel keeps_unmodelled
  keeps_get_state keeps_get_heap keeps_get_interp keeps_alloc keeps_store keeps_print_line
  keeps_lift_outcome keeps_lift_result keeps_lift_fuel keeps_bind keeps_try_except
  keeps_mapM keeps_forM_ keeps_define keeps_Environment_get keeps_Environment_assign
  keeps_new_Environment : keeps.
#[local] Hint Extern 1 (keeps _ (match ?x with _ => _ end)) => destruct x : keeps.
#[local] Hint Extern 1 (keeps _ (if ?b then _ else _)) => destruct b : keeps.
#[local] Hint Extern 1 (keeps _ (let _ := _ in _)) => cbv zeta : keeps.

Lemma keeps_scope_globals {A} (c : M A) : keeps scope c -> keeps globals c.
Proof. intros Hc st. specialize (Hc st). unfold scope in Hc. congruence. Qed.

Lemma keeps_in_of_keeps {A} (i : Interpreter) (c : M A) : keeps scope c -> keeps_in i c.
Proof. intros Hc st _. apply Hc. Qed.

Lemma keeps_in_bind {A C} (i : Interpreter) (c : M A) (k : A -> M C) :
  keeps_in i c -> (forall a, keeps_in i (k a)) -> keeps_in i (bind c k).
Proof.
  intros Hc Hk st Hst. specialize (Hc st Hst). unfold bind.
  destruct (c st) as [[a| | |] st1]; simpl in *; try exact Hc.
  rewrite <- Hc. apply Hk. congruence.
Qed.

Lemma keeps_in_get_interp {A} (k : Interpreter -> M A) :
  (forall i, keeps_in i (k i)) -> keeps scope (bind get_interp k).
Proof. intros Hk st. unfold bind, get_interp. by apply Hk. Qed.

Lemma keeps_in_restore_environment {A} (i : Interpreter) (c : M A) :
  keeps globals c -> keeps_in i (try_finally c (with_environment (environment i))).
Proof.
  intros Hc st Hst. specialize (Hc st). unfold try_finally.
  destruct (c st) as [r st1]. unfold scope in *. simpl in *. congruence.
Qed.

Lemma keeps_in_restore_interp {A} (i : Interpreter) (c : M A) :
  keeps_in i (try_finally c (fun st => mkState (st_heap st) (stdout st) i)).
Proof.
  intros st Hst. unfold try_finally. destruct (c st) as [r st1]. simpl. congruence.
Qed.

Lemma keeps_in_set_interp (i : Interpreter) (files : list string) :
  keeps_in i (set_interp (mkInterpreter (globals i) (environment i) files)).
Proof. intros st Hst. simpl. unfold scope in *. simpl. congruence. Qed.

Lemma keeps_globals_set_environment (env : loc) : keeps globals (set_environment env).
Proof. by intros st. Qed.

#[local] Hint Resolve keeps_globals_set_environment keeps_scope_globals : keeps.

Section MethodsKeep.
Variable H : Host.
Variable fuel : nat.
Variable evaluate : expr -> M value.
Variable execute : stmt -> M unit.
Variable call : value -> list value -> M value.
Hypothesis Hev : forall e, keeps scope (evaluate e).
Hypothesis Hex : forall s, keeps scope (execute s).
Hypothesis Hcall : forall c a, keeps scope (call c a).

Lemma keeps_execute_block (statements : list stmt) (env : loc) :
  keeps scope (execute_block execute statements env).
Proof.
  unfold execute_block. apply keeps_in_get_interp. intros i.
  apply keeps_in_restore_environment. auto 10 with keeps.
Qed.


Ltac keeps_in_steps :=
  repeat first
    [ apply keeps_in_restore_environment
    | apply keeps_in_restore_interp
    | apply keeps_in_set_interp
    | apply keeps_in_bind; [|intros]
    | apply keeps_in_of_keeps ].

Ltac keeps_unfold m := unfold m; auto 60 with keeps.

Lemma keeps_execute_var_statement name initializer access_modifier :
  keeps scope (execute_var_statement evaluate name initializer access_modifier).
Proof. keeps_unfold execute_var_statement. Qed.

Lemma keeps_execute_block_statement statements :
  keeps scope (execute_block_statement execute statements).
Proof. unfold execute_block_statement. auto 60 using keeps_execute_block with keeps. Qed.

Lemma keeps_new_LapisFunction d closure is_initializer :
  keeps scope (new_LapisFunction d closure is_initializer).
Proof. keeps_unfold new_LapisFunction. Qed.
#[local] Hint Resolve keeps_execute_block keeps_new_LapisFunction : keeps.

Lemma keeps_execute_function_statement d :
  keeps scope (execute_function_statement d).
Proof. keeps_unfold execute_function_statement. Qed.

Lemma keeps_build_methods env methods : forall acc,
  keeps scope (build_methods env methods acc).
Proof. induction methods as [|m rest IH]; intros acc; simpl; auto 60 with keeps. Qed.
#[local] Hint Resolve keeps_build_methods : keeps.

Lemma keeps_execute_class_statement name methods constructor access_modifier :
  keeps scope (execute_class_statement name methods constructor access_modifier).
Proof. keeps_unfold execute_class_statement. Qed.

Lemma keeps_run_elif_branches branches else_branch :
  keeps scope (run_elif_branches evaluate execute branches else_branch).
Proof. induction branches as [|[c b] rest IH]; simpl; auto 60 with keeps. Qed.
#[local] Hint Resolve keeps_run_elif_branches : keeps.

Lemma keeps_execute_if_statement condition then_branch else_branch elif_branches :
  keeps scope (execute_if_statement evaluate execute condition then_branch else_branch
                 elif_branches).
Proof. keeps_unfold execute_if_statement. Qed.

Lemma keeps_loop_body {B} (g : Interpreter -> B) (body : M unit) :
  keeps g body -> keeps g (loop_body body).
Proof. intros Hb. keeps_unfold loop_body. Qed.
#[local] Hint Resolve keeps_loop_body : keeps.

Lemma keeps_execute_while_statement condition body :
  keeps scope (execute_while_statement evaluate execute condition body).
Proof. keeps_unfold execute_while_statement. Qed.

Lemma keeps_for_loop k variable iterable body : forall i,
  keeps scope (for_loop execute k variable iterable i body).
Proof.
  induction k as [|k IH]; intros i; cbn [for_loop]; [auto with keeps|].
  apply keeps_bind; [auto with keeps|]. intros h.
  destruct (h !! iterable) as [[]|]; auto with keeps.
  destruct (items !! i); [|auto with keeps].
  apply keeps_in_get_interp. intros it. keeps_in_steps; auto 60 with keeps.
Qed.
#[local] Hint Resolve keeps_for_loop : keeps.

Lemma keeps_execute_for_statement variable iterable body :
  keeps scope (execute_for_statement fuel evaluate execute variable iterable body).
Proof. keeps_unfold execute_for_statement. Qed.

Lemma keeps_execute_return_statement value :
  keeps scope (execute_return_statement evaluate value).
Proof. keeps_unfold execute_return_statement. Qed.

Lemma keeps_run_catch_clause clause e :
  keeps scope (run_catch_clause execute clause e).
Proof.
  unfold run_catch_clause. destruct clause as [[name|] body]; [|auto with keeps].
  destruct (String.eqb name ""); [auto with keeps|].
  apply keeps_in_get_interp. intros it. keeps_in_steps; auto 60 with keeps.
Qed.

Lemma keeps_run_finally finally_body : keeps scope (run_finally execute finally_body).
Proof. keeps_unfold run_finally. Qed.
#[local] Hint Resolve keeps_run_catch_clause keeps_run_finally : keeps.

Lemma keeps_execute_try_statement try_body catch_clauses finally_body :
  keeps scope (execute_try_statement execute try_body catch_clauses finally_body).
Proof.
  intros st. unfold execute_try_statement.
  pose proof (keeps_forM_ scope execute try_body Hex st) as Hbody.
  destruct (forM_ execute try_body st) as [[[]|e| |] st1]; simpl in Hbody; try exact Hbody.
  - rewrite <- Hbody. apply keeps_run_finally.
  - destruct (is_control_flow e); [exact Hbody|]. rewrite <- Hbody.
    assert (Hk : keeps scope
              (exception_handled <-
                 match catch_clauses with
                 | [] => ret false
                 | clause :: _ => run_catch_clause execute clause e ;;; ret true
                 end ;;
               run_finally execute finally_body ;;;
               if exception_handled then ret tt else raise e)) by auto 60 with keeps.
    apply Hk.
Qed.

Lemma keeps_match_case_values values switch_value :
  keeps scope (match_case_values fuel evaluate values switch_value).
Proof. induction values as [|v rest IH]; simpl; auto 60 with keeps. Qed.
#[local] Hint Resolve keeps_match_case_values : keeps.

Lemma keeps_find_case cases switch_value : forall default_case,
  keeps scope (find_case fuel evaluate cases switch_value default_case).
Proof.
  induction cases as [|[[values body] is_default] rest IH]; intros d; simpl;
    auto 60 with keeps.
Qed.
#[local] Hint Resolve keeps_find_case : keeps.

Lemma keeps_execute_switch_statement expression cases :
  keeps scope (execute_switch_statement fuel evaluate execute expression cases).
Proof. keeps_unfold execute_switch_statement. Qed.

Lemma keeps_on_numbers operator safe span left_expr right_expr left right k :
  (forall a b, keeps scope (k a b)) ->
  keeps scope (on_numbers operator safe span left_expr right_expr left right k).
Proof. intros Hk. keeps_unfold on_numbers. Qed.
#[local] Hint Resolve keeps_on_numbers : keeps.

Lemma keeps_evaluate_binary_expression left_expr operator right_expr span :
  keeps scope (evaluate_binary_expression H fuel evaluate left_expr operator right_expr span).
Proof. keeps_unfold evaluate_binary_expression. Qed.

Lemma keeps_evaluate_unary_expression operator operand :
  keeps scope (evaluate_unary_expression evaluate operator operand).
Proof. keeps_unfold evaluate_unary_expression. Qed.

Lemma keeps_evaluate_call_expression callee arguments :
  keeps scope (evaluate_call_expression evaluate call callee arguments).
Proof. keeps_unfold evaluate_call_expression. Qed.

Lemma keeps_LapisInstance_get instance klass fields name :
  keeps scope (LapisInstance_get instance klass fields name).
Proof. keeps_unfold LapisInstance_get. Qed.

Lemma keeps_builtin_method b known owner name :
  keeps scope (builtin_method b known owner name).
Proof. keeps_unfold builtin_method. Qed.
#[local] Hint Resolve keeps_LapisInstance_get keeps_builtin_method : keeps.

Lemma keeps_evaluate_get_expression object name :
  keeps scope (evaluate_get_expression evaluate object name).
Proof. keeps_unfold evaluate_get_expression. Qed.

Lemma keeps_dict_store l entries key v : keeps scope (dict_store l entries key v).
Proof. keeps_unfold dict_store. Qed.
#[local] Hint Resolve keeps_dict_store : keeps.

Lemma keeps_evaluate_set_expression object name value_expr :
  keeps scope (evaluate_set_expression evaluate object name value_expr).
Proof. keeps_unfold evaluate_set_expression. Qed.

Lemma keeps_evaluate_index_expression object index_expr :
  keeps scope (evaluate_index_expression evaluate object index_expr).
Proof. keeps_unfold evaluate_index_expression. Qed.

Lemma keeps_evaluate_index_set_expression object index_expr value_expr :
  keeps scope (evaluate_index_set_expression evaluate object index_expr value_expr).
Proof. keeps_unfold evaluate_index_set_expression. Qed.

Lemma keeps_list_append l v : keeps scope (list_append l v).
Proof. keeps_unfold list_append. Qed.
#[local] Hint Resolve keeps_list_append : keeps.

Lemma keeps_evaluate_array_expression element_exprs :
  keeps scope (evaluate_array_expression evaluate element_exprs).
Proof. keeps_unfold evaluate_array_expression. Qed.

Lemma keeps_evaluate_dictionary_expression pairs :
  keeps scope (evaluate_dictionary_expression evaluate pairs).
Proof. keeps_unfold evaluate_dictionary_expression. Qed.

Lemma keeps_evaluate_assignment_expression name value_expr :
  keeps scope (evaluate_assignment_expression evaluate name value_expr).
Proof. keeps_unfold evaluate_assignment_expression. Qed.

Lemma keeps_evaluate_logical_expression left_expr operator right_expr :
  keeps scope (evaluate_logical_expression evaluate left_expr operator right_expr).
Proof. keeps_unfold evaluate_logical_expression. Qed.

Lemma keeps_evaluate_postfix_expression operand operator :
  keeps scope (evaluate_postfix_expression operand operator).
Proof. keeps_unfold evaluate_postfix_expression. Qed.

Lemma keeps__evaluate_template_expression expression_text :
  keeps scope (_evaluate_template_expression H evaluate expression_text).
Proof. keeps_unfold _evaluate_template_expression. Qed.
#[local] Hint Resolve keeps__evaluate_template_expression : keeps.

Lemma keeps_template_parts parts span : forall result,
  keeps scope (template_parts H fuel evaluate parts span result).
Proof. induction parts as [|[text|var] rest IH]; intros r; simpl; auto 60 with keeps. Qed.
#[local] Hint Resolve keeps_template_parts : keeps.

Lemma keeps_evaluate_template_literal_expression parts span :
  keeps scope (evaluate_template_literal_expression H fuel evaluate parts span).
Proof. keeps_unfold evaluate_template_literal_expression. Qed.

Lemma keeps_bind_params env params arguments : forall i,
  keeps scope (bind_params env params arguments i).
Proof. induction params as [|p rest IH]; intros i; simpl; auto 60 with keeps. Qed.
#[local] Hint Resolve keeps_bind_params : keeps.

Lemma keeps_bind_arguments d closure arguments :
  keeps scope (bind_arguments d closure arguments).
Proof. keeps_unfold bind_arguments. Qed.
#[local] Hint Resolve keeps_bind_arguments : keeps.

Lemma keeps_LapisFunction_call d closure is_initializer arguments :
  keeps scope (LapisFunction_call execute d closure is_initializer arguments).
Proof. keeps_unfold LapisFunction_call. Qed.

Lemma keeps_BoundMethod_call instance method arguments :
  keeps scope (BoundMethod_call execute instance method arguments).
Proof. keeps_unfold BoundMethod_call. Qed.
#[local] Hint Resolve keeps_LapisFunction_call keeps_BoundMethod_call : keeps.

Lemma keeps_LapisClass_call klass methods arguments :
  keeps scope (LapisClass_call execute klass methods arguments).
Proof. keeps_unfold LapisClass_call. Qed.

Lemma keeps_builtin_call b arguments :
  keeps scope (builtin_call H fuel b arguments).
Proof.
  unfold builtin_call.
  repeat match goal with
         | |- keeps _ (match ?x with _ => _ end) => destruct x
         end; auto 60 with keeps.
Qed.
#[local] Hint Resolve keeps_LapisClass_call keeps_builtin_call : keeps.

Lemma keeps_call_method callee arguments :
  keeps scope (call_method H fuel execute callee arguments).
Proof. keeps_unfold call_method. Qed.


Lemma keeps_alloc_functions module names : forall acc,
  keeps scope (alloc_functions module names acc).
Proof. induction names as [|n rest IH]; intros acc; simpl; auto 60 with keeps. Qed.
#[local] Hint Resolve keeps_alloc_functions : keeps.

Lemma keeps_new_module module names : keeps scope (new_module module names).
Proof. keeps_unfold new_module. Qed.
#[local] Hint Resolve keeps_new_module : keeps.

Lemma keeps_define_built_ins globals : keeps scope (define_built_ins globals).
Proof. keeps_unfold define_built_ins. Qed.
#[local] Hint Resolve keeps_define_built_ins : keeps.

Lemma keeps_new_Interpreter : keeps scope new_Interpreter.
Proof. keeps_unfold new_Interpreter. Qed.

Lemma keeps_interpret program : keeps scope (interpret H execute program).
Proof. keeps_unfold interpret. Qed.
#[local] Hint Resolve keeps_new_Interpreter keeps_interpret : keeps.

Lemma keeps_import_file path file_path imports :
  keeps scope (import_file H execute path file_path imports).
Proof.
  unfold import_file. destruct (load_program H file_path); auto with keeps.
  apply keeps_in_get_interp. intros self. keeps_in_steps; auto 60 with keeps.
Qed.
#[local] Hint Resolve keeps_import_file : keeps.

Lemma keeps_execute_package_statement path imports :
  keeps scope (execute_package_statement H execute path imports).
Proof.
  unfold execute_package_statement. apply keeps_in_get_interp. intros i.
  destruct (is_member _ _); keeps_in_steps; auto 60 with keeps.
Qed.

Lemma keeps_visit_expression e :
  keeps scope (visit_expression H fuel evaluate call e).
Proof.
  destruct e; cbn [visit_expression];
    auto 60 using keeps_evaluate_binary_expression, keeps_evaluate_unary_expression,
      keeps_evaluate_call_expression, keeps_evaluate_get_expression,
      keeps_evaluate_set_expression, keeps_evaluate_index_expression,
      keeps_evaluate_index_set_expression, keeps_evaluate_array_expression,
      keeps_evaluate_dictionary_expression, keeps_evaluate_assignment_expression,
      keeps_evaluate_logical_expression, keeps_evaluate_postfix_expression,
      keeps_evaluate_template_literal_expression with keeps.
Qed.

Lemma keeps_visit_statement s :
  keeps scope (visit_statement H fuel evaluate execute s).
Proof.
  destruct s; cbn [visit_statement];
    auto 60 using keeps_execute_var_statement, keeps_execute_block_statement,
      keeps_execute_function_statement, keeps_execute_class_statement,
      keeps_execute_if_statement, keeps_execute_while_statement,
      keeps_execute_for_statement, keeps_execute_return_statement,
      keeps_execute_package_statement, keeps_execute_try_statement,
      keeps_execute_switch_statement with keeps.
Qed.

End MethodsKeep.

Lemma keeps_scope_fuel (H : Host) (fuel : nat) :
  (forall e, keeps scope (evaluate H fuel e)) /\
  (forall s, keeps scope (execute H fuel s)) /\
  (forall c a, keeps scope (call_value H fuel c a)).
Proof.
  induction fuel as [|n (IHev & IHex & IHcall)].
  - repeat split; intros; apply keeps_out_of_fuel.
  - split; [|split].
    + intros e. apply keeps_visit_expression; assumption.
    + intros s. apply keeps_visit_statement; assumption.
    + intros c a. apply keeps_call_method; assumption.
Qed.

(** X11.  The scope of the interpreter is restored: whatever an expression, a
    statement or a call does, and whether it returns, raises or runs out
    of fuel, the interpreter's current environment and its global
    environment are afterwards the ones they were before. *)
Theorem scope_restored (H : Host) (fuel : nat) :
  (forall e st, scope (interp (snd (evaluate H fuel e st))) = scope (interp st)) /\
  (forall s st, scope (interp (snd (execute H fuel s st))) = scope (interp st)) /\
  (forall callee arguments st,
     scope (interp (snd (call_value H fuel callee arguments st))) = scope (interp st)).
Proof. exact (keeps_scope_fuel H fuel). Qed.

End ScopeFacts.

(** ** interpreter.py: expressions, calls and runs *)

Section ExpressionFacts.
Import SourceMap.
Import Lapis.
Import Scopes.
Import Examples.
Local Open Scope lapis_scope.

Lemma py_mod_zero (a b : number) :
  num_eqb b (NInt 0) = true -> exists cls msg, py_mod a b = Err (PyException cls msg).
Proof.
  intros Hz. unfold py_mod.
  destruct b as [y|g].
  - rewrite num_eqb_int_zero in Hz. destruct a as [x|f].
    + rewrite Hz. by eexists _, _.
    + simpl. destruct (float_of_int y) as [fy|] eqn:Hy; [|by eexists _, _].
      apply Z.eqb_eq in Hz. subst y. vm_compute in Hy. injection Hy as <-. simpl.
      by eexists _, _.
  - rewrite num_eqb_float_zero in Hz.
    destruct a as [x|f]; simpl.
    + destruct (float_of_int x); [|by eexists _, _]. rewrite Hz. by eexists _, _.
    + rewrite Hz. by eexists _, _.
Qed.

(** X12.  Division and modulo guard their divisor differently: with a right
    operand equal to zero (the integer 0, or the float 0.0 or -0.0), [/]
    raises the Lapis error "division by zero" at the span of the
    expression, while [%] lets the exception of the host escape. *)
Theorem division_by_zero_guarded (H : Host) (fuel : nat) (l r : expr) (span : option Span)
    (st st1 st2 : state) (lv rv : value) (a b : number) :
  evaluate H fuel l st = (Done lv, st1) ->
  evaluate H fuel r st1 = (Done rv, st2) ->
  numeric_pair lv rv = Some (a, b) ->
  num_eqb b (NInt 0) = true ->
  evaluate H (S fuel) (BinaryExpression l "/" r span) st
  = (Raise (division_by_zero (default dummy_span span)), st2)
  /\
  exists cls msg,
    evaluate H (S fuel) (BinaryExpression l "%" r span) st
    = (Raise (PyException cls msg), st2).
Proof.
  intros Hl Hr Hpair Hz. cbn [evaluate visit_expression].
  unfold evaluate_binary_expression, bind. rewrite Hl, Hr. cbn [String.eqb Ascii.eqb Bool.eqb].
  unfold on_numbers. rewrite Hpair, Hz. split.
  - by destruct span.
  - destruct (py_mod_zero a b Hz) as (cls & msg & ->). by exists cls, msg.
Qed.

Lemma division_by_zero_guarded_witness :
  evaluate example_host 2 (BinaryExpression (int_lit 1) "/" (int_lit 0) None) initial_state
  = (Raise (division_by_zero dummy_span), initial_state)
  /\
  exists cls msg,
    evaluate example_host 2 (BinaryExpression (int_lit 1) "%" (int_lit 0) None) initial_state
    = (Raise (PyException cls msg), initial_state).
Proof.
  apply (division_by_zero_guarded example_host 1 (int_lit 1) (int_lit 0) None
           initial_state initial_state initial_state (VInt 1) (VInt 0) (NInt 1) (NInt 0));
    reflexivity.
Defined.


Lemma Environment_get_fst (env : loc) (name : string) (ext : bool) (st : state) :
  Environment_get env name ext st = (fst (Environment_get env name ext st), st).
Proof. reflexivity. Qed.

Lemma py_add_one (n : number) : exists v, py_add n (NInt 1) = Ok v.
Proof. destruct n; by eexists. Qed.

Lemma py_sub_one (n : number) : exists v, py_sub n (NInt 1) = Ok v.
Proof. destruct n; by eexists. Qed.

(** X13.  [x++] and [x--] on a numeric variable return the value the variable
    had and leave it one higher, respectively one lower; on an integer
    that is the next, respectively the previous, integer. *)
Theorem postfix_returns_old_value (H : Host) (fuel : nat) (name : string)
    (sp : option Span) (st : state) (v : value) (n : number) :
  fst (Environment_get (environment (interp st)) name false st) = Done v ->
  as_number v = Some n ->
  (exists v' st',
     py_add n (NInt 1) = Ok v' /\
     evaluate H (S fuel) (PostfixExpression (IdentifierExpression name sp) "++") st
     = (Done v, st') /\
     fst (Environment_get (environment (interp st')) name false st') = Done v' /\
     (forall z, v = VInt z -> v' = VInt (z + 1))) /\
  (exists v' st',
     py_sub n (NInt 1) = Ok v' /\
     evaluate H (S fuel) (PostfixExpression (IdentifierExpression name sp) "--") st
     = (Done v, st') /\
     fst (Environment_get (environment (interp st')) name false st') = Done v' /\
     (forall z, v = VInt z -> v' = VInt (z - 1))).
Proof.
  intros Hget Hnum. cbn [evaluate visit_expression].
  unfold evaluate_postfix_expression, bind, get_interp.
  rewrite Environment_get_fst, Hget, Hnum. cbn [String.eqb Ascii.eqb Bool.eqb].
  split.
  - destruct (py_add_one n) as [v' Hv]. rewrite Hv.
    destruct (assign_get_frame _ _ v' _ _ _ Hget) as (st' & Hassign & Hafter & _ & _ & Hinterp).
    exists v', st'. split; [reflexivity|]. cbn [lift_result ret]. rewrite Hassign.
    split; [reflexivity|]. split; [by rewrite Hinterp, Hafter|].
    intros z ->. injection Hnum as <-. by injection Hv as <-.
  - destruct (py_sub_one n) as [v' Hv]. rewrite Hv.
    destruct (assign_get_frame _ _ v' _ _ _ Hget) as (st' & Hassign & Hafter & _ & _ & Hinterp).
    exists v', st'. split; [reflexivity|]. cbn [lift_result ret]. rewrite Hassign.
    split; [reflexivity|]. split; [by rewrite Hinterp, Hafter|].
    intros z ->. injection Hnum as <-. by injection Hv as <-.
Qed.

Lemma postfix_returns_old_value_witness :
  let st := state_with_n in
  fst (Environment_get (environment (interp st)) "n" false st) = Done (VInt 41) /\
  exists st',
    evaluate example_host 1 (PostfixExpression (ident "n") "++") st = (Done (VInt 41), st') /\
    fst (Environment_get (environment (interp st')) "n" false st') = Done (VInt 42).
Proof.
  intros st.
  assert (Hget : fst (Environment_get (environment (interp st)) "n" false st)
                 = Done (VInt 41)) by (vm_compute; reflexivity).
  split; [exact Hget|].
  destruct (postfix_returns_old_value example_host 0 "n" None st (VInt 41) (NInt 41)
              Hget eq_refl) as [(v' & st' & _ & Hrun & Hafter & Hint) _].
  exists st'. split; [exact Hrun|]. by rewrite Hafter, (Hint 41 eq_refl).
Defined.


(** X14.  [a[i] = v] on an array: an integer index outside [0, len) raises (a
    negative index does not count from the end); inside, the array keeps
    its length, holds [v] at [i] and its other elements where they were,
    the expression has the value [v], and [a[i]] then evaluates to [v]. *)
Theorem index_assignment_in_bounds (ev : expr -> M value) (object index_expr value_expr : expr)
    (st st1 st2 st3 : state) (l : loc) (iv v : value) (items : list value) (i : Z) :
  ev object st = (Done (VRef l), st1) ->
  ev index_expr st1 = (Done iv, st2) ->
  ev value_expr st2 = (Done v, st3) ->
  st_heap st3 !! l = Some (OList items) ->
  index_int iv = Some i ->
  if (i <? 0) || (llen items <=? i) then
    exists e, evaluate_index_set_expression ev object index_expr value_expr st = (Raise e, st3)
  else
    exists st4 items',
      evaluate_index_set_expression ev object index_expr value_expr st = (Done v, st4) /\
      st_heap st4 !! l = Some (OList items') /\
      llen items' = llen items /\
      items' !! Z.to_nat i = Some v /\
      (forall j, j <> Z.to_nat i -> items' !! j = items !! j) /\
      (forall object' index', ev object' st4 = (Done (VRef l), st4) ->
         ev index' st4 = (Done iv, st4) ->
         evaluate_index_expression ev object' index' st4 = (Done v, st4)).
Proof.
  intros Hobj Hidx Hval Hl Hi.
  unfold evaluate_index_set_expression, bind, get_heap. rewrite Hobj, Hidx, Hval, Hl, Hi.
  destruct ((i <? 0) || (llen items <=? i)) eqn:Hrange; [by eexists|].
  apply orb_false_iff in Hrange as [H0%Z.ltb_ge Hlen%Z.leb_gt]. unfold llen in *.
  eexists _, (<[Z.to_nat i := v]> items). split; [reflexivity|]. cbn [st_heap].
  assert (Hlt : (l < length (st_heap st3))%nat) by (eapply lookup_lt_Some; eauto).
  split; [by apply list_lookup_insert_eq|].
  split; [by rewrite length_insert|].
  split; [apply list_lookup_insert_eq; lia|].
  split; [intros j Hj; by apply list_lookup_insert_ne|].
  intros object' index' Hobj' Hidx'.
  unfold evaluate_index_expression, bind, get_heap. rewrite Hobj', Hidx'. cbn [st_heap].
  rewrite list_lookup_insert_eq by exact Hlt. rewrite Hi. unfold llen.
  rewrite length_insert.
  destruct (Z.ltb_spec i 0); [lia|]. destruct (Z.leb_spec (Z.of_nat (length items)) i); [lia|].
  cbn [orb]. by rewrite list_lookup_insert_eq by lia.
Qed.

Lemma index_assignment_in_bounds_witness :
  let st := Samples.state_with_a in
  let ev := evaluate example_host 1 in
  st_heap st !! 19%nat = Some (OList [VInt 1; VInt 2; VInt 3]) /\
  (exists e, evaluate_index_set_expression ev (ident "a") (int_lit (-1)) (int_lit 9) st
             = (Raise e, st)) /\
  exists st4 items',
    evaluate_index_set_expression ev (ident "a") (int_lit 1) (int_lit 9) st
    = (Done (VInt 9), st4) /\
    st_heap st4 !! 19%nat = Some (OList items') /\
    items' !! 1%nat = Some (VInt 9).
Proof.
  intros st ev.
  assert (Ha : ev (ident "a") st = (Done (VRef 19), st)) by (vm_compute; reflexivity).
  assert (Hl : st_heap st !! 19%nat = Some (OList [VInt 1; VInt 2; VInt 3]))
    by (vm_compute; reflexivity).
  clearbody st.
  assert (Hlit : forall z, ev (int_lit z) st = (Done (VInt z), st)) by reflexivity.
  split; [exact Hl|]. split.
  - exact (index_assignment_in_bounds ev (ident "a") (int_lit (-1)) (int_lit 9)
             st st st st 19%nat (VInt (-1)) (VInt 9) _ (-1)
             Ha (Hlit (-1)) (Hlit 9) Hl eq_refl).
  - destruct (index_assignment_in_bounds ev (ident "a") (int_lit 1) (int_lit 9)
                st st st st 19%nat (VInt 1) (VInt 9) _ 1 Ha (Hlit 1) (Hlit 9) Hl eq_refl)
      as (st4 & items' & Hrun & Hl4 & _ & Hat & _).
    exists st4, items'. split; [exact Hrun|]. split; [exact Hl4|exact Hat].
Defined.


(** X15.  [o.f = v] on an instance stores [v] in the field [f] of the instance
    and has the value [v]; [o.f] afterwards evaluates to [v]. *)
Theorem field_assignment_then_get (ev : expr -> M value) (object value_expr : expr)
    (name : string) (st st1 st2 : state) (l : loc) (v : value) klass0 fields0 klass fields :
  ev object st = (Done (VRef l), st1) ->
  st_heap st1 !! l = Some (OLapisInstance klass0 fields0) ->
  ev value_expr st1 = (Done v, st2) ->
  st_heap st2 !! l = Some (OLapisInstance klass fields) ->
  exists st3,
    evaluate_set_expression ev object name value_expr st = (Done v, st3) /\
    st_heap st3 !! l = Some (OLapisInstance klass (<[name := v]> fields)) /\
    (forall object', ev object' st3 = (Done (VRef l), st3) ->
       evaluate_get_expression ev object' name st3 = (Done v, st3)).
Proof.
  intros Hobj Hl1 Hval Hl2.
  unfold evaluate_set_expression, bind, get_heap, store. rewrite Hobj, Hl1, Hval, Hl2.
  eexists. split; [reflexivity|]. cbn [st_heap].
  assert (Hlt : (l < length (st_heap st2))%nat) by (eapply lookup_lt_Some; eauto).
  split; [by apply list_lookup_insert_eq|].
  intros object' Hobj'. unfold evaluate_get_expression, bind, get_heap. rewrite Hobj'.
  cbn [st_heap]. rewrite list_lookup_insert_eq by exact Hlt.
  unfold LapisInstance_get. by rewrite lookup_insert_eq.
Qed.

Lemma field_assignment_then_get_witness :
  let st := Samples.state_with_p in
  let ev := evaluate example_host 1 in
  st_heap st !! 20%nat = Some (OLapisInstance 19%nat ∅) /\
  exists st3,
    evaluate_set_expression ev (ident "p") "f" (int_lit 5) st = (Done (VInt 5), st3) /\
    st_heap st3 !! 20%nat = Some (OLapisInstance 19%nat (<["f"%string := VInt 5]> ∅)).
Proof.
  intros st ev.
  assert (Hp : ev (ident "p") st = (Done (VRef 20), st)) by (vm_compute; reflexivity).
  assert (Hl : st_heap st !! 20%nat = Some (OLapisInstance 19%nat ∅))
    by (vm_compute; reflexivity).
  clearbody st.
  assert (Hlit : ev (int_lit 5) st = (Done (VInt 5), st)) by reflexivity.
  destruct (field_assignment_then_get ev (ident "p") (int_lit 5) "f" st st st 20%nat
              (VInt 5) _ _ _ _ Hp Hl Hlit Hl) as (st3 & Hrun & Hl3 & _).
  split; [exact Hl|].
  exists st3. split; [exact Hrun|exact Hl3].
Defined.

Lemma dict_get_set_same (d : list (value * value)) (k v : value) :
  key_eq k k = true -> dict_get (dict_set d k v) k = Some v.
Proof.
  unfold key_eq. intros Hk. induction d as [|[k0 old] d IH]; simpl.
  - by rewrite Hk.
  - destruct (py_is k0 k || flat_eq k0 k) eqn:Hk0; simpl; by rewrite Hk0.
Qed.

(** X16.  [d.k = v] on a dictionary stores [v] under the string key [k]:
    afterwards [d.k] and [d["k"]] both evaluate to [v], and [d.other] for
    a key that is absent evaluates to null instead of raising. *)
Theorem dictionary_dot_assignment (ev : expr -> M value) (object value_expr : expr)
    (name : string) (st st1 st2 : state) (l : loc) (v : value) d0 d :
  ev object st = (Done (VRef l), st1) ->
  st_heap st1 !! l = Some (ODict d0) ->
  ev value_expr st1 = (Done v, st2) ->
  st_heap st2 !! l = Some (ODict d) ->
  exists st3,
    evaluate_set_expression ev object name value_expr st = (Done v, st3) /\
    (forall object', ev object' st3 = (Done (VRef l), st3) ->
       evaluate_get_expression ev object' name st3 = (Done v, st3) /\
       (forall index', ev index' st3 = (Done (VStr name), st3) ->
          evaluate_index_expression ev object' index' st3 = (Done v, st3)) /\
       (forall other, dict_get (dict_set d (VStr name) v) (VStr other) = None ->
          evaluate_get_expression ev object' other st3 = (Done VNone, st3))).
Proof.
  intros Hobj Hl1 Hval Hl2.
  unfold evaluate_set_expression, dict_store, bind, get_heap, store.
  rewrite Hobj, Hl1, Hval, Hl2. cbn [st_heap is_list is_dict orb].
  eexists. split; [reflexivity|].
  assert (Hlt : (l < length (st_heap st2))%nat) by (eapply lookup_lt_Some; eauto).
  assert (Hsame : dict_get (dict_set d (VStr name) v) (VStr name) = Some v).
  { apply dict_get_set_same. unfold key_eq, flat_eq. simpl. by rewrite String.eqb_refl. }
  intros object' Hobj'. split; [|split].
  - unfold evaluate_get_expression, bind, get_heap. rewrite Hobj'. cbn [st_heap].
    rewrite list_lookup_insert_eq by exact Hlt. by rewrite Hsame.
  - intros index' Hidx'. unfold evaluate_index_expression, bind, get_heap.
    rewrite Hobj', Hidx'. cbn [st_heap is_list is_dict orb].
    rewrite list_lookup_insert_eq by exact Hlt. by rewrite Hsame.
  - intros other Hother. unfold evaluate_get_expression, bind, get_heap. rewrite Hobj'.
    cbn [st_heap]. rewrite list_lookup_insert_eq by exact Hlt. by rewrite Hother.
Qed.

Lemma dictionary_dot_assignment_witness :
  let st := Samples.state_with_d in
  let ev := evaluate example_host 1 in
  st_heap st !! 19%nat = Some (ODict []) /\
  exists st3,
    evaluate_set_expression ev (ident "d") "k" (int_lit 5) st = (Done (VInt 5), st3).
Proof.
  intros st ev.
  assert (Hd : ev (ident "d") st = (Done (VRef 19), st)) by (vm_compute; reflexivity).
  assert (Hl : st_heap st !! 19%nat = Some (ODict [])) by (vm_compute; reflexivity).
  clearbody st.
  assert (Hlit : ev (int_lit 5) st = (Done (VInt 5), st)) by reflexivity.
  destruct (dictionary_dot_assignment ev (ident "d") (int_lit 5) "k" st st st 19%nat
              (VInt 5) _ _ Hd Hl Hlit Hl) as (st3 & Hrun & _).
  split; [exact Hl|].
  exists st3. exact Hrun.
Defined.


Lemma forM__app {A} (f : A -> M unit) (l1 l2 : list A) (st : state) :
  forM_ f (l1 ++ l2) st =
  match forM_ f l1 st with
  | (Done _, st') => forM_ f l2 st'
  | r => r
  end.
Proof.
  revert st. induction l1 as [|x l1 IH]; intros st; simpl; [reflexivity|].
  unfold bind. destruct (f x st) as [[[]| | |] st1]; try reflexivity. apply IH.
Qed.

Lemma bind_arguments_environment (d : FunctionDecl) (closure : loc) (arguments : list value)
    (st st1 : state) (env : loc) :
  bind_arguments d closure arguments st = (Done env, st1) ->
  environment (interp st1) = environment (interp st).
Proof.
  intros Hb. pose proof (keeps_bind_arguments d closure arguments st) as Hk.
  rewrite Hb in Hk. unfold scope in Hk. simpl in Hk. congruence.
Qed.

Lemma execute_block_run (execute : stmt -> M unit) (statements : list stmt) (env : loc)
    (st : state) :
  execute_block execute statements env st =
  (fst (forM_ execute statements (with_environment env st)),
   with_environment (environment (interp st))
     (snd (forM_ execute statements (with_environment env st)))).
Proof.
  unfold execute_block, bind, get_interp, try_finally, set_environment.
  by destruct (forM_ execute statements (with_environment env st)).
Qed.

(** X17.  A call of a function that is not an initializer: when its body runs
    to the end the call returns null; when the body reaches
    [return e;] the call returns the value of [e] and the statements
    after it are not run.  Either way the environment of the caller is
    restored. *)
Theorem return_ends_call (H : Host) (fuel : nat) (f : loc) (d : FunctionDecl)
    (closure : loc) (access : AccessModifier) (arguments : list value)
    (st st1 : state) (env : loc) :
  st_heap st !! f = Some (OLapisFunction d closure access false) ->
  bind_arguments d closure arguments st = (Done env, st1) ->
  (forall st2,
     forM_ (execute H (S fuel)) (fd_body d) (with_environment env st1) = (Done tt, st2) ->
     call_value H (S (S fuel)) (VRef f) arguments st
     = (Done VNone, with_environment (environment (interp st)) st2)) /\
  (forall pre e post st2 st3 v,
     fd_body d = pre ++ ReturnStatement (Some e) :: post ->
     forM_ (execute H (S fuel)) pre (with_environment env st1) = (Done tt, st2) ->
     evaluate H fuel e st2 = (Done v, st3) ->
     call_value H (S (S fuel)) (VRef f) arguments st
     = (Done v, with_environment (environment (interp st)) st3)).
Proof.
  intros Hf Hbind. pose proof (bind_arguments_environment _ _ _ _ _ _ Hbind) as Hinterp.
  assert (Hcall : call_value H (S (S fuel)) (VRef f) arguments st
                  = LapisFunction_call (execute H (S fuel)) d closure false arguments st).
  { cbn [call_value]. unfold call_method, bind, get_heap. by rewrite Hf. }
  assert (Hrun : LapisFunction_call (execute H (S fuel)) d closure false arguments st =
            match forM_ (execute H (S fuel)) (fd_body d) (with_environment env st1) with
            | (Done _, st2) => (Done VNone, with_environment (environment (interp st)) st2)
            | (Raise (ReturnException v), st2) =>
                (Done v, with_environment (environment (interp st)) st2)
            | (Raise e, st2) => (Raise e, with_environment (environment (interp st)) st2)
            | (OutOfFuel, st2) => (OutOfFuel, with_environment (environment (interp st)) st2)
            | (Unmodelled w, st2) =>
                (Unmodelled w, with_environment (environment (interp st)) st2)
            end).
  { unfold LapisFunction_call, try_except.
    unfold bind at 1. rewrite Hbind. unfold bind at 1. unfold bind at 1.
    rewrite execute_block_run, Hinterp.
    destruct (forM_ (execute H (S fuel)) (fd_body d) (with_environment env st1))
      as [[[]|[]| |] st2]; reflexivity. }
  rewrite Hcall, Hrun. split.
  - intros st2 Hbody. by rewrite Hbody.
  - intros pre e post st2 st3 v Hd Hpre He. rewrite Hd, forM__app, Hpre.
    cbn [forM_]. unfold bind at 1.
    assert (Hret : execute H (S fuel) (ReturnStatement (Some e)) st2
                   = (Raise (ReturnException v), st3)).
    { cbn [execute visit_statement]. unfold execute_return_statement, bind. by rewrite He. }
    by rewrite Hret.
Qed.

Lemma return_ends_call_witness :
  let st := Samples.state_with_id in
  let d := mkFunctionDecl "id" ["a"%string] [ReturnStatement (Some (ident "a"))]
             PRIVATE None in
  st_heap st !! 19%nat = Some (OLapisFunction d 0%nat PRIVATE false) /\
  fst (call_value example_host 3 (VRef 19) [VInt 5] st) = Done (VInt 5).
Proof.
  intros st d.
  assert (Hf : st_heap st !! 19%nat = Some (OLapisFunction d 0%nat PRIVATE false))
    by (vm_compute; reflexivity).
  set (st1 := snd (bind_arguments d 0%nat [VInt 5] st)).
  assert (Hbind : bind_arguments d 0%nat [VInt 5] st = (Done 20%nat, st1))
    by (vm_compute; reflexivity).
  assert (Ha : evaluate example_host 1 (ident "a") (with_environment 20%nat st1)
               = (Done (VInt 5), with_environment 20%nat st1))
    by (vm_compute; reflexivity).
  clearbody st1. clearbody st.
  destruct (return_ends_call example_host 1 19%nat d 0%nat PRIVATE [VInt 5] st st1 20%nat
              Hf Hbind) as [_ Hreturn].
  split; [exact Hf|].
  by rewrite (Hreturn [] (ident "a") [] (with_environment 20%nat st1)
                (with_environment 20%nat st1) (VInt 5) eq_refl eq_refl Ha).
Defined.



End ExpressionFacts.

(** ** interpreter.py: the array methods *)

Section ArrayFacts.
Import SourceMap.
Import Spans.
Import Lapis.
Import Arrays.
Import Examples.
Local Open Scope lapis_scope.

Lemma store_list_lookup (l : loc) (items items' : list value) (st : state) :
  st_heap st !! l = Some (OList items) ->
  st_heap (snd (store l (OList items') st)) !! l = Some (OList items').
Proof.
  intros Hl. simpl. apply list_lookup_insert_eq. eapply lookup_lt_Some; eauto.
Qed.

Lemma push_loop (l : loc) (arguments : list value) : forall (items : list value) (st : state),
  st_heap st !! l = Some (OList items) ->
  exists st1,
    forM_ (list_append l) arguments st = (Done tt, st1) /\
    st_heap st1 !! l = Some (OList (items ++ arguments)) /\
    stdout st1 = stdout st /\ interp st1 = interp st /\
    (forall l' o, l' <> l -> st_heap st !! l' = Some o -> st_heap st1 !! l' = Some o).
Proof.
  induction arguments as [|x rest IH]; intros items st Hl.
  - exists st. rewrite app_nil_r. by repeat split.
  - cbn [forM_]. unfold bind at 1. unfold list_append at 1. unfold bind at 1.
    unfold get_heap at 1. rewrite Hl. cbn [store].
    set (st0 := mkState _ _ _).
    destruct (IH (items ++ [x]) st0) as (st1 & Hrun & Hl1 & Hout & Hint & Hother).
    { unfold st0. cbn [st_heap]. apply list_lookup_insert_eq. eapply lookup_lt_Some; eauto. }
    exists st1. rewrite Hrun. split; [reflexivity|].
    split; [by rewrite <- app_assoc in Hl1|]. split; [done|]. split; [done|].
    intros l' o Hne Hl'. apply Hother; [done|]. unfold st0. cbn [st_heap].
    by rewrite list_lookup_insert_ne.
Qed.

(** X19.  [push] appends its arguments in order and returns the new length;
    [pop] removes and returns the last element, and on an empty array
    returns null and changes nothing. *)
Theorem array_push_and_pop (H : Host) (fuel : nat) (l : loc) (items arguments : list value)
    (st : state) :
  st_heap st !! l = Some (OList items) ->
  (exists st1,
     builtin_call H fuel (ArrayMethod "push" l) arguments st
     = (Done (VInt (llen items + llen arguments)), st1) /\
     st_heap st1 !! l = Some (OList (items ++ arguments))) /\
  (match last items with
   | Some x =>
       exists st1,
         builtin_call H fuel (ArrayMethod "pop" l) [] st = (Done x, st1) /\
         st_heap st1 !! l = Some (OList (removelast items)) /\
         items = removelast items ++ [x]
   | None => builtin_call H fuel (ArrayMethod "pop" l) [] st = (Done VNone, st)
   end).
Proof.
  intros Hl. split.
  - destruct (push_loop l arguments items st Hl) as (st1 & Hrun & Hl1 & _).
    exists st1. split; [|exact Hl1].
    cbn [builtin_call]. unfold bind at 1. rewrite Hrun. unfold bind, get_heap. rewrite Hl1.
    unfold llen. rewrite length_app. by rewrite Nat2Z.inj_add.
  - destruct (last items) as [x|] eqn:Hlast;
      cbn [builtin_call]; unfold bind, get_heap; rewrite Hl, Hlast; [|reflexivity].
    eexists. split; [reflexivity|]. split; [by eapply store_list_lookup|].
    destruct items as [|y ys] using rev_ind; [discriminate|].
    rewrite last_snoc in Hlast. injection Hlast as ->. by rewrite removelast_last.
Qed.

Lemma array_push_and_pop_witness :
  let st := Samples.one_array in
  (exists st1,
     builtin_call example_host 1 (ArrayMethod "push" 0%nat) [VInt 4; VInt 5] st
     = (Done (VInt 5), st1) /\
     st_heap st1 !! 0%nat = Some (OList [VInt 1; VInt 2; VInt 3; VInt 4; VInt 5])) /\
  (exists st1,
     builtin_call example_host 1 (ArrayMethod "pop" 0%nat) [] st = (Done (VInt 3), st1) /\
     st_heap st1 !! 0%nat = Some (OList [VInt 1; VInt 2]) /\
     [VInt 1; VInt 2; VInt 3] = [VInt 1; VInt 2] ++ [VInt 3]).
Proof.
  exact (array_push_and_pop example_host 1 0%nat [VInt 1; VInt 2; VInt 3] [VInt 4; VInt 5]
           Samples.one_array eq_refl).
Defined.


Lemma with_array_lookup (l : loc) (items items' : list value) (st : state) :
  st_heap st !! l = Some (OList items) ->
  st_heap (with_array l items' st) !! l = Some (OList items').
Proof. intros Hl. simpl. apply list_lookup_insert_eq. eapply lookup_lt_Some; eauto. Qed.

Lemma with_array_twice (l : loc) (a b : list value) (st : state) :
  with_array l b (with_array l a st) = with_array l b st.
Proof. unfold with_array. simpl. by rewrite list_insert_insert_eq. Qed.

Lemma with_array_same (l : loc) (items : list value) (st : state) :
  st_heap st !! l = Some (OList items) -> with_array l items st = st.
Proof. intros Hl. destruct st. unfold with_array. simpl in *. by rewrite list_insert_id. Qed.

Lemma array_insert_run (l : loc) (items : list value) (i : Z) (x : value) (st : state) :
  st_heap st !! l = Some (OList items) ->
  array_insert l i x st = (Done tt, with_array l (list_insert_at items i x) st).
Proof. intros Hl. unfold array_insert, bind, get_heap. by rewrite Hl. Qed.

Lemma list_insert_at_middle (pre tail : list value) (x : value) :
  list_insert_at (pre ++ tail) (llen pre) x = pre ++ x :: tail.
Proof.
  unfold list_insert_at, slice_bound, llen. rewrite length_app.
  destruct (Z.ltb_spec (Z.of_nat (length pre)) 0); [lia|].
  replace (Z.to_nat (Z.min _ _)) with (length pre) by lia.
  by rewrite take_app_length, drop_app_length.
Qed.

Lemma unshift_loop_run (l : loc) (arguments : list value) :
  forall (pre tail : list value) (st : state),
  st_heap st !! l = Some (OList (pre ++ tail)) ->
  unshift_loop l arguments (llen pre) st
  = (Done tt, with_array l (pre ++ arguments ++ tail) st).
Proof.
  induction arguments as [|x rest IH]; intros pre tail st Hl.
  - simpl. by rewrite with_array_same.
  - cbn [unshift_loop]. unfold bind at 1. rewrite (array_insert_run _ _ _ _ _ Hl).
    rewrite list_insert_at_middle.
    replace (llen pre + 1) with (llen (pre ++ [x])) by (unfold llen; rewrite length_app; simpl; lia).
    rewrite (IH (pre ++ [x]) tail).
    + rewrite with_array_twice. by rewrite <- !app_assoc.
    + rewrite <- app_assoc. by eapply with_array_lookup.
Qed.

Lemma splice_insert_loop_run (l : loc) (start : Z) (inserted : list value) :
  forall (pre done_ tail : list value) (st : state),
  st_heap st !! l = Some (OList (pre ++ done_ ++ tail)) ->
  start = llen pre ->
  splice_insert_loop l start inserted (llen done_) st
  = (Done tt, with_array l (pre ++ (done_ ++ inserted) ++ tail) st).
Proof.
  induction inserted as [|x rest IH]; intros pre done_ tail st Hl Hstart.
  - simpl. rewrite app_nil_r. by rewrite with_array_same.
  - cbn [splice_insert_loop]. unfold bind at 1. rewrite (array_insert_run _ _ _ _ _ Hl).
    replace (start + llen done_) with (llen (pre ++ done_))
      by (unfold llen; rewrite length_app; unfold llen in Hstart; lia).
    rewrite app_assoc, list_insert_at_middle.
    replace (llen done_ + 1) with (llen (done_ ++ [x]))
      by (unfold llen; rewrite length_app; simpl; lia).
    rewrite (IH pre (done_ ++ [x]) tail).
    + rewrite with_array_twice. by rewrite <- !app_assoc.
    + rewrite <- !app_assoc. by eapply with_array_lookup.
    + done.
Qed.

Lemma list_pop_at_middle (pre rest : list value) (x : value) :
  list_pop_at (pre ++ x :: rest) (llen pre) = Some (x, pre ++ rest).
Proof.
  unfold list_pop_at, llen. cbv zeta.
  assert (Hlen : (length (pre ++ x :: rest) = length pre + S (length rest))%nat)
    by (rewrite length_app; reflexivity).
  assert (Hneg : (Z.of_nat (length pre) <? 0) = false) by (apply Z.ltb_ge; lia).
  rewrite Hneg, Hneg.
  assert (Hin : (Z.of_nat (length (pre ++ x :: rest)) <=? Z.of_nat (length pre)) = false)
    by (apply Z.leb_gt; lia).
  rewrite Hin. cbn [orb]. rewrite Nat2Z.id.
  rewrite lookup_app_r by lia. rewrite Nat.sub_diag. cbn [lookup list_lookup].
  by rewrite delete_middle.
Qed.

Lemma splice_delete_loop_run (l : loc) (start : Z) (count : nat) :
  forall (pre rest deleted : list value) (st : state),
  st_heap st !! l = Some (OList (pre ++ rest)) ->
  start = llen pre ->
  splice_delete_loop l start count deleted st
  = (Done (deleted ++ take count rest), with_array l (pre ++ drop count rest) st).
Proof.
  induction count as [|count IH]; intros pre rest deleted st Hl Hstart.
  - simpl. rewrite app_nil_r. by rewrite with_array_same.
  - cbn [splice_delete_loop]. unfold bind at 1. unfold get_heap at 1. rewrite Hl.
    destruct rest as [|x rest].
    + rewrite app_nil_r. destruct (Z.ltb_spec start (llen pre)); [lia|].
      rewrite (IH pre [] deleted st); [|exact Hl|done].
      by destruct count.
    + destruct (Z.ltb_spec start (llen (pre ++ x :: rest))) as [_|Hge];
        [|unfold llen in *; rewrite length_app in Hge; simpl in Hge; lia].
      subst start. rewrite list_pop_at_middle. unfold bind, store.
      fold (with_array l (pre ++ rest) st).
      rewrite (IH pre rest (deleted ++ [x])); [|by eapply with_array_lookup|done].
      rewrite with_array_twice. simpl. by rewrite <- app_assoc.
Qed.

(** X20.  [unshift] puts its arguments, in their order, in front of the
    elements and returns the new length; [shift] removes and returns the
    first element, and on an empty array returns null; [unshift(x)]
    followed by [shift()] returns [x] and restores the state. *)
Theorem array_unshift_and_shift (l : loc) (items arguments : list value) (st : state) :
  st_heap st !! l = Some (OList items) ->
  ArrayUnshiftMethod_call l arguments st
  = (Done (VInt (llen arguments + llen items)), with_array l (arguments ++ items) st) /\
  ArrayShiftMethod_call l [] st
  = match items with
    | [] => (Done VNone, st)
    | first :: rest => (Done first, with_array l rest st)
    end /\
  (forall x,
     (ArrayUnshiftMethod_call l [x] ;;; ArrayShiftMethod_call l []) st = (Done x, st)).
Proof.
  intros Hl.
  assert (Hun : forall args,
    ArrayUnshiftMethod_call l args st
    = (Done (VInt (llen args + llen items)), with_array l (args ++ items) st)).
  { intros args. unfold ArrayUnshiftMethod_call, bind.
    change 0 with (llen (@nil value)).
    rewrite (unshift_loop_run l args [] items st Hl). simpl.
    unfold array_length, bind, get_heap.
    rewrite (with_array_lookup _ _ _ _ Hl). unfold llen. rewrite length_app.
    by rewrite Nat2Z.inj_add. }
  split; [apply Hun|]. split.
  - unfold ArrayShiftMethod_call, bind, get_heap. rewrite Hl. by destruct items.
  - intros x. unfold bind at 1. rewrite Hun.
    unfold ArrayShiftMethod_call, bind, get_heap.
    rewrite (with_array_lookup _ _ _ _ Hl). simpl.
    unfold store, ret. rewrite list_insert_insert_eq.
    change (mkState _ _ _) with (with_array l items st). by rewrite with_array_same.
Qed.

Lemma array_unshift_and_shift_witness :
  let st := Samples.one_array in
  ArrayUnshiftMethod_call 0%nat [VInt 8; VInt 9] st
  = (Done (VInt 5), with_array 0%nat [VInt 8; VInt 9; VInt 1; VInt 2; VInt 3] st) /\
  ArrayShiftMethod_call 0%nat [] st = (Done (VInt 1), with_array 0%nat [VInt 2; VInt 3] st).
Proof.
  intros st.
  destruct (array_unshift_and_shift 0%nat [VInt 1; VInt 2; VInt 3] [VInt 8; VInt 9] st eq_refl)
    as (Hunshift & Hshift & _).
  split; [exact Hunshift|exact Hshift].
Defined.

(** X21.  [splice(start, count, items...)] in closed form: with [start]
    counted from the end when negative and clamped to the array, and
    [count] clamped to what follows [start], the call returns a fresh
    array of the [count] elements from [start] on, and leaves in the array
    the elements before [start], the inserted items, and the elements
    from [start + count] on. *)
Theorem array_splice (l : loc) (items : list value) (start_arg : value) (more : list value)
    (s count : Z) (st : state) :
  st_heap st !! l = Some (OList items) ->
  index_int start_arg = Some s ->
  let n := llen items in
  let start := if s <? 0 then Z.max 0 (n + s) else Z.min s n in
  splice_count n start more = Some count ->
  let deleted := take (Z.to_nat count) (drop (Z.to_nat start) items) in
  let kept := take (Z.to_nat start) items ++ drop 1 more
              ++ drop (Z.to_nat start + Z.to_nat count) items in
  0 <= start <= n /\ 0 <= count <= n - start /\
  ArraySpliceMethod_call l (start_arg :: more) st
  = (Done (VRef (length (st_heap st))),
     mkState (<[l := OList kept]> (st_heap st) ++ [OList deleted]) (stdout st) (interp st)).
Proof.
  intros Hl Hs n start Hcount deleted kept.
  assert (Hn : 0 <= n) by (unfold n, llen; lia).
  assert (Hstart : 0 <= start <= n) by (unfold start; destruct (Z.ltb_spec s 0); lia).
  assert (Hc : 0 <= count <= n - start).
  { unfold splice_count in Hcount. destruct more as [|count_arg more'].
    - injection Hcount as <-. lia.
    - destruct (index_int count_arg); [|discriminate]. injection Hcount as <-. lia. }
  split; [exact Hstart|]. split; [exact Hc|].
  unfold ArraySpliceMethod_call. rewrite Hs. unfold bind at 1. unfold get_heap at 1.
  rewrite Hl. fold n. unfold from_end. fold start.
  assert (Hdc : (match more with
                 | [] => ret (n - start)
                 | count_arg :: _ =>
                     match index_int count_arg with
                     | None => raise (LapisError_of_str RuntimeError
                                        "splice() delete count must be an integer")
                     | Some c => ret (Z.max 0 (Z.min c (n - start)))
                     end
                 end) st = (Done count, st)).
  { unfold splice_count in Hcount. destruct more as [|count_arg more'].
    - by injection Hcount as <-.
    - destruct (index_int count_arg); [|discriminate]. by injection Hcount as <-. }
  unfold bind at 1. rewrite Hdc.
  assert (Hsplit : items = take (Z.to_nat start) items ++ drop (Z.to_nat start) items)
    by (by rewrite take_drop).
  assert (Hpre : start = llen (take (Z.to_nat start) items)).
  { unfold llen. rewrite length_take. unfold n, llen in Hstart. lia. }
  unfold bind at 1.
  rewrite (splice_delete_loop_run l start (Z.to_nat count) (take (Z.to_nat start) items)
             (drop (Z.to_nat start) items) [] st); [|by rewrite <- Hsplit|exact Hpre].
  unfold bind at 1.
  change 0 with (llen (@nil value)).
  rewrite (splice_insert_loop_run l start (drop 2 (start_arg :: more))
             (take (Z.to_nat start) items) []
             (drop (Z.to_nat count) (drop (Z.to_nat start) items)));
    [|by eapply with_array_lookup|exact Hpre].
  rewrite with_array_twice. unfold bind, alloc, with_array. cbn [st_heap stdout interp].
  rewrite length_insert. rewrite drop_drop. reflexivity.
Qed.

Lemma array_splice_witness :
  let st := Samples.one_array in
  ArraySpliceMethod_call 0%nat [VInt (-2); VInt 1; VStr "x"; VStr "y"] st
  = (Done (VRef 1),
     mkState [OList [VInt 1; VStr "x"; VStr "y"; VInt 3]; OList [VInt 2]] [] (interp st)).
Proof.
  intros st.
  destruct (array_splice 0%nat [VInt 1; VInt 2; VInt 3] (VInt (-2))
              [VInt 1; VStr "x"; VStr "y"] (-2) 1 st eq_refl eq_refl eq_refl)
    as (_ & _ & Hrun).
  exact Hrun.
Defined.

(** X22.  [slice] never changes the array and returns a fresh one: a copy of
    the whole array without arguments, the elements from [start] on with
    one, and those from [start] up to [end] (clamped to the length) with
    two; a negative bound counts from the end. *)
Theorem array_slice_copy (l : loc) (items : list value) (st : state) :
  st_heap st !! l = Some (OList items) ->
  let fresh (xs : list value) :=
    (Done (VRef (length (st_heap st))),
     mkState (st_heap st ++ [OList xs]) (stdout st) (interp st)) in
  let n := llen items in
  let bound (i : Z) := if i <? 0 then Z.max 0 (n + i) else i in
  ArraySliceMethod_call l [] st = fresh items /\
  (forall s : Z,
     ArraySliceMethod_call l [VInt s] st = fresh (drop (Z.to_nat (bound s)) items)) /\
  (forall (s e : Z) (rest : list value),
     ArraySliceMethod_call l (VInt s :: VInt e :: rest) st
     = fresh (take (Z.to_nat (Z.min (bound e) n) - Z.to_nat (bound s))
                (drop (Z.to_nat (bound s)) items))).
Proof.
  intros Hl fresh n bound.
  assert (Hn : 0 <= n) by (unfold n, llen; lia).
  assert (Hslice : forall a b, 0 <= a -> 0 <= b <= n ->
            list_slice items a b = take (Z.to_nat b - Z.to_nat a) (drop (Z.to_nat a) items)).
  { intros a b Ha Hb. unfold list_slice, slice_bound. fold n.
    destruct (Z.ltb_spec a 0); [lia|]. destruct (Z.ltb_spec b 0); [lia|].
    destruct (Z.le_gt_cases a n) as [Han|Han].
    - do 2 f_equal; lia.
    - rewrite !drop_ge by (unfold n, llen in *; lia). by rewrite !take_nil. }
  assert (Hb : forall i, 0 <= bound i) by (intros i; unfold bound; destruct (Z.ltb_spec i 0); lia).
  unfold ArraySliceMethod_call, bind, get_heap, alloc, from_end. rewrite Hl. fold n.
  split; [|split].
  - cbn [ret]. rewrite Hslice by lia. unfold fresh.
    rewrite drop_0, take_ge by (unfold n, llen; lia). reflexivity.
  - intros s. cbn [index_int ret]. fold (bound s). rewrite Hslice by (specialize (Hb s); lia).
    unfold fresh. rewrite take_ge by (rewrite length_drop; unfold n, llen; lia). reflexivity.
  - intros s e rest. cbn [index_int ret]. fold (bound s). fold (bound e).
    rewrite Hslice by (pose proof (Hb s); pose proof (Hb e); lia). reflexivity.
Qed.

Lemma array_slice_copy_witness :
  let st := Samples.one_array in
  ArraySliceMethod_call 0%nat [] st
  = (Done (VRef 1), mkState [OList [VInt 1; VInt 2; VInt 3]; OList [VInt 1; VInt 2; VInt 3]]
                      [] (interp st)) /\
  ArraySliceMethod_call 0%nat [VInt (-2); VInt 7] st
  = (Done (VRef 1), mkState [OList [VInt 1; VInt 2; VInt 3]; OList [VInt 2; VInt 3]]
                      [] (interp st)).
Proof.
  intros st.
  destruct (array_slice_copy 0%nat [VInt 1; VInt 2; VInt 3] st eq_refl) as (Hcopy & _ & Htwo).
  split; [exact Hcopy|exact (Htwo (-2) 7 [])].
Defined.

Lemma includes_index_of (fuel : nat) (h : heap) (search_element : value) (items : list value) :
  forall i, 0 <= i ->
  includes_loop fuel h items search_element
  = option_map (fun r => negb (r =? -1)) (index_of_loop fuel h items i search_element).
Proof.
  induction items as [|x rest IH]; intros i Hi; [reflexivity|]. simpl.
  destruct (is_equal fuel h x search_element) as [[|]|]; [|by apply IH; lia|reflexivity].
  simpl. destruct (Z.eqb_spec i (-1)); [lia|reflexivity].
Qed.

Lemma index_of_loop_found (fuel : nat) (h : heap) (search_element : value)
    (items : list value) : forall i r,
  index_of_loop fuel h items i search_element = Some r ->
  r = -1 /\ Forall (fun x => is_equal fuel h x search_element = Some false) items \/
  exists (k : nat) x,
    r = i + Z.of_nat k /\ items !! k = Some x /\
    is_equal fuel h x search_element = Some true /\
    Forall (fun y => is_equal fuel h y search_element = Some false) (take k items).
Proof.
  induction items as [|x rest IH]; intros i r Hr; simpl in Hr.
  - injection Hr as <-. by left.
  - destruct (is_equal fuel h x search_element) as [[|]|] eqn:Hx; [| |discriminate].
    + injection Hr as <-. right. exists 0%nat, x. repeat split; [lia|done|constructor].
    + destruct (IH _ _ Hr) as [[-> Hall]|(k & y & -> & Hk & Hy & Hbefore)].
      * left. split; [done|by constructor].
      * right. exists (S k), y. repeat split; [lia|done|done|by constructor].
Qed.

(** X23.  [includes] agrees with [indexOf]: on the same arguments it returns
    true exactly when [indexOf] returns an index other than -1, and
    otherwise ends as [indexOf] does; neither changes the state; an index
    that [indexOf] returns, if not -1, is one of the array and of an
    element equal to the one searched. *)
Theorem array_index_of_includes (fuel : nat) (l : loc) (items arguments : list value)
    (st : state) :
  st_heap st !! l = Some (OList items) ->
  ArrayIncludesMethod_call fuel l arguments st
  = (match fst (ArrayIndexOfMethod_call fuel l arguments st) with
     | Done (VInt i) => Done (VBool (negb (i =? -1)))
     | r => r
     end, st) /\
  snd (ArrayIndexOfMethod_call fuel l arguments st) = st /\
  (forall v, fst (ArrayIndexOfMethod_call fuel l arguments st) = Done v ->
     exists i, v = VInt i /\
       (i = -1 \/
        0 <= i < llen items /\
        exists x, items !! Z.to_nat i = Some x /\
                  is_equal fuel (st_heap st) x (hd VNone arguments) = Some true)).
Proof.
  intros Hl. unfold ArrayIncludesMethod_call, ArrayIndexOfMethod_call.
  destruct arguments as [|search_element more]; [by repeat split|].
  unfold bind, get_heap. rewrite Hl. unfold from_index_of.
  assert (Hfrom : forall from_index, 0 <= from_index ->
    (match lift_fuel (includes_loop fuel (st_heap st)
                        (drop (Z.to_nat from_index) items) search_element) st with
     | (Done b, st') => ret (VBool b) st'
     | (Raise e, st') => (Raise e, st')
     | (OutOfFuel, st') => (OutOfFuel, st')
     | (Unmodelled w, st') => (Unmodelled w, st')
     end
     = (match fst (match lift_fuel (index_of_loop fuel (st_heap st)
                                      (drop (Z.to_nat from_index) items) from_index
                                      search_element) st with
                   | (Done i, st') => ret (VInt i) st'
                   | (Raise e, st') => (Raise e, st')
                   | (OutOfFuel, st') => (OutOfFuel, st')
                   | (Unmodelled w, st') => (Unmodelled w, st')
                   end) with
        | Done (VInt i) => Done (VBool (negb (i =? -1)))
        | r => r
        end, st)) /\
    snd (match lift_fuel (index_of_loop fuel (st_heap st)
                            (drop (Z.to_nat from_index) items) from_index
                            search_element) st with
         | (Done i, st') => ret (VInt i) st'
         | (Raise e, st') => (Raise e, st')
         | (OutOfFuel, st') => (OutOfFuel, st')
         | (Unmodelled w, st') => (Unmodelled w, st')
         end) = st /\
    (forall v, fst (match lift_fuel (index_of_loop fuel (st_heap st)
                            (drop (Z.to_nat from_index) items) from_index
                            search_element) st with
         | (Done i, st') => ret (VInt i) st'
         | (Raise e, st') => (Raise e, st')
         | (OutOfFuel, st') => (OutOfFuel, st')
         | (Unmodelled w, st') => (Unmodelled w, st')
         end) = Done v ->
     exists i, v = VInt i /\
       (i = -1 \/
        0 <= i < llen items /\
        exists x, items !! Z.to_nat i = Some x /\
                  is_equal fuel (st_heap st) x search_element = Some true))).
  { intros from_index Hfrom.
    rewrite (includes_index_of fuel (st_heap st) search_element _ from_index Hfrom).
    destruct (index_of_loop fuel (st_heap st) (drop (Z.to_nat from_index) items)
                from_index search_element) as [r|] eqn:Hloop; simpl; [|by repeat split].
    split; [done|]. split; [done|]. intros v [= <-]. exists r. split; [done|].
    destruct (index_of_loop_found _ _ _ _ _ _ Hloop) as [[-> _]|(k & x & -> & Hk & Hx & _)];
      [by left|right].
    rewrite lookup_drop in Hk. pose proof (lookup_lt_Some _ _ _ Hk) as Hlt.
    split; [unfold llen; lia|]. exists x.
    replace (Z.to_nat (from_index + Z.of_nat k)) with (Z.to_nat from_index + k)%nat by lia.
    done. }
  destruct more as [|from_arg more']; cbn [ret hd].
  - apply (Hfrom 0). lia.
  - destruct (index_int from_arg) as [f|]; [|by repeat split]. cbn [ret].
    apply Hfrom. unfold from_end. destruct (Z.ltb_spec f 0); lia.
Qed.

Lemma array_index_of_includes_witness :
  let st := Samples.one_array in
  ArrayIndexOfMethod_call 2 0%nat [VInt 3] st = (Done (VInt 2), st) /\
  ArrayIncludesMethod_call 2 0%nat [VInt 3] st = (Done (VBool true), st) /\
  ArrayIncludesMethod_call 2 0%nat [VInt 3; VInt (-3); VInt 0] st
  = (match fst (ArrayIndexOfMethod_call 2 0%nat [VInt 3; VInt (-3); VInt 0] st) with
     | Done (VInt i) => Done (VBool (negb (i =? -1)))
     | r => r
     end, st).
Proof.
  intros st. split; [reflexivity|]. split; [reflexivity|].
  destruct (array_index_of_includes 2 0%nat [VInt 1; VInt 2; VInt 3]
              [VInt 3; VInt (-3); VInt 0] st eq_refl) as (Hagree & _).
  exact Hagree.
Defined.

Lemma concat_loop_flat (h : heap) (arguments : list value) : forall result,
  concat_loop h result arguments = result ++ concat (map (concat_items h) arguments).
Proof.
  induction arguments as [|arg rest IH]; intros result; simpl; [by rewrite app_nil_r|].
  unfold concat_items at 1.
  destruct arg as [| | | | | |a]; try (rewrite IH; by rewrite <- app_assoc).
  destruct (h !! a) as [[]|]; rewrite IH; by rewrite <- app_assoc.
Qed.

(** X24.  [concat] leaves the array alone and returns a fresh array: the
    elements of the array followed, for each argument in order, by its
    elements when it is an array (one level only) and by the argument
    itself otherwise. *)
Theorem array_concat_flattens_once (l : loc) (items arguments : list value) (st : state) :
  st_heap st !! l = Some (OList items) ->
  ArrayConcatMethod_call l arguments st
  = (Done (VRef (length (st_heap st))),
     mkState (st_heap st
              ++ [OList (items ++ concat (map (concat_items (st_heap st)) arguments))])
             (stdout st) (interp st)) /\
  concat_items (st_heap st) (VRef l) = items /\
  (forall v, is_list (st_heap st) v = false -> concat_items (st_heap st) v = [v]).
Proof.
  intros Hl. unfold ArrayConcatMethod_call, bind, get_heap, alloc. rewrite Hl.
  rewrite concat_loop_flat. split; [reflexivity|]. split.
  - unfold concat_items. by rewrite Hl.
  - intros v Hv. unfold concat_items, is_list in *. destruct v; try reflexivity.
    destruct (st_heap st !! l0) as [[]|]; done.
Qed.

Lemma array_concat_flattens_once_witness :
  let st := Samples.two_arrays in
  ArrayConcatMethod_call 0%nat [VRef 1; VInt 4; VRef 0] st
  = (Done (VRef 2),
     mkState [OList [VInt 1; VInt 2]; OList [VInt 3];
              OList [VInt 1; VInt 2; VInt 3; VInt 4; VInt 1; VInt 2]] [] (interp st)).
Proof.
  intros st.
  destruct (array_concat_flattens_once 0%nat [VInt 1; VInt 2] [VRef 1; VInt 4; VRef 0] st
              eq_refl) as (Hrun & _).
  exact Hrun.
Defined.

End ArrayFacts.

(** ** lexer.py: the scanner *)

Section ScannerFacts.
Import SourceMap.
Import Lapis.
Import Lexer.
Import Scanner.

Lemma string_get_lt (s : string) : forall n c, String.get n s = Some c -> (n < String.length s)%nat.
Proof.
  induction s as [|x s IH]; intros [|n] c Hget; simpl in *; try discriminate; try lia.
  apply IH in Hget. lia.
Qed.

Lemma string_get_some (s : string) : forall n,
  (n < String.length s)%nat -> exists c, String.get n s = Some c.
Proof.
  induction s as [|x s IH]; intros n Hn; simpl in *; [lia|].
  destruct n as [|n]; [by eexists|]. apply IH. lia.
Qed.

Lemma moved_refl lx : moved lx lx.
Proof. unfold moved. repeat split; auto. Qed.

Lemma moved_trans lx1 lx2 lx3 : moved lx1 lx2 -> moved lx2 lx3 -> moved lx1 lx3.
Proof.
  unfold moved. intros (Hs1 & Hf1 & Hst1 & Ht1 & Hc1 & Hb1) (Hs2 & Hf2 & Hst2 & Ht2 & Hc2 & Hb2).
  rewrite Hs1 in *. split; [congruence|]. split; [congruence|]. split; [congruence|].
  split; [congruence|]. split; [lia|]. intros H. apply Hb2. apply Hb1 in H. lia.
Qed.

Lemma moved_advance lx : moved lx (snd (advance lx)).
Proof.
  unfold advance. destruct (String.get (current lx) (source lx)) as [c|] eqn:Hget;
    [|apply moved_refl].
  apply string_get_lt in Hget. unfold moved. simpl. repeat split; lia.
Qed.

Lemma moved_match_ c lx : moved lx (snd (match_ c lx)).
Proof.
  unfold match_. destruct (String.get (current lx) (source lx)) as [x|] eqn:Hget;
    [|apply moved_refl].
  destruct (Ascii.eqb x c); [|apply moved_refl].
  apply string_get_lt in Hget. unfold moved. simpl. repeat split; lia.
Qed.

Lemma moved_next_line lx : moved lx (next_line lx).
Proof. unfold moved. simpl. repeat split; auto. Qed.

Lemma moved_count_newline lx : moved lx (count_newline lx).
Proof. unfold count_newline. destruct (Ascii.eqb _ _); [apply moved_next_line|apply moved_refl]. Qed.

Lemma moved_advance_while p k : forall lx, moved lx (advance_while p k lx).
Proof.
  induction k as [|k IH]; intros lx; simpl; [apply moved_refl|].
  destruct (p (peek lx)); [|apply moved_refl].
  eapply moved_trans; [apply moved_advance|apply IH].
Qed.

Lemma moved_advance_pair lx c lx' : advance lx = (c, lx') -> moved lx lx'.
Proof. intros H. pose proof (moved_advance lx) as Hm. by rewrite H in Hm. Qed.

Lemma moved_placeholder_loop k : forall lx var_name,
  moved lx (fst (placeholder_loop k lx var_name)).
Proof.
  induction k as [|k IH]; intros lx var_name; simpl; [apply moved_refl|].
  destruct (negb _ && negb _); [|apply moved_refl].
  destruct (advance (count_newline lx)) as [c lx'] eqn:Hadv.
  eapply moved_trans; [apply moved_count_newline|].
  eapply moved_trans; [eapply moved_advance_pair; exact Hadv|apply IH].
Qed.

Lemma moved_template_loop k : forall lx parts text,
  match template_loop k lx parts text with
  | Ok (lx', _, _) => moved lx lx'
  | Err e => is_LexError e = true
  end.
Proof.
  induction k as [|k IH]; intros lx parts text; simpl; [apply moved_refl|].
  destruct (negb _ && negb _); [|apply moved_refl].
  destruct (Ascii.eqb (peek lx) backslash).
  - destruct (is_at_end (snd (advance lx))); [reflexivity|].
    destruct (advance (snd (advance lx))) as [escaped lx2] eqn:Hadv.
    specialize (IH lx2 parts (text +:+ template_escape escaped)%string).
    destruct (template_loop k lx2 _ _) as [[[lx' ?] ?]|e]; [|exact IH].
    eapply moved_trans; [apply moved_advance|].
    eapply moved_trans; [eapply moved_advance_pair; exact Hadv|exact IH].
  - destruct (Ascii.eqb (peek lx) open_brace).
    + pose proof (moved_placeholder_loop (String.length (source lx)) (snd (advance lx)) "")
        as Hp.
      destruct (placeholder_loop _ _ _) as [lx2 var_name]. simpl in Hp.
      destruct (is_at_end lx2); [reflexivity|].
      match goal with |- context [template_loop k ?a ?b ?c] =>
        specialize (IH a b c); destruct (template_loop k a b c) as [[[lx' ?] ?]|e] end;
        [|exact IH].
      eapply moved_trans; [apply moved_advance|].
      eapply moved_trans; [exact Hp|].
      eapply moved_trans; [apply moved_advance|exact IH].
    + destruct (advance (count_newline lx)) as [c lx1] eqn:Hadv.
      specialize (IH lx1 parts (text +:+ String c "")%string).
      destruct (template_loop k lx1 _ _) as [[[lx' ?] ?]|e]; [|exact IH].
      eapply moved_trans; [apply moved_count_newline|].
      eapply moved_trans; [eapply moved_advance_pair; exact Hadv|exact IH].
Qed.

Lemma moved_string_loop k quote_char : forall lx result,
  match string_loop k quote_char lx result with
  | Ok (lx', _) => moved lx lx'
  | Err e => is_LexError e = true
  end.
Proof.
  induction k as [|k IH]; intros lx result; simpl; [apply moved_refl|].
  destruct (negb _ && negb _); [|apply moved_refl].
  destruct (Ascii.eqb (peek lx) backslash).
  - destruct (is_at_end (snd (advance lx))); [reflexivity|].
    destruct (advance (snd (advance lx))) as [escaped lx2] eqn:Hadv.
    specialize (IH lx2 (result +:+ string_escape quote_char escaped)%string).
    destruct (string_loop k quote_char lx2 _) as [[lx' ?]|e]; [|exact IH].
    eapply moved_trans; [apply moved_advance|].
    eapply moved_trans; [eapply moved_advance_pair; exact Hadv|exact IH].
  - destruct (advance (count_newline lx)) as [c lx1] eqn:Hadv.
    specialize (IH lx1 (result +:+ String c "")%string).
    destruct (string_loop k quote_char lx1 _) as [[lx' ?]|e]; [|exact IH].
    eapply moved_trans; [apply moved_count_newline|].
    eapply moved_trans; [eapply moved_advance_pair; exact Hadv|exact IH].
Qed.

Lemma moved_comment_loop k : forall nesting_level lx,
  moved lx (fst (comment_loop k nesting_level lx)).
Proof.
  induction k as [|k IH]; intros nesting_level lx; simpl; [apply moved_refl|].
  destruct ((0 <? nesting_level) && negb _); [|apply moved_refl].
  destruct (_ && _).
  { eapply moved_trans; [apply moved_advance|].
    eapply moved_trans; [apply moved_advance|apply IH]. }
  destruct (_ && _).
  { eapply moved_trans; [apply moved_advance|].
    eapply moved_trans; [apply moved_advance|apply IH]. }
  destruct (Ascii.eqb (peek lx) newline).
  - eapply moved_trans; [apply moved_next_line|].
    eapply moved_trans; [apply moved_advance|apply IH].
  - eapply moved_trans; [apply moved_advance|apply IH].
Qed.

Lemma moved_line_comment_loop k : forall lx, moved lx (line_comment_loop k lx).
Proof.
  induction k as [|k IH]; intros lx; simpl; [apply moved_refl|].
  destruct (negb _ && negb _); [|apply moved_refl].
  eapply moved_trans; [apply moved_advance|apply IH].
Qed.

(** The position of [lx] after its first character was read and the
    lexer has moved on to [m]. *)
Lemma moved_scanned lx m :
  start lx = current lx ->
  (current lx < String.length (source lx))%nat ->
  moved (step lx) m ->
  scanned lx m.
Proof.
  intros Hstart Hin (Hs & Hf & Hst & Ht & Hc & Hb). simpl in *.
  unfold scanned. repeat split; try done; try lia. by left.
Qed.

Lemma moved_scanned_token lx m token_type lit :
  start lx = current lx ->
  (current lx < String.length (source lx))%nat ->
  moved (step lx) m ->
  scanned lx (add_token token_type lit m).
Proof.
  intros Hstart Hin (Hs & Hf & Hst & Ht & Hc & Hb). simpl in *.
  unfold scanned, add_token. simpl. repeat split; try done; try lia.
  right. eexists. split; [by rewrite Ht|]. simpl. split.
  - unfold create_span. by rewrite Hf, Hst, Hstart.
  - unfold lexeme_text. by rewrite Hs, Hst, Hstart.
Qed.

Lemma scanned_next_line lx m : scanned lx m -> scanned lx (next_line m).
Proof. unfold scanned. simpl. tauto. Qed.

Lemma scanned_identifier lx m :
  start lx = current lx ->
  (current lx < String.length (source lx))%nat ->
  moved (step lx) m ->
  scanned lx (identifier m).
Proof.
  intros Hstart Hin Hm. unfold identifier.
  match goal with |- context [advance_while ?p ?k m] =>
    pose proof (moved_trans _ _ _ Hm (moved_advance_while p k m)) as Hm' end.
  destruct (keyword _); by apply moved_scanned_token.
Qed.

Lemma scanned_number lx m :
  start lx = current lx ->
  (current lx < String.length (source lx))%nat ->
  moved (step lx) m ->
  scanned lx (number m).
Proof.
  intros Hstart Hin Hm. unfold number.
  pose proof (moved_trans _ _ _ Hm (moved_advance_while isdigit (String.length (source m)) m))
    as Hm1.
  apply moved_scanned_token; [done|done|].
  destruct (_ && _); [|exact Hm1].
  eapply moved_trans; [exact Hm1|].
  eapply moved_trans; [apply moved_advance|apply moved_advance_while].
Qed.

Lemma scanned_template_literal lx m :
  start lx = current lx ->
  (current lx < String.length (source lx))%nat ->
  moved (step lx) m ->
  match template_literal m with
  | Ok lx' => scanned lx lx'
  | Err e => is_LexError e = true
  end.
Proof.
  intros Hstart Hin Hm. unfold template_literal.
  pose proof (moved_template_loop (String.length (source m)) m [] "") as Hloop.
  destruct (template_loop _ _ _ _) as [[[lx1 parts] text]|e]; [|exact Hloop].
  destruct (is_at_end lx1); [reflexivity|].
  apply moved_scanned_token; [done|done|].
  eapply moved_trans; [exact Hm|]. eapply moved_trans; [exact Hloop|apply moved_advance].
Qed.

Lemma scanned_string_ lx m quote_char :
  start lx = current lx ->
  (current lx < String.length (source lx))%nat ->
  moved (step lx) m ->
  match string_ quote_char m with
  | Ok lx' => scanned lx lx'
  | Err e => is_LexError e = true
  end.
Proof.
  intros Hstart Hin Hm. unfold string_.
  pose proof (moved_string_loop (String.length (source m)) quote_char m "") as Hloop.
  destruct (string_loop _ _ _ _) as [[lx1 result]|e]; [|exact Hloop].
  destruct (is_at_end lx1); [reflexivity|].
  apply moved_scanned_token; [done|done|].
  eapply moved_trans; [exact Hm|]. eapply moved_trans; [exact Hloop|apply moved_advance].
Qed.

Lemma scanned_multi_line_comment lx m :
  start lx = current lx ->
  (current lx < String.length (source lx))%nat ->
  moved (step lx) m ->
  match multi_line_comment m with
  | Ok lx' => scanned lx lx'
  | Err e => is_LexError e = true
  end.
Proof.
  intros Hstart Hin Hm. unfold multi_line_comment.
  pose proof (moved_comment_loop (String.length (source m)) 1 m) as Hloop.
  destruct (comment_loop _ _ _) as [lx1 nesting_level]. simpl in Hloop.
  destruct (0 <? nesting_level); [reflexivity|].
  apply moved_scanned; [done|done|]. eapply moved_trans; [exact Hm|exact Hloop].
Qed.

Lemma scanned_one_or_two lx m expected two one :
  start lx = current lx ->
  (current lx < String.length (source lx))%nat ->
  moved (step lx) m ->
  scanned lx (one_or_two expected two one m).
Proof.
  intros Hstart Hin Hm. unfold one_or_two.
  pose proof (moved_match_ expected m) as Hmatch.
  destruct (match_ expected m) as [matched lx1]. simpl in Hmatch.
  apply moved_scanned_token; [done|done|]. eapply moved_trans; [exact Hm|exact Hmatch].
Qed.

Ltac scan_close :=
  first [ by apply moved_scanned_token
        | by apply scanned_one_or_two
        | by apply scanned_string_
        | by apply scanned_template_literal
        | by apply scanned_next_line, moved_scanned_token ].

Ltac scan_case c :=
  match goal with
  | |- context [if Ascii.eqb c ?x then _ else _] =>
      destruct (Ascii.eqb c x); [try scan_close|]
  end.

Lemma scan_token_scanned lx :
  start lx = current lx ->
  (current lx < String.length (source lx))%nat ->
  match scan_token lx with
  | Ok lx' => scanned lx lx'
  | Err e => is_LexError e = true
  end.
Proof.
  intros Hstart Hin. unfold scan_token, advance.
  destruct (string_get_some _ _ Hin) as [c ->].
  pose proof (moved_refl (step lx)) as Hm.
  repeat scan_case c.
  all: try (destruct (_ || _); [by apply moved_scanned|]).
  all: try scan_close.
  all: try (destruct (isdigit c); [by apply scanned_number|]).
  all: try (destruct (_ || _); [by apply scanned_identifier|reflexivity]).
  - pose proof (moved_match_ "/" (step lx)) as H1.
    destruct (match_ "/" (step lx)) as [comment lx1]. simpl in H1. destruct comment.
    + apply moved_scanned; [done|done|].
      eapply moved_trans; [exact H1|apply moved_line_comment_loop].
    + pose proof (moved_match_ "*" lx1) as H2.
      destruct (match_ "*" lx1) as [comment lx2]. simpl in H2.
      pose proof (moved_trans _ _ _ H1 H2) as H12. destruct comment.
      * by apply scanned_multi_line_comment.
      * by apply moved_scanned_token.
  - pose proof (moved_match_ "&" (step lx)) as H1.
    destruct (match_ "&" (step lx)) as [matched lx1]. simpl in H1.
    destruct matched; [by apply moved_scanned_token|reflexivity].
  - pose proof (moved_match_ "|" (step lx)) as H1.
    destruct (match_ "|" (step lx)) as [matched lx1]. simpl in H1.
    destruct matched; [by apply moved_scanned_token|reflexivity].
Qed.

Lemma tiles_weaken source fid toks : forall from to to',
  tiles source fid from toks to -> (to <= to')%nat -> tiles source fid from toks to'.
Proof.
  induction toks as [|t rest IH]; intros from to to' Ht Hle; simpl in *; [lia|].
  destruct Ht as (a & b & Hspan & Hfrom & Hab & Hlex & Hrest).
  exists a, b. repeat split; try done. by eapply IH.
Qed.

Lemma tiles_snoc source fid toks t (a b : nat) : forall from to,
  tiles source fid from toks to ->
  span t = Some (mkSpan fid (Z.of_nat a) (Z.of_nat b)) ->
  (to <= a)%nat -> (a < b)%nat ->
  lexeme t = String.substring a (b - a) source ->
  tiles source fid from (toks ++ [t]) b.
Proof.
  induction toks as [|t0 rest IH]; intros from to Ht Hspan Hto Hab Hlex; simpl in *.
  - exists a, b. repeat split; try done; lia.
  - destruct Ht as (a0 & b0 & Hspan0 & Hfrom & Hab0 & Hlex0 & Hrest).
    exists a0, b0. repeat split; try done. by eapply IH.
Qed.

Lemma tiles_scanned lx lx' :
  scanned lx lx' ->
  tiles (source lx) (lx_file_id lx) 0 (tokens lx) (current lx) ->
  tiles (source lx') (lx_file_id lx') 0 (tokens lx') (current lx').
Proof.
  intros (Hs & Hf & Hlt & Hle & Htok) Ht. rewrite Hs, Hf.
  destruct Htok as [->|(tok & -> & Hspan & Hlex)].
  - eapply tiles_weaken; [exact Ht|lia].
  - eapply tiles_snoc; [exact Ht|exact Hspan|lia|lia|exact Hlex].
Qed.

Lemma tokenize_loop_tiles (k : nat) : forall lx,
  (String.length (source lx) - current lx <= k)%nat ->
  (current lx <= String.length (source lx))%nat ->
  tiles (source lx) (lx_file_id lx) 0 (tokens lx) (current lx) ->
  match tokenize_loop k lx with
  | Ok lx' =>
      source lx' = source lx /\ lx_file_id lx' = lx_file_id lx /\
      current lx' = String.length (source lx) /\
      tiles (source lx) (lx_file_id lx) 0 (tokens lx') (String.length (source lx))
  | Err e => is_LexError e = true
  end.
Proof.
  induction k as [|k IH]; intros lx Hk Hle Ht.
  - simpl. assert (current lx = String.length (source lx)) as Heq by lia.
    split; [done|]. split; [done|]. split; [exact Heq|]. rewrite <- Heq. exact Ht.
  - cbn [tokenize_loop]. unfold is_at_end.
    destruct (Nat.leb_spec (String.length (source lx)) (current lx)) as [Hend|Hin].
    + assert (current lx = String.length (source lx)) as Heq by lia.
      split; [done|]. split; [done|]. split; [exact Heq|]. rewrite <- Heq. exact Ht.
    + pose proof (scan_token_scanned (mark_start lx) eq_refl Hin) as Hscan.
      destruct (scan_token (mark_start lx)) as [lx'|e]; [|exact Hscan].
      pose proof (tiles_scanned (mark_start lx) lx' Hscan Ht) as Ht'.
      destruct Hscan as (Hs & Hf & Hlt & Hle' & _). simpl in Hs, Hf, Hlt, Hle'.
      specialize (IH lx'). rewrite Hs, Hf in IH, Ht'.
      apply IH; [lia|lia|exact Ht'].
Qed.

(** X25.  [Lexer.tokenize] on any text ends at the end of the text or with an
    error of the lexer.  The tokens it has produced then tile the text:
    each spans a piece [a, b) of the text that is not empty, its lexeme is
    that piece, and the tokens come in the order of their spans, without
    overlap; [tokenize] returns them followed by the EOF token. *)
Theorem tokenize_tiles_source (text : string) (fid : Z) :
  match tokenize_loop (String.length text) (new_Lexer text fid) with
  | Ok lx =>
      is_at_end lx = true /\
      tokenize (new_Lexer text fid)
      = Ok (tokens lx ++ [mkToken EOF "" NoLiteral (lx_line lx) (lx_column lx) None]) /\
      tiles text fid 0 (tokens lx) (String.length text)
  | Err e => tokenize (new_Lexer text fid) = Err e /\ is_LexError e = true
  end.
Proof.
  pose proof (tokenize_loop_tiles (String.length text) (new_Lexer text fid)) as Hloop.
  unfold tokenize. simpl in *.
  destruct (tokenize_loop (String.length text) (new_Lexer text fid)) as [lx|e].
  - destruct Hloop as (Hs & Hf & Hc & Ht); [lia|lia|lia|].
    split; [|by split]. unfold is_at_end. rewrite Hs, Hc. apply Nat.leb_refl.
  - split; [reflexivity|]. apply Hloop; lia.
Qed.

Lemma string_loop_plain (quote_char : ascii) (body : string) : forall lx pre tail acc k,
  stands_at lx pre (body ++ tail) ->
  all_chars (string_char quote_char) body = true ->
  match tail with EmptyString => True | String c _ => c = quote_char end ->
  (String.length body <= k)%nat ->
  exists lx',
    string_loop k quote_char lx acc = Ok (lx', (acc ++ body)%string) /\
    stands_at lx' (pre ++ body) tail.
Proof.
  induction body as [|c body IH]; intros lx pre tail acc k Hat Hbody Htail Hk.
  - rewrite !string_app_nil_r. exists lx. split; [|exact Hat].
    destruct k as [|k]; [reflexivity|]. cbn [string_loop].
    destruct tail as [|c rest].
    + destruct Hat as [Hs Hc]. unfold is_at_end. rewrite Hs, Hc, string_app_nil_r.
      rewrite Nat.leb_refl. by rewrite andb_false_r.
    + subst c. destruct (stands_at_peek lx pre _ rest Hat) as (-> & _).
      by rewrite Ascii.eqb_refl.
  - cbn [all_chars] in Hbody. apply andb_true_iff in Hbody as [Hc Hbody].
    unfold string_char in Hc. apply andb_true_iff in Hc as [Hq Hb].
    destruct k as [|k]; [simpl in Hk; lia|]. cbn [string_loop].
    change (String c body ++ tail)%string with (String c (body ++ tail)) in Hat.
    destruct (stands_at_peek lx pre c _ Hat) as (-> & -> & _ & _).
    rewrite Hq. apply negb_true_iff in Hb. rewrite Hb. cbn [negb andb].
    pose proof (stands_at_count_newline lx pre _ Hat) as Hat1.
    destruct (stands_at_peek _ pre c _ Hat1) as (_ & _ & -> & Hnext).
    destruct (IH _ (pre ++ String c "")%string tail (acc +:+ String c "")%string k Hnext Hbody
                Htail ltac:(simpl in Hk; lia)) as (lx' & Hloop & Hat').
    exists lx'. rewrite Hloop. rewrite !string_app_assoc in *. by split.
Qed.

Lemma is_at_end_stands_at lx pre tail :
  stands_at lx pre tail -> is_at_end lx = match tail with EmptyString => true | _ => false end.
Proof.
  intros [Hs Hc]. unfold is_at_end. rewrite Hs, Hc, string_length_app.
  destruct tail; simpl.
  - apply Nat.leb_le. lia.
  - apply Nat.leb_gt. lia.
Qed.

(** X26.  A string literal in single or double quotes whose text holds neither
    its quote nor a backslash: when the closing quote is there,
    [scan_token] adds one STRING token whose literal is the text between
    the quotes (the other quote may occur in it) and whose lexeme includes
    the quotes, and stops behind the closing quote; when the text runs to
    the end of the source, it raises "unterminated string literal" for the
    span from the opening quote to the end. *)
Theorem string_literal_scanned (quote_char : ascii) (pre body tail : string) (lx : Lexer) :
  quote_char = double_quote \/ quote_char = single_quote ->
  stands_at lx pre (String quote_char (body ++ tail)) ->
  start lx = current lx ->
  all_chars (string_char quote_char) body = true ->
  match tail with
  | EmptyString =>
      scan_token lx
      = Err (unterminated_string
               (mkSpan (lx_file_id lx) (Z.of_nat (String.length pre))
                  (Z.of_nat (String.length (source lx)))))
  | String c rest =>
      c = quote_char ->
      exists lx' tok,
        scan_token lx = Ok lx' /\
        stands_at lx' (pre ++ String quote_char (body ++ String quote_char "")) rest /\
        tokens lx' = tokens lx ++ [tok] /\
        type tok = STRING /\ tok_literal tok = Value (LStr body) /\
        lexeme tok = String quote_char (body ++ String quote_char "")
  end.
Proof.
  intros Hquote Hat Hstart Hbody.
  destruct (stands_at_peek lx pre _ _ Hat) as (_ & _ & Hadv & Hnext).
  assert (Hscan : scan_token lx = string_ quote_char (step lx)).
  { unfold scan_token. rewrite Hadv. by destruct Hquote as [-> | ->]. }
  rewrite Hscan. unfold string_.
  pose proof (moved_string_loop (String.length (source (step lx))) quote_char (step lx) "")
    as Hmoved.
  assert (Hlen : (String.length body <= String.length (source (step lx)))%nat).
  { destruct Hat as [Hs _]. simpl. rewrite Hs, string_length_app. simpl.
    rewrite string_length_app. lia. }
  destruct tail as [|c rest].
  - destruct (string_loop_plain quote_char body (step lx) _ "" "" _ Hnext Hbody I Hlen)
      as (lx1 & Hloop & Hat1).
    rewrite Hloop in Hmoved |- *. rewrite (is_at_end_stands_at _ _ _ Hat1).
    destruct Hmoved as (Hs & Hf & Hst & _). destruct Hat1 as [Hs1 Hc1]. simpl in *.
    rewrite Hf, Hst, Hc1, Hstart. destruct Hat as [Hs0 Hc0].
    rewrite Hc0. do 3 f_equal. rewrite Hs1 in Hs. rewrite <- Hs.
    by rewrite !string_app_nil_r.
  - intros ->.
    destruct (string_loop_plain quote_char body (step lx) _ (String quote_char rest) "" _
                Hnext Hbody eq_refl Hlen) as (lx1 & Hloop & Hat1).
    rewrite Hloop in Hmoved |- *. rewrite (is_at_end_stands_at _ _ _ Hat1).
    destruct (stands_at_peek lx1 _ _ _ Hat1) as (_ & _ & Hadv1 & Hat2).
    rewrite Hadv1. cbn [snd].
    destruct Hmoved as (Hs & Hf & Hst & Htok & _). simpl in Hs, Hf, Hst, Htok.
    assert (Hat3 : stands_at (step lx1)
                     (pre ++ String quote_char (body ++ String quote_char "")) rest).
    { rewrite !string_app_assoc in Hat2. simpl in Hat2.
      rewrite <- string_app_assoc in Hat2. simpl in Hat2. rewrite !string_app_assoc in Hat2.
      exact Hat2. }
    assert (Hstart1 : start (step lx1) = String.length pre).
    { simpl. rewrite Hst, Hstart. by destruct Hat as [_ ->]. }
    eexists _, _. split; [reflexivity|].
    split; [exact Hat3|]. unfold add_token. cbn [tokens type tok_literal lexeme step].
    split; [by rewrite Htok|]. split; [reflexivity|]. split; [reflexivity|].
    exact (lexeme_text_at _ _ _ _ Hat3 Hstart1).
Qed.

Lemma string_literal_scanned_witness :
  let lx := new_Lexer "'a b';" 1 in
  exists lx' tok,
    scan_token lx = Ok lx' /\
    tokens lx' = [tok] /\ type tok = STRING /\ tok_literal tok = Value (LStr "a b").
Proof.
  intros lx.
  destruct (string_literal_scanned single_quote "" "a b" "';" lx)
    as (lx' & tok & Hscan & _ & Htokens & Htype & Hliteral & _);
    [by right|by split|reflexivity|reflexivity|reflexivity|].
  exists lx', tok. by repeat split.
Defined.

Lemma advance_while_word (word : string) : forall lx pre rest k,
  stands_at lx pre (word ++ rest) ->
  all_chars word_char word = true ->
  ends_word rest = true ->
  (String.length word <= k)%nat ->
  stands_at (advance_while (fun c => isalnum c || Ascii.eqb c underscore) k lx)
            (pre ++ word) rest.
Proof.
  induction word as [|c word IH]; intros lx pre rest k Hat Hword Hrest Hk.
  - rewrite string_app_nil_r.
    assert (Hstop : advance_while (fun c => isalnum c || Ascii.eqb c underscore) k lx = lx).
    { destruct k as [|k]; [reflexivity|]. cbn [advance_while].
      destruct rest as [|c rest].
      - rewrite (stands_at_end lx pre Hat). reflexivity.
      - destruct (stands_at_peek lx pre c rest Hat) as (-> & _).
        cbn [ends_word] in Hrest. apply negb_true_iff in Hrest. unfold word_char in Hrest.
        by rewrite Hrest. }
    by rewrite Hstop.
  - cbn [all_chars] in Hword. apply andb_true_iff in Hword as [Hc Hword].
    destruct k as [|k]; [simpl in Hk; lia|]. cbn [advance_while].
    change (String c word ++ rest)%string with (String c (word ++ rest)) in Hat.
    destruct (stands_at_peek lx pre c _ Hat) as (-> & _ & -> & Hnext).
    unfold word_char in Hc. rewrite Hc. cbn [snd].
    pose proof (IH (step lx) (pre ++ String c "")%string rest k Hnext Hword Hrest
                  ltac:(simpl in Hk; lia)) as Hat'.
    by rewrite string_app_assoc in Hat'.
Qed.

Lemma scan_token_word_start (c : ascii) (lx : Lexer) :
  isalpha c || Ascii.eqb c underscore = true ->
  advance lx = (c, step lx) ->
  scan_token lx = Ok (identifier (step lx)).
Proof.
  intros Hc Hadv. unfold scan_token. rewrite Hadv.
  destruct c as [[] [] [] [] [] [] [] []]; try discriminate Hc; reflexivity.
Qed.

(** X27.  A word, a letter or underscore followed by letters, digits and
    underscores up to a character that is none of these, is scanned as one
    token with the word as lexeme: the token of the keyword when the word
    is one, IDENTIFIER otherwise; an identifier carries its name as
    literal, [true] and [false] their boolean, every other keyword
    nothing. *)
Theorem word_scanned (c : ascii) (word pre rest : string) (lx : Lexer) :
  stands_at lx pre (String c word ++ rest) ->
  start lx = current lx ->
  isalpha c || Ascii.eqb c underscore = true ->
  all_chars word_char word = true ->
  ends_word rest = true ->
  exists lx' tok,
    scan_token lx = Ok lx' /\
    stands_at lx' (pre ++ String c word) rest /\
    tokens lx' = tokens lx ++ [tok] /\
    lexeme tok = String c word /\
    type tok = keyword (String c word) /\
    tok_literal tok = word_literal (String c word).
Proof.
  intros Hat Hstart Hc Hword Hrest.
  change (String c word ++ rest)%string with (String c (word ++ rest)) in Hat.
  destruct (stands_at_peek lx pre _ _ Hat) as (_ & _ & Hadv & Hnext).
  rewrite (scan_token_word_start c lx Hc Hadv). unfold identifier.
  assert (Hlen : (String.length word <= String.length (source (step lx)))%nat).
  { destruct Hat as [Hs _]. simpl. rewrite Hs, string_length_app. simpl.
    rewrite string_length_app. lia. }
  pose proof (advance_while_word word (step lx) _ rest _ Hnext Hword Hrest Hlen) as Hat1.
  pose proof (moved_advance_while (fun c => isalnum c || Ascii.eqb c underscore)
                (String.length (source (step lx))) (step lx)) as Hmoved.
  set (lx1 := advance_while _ _ (step lx)) in *.
  rewrite string_app_assoc in Hat1. simpl in Hat1.
  destruct Hmoved as (Hs & Hf & Hst & Htok & _). simpl in Hs, Hf, Hst, Htok.
  assert (Hstart1 : start lx1 = String.length pre).
  { rewrite Hst, Hstart. by destruct Hat as [_ ->]. }
  pose proof (lexeme_text_at lx1 pre (String c word) rest Hat1 Hstart1) as Htext.
  rewrite Htext. unfold word_literal.
  assert (Hadd : forall token_type lit,
            exists lx' tok,
              @Ok exn Lexer (add_token token_type lit lx1) = Ok lx' /\
              stands_at lx' (pre ++ String c word) rest /\
              tokens lx' = tokens lx ++ [tok] /\
              lexeme tok = String c word /\ type tok = token_type /\ tok_literal tok = lit).
  { intros token_type lit. eexists _, _. split; [reflexivity|].
    split; [exact Hat1|]. unfold add_token. cbn [tokens type tok_literal lexeme].
    rewrite Htok, Htext. by repeat split. }
  destruct (keyword (String c word)); apply Hadd.
Qed.

Lemma word_scanned_witness :
  let lx := new_Lexer "while(" 1 in
  exists lx' tok,
    scan_token lx = Ok lx' /\
    tokens lx' = [tok] /\ lexeme tok = "while"%string /\ type tok = WHILE.
Proof.
  intros lx.
  destruct (word_scanned "w" "hile" "" "(" lx)
    as (lx' & tok & Hscan & _ & Htokens & Hlexeme & Htype & _);
    [by split|reflexivity|reflexivity|reflexivity|reflexivity|].
  exists lx', tok. by repeat split.
Defined.

Lemma stands_at_next_line lx pre rest : stands_at lx pre rest -> stands_at (next_line lx) pre rest.
Proof. unfold stands_at. simpl. tauto. Qed.

Lemma stands_at_eq lx pre pre' rest : stands_at lx pre rest -> pre = pre' -> stands_at lx pre' rest.
Proof. by intros H <-. Qed.

Lemma stands_at_two (lx : Lexer) (pre : string) (a b : ascii) (rest : string) :
  stands_at lx pre (String a (String b rest)) ->
  peek lx = a /\ peek_next lx = b /\ is_at_end lx = false /\
  stands_at (snd (advance (snd (advance lx)))) (pre ++ String a (String b "")) rest.
Proof.
  intros Hat. pose proof (stands_at_peek_next lx pre a _ Hat) as Hnext.
  destruct (stands_at_peek lx pre a _ Hat) as (Hpeek & Hend & Hadv & Hat1).
  destruct (stands_at_peek _ _ b _ Hat1) as (_ & _ & Hadv1 & Hat2).
  rewrite Hadv. cbn [snd]. rewrite Hadv1. cbn [snd].
  rewrite string_app_assoc in Hat2.
  split; [exact Hpeek|]. split; [exact Hnext|]. split; [exact Hend|exact Hat2].
Qed.

Lemma comment_loop_text (text : string) :
  comment_text text ->
  forall lx pre tail nesting_level,
    0 < nesting_level ->
    stands_at lx pre (text ++ tail) ->
    exists (j : nat) lx',
      (j <= String.length text)%nat /\
      stands_at lx' (pre ++ text) tail /\
      forall k, comment_loop (j + k) nesting_level lx = comment_loop k nesting_level lx'.
Proof.
  induction 1 as [|c text Hc Htext IH|inner text Hinner IHinner Htext IHtext];
    intros lx pre tail nesting_level Hpos Hat.
  - exists 0%nat, lx. rewrite string_app_nil_r. split; [reflexivity|].
    split; [exact Hat|reflexivity].
  - change (String c text ++ tail)%string with (String c (text ++ tail)) in Hat.
    destruct (stands_at_peek lx pre c _ Hat) as (Hpeek & Hend & Hadv & Hat1).
    unfold comment_char in Hc. apply andb_true_iff in Hc as [Hstar Hslash].
    apply negb_true_iff in Hstar, Hslash.
    assert (Hat2 : stands_at (snd (advance (next_line lx))) (pre ++ String c "") (text ++ tail)).
    { destruct (stands_at_peek _ pre c _ (stands_at_next_line _ _ _ Hat)) as (_ & _ & -> & H).
      exact H. }
    assert (Hround : exists lx1,
              stands_at lx1 (pre ++ String c "") (text ++ tail) /\
              forall k, comment_loop (S k) nesting_level lx = comment_loop k nesting_level lx1).
    { destruct (Ascii.eqb c newline) eqn:Hnl.
      - eexists. split; [exact Hat2|]. intros k. cbn [comment_loop].
        rewrite Hend, Hpeek, Hslash, Hstar, Hnl.
        destruct (Z.ltb_spec 0 nesting_level); [reflexivity|lia].
      - eexists. split; [|intros k; cbn [comment_loop];
          rewrite Hend, Hpeek, Hslash, Hstar, Hnl;
          destruct (Z.ltb_spec 0 nesting_level); [reflexivity|lia]].
        rewrite Hadv. exact Hat1. }
    destruct Hround as (lx1 & Hat3 & Hround).
    destruct (IH lx1 _ tail nesting_level Hpos Hat3) as (j & lx' & Hj & Hat' & Hloop).
    exists (S j), lx'. split; [simpl; lia|]. rewrite string_app_assoc in Hat'.
    split; [exact Hat'|]. intros k. cbn [Nat.add]. by rewrite Hround, Hloop.
  - assert (Hshape : (("/*" ++ inner ++ "*/" ++ text) ++ tail)%string
                     = String "/" (String "*" (inner ++ String "*" (String "/" (text ++ tail))))).
    { simpl. by rewrite !string_app_assoc. }
    rewrite Hshape in Hat.
    destruct (stands_at_two lx pre _ _ _ Hat) as (Hpeek & Hnext & Hend & Hat1).
    destruct (IHinner _ _ _ (nesting_level + 1) ltac:(lia) Hat1)
      as (j1 & lx1 & Hj1 & Hat2 & Hloop1).
    destruct (stands_at_two lx1 _ _ _ _ Hat2) as (Hpeek1 & Hnext1 & Hend1 & Hat3).
    destruct (IHtext _ _ _ nesting_level Hpos Hat3) as (j2 & lx2 & Hj2 & Hat4 & Hloop2).
    exists (S (j1 + S j2)), lx2. split.
    { simpl. rewrite !string_length_app. simpl. lia. }
    split.
    { eapply stands_at_eq; [exact Hat4|]. rewrite ?string_app_assoc. reflexivity. }
    intros k. cbn [Nat.add comment_loop]. rewrite Hend, Hpeek, Hnext.
    destruct (Z.ltb_spec 0 nesting_level); [|lia]. cbn [andb Ascii.eqb Bool.eqb].
    rewrite <- Nat.add_assoc, Hloop1. cbn [Nat.add comment_loop].
    rewrite Hend1, Hpeek1, Hnext1.
    destruct (Z.ltb_spec 0 (nesting_level + 1)); [|lia]. cbn [andb Ascii.eqb Bool.eqb].
    replace (nesting_level + 1 - 1) with nesting_level by lia. by rewrite Hloop2.
Qed.

Lemma match_stands_at (lx : Lexer) (pre : string) (c expected : ascii) (rest : string) :
  stands_at lx pre (String c rest) ->
  match_ expected lx = if Ascii.eqb c expected then (true, step lx) else (false, lx).
Proof.
  intros [Hs Hc]. unfold match_. by rewrite Hs, Hc, string_get_app.
Qed.

(** X28.  Multi-line comments nest: [scan_token] at [/*], followed by a comment
    text in which every inner [/*] has its [*/], and then by [*/], adds no
    token and stops behind that [*/]; when the source ends after the
    comment text instead, it raises "Unterminated multi-line comment" for
    the span from the opening [/*] to the end. *)
Theorem nested_comment_scanned (pre text tail : string) (lx : Lexer) :
  stands_at lx pre ("/*" ++ text ++ tail) ->
  start lx = current lx ->
  comment_text text ->
  (forall rest, tail = ("*/" ++ rest)%string ->
     exists lx',
       scan_token lx = Ok lx' /\ tokens lx' = tokens lx /\
       stands_at lx' (pre ++ "/*" ++ text ++ "*/") rest) /\
  (tail = ""%string ->
     scan_token lx
     = Err (from_simple LexError "LAP2005" "Unterminated multi-line comment"
              (mkSpan (lx_file_id lx) (Z.of_nat (String.length pre))
                 (Z.of_nat (String.length (source lx)))))).
Proof.
  intros Hat Hstart Htext.
  change ("/*" ++ text ++ tail)%string with (String "/" (String "*" (text ++ tail))) in Hat.
  destruct (stands_at_peek lx pre _ _ Hat) as (_ & _ & Hadv & Hat1).
  destruct (stands_at_peek _ _ _ _ Hat1) as (_ & _ & _ & Hat2).
  rewrite string_app_assoc in Hat2. simpl in Hat2.
  assert (Hscan : scan_token lx = multi_line_comment (step (step lx))).
  { unfold scan_token. rewrite Hadv. cbn [Ascii.eqb Bool.eqb].
    rewrite (match_stands_at _ _ _ "/" _ Hat1). cbn [Ascii.eqb Bool.eqb].
    by rewrite (match_stands_at _ _ _ "*" _ Hat1). }
  rewrite Hscan. unfold multi_line_comment.
  destruct (comment_loop_text text Htext (step (step lx)) _ tail 1 ltac:(lia) Hat2)
    as (j & lx1 & Hj & Hat3 & Hloop).
  pose proof (moved_comment_loop (String.length (source (step (step lx)))) 1 (step (step lx)))
    as Hmoved.
  assert (Hlen : String.length (source lx)
                 = (String.length pre + 2 + String.length text + String.length tail)%nat).
  { destruct Hat as [-> _]. rewrite string_length_app. simpl. rewrite string_length_app. lia. }
  split.
  - intros rest ->. simpl in Hlen.
    replace (String.length (source (step (step lx))))
      with (j + S (String.length (source lx) - S j))%nat in * by (simpl; lia).
    rewrite Hloop in Hmoved |- *.
    change (text ++ "*/" ++ rest)%string with (text ++ String "*" (String "/" rest))%string
      in Hat3.
    destruct (stands_at_two lx1 _ _ _ _ Hat3) as (Hpeek & Hnext & Hend & Hat4).
    cbn [comment_loop] in Hmoved |- *. rewrite Hend, Hpeek, Hnext in Hmoved |- *.
    cbn [Z.ltb Z.compare andb negb Ascii.eqb Bool.eqb] in Hmoved |- *.
    assert (Hstop : forall k lx2, comment_loop k (1 - 1) lx2 = (lx2, 0)).
    { intros k lx2. by destruct k. }
    rewrite Hstop in Hmoved |- *. cbn [fst] in Hmoved. cbn [Z.ltb Z.compare].
    eexists. split; [reflexivity|]. split; [apply Hmoved|].
    eapply stands_at_eq; [exact Hat4|]. rewrite ?string_app_assoc. reflexivity.
  - intros ->. rewrite string_app_nil_r in *.
    replace (String.length (source (step (step lx))))
      with (j + (String.length (source lx) - j))%nat in * by (simpl; lia).
    rewrite Hloop in Hmoved |- *.
    assert (Hstop : forall k, comment_loop k 1 lx1 = (lx1, 1)).
    { intros k. destruct k; [reflexivity|]. cbn [comment_loop].
      rewrite (is_at_end_stands_at _ _ _ Hat3). reflexivity. }
    rewrite Hstop in Hmoved |- *. cbn [fst] in Hmoved. cbn [Z.ltb Z.compare].
    destruct Hmoved as (Hs & Hf & Hst & _). simpl in Hs, Hf, Hst.
    unfold from_simple, create_span. rewrite Hf, Hst, Hstart.
    destruct Hat as [_ ->]. destruct Hat3 as [Hs3 ->].
    rewrite <- Hs, Hs3. by rewrite string_app_nil_r.
Qed.

Lemma nested_comment_scanned_witness :
  let lx := new_Lexer "/* a /* b */ c */x" 1 in
  exists lx',
    scan_token lx = Ok lx' /\ tokens lx' = [] /\ current lx' = 17%nat.
Proof.
  intros lx.
  assert (Htext : comment_text " a /* b */ c ").
  { do 3 (apply comment_cons; [reflexivity|]).
    apply (comment_nested " b " " c ");
      repeat (apply comment_cons; [reflexivity|]); apply comment_empty. }
  destruct (nested_comment_scanned "" " a /* b */ c " "*/x" lx) as [Hclosed _];
    [by split|reflexivity|exact Htext|].
  destruct (Hclosed "x"%string eq_refl) as (lx' & Hscan & Htokens & _ & Hcurrent).
  exists lx'. by repeat split.
Defined.

End ScannerFacts.

(** ** errors.py: the primary label of a diagnostic *)

Section DiagnosticFacts.
Import SourceMap.
Import Diagnostics.

Lemma primary_at_insert_ne (store : label_store) (l l' : nat) (label : LabeledSpan) :
  l <> l' -> primary_at (<[l := label]> store) l' = primary_at store l'.
Proof. intros Hne. unfold primary_at. by rewrite list_lookup_insert_ne. Qed.

Lemma primary_count_cons (store : label_store) (x : nat) (rest : list nat) :
  primary_count store (x :: rest)
  = ((if primary_at store x then 1 else 0) + primary_count store rest)%nat.
Proof. unfold primary_count. simpl. by destruct (primary_at store x). Qed.

Lemma primary_count_insert_fresh (store : label_store) (labels : list nat) (l : nat)
    (label : LabeledSpan) :
  l ∉ labels -> primary_count (<[l := label]> store) labels = primary_count store labels.
Proof.
  induction labels as [|x rest IH]; intros Hl; [reflexivity|].
  apply not_elem_of_cons in Hl as [Hne Hl].
  rewrite !primary_count_cons, primary_at_insert_ne by done. by rewrite IH.
Qed.

Lemma primary_span_insert_fresh (store : label_store) (labels : list nat) (l : nat)
    (label : LabeledSpan) :
  l ∉ labels -> primary_span (<[l := label]> store) labels = primary_span store labels.
Proof.
  induction labels as [|x rest IH]; intros Hl; [reflexivity|].
  apply not_elem_of_cons in Hl as [Hne Hl]. simpl.
  rewrite list_lookup_insert_ne by done.
  destruct (store !! x) as [lab|]; [|reflexivity]. by rewrite IH.
Qed.

Lemma span_at_insert_mark (store : label_store) (l l' : nat) (label : LabeledSpan)
    (primary : bool) (text : string) :
  store !! l = Some label ->
  span_at (<[l := mark primary text label]> store) l' = span_at store l'.
Proof.
  intros Hl. unfold span_at. destruct (decide (l = l')) as [<-|Hne].
  - rewrite list_lookup_insert_eq by (eapply lookup_lt_Some; eauto). by rewrite Hl.
  - by rewrite list_lookup_insert_ne.
Qed.

Lemma keep_first_primary_other (labels : list nat) : forall store found l,
  l ∉ labels -> keep_first_primary store labels found !! l = store !! l.
Proof.
  induction labels as [|x rest IH]; intros store found l Hl; [reflexivity|].
  apply not_elem_of_cons in Hl as [Hne Hl]. simpl.
  destruct (store !! x) as [label|]; [|reflexivity].
  destruct (is_primary label && found).
  - rewrite IH by done. by rewrite list_lookup_insert_ne.
  - destruct (is_primary label); by apply IH.
Qed.

Lemma keep_first_primary_spans (labels : list nat) : forall store found l,
  span_at (keep_first_primary store labels found) l = span_at store l.
Proof.
  induction labels as [|x rest IH]; intros store found l; [reflexivity|]. simpl.
  destruct (store !! x) as [label|] eqn:Hx; [|reflexivity].
  destruct (is_primary label && found).
  - rewrite IH. by apply span_at_insert_mark.
  - destruct (is_primary label); apply IH.
Qed.

(** With the first primary label already met, the loop takes the primary
    mark from every later label. *)
Lemma keep_first_primary_found (labels : list nat) : forall store,
  NoDup labels ->
  (forall l, l ∈ labels -> is_Some (store !! l)) ->
  primary_count (keep_first_primary store labels true) labels = 0%nat /\
  primary_span (keep_first_primary store labels true) labels = None.
Proof.
  induction labels as [|x rest IH]; intros store Hnd Hin; [by split|].
  apply NoDup_cons in Hnd as [Hx Hnd]. simpl.
  destruct (Hin x ltac:(left)) as [label Hlabel]. rewrite Hlabel.
  assert (Hlt : (x < length store)%nat) by (eapply lookup_lt_Some; eauto).
  destruct (is_primary label) eqn:Hp; cbn [andb].
  - set (store1 := <[x := mark false "secondary" label]> store).
    destruct (IH store1 Hnd) as (Hcount & Hspan).
    { intros l Hl. unfold store1. destruct (decide (x = l)) as [<-|Hne].
      - by rewrite list_lookup_insert_eq.
      - rewrite list_lookup_insert_ne by done. apply Hin. by right. }
    assert (Hx1 : keep_first_primary store1 rest true !! x
                  = Some (mark false "secondary" label)).
    { rewrite keep_first_primary_other by done. unfold store1.
      by rewrite list_lookup_insert_eq. }
    split.
    + rewrite primary_count_cons. unfold primary_at at 1. by rewrite Hx1, Hcount.
    + by rewrite Hx1.
  - destruct (IH store Hnd) as (Hcount & Hspan).
    { intros l Hl. apply Hin. by right. }
    assert (Hx1 : keep_first_primary store rest true !! x = Some label)
      by (by rewrite keep_first_primary_other).
    split.
    + rewrite primary_count_cons. unfold primary_at at 1. by rewrite Hx1, Hp, Hcount.
    + by rewrite Hx1, Hp.
Qed.

Lemma keep_first_primary_first (labels : list nat) : forall store,
  NoDup labels ->
  (forall l, l ∈ labels -> is_Some (store !! l)) ->
  (0 < primary_count store labels)%nat ->
  primary_count (keep_first_primary store labels false) labels = 1%nat /\
  primary_span (keep_first_primary store labels false) labels = primary_span store labels.
Proof.
  induction labels as [|x rest IH]; intros store Hnd Hin Hpos.
  - unfold primary_count in Hpos. simpl in Hpos. lia.
  - apply NoDup_cons in Hnd as [Hx Hnd]. rewrite primary_count_cons in Hpos.
    unfold primary_at at 1 in Hpos. cbn [keep_first_primary primary_span].
    destruct (Hin x ltac:(left)) as [label Hlabel]. rewrite Hlabel.
    destruct (is_primary label) eqn:Hp; cbn [andb].
    + destruct (keep_first_primary_found rest store Hnd) as (Hcount & _).
      { intros l Hl. apply Hin. by right. }
      assert (Hx1 : keep_first_primary store rest true !! x = Some label)
        by (by rewrite keep_first_primary_other).
      split.
      * rewrite primary_count_cons. unfold primary_at at 1. by rewrite Hx1, Hp, Hcount.
      * by rewrite Hx1, Hp.
    + assert (Hpos' : (0 < primary_count store rest)%nat)
        by (rewrite Hlabel, Hp in Hpos; exact Hpos).
      destruct (IH store Hnd) as (Hcount & Hspan); [|exact Hpos'|].
      { intros l Hl. apply Hin. by right. }
      assert (Hx1 : keep_first_primary store rest false !! x = Some label)
        by (by rewrite keep_first_primary_other).
      split.
      * rewrite primary_count_cons. unfold primary_at at 1. by rewrite Hx1, Hp, Hcount.
      * by rewrite Hx1, Hp.
Qed.

(** X29.  [Diagnostic.__post_init__] leaves a diagnostic with labels exactly
    one primary label, provided its labels are distinct objects: with no
    primary label the first label becomes the primary one, with several
    the first primary label stays and the later ones become secondary.
    No span changes, labels outside the diagnostic are untouched, and
    [primary_span] is the span of that one label. *)
Theorem diagnostic_one_primary_label (store : label_store) (labels : list nat) :
  NoDup labels ->
  (forall l, l ∈ labels -> is_Some (store !! l)) ->
  let store' := Diagnostic_post_init store labels in
  (forall l, span_at store' l = span_at store l) /\
  (forall l, l ∉ labels -> store' !! l = store !! l) /\
  match labels with
  | [] => store' = store /\ primary_span store' labels = None
  | first :: _ =>
      primary_count store' labels = 1%nat /\
      primary_span store' labels
      = (if (primary_count store labels =? 0)%nat then span_at store first
         else primary_span store labels)
  end.
Proof.
  intros Hnd Hin store'. unfold store', Diagnostic_post_init.
  destruct labels as [|first rest].
  - by repeat split.
  - destruct (Hin first ltac:(left)) as [label Hlabel].
    assert (Hlt : (first < length store)%nat) by (eapply lookup_lt_Some; eauto).
    destruct (Nat.eqb_spec (primary_count store (first :: rest)) 0) as [Hzero|Hpos];
      cbn [length Nat.eqb negb andb].
    + rewrite Hlabel. apply NoDup_cons in Hnd as [Hfirst Hnd].
      split; [intros l; by apply span_at_insert_mark|].
      split; [intros l [Hne _]%not_elem_of_cons; by rewrite list_lookup_insert_ne|].
      split.
      * rewrite primary_count_cons in Hzero |- *. unfold primary_at at 1.
        rewrite list_lookup_insert_eq by done. cbn [mark is_primary].
        rewrite primary_count_insert_fresh by done. lia.
      * simpl. rewrite list_lookup_insert_eq by done. simpl.
        unfold span_at. by rewrite Hlabel.
    + destruct (Nat.ltb_spec 1 (primary_count store (first :: rest))) as [Hmany|Hone].
      * split; [intros l; apply keep_first_primary_spans|].
        split; [intros l Hl; by apply keep_first_primary_other|].
        apply keep_first_primary_first; [done|done|lia].
      * split; [done|]. split; [done|]. split; [lia|done].
Qed.

Lemma diagnostic_one_primary_label_witness :
  let store := [new_LabeledSpan (mkSpan 1 0 1) None true;
                new_LabeledSpan (mkSpan 1 2 3) None false;
                new_LabeledSpan (mkSpan 1 4 5) None true] in
  let labels := [2%nat; 0%nat] in
  let store' := Diagnostic_post_init store labels in
  primary_count store labels = 2%nat /\
  primary_count store' labels = 1%nat /\
  primary_span store' labels = Some (mkSpan 1 4 5).
Proof.
  intros store labels store'.
  assert (Hnd : NoDup labels).
  { apply NoDup_cons. split; [|apply NoDup_singleton].
    intros H%list_elem_of_singleton. discriminate H. }
  assert (Hin : forall l, l ∈ labels -> is_Some (store !! l)).
  { intros l Hl. apply elem_of_cons in Hl as [->|Hl]; [by eexists|].
    apply list_elem_of_singleton in Hl as ->. by eexists. }
  destruct (diagnostic_one_primary_label store labels Hnd Hin) as (_ & _ & Hcount & Hspan).
  split; [reflexivity|]. split; [exact Hcount|exact Hspan].
Defined.

(** A label listed twice: [__post_init__] finds no primary label, marks
    the first, and the diagnostic then counts two primary labels. *)
Lemma shared_label_counts_twice :
  primary_count shared_label_store shared_labels = 0%nat /\
  primary_count (Diagnostic_post_init shared_label_store shared_labels) shared_labels = 2%nat.
Proof. split; reflexivity. Qed.

End DiagnosticFacts.
